(* ===== verification/_CoqProject ===== *)
-Q . S2P
Prelude.v
GoStrings.v
GoPath.v
GoFloat.v
GoTime.v
GoNet.v
Value.v
Types.v
Pattern.v
PathMatcher.v
Traversal.v
Env.v
Demo.v
TimeContext.v
KVContext.v
Context.v
Conditions.v
Evaluator.v
Random.v
Template.v
Throttle.v
Index.v
Merge.v
Hmac.v
Expand.v
Actions.v
Processor.v
Engine.v
Loader.v
Coalescer.v
StreamResolver.v
Net.v
Watch.v
HttpClient.v
Publisher.v
Site.v
Subscription.v
Responder.v
Gateway.v
Scheduler.v
Router.v
Broker.v
RuleManager.v
Bucket.v
Config.v
Server.v
KVCache.v
Connection.v
App.v
Lifecycle.v
Assembly.v
Metrics.v
Callbacks.v
Account.v
KVStart.v
AuthConfig.v
AuthManager.v
Discovery.v
Tester.v
TestScaffold.v
Browser.v
RuleCli.v
Prompt.v
RuleBuilder.v
NewRule.v
