(* ===== verification/Prelude.v ===== *)
(** * rule-router: a verification library

    rule-router moves messages between NATS and HTTP under rules.  A rule has a
    trigger (a NATS subject pattern, an HTTP path, a schedule), conditions on the
    message and its surroundings, and one action (publish, call, respond) whose
    subject, URL, headers and payload are templates.  Messages reach the engine
    through subscriptions, the HTTP gateway or the scheduler; the engine finds the
    rules that the message triggers, evaluates them in order and hands the actions
    over to the site that asked, at once or, for a trailing throttle, in batches
    that the site's coalescer holds back.

    ** Files

    - Prelude: results, automation, list and integer lemmas.
    - GoStrings, GoFloat, GoTime, GoNet, Value: what the code uses of Go's
      strings, strconv, float64, time, net/url and base64, and decoded JSON.
    - Types (internal/rule/types.go, operators.go): rules, triggers, actions,
      conditions, outcomes and transport filters, as records and inductive types.
    - Pattern (pattern.go) and PathMatcher (path_matcher.go): subject and path
      patterns, compiled and matched; the relation [token_match] is what they
      mean.
    - Traversal (json_traversal.go): paths into decoded JSON.
    - Env: what the engine asks of code outside the repository (decoders, key
      value store, nkeys, clock, random numbers) as one class, the state it
      threads, its monad, and the judgement [returns]: from every state that
      satisfies the invariant of a context, a computation gives one value and
      keeps the invariant.  Demo is a concrete instance for the witnesses.
    - TimeContext (time_context.go), KVContext (kv_context.go, kv_local_cache.go),
      Context (context.go, signature_verify.go): the variables a rule may use.
      [ResolveValue] is shown to compute [denote_variable], a pure function of a
      snapshot of the world: while the store gives the snapshot and the caches
      agree with it, filling them and the lazy signature check change no value.
    - Conditions (condition_resolver.go), Evaluator (evaluator.go), Random
      (random.go), Template (template.go): conditions and templates.
      [Evaluate] computes [denote], and so do prepared conditions whose operands
      have no white space around their braces.  [braces] parses any text into
      bytes and balanced braces, and [Execute] renders that structure.
    - Throttle (throttle.go), Index (index.go), Merge, Actions and Processor
      (processor.go): admission, lookup, payloads, forEach, and the engine:
      loading rules, replacing the rule set of the key value bucket, and the
      evaluation of NATS, HTTP and schedule triggers.  Engine gives rules a
      meaning of their own and shows that the engine computes it.
    - Coalescer (internal/deferred/coalescer.go): trailing throttles, as critical
      sections composed by a step relation with timers, submissions and shutdown.
    - Expand and Loader (loader.go), Hmac (hmac.go): rules from files, what they
      take from the environment, their validation; the signatures of webhooks.
    - StreamResolver (internal/broker/stream_resolver.go, action_streams.go):
      which stream serves a subject.  [SortSlice] is the interface it sorts with.
    - Net: what the sites ask of the network (HTTP transport, NATS connection,
      contexts, timers) as one class, the monad that threads its world and logs
      what leaves the process, errors as trees, and the judgement [yields]: from
      every state a computation appends events that satisfy a relation with its
      result.  Every site below is proved in it.
    - HttpClient (internal/httpclient/httpclient.go), Publisher, Subscription and
      Responder (publisher.go, subscription.go, responder.go of internal/broker):
      requests and publishes with their retries, messages of consumers and how
      they are settled, requests of core subscriptions and their replies.  Site
      holds what they share: the engine, the coalescer and the network together,
      and the interface [HTTPActionExecutor] between a site and the client.
    - Gateway (internal/gateway/server.go): the handler, the queue and its
      workers, synchronous answers, the bridge, the shutdown.  [NATSPublisher] is
      its interface to the publisher.
    - Scheduler (internal/app/scheduler.go): jobs and their runs; [Cron] is the
      engine that accepts their expressions.
    - GoPath and Server (gateway/server.go, app/gateway.go): the routes in front of
      the handler, the pool of workers and the shutdown, in every interleaving.
    - Router: all the sites over one engine, and what an input makes leave.
    - Broker, KVCache and Connection (internal/broker/nats.go): consumers and
      subscriptions of subjects, the cached buckets, connecting and closing.
    - Watch: the loop that makes a lost watcher again, used by KVCache and by
      RuleManager (internal/broker/rule_kv_manager.go), which keeps the engine,
      the subscriptions, the jobs and the responder in step with a bucket of
      rules.  [consumeUpdates] refines a map from keys to rules; Bucket gives the
      engine's answers a meaning while that map changes.
    - Config (config/config.go): defaults, checks, loading; [Viper] merges the
      sources.
    - App (internal/app/router.go, gateway.go, composite.go) and Lifecycle
      (internal/lifecycle/lifecycle.go, builder.go, cmd/rule-router/main.go): the
      start of the features, the run and reload loop, the check of a reload.
    - Assembly (internal/app/builder.go) and KVStart (createApp of
      cmd/rule-router/main.go with rules from a bucket): what the features share,
      built and closed, and the start as an interleaving of the main goroutine
      with the watcher of the bucket.
    - Metrics (internal/metrics): the collectors and the calls that move them;
      [Prometheus] is the interface of their library.  Callbacks (nats.go) and
      Account (processor.go): the calls of the client's callbacks and of an
      evaluation.
    - Discovery (internal/natsservice, broker/service.go): the identity both
      programs register, with the expression that versions must match.
    - AuthConfig and AuthManager (internal/authmgr, cmd/nats-auth-manager), a
      separate program: its configuration, the providers of tokens, the loops that
      refresh them into a bucket, and their interleavings.
    - Tester and TestScaffold (internal/tester), RuleCli (cmd/rule-cli): test suites
      beside rule files, run in order or by workers (a step relation), and made
      for a rule; the commands, related to what the router does with the same
      files and buckets.
    - Browser (cmd/wasm/main.go and the files of internal/rule for that build):
      the engine without a network, and the tester of the web page.
    - Prompt, RuleBuilder (internal/cli/builder.go) and NewRule
      (cmd/rule-cli/cmd/new.go): the dialogue that makes a rule.  [Prompter] is
      the interface of the questions, with the laws of the terminal; a rule is
      [dictates]d by the lines that answer them.

    ** What the theorems show

    The whole engine: the outcome of a message is the meaning of the rules it
    triggers, whatever was processed before, for rules as a file gives them, with
    plain templates (no function calls, names nested at most ten deep) and
    without throttles that drop (the others have theorems of their own), over a
    key value store that does not change and caches that agree with it; with
    rules from a bucket, whatever the updates before, it is the meaning of the
    rules the bucket holds, under the same conditions.  Changing stores are the
    subject of KVCache, which also shows where a cache is behind its bucket.
    Functional: pattern and path matching, path traversal, condition evaluation,
    template expansion, array operators, leading throttles, index lookup, merge,
    stream selection and rule loading do what their specifications say on every
    branch.  Equivalences: prepared and unprepared conditions, tokenised and plain
    lookup, cached and uncached reads, the resolver's and the engine's patterns.
    Round trips: path segments, key value fields.  Invariants: forEach gives, for
    every element in its place and in order, the action its template makes of that
    element, or records why there is none; the numbering of hot-reloaded rules is injective and
    stable, every JetStream or core subscription sees exactly its rules, the
    outcome of an evaluation defers exactly the batches that name a throttle,
    and the log of a coalescer is right in every interleaving.  Bounds and
    termination: template recursion, throttle memory, random ranges.

    All sites together: under the conditions of the whole engine, whatever inputs
    were handled before, in any order, an input makes exactly the meaning of its rules leave, by the publisher, the coalescer and
    the answer of its site.
    Sites: a message is settled once, by a verdict on the results of all its
    actions; a request of a core subscription is answered by one reply or none;
    a publish or an HTTP action makes at most its attempts and says why it
    stopped; a schedule run carries out its actions.  A webhook is accepted exactly
    when its path and method have rules and every rule that asks for a signature
    is given a valid one, by the secret its reference resolves to and the clock at
    that check; each refusal has its cause.  A synchronous request gets one reply, or none when
    the client left or its queue was closed.  The gateway's workers take every accepted webhook in order and, unless the grace
    period of a shutdown ends first, process each before the last batch leaves.  Composition: after any
    sequence of updates of the rules' bucket the engine holds exactly the rules of
    the bucket, and jobs and core subscriptions follow; a cached key has the value
    its watcher last delivered, or what a reader has loaded since, in every
    interleaving; a configuration that loads has what the parts it starts look
    for, with the gaps its examples show; a broker made of it is connected with
    the one credential and the options the configuration gives; a start makes a
    consumer, on the stream and with the filter, for every subject of the rules
    and for no other; reloads run one application
    at a time; each loop of the authentication manager waits its interval or its
    retry delay, and stores only the token that its provider's reply held, under its key.  With rules from a bucket every
    interleaving of a start loads the rules of the updates it has handled, ends,
    and, when no update falls between a look at the rules and its use, leaves
    jobs and core subscriptions in step.  The tools: every test file is
    reported once, with the outcome of its own case and suite, whatever the workers do; lint passes what a start loads; what a
    push writes is what the rule manager accepts; every dialogue of the builder
    ends, and what can be dictated to it are the rules of a fixed shape; the web
    page, where the environment is empty, shows the actions that a quick check
    shows when no variable the file refers to is set.  What is counted: an
    evaluation's calls account for its actions and its elements, the gauge of the
    connection follows its state, and no call panics.

    ** Bounds and fuel

    [matchRecursive] has as fuel one more than the pattern's tokens, and advances
    the pattern at each call.  Templates expand to [max_levels] levels; a level
    below that makes the error the code returns.  All other recursion is on the
    data, on the attempts that are left, or on what the environment does (the
    events of a run, the attempts to make a watcher again); the first connection
    has as fuel its ten attempts, which are shown to be enough.  [int] and
    [int64] are [Z] with [wrap64] where arithmetic can leave the
    range; float64 is modelled by exact values with rounding in GoFloat.

    ** What is not modelled

    Log lines and metrics decide nothing: the calls of the metrics are modelled on
    their own in Metrics, those of an evaluation in Account, which erases to
    Processor, those of callbacks in Callbacks and those of token attempts in
    Discovery; the operations of the other components make none
    (the count of signature checks apart).  Error texts are constructors of a type per component.
    Locks are not modelled: an operation that holds one is one function, and the
    interleavings of the coalescer, the gateway's queue and the watchers are
    explicit.  The order in which Go visits a map is the order of the list a
    caller passes, [range_order], of which only that it permutes is known, or a
    hypothesis-free permutation in the statement.  A panic is modelled where a
    send on a closed queue or the ticker of a refresh loop makes one, and nowhere
    else.  Waits for goroutines to
    end are not modelled.  Case folding is that of ASCII, and the conversion of
    floats to integers that of amd64.  The time context of a message is never
    nil, as every caller sets it.  Left out: loggers,
    and what the tools print. *)

From stdpp Require Export base tactics list list_numbers option strings gmap fin_maps sorting.
From Stdlib Require Export ZArith Lia.

(** ** Fallible computations

    A Go function that returns [(T, error)] is modelled by [result E T]: [Err e]
    when the error is not nil (the value is then ignored by every caller the
    library models), [Ok v] otherwise.  Error texts are modelled by the
    constructors of an error type per component, with the data the text shows. *)

Inductive result (E A : Type) : Type :=
| Ok (a : A)
| Err (e : E).
Arguments Ok {E A} a.
Arguments Err {E A} e.

#[export] Instance result_ret E : MRet (result E) := λ A a, Ok a.
#[export] Instance result_bind E : MBind (result E) := λ A B f m,
  match m with Ok a => f a | Err e => Err e end.
#[export] Instance result_fmap E : FMap (result E) := λ A B f m,
  match m with Ok a => Ok (f a) | Err e => Err e end.

Definition is_ok {E A} (r : result E A) : bool :=
  match r with Ok _ => true | Err _ => false end.

Definition ok_or_none {E A} (r : result E A) : option A :=
  match r with Ok a => Some a | Err _ => None end.

(** [fmt.Errorf("...: %w", err)]: the same failure under another name. *)
Definition map_err {E F A} (f : E → F) (r : result E A) : result F A :=
  match r with Ok a => Ok a | Err e => Err (f e) end.

Definition of_option {E A} (e : E) (o : option A) : result E A :=
  match o with Some a => Ok a | None => Err e end.

(** A guard that returns early with an error. *)
Definition guard_err {E} (bad : bool) (e : E) : result E unit :=
  if bad then Err e else Ok tt.

(** The first error of a loop that validates a list with positions. *)
Fixpoint forM_from {E A} (i : nat) (f : nat → A → result E unit) (l : list A) : result E unit :=
  match l with
  | [] => Ok tt
  | a :: l' => _ ← f i a; forM_from (S i) f l'
  end.
Definition forM_ {E A} (f : nat → A → result E unit) (l : list A) : result E unit :=
  forM_from 0 f l.

(** ** Automation *)

Create HintDb rr discriminated.
Create Rewrite HintDb rr.

(** Case analysis on every [if]/[match] of the goal and the context. *)
Ltac cases := repeat (case_match; simplify_eq/=; try done).

Ltac rr := autorewrite with rr in *; eauto with rr.

(** ** Lemmas on results *)

Section result.
Context {E : Type}.

Lemma bind_Ok {A B} (m : result E A) (f : A → result E B) b :
  m ≫= f = Ok b ↔ ∃ a, m = Ok a ∧ f a = Ok b.
Proof. destruct m; simpl; naive_solver. Qed.

Lemma bind_Err {A B} (m : result E A) (f : A → result E B) e :
  m ≫= f = Err e ↔ m = Err e ∨ ∃ a, m = Ok a ∧ f a = Err e.
Proof. destruct m; simpl; naive_solver. Qed.

Lemma map_err_Ok {A} {F} (f : E → F) (m : result E A) a : map_err f m = Ok a ↔ m = Ok a.
Proof. destruct m; simpl; naive_solver. Qed.

Lemma guard_err_Ok (b : bool) (e : E) u : guard_err b e = Ok u ↔ b = false.
Proof. destruct b, u; simpl; naive_solver. Qed.

Lemma ok_or_none_Some {A} (m : result E A) a : ok_or_none m = Some a ↔ m = Ok a.
Proof. destruct m; simpl; naive_solver. Qed.

Lemma forM_from_Ok {A} (f : nat → A → result E unit) l i u :
  forM_from i f l = Ok u ↔ ∀ k a, l !! k = Some a → f (i + k) a = Ok tt.
Proof.
  revert i; induction l as [|x l IH]; intros i; cbn [forM_from].
  - destruct u; split; [by intros _ k a; rewrite lookup_nil | done].
  - rewrite bind_Ok. split.
    + intros ([] & Hx & Hl) [|k] a; cbn; intros Hk.
      * simplify_eq. by rewrite Nat.add_0_r.
      * rewrite <- plus_n_Sm. by apply (proj1 (IH (S i)) Hl).
    + intros H. exists tt. split.
      * rewrite <- (Nat.add_0_r i). by apply (H 0 x).
      * apply IH. intros k a Hk. simpl. rewrite plus_n_Sm. by apply (H (S k) a).
Qed.

Lemma forM_Ok {A} (f : nat → A → result E unit) l u :
  forM_ f l = Ok u ↔ ∀ k a, l !! k = Some a → f k a = Ok tt.
Proof. apply forM_from_Ok. Qed.
End result.

#[export] Hint Rewrite @bind_Ok @map_err_Ok @guard_err_Ok @ok_or_none_Some @forM_Ok : rr.

(** ** Lemmas on lists *)

Section lists.
Context {A : Type}.
Implicit Types (p q : A → bool) (l : list A).

Lemma forallb_True p l : forallb p l = true ↔ ∀ x, x ∈ l → p x = true.
Proof. rewrite forallb_forall. by setoid_rewrite list_elem_of_In. Qed.

Lemma existsb_True p l : existsb p l = true ↔ ∃ x, x ∈ l ∧ p x = true.
Proof. rewrite existsb_exists. by setoid_rewrite list_elem_of_In. Qed.

Lemma existsb_False p l : existsb p l = false ↔ ∀ x, x ∈ l → p x = false.
Proof.
  rewrite <- not_true_iff_false, existsb_True. split.
  - intros H x Hx. apply not_true_iff_false. naive_solver.
  - intros H (x & Hx & Hp). by rewrite H in Hp.
Qed.

Lemma list_filter_length p l : length (List.filter p l) ≤ length l.
Proof. apply List.filter_length_le. Qed.

Lemma elem_of_filterb p l x : x ∈ List.filter p l ↔ p x = true ∧ x ∈ l.
Proof. rewrite !list_elem_of_In, List.filter_In. tauto. Qed.

Lemma filterb_all p l : forallb p l = true → List.filter p l = l.
Proof.
  induction l as [|x l IH]; simpl; [done|].
  intros [-> Hl]%andb_true_iff. by rewrite IH.
Qed.

Lemma filterb_none p l : forallb (λ x, negb (p x)) l = true → List.filter p l = [].
Proof.
  induction l as [|x l IH]; simpl; [done|].
  intros [Hx Hl]%andb_true_iff. rewrite negb_true_iff in Hx. by rewrite Hx, IH.
Qed.

(** A count of all elements says that all of them pass. *)
Lemma filterb_length_all p l :
  length (List.filter p l) = length l → List.filter p l = l.
Proof.
  induction l as [|x l IH]; simpl; [done|].
  destruct (p x); simpl; intros H; [f_equal; apply IH; lia|].
  pose proof (list_filter_length p l). lia.
Qed.
End lists.

(** ** Machine integers

    Go's [int] and [int64] are 64 bits wide on every platform the program is
    built for; [wrap64] is the two's complement reduction of their arithmetic. *)

Definition int64_min : Z := -9223372036854775808.
Definition int64_max : Z := 9223372036854775807.
Definition in_int64 (z : Z) : bool := (int64_min <=? z)%Z && (z <=? int64_max)%Z.
Definition wrap64 (z : Z) : Z := ((z + 9223372036854775808) mod 18446744073709551616 - 9223372036854775808)%Z.

Lemma in_int64_spec z : in_int64 z = true ↔ (int64_min ≤ z ≤ int64_max)%Z.
Proof. unfold in_int64. rewrite andb_true_iff, !Z.leb_le. done. Qed.

Lemma wrap64_id z : in_int64 z = true → wrap64 z = z.
Proof.
  rewrite in_int64_spec. unfold wrap64, int64_min, int64_max. intros H.
  rewrite Z.mod_small; lia.
Qed.

Lemma wrap64_range z : in_int64 (wrap64 z) = true.
Proof.
  rewrite in_int64_spec. unfold wrap64, int64_min, int64_max.
  pose proof (Z.mod_pos_bound (z + 9223372036854775808) 18446744073709551616 eq_refl). lia.
Qed.
