(* ===== verification/GoStrings.v ===== *)
(** * Go's strings

    The operations of Go's [strings], [strconv], [unicode/utf8] and
    [net/textproto] packages that the program uses, on byte strings: a Go
    [string] (and a [[]byte]) is a [string], one [ascii] per byte.  The file
    models the language's library, not the program: nothing in it has an entry
    in the map of the development. *)

From Stdlib Require Export Ascii.
From S2P Require Import Prelude.
Local Open Scope string_scope.

(** ** Bytes *)

Definition code (c : ascii) : N := N_of_ascii c.
Definition in_range (lo hi : N) (c : ascii) : bool := (lo <=? code c)%N && (code c <=? hi)%N.
Definition is_digit : ascii → bool := in_range 48 57.
Definition is_lower : ascii → bool := in_range 97 122.
Definition is_upper : ascii → bool := in_range 65 90.
Definition is_alnum (c : ascii) : bool := is_digit c || is_lower c || is_upper c.
Definition to_lower (c : ascii) : ascii := if is_upper c then ascii_of_N (code c + 32) else c.
Definition to_upper (c : ascii) : ascii := if is_lower c then ascii_of_N (code c - 32) else c.

Fixpoint chars (s : string) : list ascii :=
  match s with "" => [] | String c t => c :: chars t end.
Fixpoint of_chars (l : list ascii) : string :=
  match l with [] => "" | c :: l' => String c (of_chars l') end.
Fixpoint smap (f : ascii → ascii) (s : string) : string :=
  match s with "" => "" | String c t => String (f c) (smap f t) end.
Fixpoint sforall (p : ascii → bool) (s : string) : bool :=
  match s with "" => true | String c t => p c && sforall p t end.

(** ** Package strings *)

Definition HasPrefix (s p : string) : bool := String.prefix p s.

(** [s[n:]] *)
Fixpoint sdrop (n : nat) (s : string) : string :=
  match n, s with
  | O, _ => s
  | S n', String _ t => sdrop n' t
  | S _, "" => ""
  end.

(** [s[:n]] *)
Fixpoint stake (n : nat) (s : string) : string :=
  match n, s with
  | O, _ => ""
  | S n', String c t => String c (stake n' t)
  | S _, "" => ""
  end.

Definition slen (s : string) : nat := String.length s.

Definition HasSuffix (s p : string) : bool :=
  (slen p <=? slen s)%nat && String.eqb (sdrop (slen s - slen p) s) p.

Definition TrimPrefix (s p : string) : string :=
  if HasPrefix s p then sdrop (slen p) s else s.

Definition CutPrefix (s p : string) : option string :=
  if HasPrefix s p then Some (sdrop (slen p) s) else None.

Fixpoint Contains (s sub : string) : bool :=
  String.prefix sub s || match s with "" => false | String _ t => Contains t sub end.

(** [strings.IndexByte] / [strings.Contains] of one byte. *)
Fixpoint has_char (c : ascii) (s : string) : bool :=
  match s with "" => false | String a t => Ascii.eqb a c || has_char c t end.

Fixpoint count_char (c : ascii) (s : string) : nat :=
  match s with "" => 0 | String a t => (if Ascii.eqb a c then 1 else 0) + count_char c t end.

(** [strings.Split(s, sep)] for a separator of one byte: n separators give
    n+1 tokens, and the empty string gives one empty token. *)
Fixpoint Split (c : ascii) (s : string) : list string :=
  match s with
  | "" => [""]
  | String a t =>
      if Ascii.eqb a c then "" :: Split c t
      else match Split c t with
           | h :: r => String a h :: r
           | [] => [String a ""]
           end
  end.

Fixpoint Join (sep : string) (l : list string) : string :=
  match l with
  | [] => ""
  | [x] => x
  | x :: l' => x ++ sep ++ Join sep l'
  end.

(** [strings.Cut(s, sep)] for one byte: before, after, found. *)
Fixpoint Cut (c : ascii) (s : string) : string * string * bool :=
  match s with
  | "" => ("", "", false)
  | String a t =>
      if Ascii.eqb a c then ("", t, true)
      else let '(b, r, f) := Cut c t in (String a b, r, f)
  end.

(** [strings.Trim(s, cutset)] for a cutset of one byte. *)
Fixpoint TrimLeftChar (c : ascii) (s : string) : string :=
  match s with
  | "" => ""
  | String a t => if Ascii.eqb a c then TrimLeftChar c t else s
  end.
Fixpoint TrimRightChar (c : ascii) (s : string) : string :=
  match s with
  | "" => ""
  | String a t => if sforall (λ x, Ascii.eqb x c) s then "" else String a (TrimRightChar c t)
  end.
Definition TrimChar (c : ascii) (s : string) : string := TrimRightChar c (TrimLeftChar c s).

(** ** Package unicode/utf8 *)

Definition cont (c : ascii) : bool := in_range 128 191 c.

(** Bytes of the first rune of [s], 0 when [s] does not start with a
    well-formed one (the cases of Go's [first] and [acceptRanges] tables). *)
Definition rune_len (s : string) : nat :=
  match s with
  | "" => 0
  | String a t =>
      if (code a <? 128)%N then 1
      else match t with
      | String b t2 =>
          if in_range 194 223 a then (if cont b then 2 else 0)
          else match t2 with
          | String c t3 =>
              let lo3 := if Ascii.eqb a "224"%char then 160%N else 128%N in
              let hi3 := if Ascii.eqb a "237"%char then 159%N else 191%N in
              if in_range 224 239 a then (if in_range lo3 hi3 b && cont c then 3 else 0)
              else match t3 with
              | String d _ =>
                  let lo4 := if Ascii.eqb a "240"%char then 144%N else 128%N in
                  let hi4 := if Ascii.eqb a "244"%char then 143%N else 191%N in
                  if in_range 240 244 a && in_range lo4 hi4 b && cont c && cont d then 4 else 0
              | "" => 0
              end
          | "" => 0
          end
      | "" => 0
      end
  end.

(** The bytes [skip] says belong to a rune already seen are passed over. *)
Fixpoint utf8_valid_from (skip : nat) (s : string) : bool :=
  match s with
  | "" => true
  | String _ t =>
      match skip with
      | S k => utf8_valid_from k t
      | O => match rune_len s with O => false | S k => utf8_valid_from k t end
      end
  end.
Definition utf8_Valid (s : string) : bool := utf8_valid_from 0 s.

(** [strings.Builder.WriteRune(utf8.RuneError)] *)
Definition RuneError : string := String "239" (String "191" (String "189" "")).

(** [for i, r := range s]: the byte position of each rune and the bytes
    [WriteRune] writes for it; an invalid byte is read as one [RuneError]. *)
Fixpoint runes_from (pos skip : nat) (s : string) : list (nat * string) :=
  match s with
  | "" => []
  | String _ t =>
      match skip with
      | S k => runes_from (S pos) k t
      | O => match rune_len s with
             | O => (pos, RuneError) :: runes_from (S pos) 0 t
             | S k => (pos, stake (S k) s) :: runes_from (S pos) k t
             end
      end
  end.
Definition range_string (s : string) : list (nat * string) := runes_from 0 0 s.

(** ** unicode.IsSpace and strings.TrimSpace *)

Definition space2 (b : ascii) : bool := Ascii.eqb b "133" || Ascii.eqb b "160".
Definition space3 (a b c : ascii) : bool :=
  match code a, code b with
  | 225%N, 154%N => Ascii.eqb c "128"
  | 226%N, 128%N => in_range 128 138 c || in_range 168 169 c || Ascii.eqb c "175"
  | 226%N, 129%N => Ascii.eqb c "159"
  | 227%N, 128%N => Ascii.eqb c "128"
  | _, _ => false
  end.

(** Bytes of the white space [s] starts with (0: none). *)
Definition space_len (s : string) : nat :=
  match s with
  | "" => 0
  | String a t =>
      if in_range 9 13 a || Ascii.eqb a " " then 1
      else match t with
      | String b t2 =>
          if Ascii.eqb a "194" && space2 b then 2
          else match t2 with
          | String c _ => if space3 a b c then 3 else 0
          | "" => 0
          end
      | "" => 0
      end
  end.

Fixpoint trim_left_from (skip : nat) (s : string) : string :=
  match s with
  | "" => ""
  | String _ t =>
      match skip with
      | S k => trim_left_from k t
      | O => match space_len s with O => s | S k => trim_left_from k t end
      end
  end.

Fixpoint all_space_from (skip : nat) (s : string) : bool :=
  match s with
  | "" => true
  | String _ t =>
      match skip with
      | S k => all_space_from k t
      | O => match space_len s with O => false | S k => all_space_from k t end
      end
  end.

Fixpoint trim_right (s : string) : string :=
  match s with
  | "" => ""
  | String a t => if all_space_from 0 s then "" else String a (trim_right t)
  end.

Definition TrimSpace (s : string) : string := trim_right (trim_left_from 0 s).

(** [strings.Fields]: the longest runs without white space. *)
Fixpoint fields_from (skip : nat) (field : string) (s : string) : list string :=
  match s with
  | "" => if String.eqb field "" then [] else [field]
  | String a t =>
      match skip with
      | S k => fields_from k field t
      | O =>
          match space_len s with
          | O => fields_from 0 (field ++ String a "") t
          | S k => ((if String.eqb field "" then [] else [field]) ++ fields_from k "" t)%list
          end
      end
  end.
Definition Fields (s : string) : list string := fields_from 0 "" s.

(** [strings.ToLower]/[ToUpper] and [strings.EqualFold] on ASCII; the program
    compares with ASCII words that hold no letter with a non-ASCII folding. *)
Definition ToLower (s : string) : string := smap to_lower s.
Definition ToUpper (s : string) : string := smap to_upper s.
Definition EqualFold (s t : string) : bool := String.eqb (ToLower s) (ToLower t).

(** ** Package strconv: integers *)

Definition digit_val (c : ascii) : Z := (Z.of_N (code c) - 48)%Z.

Fixpoint parse_digits (acc : Z) (s : string) : option Z :=
  match s with
  | "" => Some acc
  | String c t => if is_digit c then parse_digits (acc * 10 + digit_val c)%Z t else None
  end.

Definition parse_unsigned (s : string) : option Z :=
  match s with "" => None | _ => parse_digits 0 s end.

(** [strconv.ParseInt(s, 10, 64)] and [strconv.Atoi]: [None] is a syntax or a
    range error. *)
Definition ParseInt (s : string) : option Z :=
  let checked z := if in_int64 z then Some z else None in
  match s with
  | String "-" t => z ← parse_unsigned t; checked (- z)%Z
  | String "+" t => z ← parse_unsigned t; checked z
  | _ => z ← parse_unsigned s; checked z
  end.
Definition Atoi : string → option Z := ParseInt.

Fixpoint digits_pos (fuel : nat) (z : Z) (acc : string) : string :=
  match fuel with
  | O => acc
  | S f =>
      let acc' := String (ascii_of_N (Z.to_N (48 + z mod 10)%Z)) acc in
      if (z <? 10)%Z then acc' else digits_pos f (z / 10)%Z acc'
  end.

(** [strconv.Itoa]/[FormatInt(z, 10)]; a positive number has at most as many
    decimal digits as binary ones. *)
Definition Itoa (z : Z) : string :=
  let d n := digits_pos (S (Z.to_nat (Z.log2 n))) n "" in
  if (z <? 0)%Z then "-" ++ d (- z)%Z else d z.

Definition ParseBool (s : string) : option bool :=
  if existsb (String.eqb s) ["1"; "t"; "T"; "true"; "TRUE"; "True"] then Some true
  else if existsb (String.eqb s) ["0"; "f"; "F"; "false"; "FALSE"; "False"] then Some false
  else None.

Definition FormatBool (b : bool) : string := if b then "true" else "false".

(** ** Package net/textproto *)

Definition header_byte (c : ascii) : bool :=
  is_alnum c || existsb (Ascii.eqb c) (chars "!#$%&'*+-.^_`|~").

Fixpoint canonical_from (up : bool) (s : string) : string :=
  match s with
  | "" => ""
  | String c t =>
      String (if up then to_upper c else to_lower c) (canonical_from (Ascii.eqb c "-") t)
  end.

(** [textproto.CanonicalMIMEHeaderKey]: a name with a byte that is not a
    header byte is returned unchanged. *)
Definition CanonicalMIMEHeaderKey (s : string) : string :=
  if sforall header_byte s then canonical_from true s else s.

(** ** Lemmas *)

#[local] Arguments String.append !_ _ /.

Lemma Contains_char c s : Contains s (String c "") = has_char c s.
Proof.
  induction s as [|a t IH]; [done|]. cbn [Contains has_char].
  rewrite IH. f_equal. cbn [String.prefix].
  destruct (ascii_dec c a) as [->|Hne]; [by rewrite Ascii.eqb_refl; destruct t|].
  symmetry. apply Ascii.eqb_neq. congruence.
Qed.

Lemma has_char_app c s t : has_char c (s ++ t) = has_char c s || has_char c t.
Proof. induction s; simpl; [done|]. rewrite IHs. by rewrite orb_assoc. Qed.

Lemma slen_app s t : slen (s ++ t) = slen s + slen t.
Proof. unfold slen. induction s; simpl; [done|]. by rewrite IHs. Qed.

Lemma app_nil_r_str s : s ++ "" = s.
Proof. induction s; simpl; [done|]. by rewrite IHs. Qed.

Lemma app_assoc_str s t u : (s ++ t) ++ u = s ++ (t ++ u).
Proof. induction s; simpl; [done|]. by rewrite IHs. Qed.

Lemma sdrop_app s t : sdrop (slen s) (s ++ t) = t.
Proof. unfold slen. induction s; simpl; [by destruct t|done]. Qed.

Lemma stake_app s t : stake (slen s) (s ++ t) = s.
Proof. unfold slen. induction s; simpl; [by destruct t|]. by rewrite IHs. Qed.

Lemma HasPrefix_app s t : HasPrefix (s ++ t) s = true.
Proof.
  unfold HasPrefix. induction s as [|a s IH]; simpl; [by destruct t|].
  by destruct (ascii_dec a a).
Qed.

Lemma HasPrefix_spec s p : HasPrefix s p = true ↔ ∃ t, s = p ++ t.
Proof.
  unfold HasPrefix. split; [|intros [t ->]; apply HasPrefix_app].
  revert s; induction p as [|a p IH]; intros s; simpl; [eauto|].
  destruct s as [|b s]; [discriminate|]. cbn [String.prefix]. destruct (ascii_dec a b) as [->|]; [|discriminate].
  intros [t ->]%IH. by exists t.
Qed.

Section split.
Variable c : ascii.

Lemma Split_ne s : Split c s ≠ [].
Proof. destruct s as [|a t]; simpl; repeat case_match; discriminate. Qed.

Lemma Split_no_sep s tok : tok ∈ Split c s → has_char c tok = false.
Proof.
  revert tok; induction s as [|a t IH]; intros tok; simpl.
  - by intros ->%list_elem_of_singleton.
  - destruct (Ascii.eqb a c) eqn:E.
    + intros [->|H]%elem_of_cons; [done | by apply IH].
    + destruct (Split c t) as [|h r] eqn:Es; [by apply Split_ne in Es|].
      intros [->|H]%elem_of_cons; simpl; [rewrite E; simpl|]; apply IH; set_solver.
Qed.

Lemma Split_single s : has_char c s = false → Split c s = [s].
Proof.
  induction s as [|a t IH]; simpl; [done|].
  intros [-> Ht]%orb_false_iff. by rewrite IH.
Qed.

Lemma Split_app_sep s t :
  has_char c s = false → Split c (s ++ String c t) = s :: Split c t.
Proof.
  induction s as [|a s IH]; simpl; [by rewrite Ascii.eqb_refl|].
  intros [-> Hs]%orb_false_iff. by rewrite IH.
Qed.

Lemma Join_Split s : Join (String c "") (Split c s) = s.
Proof.
  induction s as [|a t IH]; [done|]. simpl.
  destruct (Split c t) as [|h r] eqn:Es; [by apply Split_ne in Es|].
  destruct (Ascii.eqb a c) eqn:E.
  - apply Ascii.eqb_eq in E as ->. by rewrite <- IH.
  - rewrite <- IH. by destruct r.
Qed.

(** Splitting is left inverse to joining tokens without the separator. *)
Lemma Split_Join l :
  l ≠ [] → (∀ tok, tok ∈ l → has_char c tok = false) → Split c (Join (String c "") l) = l.
Proof.
  induction l as [|x l IH]; [done|]. intros _ H.
  destruct l as [|y l].
  - simpl. apply Split_single, H. set_solver.
  - change (Split c (x ++ String c (Join (String c "") (y :: l))) = x :: y :: l).
    rewrite Split_app_sep by (apply H; set_solver). f_equal.
    apply IH; [done|]. intros tok Ht. apply H. set_solver.
Qed.

Lemma Split_inj s t : Split c s = Split c t → s = t.
Proof. intros H. by rewrite <- (Join_Split s), H, Join_Split. Qed.

(** A byte other than the separator is in the string iff it is in a token. *)
Lemma has_char_Split d s :
  d ≠ c → has_char d s = existsb (has_char d) (Split c s).
Proof.
  intros Hd. induction s as [|a t IH]; [done|]. simpl. rewrite IH.
  destruct (Split c t) as [|h r] eqn:Es; [by apply Split_ne in Es|].
  destruct (Ascii.eqb a c) eqn:E; simpl.
  - apply Ascii.eqb_eq in E as ->. by destruct (Ascii.eqb_spec c d).
  - by rewrite orb_assoc.
Qed.

Lemma Split_empty s : Split c s = [""] ↔ s = "".
Proof.
  split; [|by intros ->]. intros H. apply Split_inj. by rewrite H.
Qed.
End split.

Lemma Cut_app c s t : has_char c s = false → Cut c (s ++ String c t) = (s, t, true).
Proof.
  induction s as [|a s IH]; simpl; [by rewrite Ascii.eqb_refl|].
  intros [-> Hs]%orb_false_iff. by rewrite IH.
Qed.

Lemma Cut_spec c s a b f :
  Cut c s = (a, b, f) → has_char c a = false ∧ if f then s = a ++ String c b else b = "" ∧ s = a.
Proof.
  revert a b f. induction s as [|x s IH]; intros a b f; cbn [Cut]; [by intros [= <- <- <-]|].
  destruct (Ascii.eqb x c) eqn:E; [apply Ascii.eqb_eq in E as ->; by intros [= <- <- <-]|].
  destruct (Cut c s) as [[a' b'] f']. intros [= <- <- <-]. destruct (IH _ _ _ eq_refl) as [Ha Hf].
  cbn [has_char]. rewrite E, Ha. split; [done|]. destruct f'; [by rewrite Hf|]. destruct Hf as [-> ->]. done.
Qed.

Lemma Cut_no_sep c s : has_char c s = false → Cut c s = (s, "", false).
Proof.
  induction s as [|x s IH]; cbn; [done|]. intros [-> Hs]%orb_false_iff. by rewrite IH.
Qed.

Lemma count_char_app c s t : count_char c (s ++ t) = (count_char c s + count_char c t)%nat.
Proof. induction s as [|a s IH]; simpl; [done|]. rewrite IH. lia. Qed.

Lemma count_char_0 c s : has_char c s = false → count_char c s = 0.
Proof. induction s as [|a s IH]; simpl; [done|]. by intros [-> ->%IH]%orb_false_iff. Qed.

Lemma has_char_Join c sep l :
  has_char c sep = false → (∀ x, x ∈ l → has_char c x = false) → has_char c (Join sep l) = false.
Proof.
  intros Hs. induction l as [|x l IH]; intros H; [done|].
  destruct l as [|y l]; [apply H; set_solver|].
  change (has_char c (x ++ sep ++ Join sep (y :: l)) = false).
  rewrite !has_char_app, Hs, (H x) by set_solver. apply IH. set_solver.
Qed.

Lemma sforall_has_char p c s : sforall p s = true → p c = false → has_char c s = false.
Proof.
  intros H Hc. induction s as [|a t IH]; simpl in *; [done|].
  apply andb_true_iff in H as [Ha Ht]. rewrite (IH Ht), orb_false_r.
  apply Ascii.eqb_neq. intros ->. by rewrite Ha in Hc.
Qed.

#[export] Hint Rewrite Contains_char has_char_app slen_app sdrop_app stake_app HasPrefix_app : rr.
#[export] Hint Resolve Split_ne Split_no_sep : rr.

(** ** The runes of a concatenation *)

Lemma rune_len_app s t n : rune_len s = S n → rune_len (s ++ t) = S n.
Proof.
  destruct s as [|a s]; [done|]. cbn [String.append rune_len].
  destruct (code a <? 128)%N; [done|].
  destruct s as [|b s]; [done|]. cbn [String.append].
  destruct (in_range 194 223 a); [done|].
  destruct s as [|c s]; [done|]. cbn [String.append].
  destruct (in_range 224 239 a); [done|].
  by destruct s.
Qed.

Lemma rune_len_le s : (rune_len s ≤ slen s)%nat.
Proof.
  destruct s as [|a s]; [done|]. cbn [rune_len slen String.length].
  destruct (code a <? 128)%N; [lia|].
  destruct s as [|b s]; [lia|]. destruct (in_range 194 223 a); [simpl; case_match; lia|].
  destruct s as [|c s]; [lia|]. destruct (in_range 224 239 a); [simpl; case_match; lia|].
  destruct s; [lia|]. simpl; case_match; lia.
Qed.

Lemma runes_from_app pos skip s t :
  (skip ≤ slen s)%nat → utf8_valid_from skip s = true →
  runes_from pos skip (s ++ t) = (runes_from pos skip s ++ runes_from (pos + slen s) 0 t)%list.
Proof.
  revert pos skip; induction s as [|a s IH]; intros pos skip Hs Hv.
  - simpl in *. assert (skip = 0) as -> by lia. by rewrite Nat.add_0_r.
  - pose proof (rune_len_le (String a s)) as Hl. unfold slen in *. cbn [String.length] in *.
    replace (pos + S (String.length s)) with (S pos + String.length s) by lia.
    cbn [String.append runes_from utf8_valid_from] in *. destruct skip as [|k].
    + change (String a (s ++ t)) with (String a s ++ t).
      destruct (rune_len (String a s)) as [|k] eqn:E; [done|].
      rewrite (rune_len_app _ t k E). cbn [app]. rewrite IH by (done || lia). f_equal. f_equal.
      assert (∀ n u, (n ≤ String.length u)%nat → stake n (u ++ t) = stake n u) as H.
      { clear. intros n u. revert n; induction u as [|b u IH]; intros [|n] Hn; simpl in *; try done; try lia.
        by rewrite IH by lia. }
      by apply H.
    + apply IH; [lia|done].
Qed.

Lemma range_string_app s t :
  utf8_Valid s = true → range_string (s ++ t) = (range_string s ++ runes_from (slen s) 0 t)%list.
Proof. intros H. unfold range_string. by rewrite runes_from_app by (done || lia). Qed.

Lemma stake_sdrop n s : stake n s ++ sdrop n s = s.
Proof. revert s; induction n as [|n IH]; intros [|b s]; simpl; try done. by rewrite IH. Qed.

Definition concat_runes (rs : list (nat * string)) : string := foldr (λ r acc, r.2 ++ acc) "" rs.

Lemma concat_runes_from pos skip s :
  (skip ≤ slen s)%nat → utf8_valid_from skip s = true → concat_runes (runes_from pos skip s) = sdrop skip s.
Proof.
  revert pos skip; induction s as [|a s IH]; intros pos skip Hs Hv; [by destruct skip|].
  pose proof (rune_len_le (String a s)) as Hl. unfold slen in *. cbn [String.length] in *.
  cbn [runes_from utf8_valid_from sdrop] in *. destruct skip as [|k]; [|apply IH; (done || lia)].
  destruct (rune_len (String a s)) as [|k] eqn:E; [done|].
  cbn [concat_runes foldr snd]. fold (concat_runes (runes_from (S pos) k s)).
  rewrite IH by (done || lia). cbn [stake String.append sdrop]. f_equal. apply stake_sdrop.
Qed.

Lemma concat_range_string s : utf8_Valid s = true → concat_runes (range_string s) = s.
Proof. intros H. by apply (concat_runes_from 0 0); [lia|]. Qed.

(** ** Decimal round trip *)

Lemma digit_char z : (0 ≤ z < 10)%Z →
  is_digit (ascii_of_N (Z.to_N (48 + z))) = true ∧ digit_val (ascii_of_N (Z.to_N (48 + z))) = z.
Proof.
  intros H. unfold is_digit, in_range, digit_val, code.
  rewrite N_ascii_embedding by lia. split; [|lia].
  apply andb_true_iff. rewrite !N.leb_le. lia.
Qed.

Lemma parse_digits_pos fuel z s :
  (0 ≤ z)%Z → (z < 2 ^ Z.of_nat fuel)%Z →
  ∃ p, ∀ a, parse_digits a (digits_pos fuel z s) = parse_digits (a * p + z)%Z s.
Proof.
  revert z s; induction fuel as [|f IH]; intros z s Hz Hf; cbn [digits_pos].
  - exists 1%Z. intros a. f_equal. rewrite Z.pow_0_r in Hf. lia.
  - destruct (digit_char (z mod 10)) as [Hd Hv]; [apply Z.mod_pos_bound; lia|].
    case_match eqn:Ez.
    + exists 10%Z. intros a. cbn [parse_digits]. rewrite Hd, Hv.
      rewrite Z.mod_small by lia. done.
    + destruct (IH (z / 10)%Z (String (ascii_of_N (Z.to_N (48 + z mod 10))) s)) as (p & Hp).
      * apply Z.div_pos; lia.
      * apply Z.div_lt_upper_bound; [lia|].
        rewrite Nat2Z.inj_succ, Z.pow_succ_r in Hf by lia.
        apply Z.lt_le_trans with (2 * 2 ^ Z.of_nat f)%Z; [lia|].
        pose proof (Z.pow_nonneg 2 (Z.of_nat f)). lia.
      * exists (p * 10)%Z. intros a. rewrite Hp. cbn [parse_digits]. rewrite Hd, Hv.
        f_equal. pose proof (Z.div_mod z 10). lia.
Qed.

Lemma digits_pos_head fuel z s :
  (0 ≤ z)%Z → ∃ c t, digits_pos (S fuel) z s = String c t ∧ is_digit c = true.
Proof.
  revert z s; induction fuel as [|f IH]; intros z s Hz.
  - cbn [digits_pos]. destruct (digit_char (z mod 10)) as [Hd _]; [apply Z.mod_pos_bound; lia|].
    case_match; eauto.
  - remember (S f) as f' eqn:Ef. cbn [digits_pos].
    destruct (digit_char (z mod 10)) as [Hd _]; [apply Z.mod_pos_bound; lia|].
    case_match; [eauto|]. subst. apply IH, Z.div_pos; lia.
Qed.

Lemma parse_unsigned_digits z :
  (0 ≤ z)%Z → parse_unsigned (digits_pos (S (Z.to_nat (Z.log2 z))) z "") = Some z.
Proof.
  intros Hz. destruct (digits_pos_head (Z.to_nat (Z.log2 z)) z "") as (c & t & E & _); [done|].
  unfold parse_unsigned. rewrite E. rewrite <- E.
  destruct (parse_digits_pos (S (Z.to_nat (Z.log2 z))) z "") as (p & Hp).
  - done.
  - rewrite Nat2Z.inj_succ, Z2Nat.id by apply Z.log2_nonneg.
    destruct (Z.eq_dec z 0) as [->|]; [done|]. apply Z.log2_spec. lia.
  - rewrite Hp. done.
Qed.

(** [strconv.Atoi(strconv.Itoa(z)) == z] *)
Lemma Atoi_Itoa z : in_int64 z = true → Atoi (Itoa z) = Some z.
Proof.
  intros Hz. unfold Atoi, Itoa. destruct (Z.ltb_spec z 0).
  - change ("-" ++ ?d) with (String "-" d). cbn [ParseInt].
    rewrite parse_unsigned_digits by lia. cbn. by rewrite Z.opp_involutive, Hz.
  - destruct (digits_pos_head (Z.to_nat (Z.log2 z)) z "") as (c & t & E & Hc); [done|].
    pose proof (parse_unsigned_digits z H) as P. rewrite E in *. unfold ParseInt.
    rewrite P. cbn. rewrite Hz.
    destruct c as [[] [] [] [] [] [] [] []]; done.
Qed.

Lemma ParseInt_range s z : ParseInt s = Some z → in_int64 z = true.
Proof.
  assert (∀ o : option Z, (z' ← o; if in_int64 z' then Some z' else None) = Some z → in_int64 z = true) as Hc.
  { intros [z'|]; cbn; [|done]. destruct (in_int64 z') eqn:E; [|done]. by intros [= <-]. }
  assert (∀ o : option Z, (z' ← o; if in_int64 (- z')%Z then Some (- z')%Z else None) = Some z → in_int64 z = true) as Hn.
  { intros [z'|]; cbn; [|done]. destruct (in_int64 (- z')%Z) eqn:E; [|done]. by intros [= <-]. }
  unfold ParseInt. destruct s as [|[[] [] [] [] [] [] [] []] t]; try apply Hc; apply Hn.
Qed.
