(* ===== verification/GoPath.v ===== *)
(** * Slash-separated paths (packages path and path/filepath)

    [Clean], on the components of a path, and the redirect that
    [http.ServeMux] makes of a path that is not clean. *)

From S2P Require Import Prelude GoStrings.
Local Open Scope string_scope.

(** The components of a path, last first. *)
Definition clean_step (rooted : bool) (stack : list string) (c : string) : list string :=
  if String.eqb c "" || String.eqb c "." then stack
  else if String.eqb c ".." then
    match stack with
    | top :: rest => if String.eqb top ".." then c :: stack else rest
    | [] => if rooted then [] else [c]
    end
  else c :: stack.

Definition Clean (path : string) : string :=
  let rooted := HasPrefix path "/" in
  let p := (if rooted then "/" else "") ++ Join "/" (rev (foldl (clean_step rooted) [] (Split "/" path))) in
  if String.eqb p "" then "." else p.

(** Up to and with the last slash. *)
Fixpoint up_to_slash (path : string) : string :=
  match path with
  | "" => ""
  | String c t => let d := up_to_slash t in if negb (String.eqb d "") || Ascii.eqb c "/" then String c d else ""
  end.
Definition Dir (path : string) : string := Clean (up_to_slash path).
Definition filepath_Join (dir path : string) : string := Clean (dir ++ "/" ++ path).

(** The path a server asks for: rooted, clean, with its trailing slash. *)
Definition cleanPath (p : string) : string :=
  if String.eqb p "" then "/"
  else
    let p := if HasPrefix p "/" then p else "/" ++ p in
    let np := Clean p in
    if (HasSuffix p "/" && negb (String.eqb np "/"))%bool then np ++ "/" else np.

Example cleanPath_examples :
  map cleanPath [""; "/"; "/a/b"; "/a/b/"; "//a"; "/a//b"; "/a/../b/"; "/./a"; "a"; "//"] =
    ["/"; "/"; "/a/b"; "/a/b/"; "/a"; "/a/b"; "/b/"; "/a"; "/a"; "/"].
Proof. vm_compute. reflexivity. Qed.
