(* ===== verification/GoFloat.v ===== *)
(** * Go's float64

    IEEE 754 binary64 numbers as [spec_float] at precision 53 and maximal
    exponent 1024, with the conversions, the parser and the printers of Go's
    [strconv] and [fmt] that the program uses.  Parsing is correctly rounded
    because [SFdiv] and [binary_normalize] round exact integers once. *)

From Stdlib Require Export SpecFloat.
From S2P Require Import Prelude GoStrings.
Local Open Scope string_scope.
Local Open Scope Z_scope.

Abbreviation float64 := spec_float.
Definition prec : Z := 53.
Definition emax : Z := 1024.

#[export] Instance float64_eq_dec : EqDecision float64.
Proof. solve_decision. Defined.

(** [m * 2^e], rounded to nearest even. *)
Definition float_of (m e : Z) : float64 :=
  match m with Z0 => S754_zero false | _ => binary_normalize prec emax m e false end.
(** [float64(i)] of an integer. *)
Definition float_of_Z (z : Z) : float64 := float_of z 0.

Definition fadd : float64 → float64 → float64 := SFadd prec emax.
Definition fsub : float64 → float64 → float64 := SFsub prec emax.
Definition fmul : float64 → float64 → float64 := SFmul prec emax.
Definition fdiv : float64 → float64 → float64 := SFdiv prec emax.
Definition feqb : float64 → float64 → bool := SFeqb.
Definition fltb : float64 → float64 → bool := SFltb.
Definition fleb : float64 → float64 → bool := SFleb.
Definition is_nan (f : float64) : bool := match f with S754_nan => true | _ => false end.
Definition is_inf (f : float64) : bool := match f with S754_infinity _ => true | _ => false end.
Definition fneg (f : float64) : float64 := SFopp f.

(** The integer part of a finite number, toward zero: [int64(f)] and the
    first result of [math.Modf] (out of range or not finite: 0, where Go
    leaves the conversion to the machine). *)
Definition ftrunc (f : float64) : Z :=
  match f with
  | S754_finite s m e =>
      let a := if 0 <=? e then Zpos m * 2 ^ e else Zpos m / 2 ^ (- e) in
      if s then - a else a
  | _ => 0
  end.

(** [math.Modf]: integer part and fraction, both with the sign of [f]. *)
Definition Modf (f : float64) : float64 * float64 :=
  match f with
  | S754_finite s m e =>
      let i := float_of_Z (Z.abs (ftrunc f)) in
      let frac := if 0 <=? e then S754_zero false else float_of (Zpos m mod 2 ^ (- e)) e in
      if s then (fneg i, fneg frac) else (i, frac)
  | S754_zero s => (f, f)
  | S754_infinity s => (f, S754_nan)
  | S754_nan => (f, f)
  end.

(** [int64(f)] of a float64: towards zero, and the least integer when the value
    does not fit (what amd64 gives; the language leaves it open). *)
Definition float_to_int64 (f : float64) : Z :=
  match f with
  | S754_nan | S754_infinity _ => int64_min
  | _ => if in_int64 (ftrunc f) then ftrunc f else int64_min
  end.

(** ** strconv.ParseFloat(s, 64) *)

Definition hex_val (c : ascii) : Z :=
  if is_digit c then digit_val c else Z.of_N (code (to_lower c)) - 87.
Definition is_hex (c : ascii) : bool := is_digit c || in_range 97 102 (to_lower c).

(** The digits of a mantissa: value, digits after the point, seen a point,
    seen a digit, seen an underscore, the rest. *)
Fixpoint read_mantissa (hex : bool) (s : string) (v nd : Z) (dot dig us : bool)
    : option (Z * Z * bool * bool * string) :=
  let fin := Some (v, nd, dig, us, s) in
  match s with
  | "" => fin
  | String c t =>
      if Ascii.eqb c "_" then read_mantissa hex t v nd dot dig true
      else if Ascii.eqb c "." then (if dot then fin else read_mantissa hex t v nd true dig us)
      else if (if hex then is_hex c else is_digit c)%bool
      then read_mantissa hex t (v * (if hex then 16 else 10) + (if hex then hex_val c else digit_val c))
             (if dot then nd + 1 else nd) dot true us
      else fin
  end.

Fixpoint read_exp (s : string) (e : Z) (us : bool) : option (Z * bool) :=
  match s with
  | "" => Some (e, us)
  | String c t =>
      if Ascii.eqb c "_" then read_exp t e true
      else if is_digit c then read_exp t (if e <? 10000 then e * 10 + digit_val c else e) us
      else None
  end.

(** [underscoreOK]: an underscore separates digits (or follows a base prefix). *)
Fixpoint underscores_ok_from (hex : bool) (prev : ascii) (s : string) : bool :=
  match s with
  | "" => negb (Ascii.eqb prev "_")
  | String c t =>
      if is_digit c || (hex && is_hex c) then underscores_ok_from hex "0" t
      else if Ascii.eqb c "_" then Ascii.eqb prev "0" && underscores_ok_from hex "_" t
      else negb (Ascii.eqb prev "_") && underscores_ok_from hex "!" t
  end.

Definition cut_sign (s : string) : bool * bool * string :=
  match s with
  | String "-" t => (true, true, t)
  | String "+" t => (false, true, t)
  | _ => (false, false, s)
  end.

Definition base_prefix (s : string) : bool * string :=
  match s with
  | String "0" (String x t) => if Ascii.eqb (to_lower x) "x" then (true, t) else (false, s)
  | _ => (false, s)
  end.

(** [None] is a syntax or a range error ([±Inf] with an error in Go). *)
Definition ParseFloat (s : string) : option float64 :=
  let '(neg, signed, s1) := cut_sign s in
  let l := ToLower s1 in
  if String.eqb l "inf" || String.eqb l "infinity" then Some (S754_infinity neg)
  else if String.eqb l "nan" then (if signed then None else Some S754_nan)
  else
    let '(hex, s2) := base_prefix s1 in
    '(v, nd, dig, us, r) ← read_mantissa hex s2 0 0 false false false;
    if negb dig then None else
    '(e, us2) ← match r with
                | "" => if hex then None else Some (0, false)
                | String c t =>
                    if Ascii.eqb (to_lower c) (if hex then "p" else "e")%char then
                      let '(eneg, _, d) := cut_sign t in
                      match d with
                      | String c0 _ => if is_digit c0 then '(e, u) ← read_exp d 0 false; Some (if eneg then - e else e, u) else None
                      | "" => None
                      end
                    else None
                end;
    if (us || us2) && negb (underscores_ok_from hex (if hex then "0" else "^")%char s2) then None
    else
      let f := if hex then float_of v (e - 4 * nd)
               else let k := e - nd in
                    if 0 <=? k then float_of_Z (v * 10 ^ k)
                    else match v with
                         | Zpos p => fdiv (S754_finite false p 0) (S754_finite false (Z.to_pos (10 ^ (- k))) 0)
                         | _ => S754_zero false
                         end in
      if is_inf f then None else Some (if neg then fneg f else f).

(** ** Shortest decimal digits

    [shortest f = (d, k)]: the least number of digits [d] with [d * 10^k]
    reading back as [f], nearest to [f] among them. *)

Definition decimal (d k : Z) : float64 :=
  if 0 <=? k then float_of_Z (d * 10 ^ k)
  else match d with
       | Zpos p => fdiv (S754_finite false p 0) (S754_finite false (Z.to_pos (10 ^ (- k))) 0)
       | _ => S754_zero false
       end.

(** The decimal exponent of the first digit: [10^x <= num/den < 10^(x+1)]. *)
Fixpoint scale_from (fuel : nat) (x num den : Z) : Z :=
  match fuel with
  | O => x
  | S f =>
      let lo := if 0 <=? x then den * 10 ^ x <=? num else den <=? num * 10 ^ (- x) in
      let y := x + 1 in
      let hi := if 0 <=? y then num <? den * 10 ^ y else num * 10 ^ (- y) <? den in
      if negb lo then scale_from f (x - 1) num den
      else if negb hi then scale_from f y num den else x
  end.

Fixpoint shortest_from (fuel : nat) (n : Z) (f : float64) (num den x : Z) : Z * Z :=
  let k := x - n + 1 in
  let a := if 0 <=? k then num else num * 10 ^ (- k) in
  let b := if 0 <=? k then den * 10 ^ k else den in
  let lo := a / b in
  let r := a mod b in
  let oklo := feqb (decimal lo k) f in
  let okhi := feqb (decimal (lo + 1) k) f in
  let up := (b <? 2 * r) || ((b =? 2 * r) && Z.odd lo) in
  match fuel with
  | O => (lo, k)
  | S fl =>
      if oklo && okhi then (if up then lo + 1 else lo, k)
      else if oklo then (lo, k)
      else if okhi then (lo + 1, k)
      else shortest_from fl (n + 1) f num den x
  end.

Definition shortest (m : positive) (e : Z) : Z * Z :=
  let num := if 0 <=? e then Zpos m * 2 ^ e else Zpos m in
  let den := if 0 <=? e then 1 else 2 ^ (- e) in
  let est := (Z.log2 num - Z.log2 den) * 3 / 10 in
  shortest_from 17 1 (S754_finite false m e) num den (scale_from 100 est num den).

Fixpoint zeros (n : nat) : string := match n with O => "" | S n' => String "0" (zeros n') end.

(** Digits without trailing zeros, as [decimalSlice] keeps them. *)
Fixpoint strip_zeros (fuel : nat) (d k : Z) : Z * Z :=
  match fuel with
  | O => (d, k)
  | S f => if d mod 10 =? 0 then strip_zeros f (d / 10) (k + 1) else (d, k)
  end.

(** %f with digits [d] and exponent [k]. *)
Definition fmt_f (d k : Z) : string :=
  let ds := Itoa d in
  if 0 <=? k then (ds ++ zeros (Z.to_nat k))%string
  else
    let n := Z.of_nat (slen ds) in
    if - k <? n
    then (stake (Z.to_nat (n + k)) ds ++ "." ++ sdrop (Z.to_nat (n + k)) ds)%string
    else ("0." ++ zeros (Z.to_nat (- k - n)) ++ ds)%string.

(** %e: one digit, point, the others, a signed exponent of two digits at least. *)
Definition fmt_e (d k : Z) : string :=
  let ds := Itoa d in
  let x := Z.of_nat (slen ds) - 1 + k in
  let ax := Itoa (Z.abs x) in
  (stake 1 ds ++ (if (slen ds =? 1)%nat then "" else "." ++ sdrop 1 ds)
    ++ "e" ++ (if (x <? 0)%Z then "-" else "+") ++ (if (slen ax =? 1)%nat then "0" else "") ++ ax)%string.

Definition special (f : float64) : option string :=
  match f with
  | S754_nan => Some "NaN"
  | S754_infinity s => Some (if s then "-Inf" else "+Inf")
  | S754_zero s => Some (if s then "-0" else "0")
  | S754_finite _ _ _ => None
  end.

(** [strconv.FormatFloat(f, 'f', -1, 64)] *)
Definition FormatFloat (f : float64) : string :=
  match f, special f with
  | S754_finite s m e, _ =>
      let '(d, k) := shortest m e in
      let '(d, k) := strip_zeros 20 d k in
      ((if s then "-" else "") ++ fmt_f d k)%string
  | _, Some t => t
  | _, None => ""
  end.

(** [fmt.Sprintf("%v", f)]: %g with the shortest digits, %e when the exponent
    is below -4 or at least 6, the threshold of the shortest format. *)
Definition sprint_float (f : float64) : string :=
  match f, special f with
  | S754_finite s m e, _ =>
      let '(d, k) := shortest m e in
      let '(d, k) := strip_zeros 20 d k in
      let x := Z.of_nat (slen (Itoa d)) - 1 + k in
      ((if s then "-" else "") ++ (if ((x <? -4) || (6 <=? x))%Z then fmt_e d k else fmt_f d k))%string
  | _, Some t => t
  | _, None => ""
  end.

(** [strconv.FormatFloat(f, 'f', decimals, 64)]: the exact value rounded half to
    even at that place. *)
Definition round_half_even (num den : Z) : Z :=
  let q := num / den in
  let r := 2 * (num mod den) in
  if (den <? r) || ((r =? den) && Z.odd q) then q + 1 else q.

Definition FormatFixed (f : float64) (decimals : nat) : string :=
  let show (s : bool) (n : Z) : string :=
    let ds := Itoa n in
    let ds := (zeros (S decimals - slen ds) ++ ds)%string in
    let k := (slen ds - decimals)%nat in
    ((if s then "-" else "") ++ stake k ds
      ++ (if (decimals =? 0)%nat then "" else "." ++ sdrop k ds))%string in
  match f with
  | S754_zero s => show s 0
  | S754_finite s m e =>
      let n := Zpos m * 10 ^ Z.of_nat decimals in
      show s (if 0 <=? e then n * 2 ^ e else round_half_even n (2 ^ (- e)))
  | _ => match special f with Some t => t | None => "" end
  end.

(** ** Order *)

Lemma fcompare_swap a b : SFcompare b a = option_map CompOpp (SFcompare a b).
Proof.
  destruct a as [sa|sa| |sa ma ea], b as [sb|sb| |sb mb eb]; try done;
    try (destruct sa, sb; done); try (destruct sa; done); try (destruct sb; done).
  simpl. destruct sa, sb; try done.
  - rewrite (Z.compare_antisym ea eb). destruct (ea ?= eb)%Z; try done. simpl.
    fold (Pos.compare ma mb) (Pos.compare mb ma). rewrite (Pos.compare_antisym ma mb).
    by destruct (Pos.compare ma mb).
  - rewrite (Z.compare_antisym ea eb). destruct (ea ?= eb)%Z; try done. simpl.
    fold (Pos.compare ma mb) (Pos.compare mb ma). rewrite (Pos.compare_antisym ma mb).
    by destruct (Pos.compare ma mb).
Qed.

Lemma fcompare_total a b : is_nan a = false → is_nan b = false → SFcompare a b ≠ None.
Proof. destruct a, b; try done; simpl; repeat case_match; done. Qed.

(** Numbers other than NaN are totally ordered. *)
Lemma fleb_fltb a b : is_nan a = false → is_nan b = false → fleb b a = negb (fltb a b).
Proof.
  intros Ha Hb. unfold fleb, fltb, SFleb, SFltb. rewrite (fcompare_swap a b).
  pose proof (fcompare_total a b Ha Hb). by destruct (SFcompare a b) as [[]|].
Qed.

Lemma feqb_fltb a b : is_nan a = false → is_nan b = false →
  feqb a b = negb (fltb a b) && negb (fltb b a).
Proof.
  intros Ha Hb. unfold feqb, fltb, SFeqb, SFltb. rewrite (fcompare_swap a b).
  pose proof (fcompare_total a b Ha Hb). by destruct (SFcompare a b) as [[]|].
Qed.
