(* ===== verification/GoTime.v ===== *)
(** * Go's time

    Instants, durations, the calendar and the parsers of Go's [time] package
    that the program uses.  A [time.Time] is a Unix instant in nanoseconds and
    the offset of its location, in seconds; a [time.Duration] is a number of
    nanoseconds in the range of [int64]. *)

From S2P Require Import Prelude GoStrings GoFloat.
Local Open Scope string_scope.
Local Open Scope Z_scope.

Record Time := MkTime { unix_ns : Z; zone_off : Z }.

#[export] Instance time_eq_dec : EqDecision Time.
Proof. solve_decision. Defined.

Definition Nanosecond : Z := 1.
Definition Microsecond : Z := 1000.
Definition Millisecond : Z := 1000000.
Definition Second : Z := 1000000000.
Definition Minute : Z := 60 * Second.
Definition Hour : Z := 60 * Minute.

Definition sat64 (z : Z) : Z := Z.max int64_min (Z.min int64_max z).

(** [t.Sub(u)], saturated to the range of a duration. *)
Definition Sub (t u : Time) : Z := sat64 (unix_ns t - unix_ns u).
Definition Add (t : Time) (d : Z) : Time := MkTime (unix_ns t + d) (zone_off t).
Definition Before (t u : Time) : bool := unix_ns t <? unix_ns u.
(** [time.Unix(sec, nsec)]: the seconds are kept from the year 1, in an int64
    that wraps around. *)
Definition UnixTime (sec nsec : Z) : Time :=
  MkTime ((wrap64 (sec + nsec / Second + 62135596800) - 62135596800) * Second + nsec mod Second) 0.
Definition UTC (t : Time) : Time := MkTime (unix_ns t) 0.

(** ** The calendar (proleptic Gregorian) *)

Definition local_sec (t : Time) : Z := unix_ns t / Second + zone_off t.
Definition days (t : Time) : Z := local_sec t / 86400.
Definition sec_of_day (t : Time) : Z := local_sec t mod 86400.

(** Year, month and day of a day number counted from 1970-01-01. *)
Definition civil (d : Z) : Z * Z * Z :=
  let z := d + 719468 in
  let era := z / 146097 in
  let doe := z mod 146097 in
  let yoe := (doe - doe / 1460 + doe / 36524 - doe / 146096) / 365 in
  let doy := doe - (365 * yoe + yoe / 4 - yoe / 100) in
  let mp := (5 * doy + 2) / 153 in
  let day := doy - (153 * mp + 2) / 5 + 1 in
  let month := if mp <? 10 then mp + 3 else mp - 9 in
  (yoe + era * 400 + (if month <=? 2 then 1 else 0), month, day).

Definition days_of_civil (y m d : Z) : Z :=
  let y' := if m <=? 2 then y - 1 else y in
  let era := y' / 400 in
  let yoe := y' mod 400 in
  let doy := (153 * (if 2 <? m then m - 3 else m + 9) + 2) / 5 + d - 1 in
  era * 146097 + (yoe * 365 + yoe / 4 - yoe / 100 + doy) - 719468.

Definition Year (t : Time) : Z := let '(y, _, _) := civil (days t) in y.
Definition Month (t : Time) : Z := let '(_, m, _) := civil (days t) in m.
Definition Day (t : Time) : Z := let '(_, _, d) := civil (days t) in d.
Definition HourOf (t : Time) : Z := sec_of_day t / 3600.
Definition MinuteOf (t : Time) : Z := sec_of_day t mod 3600 / 60.
Definition SecondOf (t : Time) : Z := sec_of_day t mod 60.
Definition Unix (t : Time) : Z := unix_ns t / Second.
(** Sunday is 0; 1970-01-01 was a Thursday. *)
Definition Weekday (t : Time) : Z := (days t + 4) mod 7.
Definition WeekdayName (w : Z) : string :=
  nth (Z.to_nat w) ["Sunday"; "Monday"; "Tuesday"; "Wednesday"; "Thursday"; "Friday"; "Saturday"] "".

Definition leap (y : Z) : bool := (y mod 4 =? 0) && (negb (y mod 100 =? 0) || (y mod 400 =? 0)).
Definition days_in (m y : Z) : Z :=
  if m =? 2 then (if leap y then 29 else 28)
  else if existsb (Z.eqb m) [4; 6; 9; 11] then 30 else 31.

(** ** Formatting *)

Definition padded (w : nat) (z : Z) : string :=
  let s := Itoa z in (zeros (w - slen s) ++ s)%string.

(** [t.Format("2006-01-02")] *)
Definition FormatDate (t : Time) : string :=
  (padded 4 (Year t) ++ "-" ++ padded 2 (Month t) ++ "-" ++ padded 2 (Day t))%string.

Definition FormatZone (off : Z) : string :=
  if off =? 0 then "Z"
  else let a := Z.abs off / 60 in
       ((if (off <? 0)%Z then "-" else "+") ++ padded 2 (a / 60) ++ ":" ++ padded 2 (a mod 60))%string.

(** [t.Format(time.RFC3339)] *)
Definition FormatRFC3339 (t : Time) : string :=
  (FormatDate t ++ "T" ++ padded 2 (HourOf t) ++ ":" ++ padded 2 (MinuteOf t) ++ ":"
    ++ padded 2 (SecondOf t) ++ FormatZone (zone_off t))%string.

(** ** time.Parse(time.RFC3339, s) *)

Fixpoint fixed_digits (n : nat) (s : string) (acc : Z) : option (Z * string) :=
  match n with
  | O => Some (acc, s)
  | S n' => match s with
            | String c t => if is_digit c then fixed_digits n' t (acc * 10 + digit_val c) else None
            | "" => None
            end
  end.
(** [getnum(s, false)]: one digit, or two when the second is one. *)
Definition loose_digits (s : string) : option (Z * string) :=
  match s with
  | String a (String b t) =>
      if is_digit a then Some (if is_digit b then (digit_val a * 10 + digit_val b, t) else (digit_val a, String b t))
      else None
  | String a "" => if is_digit a then Some (digit_val a, "") else None
  | "" => None
  end.
Definition lit (c : ascii) (s : string) : option string :=
  match s with String a t => if Ascii.eqb a c then Some t else None | "" => None end.

Fixpoint span_digits (s : string) : string * string :=
  match s with
  | String c t => if is_digit c then let '(d, r) := span_digits t in (String c d, r) else ("", s)
  | "" => ("", "")
  end.
(** A fraction of a second, cut to nine digits. *)
Definition parse_frac (s : string) : Z * string :=
  match s with
  | String p (String d _ as t) =>
      if ((Ascii.eqb p "." || Ascii.eqb p ",") && is_digit d)%bool then
        let '(ds, r) := span_digits t in
        let ds' := stake 9 ds in
        (match parse_digits 0 ds' with Some v => v * 10 ^ (9 - Z.of_nat (slen ds')) | None => 0 end, r)
      else (0, s)
  | _ => (0, s)
  end.

Definition parse_zone (s : string) : option (Z * string) :=
  match s with
  | String "Z" t => Some (0, t)
  | String sg t =>
      if (Ascii.eqb sg "+" || Ascii.eqb sg "-")%bool then
        '(h, t1) ← fixed_digits 2 t 0; t2 ← lit ":" t1; '(m, t3) ← fixed_digits 2 t2 0;
        if (24 <? h) || (60 <? m) then None
        else Some ((if Ascii.eqb sg "-" then -1 else 1) * (h * 3600 + m * 60), t3)
      else None
  | "" => None
  end.

Definition ParseRFC3339 (s : string) : option Time :=
  '(y, s) ← fixed_digits 4 s 0; s ← lit "-" s;
  '(mo, s) ← fixed_digits 2 s 0; s ← lit "-" s;
  '(d, s) ← fixed_digits 2 s 0; s ← lit "T" s;
  '(h, s) ← loose_digits s; s ← lit ":" s;
  '(mi, s) ← fixed_digits 2 s 0; s ← lit ":" s;
  '(se, s) ← fixed_digits 2 s 0;
  let '(ns, s) := parse_frac s in
  '(off, s) ← parse_zone s;
  if (negb (String.eqb s "") || (mo <? 1) || (12 <? mo) || (d <? 1) || (days_in mo y <? d)
      || (23 <? h) || (59 <? mi) || (59 <? se))%bool then None
  else Some (MkTime ((days_of_civil y mo d * 86400 + h * 3600 + mi * 60 + se - off) * Second + ns) off).

(** ** time.ParseDuration *)

Definition unit_of (s : string) : option Z :=
  if String.eqb s "ns" then Some Nanosecond
  else if existsb (String.eqb s) ["us"; "µs"; "μs"] then Some Microsecond
  else if String.eqb s "ms" then Some Millisecond
  else if String.eqb s "s" then Some Second
  else if String.eqb s "m" then Some Minute
  else if String.eqb s "h" then Some Hour
  else None.

Definition two63 : Z := 9223372036854775808.

(** [leadingInt]: [None] on overflow. *)
Fixpoint leading_int (s : string) (x : Z) : option (Z * string) :=
  match s with
  | String c t =>
      if is_digit c then
        if two63 / 10 <? x then None
        else let x' := x * 10 + digit_val c in if two63 <? x' then None else leading_int t x'
      else Some (x, s)
  | "" => Some (x, "")
  end.
(** [leadingFraction]: value, digits kept, rest; digits past an overflow are dropped. *)
Fixpoint leading_fraction (s : string) (x n : Z) (over : bool) : Z * Z * string :=
  match s with
  | String c t =>
      if is_digit c then
        if over then leading_fraction t x n true
        else if int64_max / 10 <? x then leading_fraction t x n true
        else let y := x * 10 + digit_val c in
             if two63 <? y then leading_fraction t x n true else leading_fraction t y (n + 1) false
      else (x, n, s)
  | "" => (x, n, "")
  end.
Fixpoint span_unit (s : string) : string * string :=
  match s with
  | String c t => if (Ascii.eqb c "." || is_digit c)%bool then ("", s) else let '(u, r) := span_unit t in (String c u, r)
  | "" => ("", "")
  end.

(** The loop over "number unit" groups; each group takes a byte at least, so
    the length of the string is enough fuel. *)
Fixpoint duration_groups (fuel : nat) (s : string) (d : Z) : option Z :=
  match fuel, s with
  | _, "" => Some d
  | O, _ => None
  | S fl, String c _ =>
      if negb (Ascii.eqb c "." || is_digit c)%bool then None else
      '(v, s1) ← leading_int s 0;
      let pre := negb (slen s1 =? slen s)%nat in
      let '(f, n, s2, post) :=
        match s1 with
        | String "." t => let '(f, n, r) := leading_fraction t 0 0 false in (f, n, r, negb (slen r =? slen t)%nat)
        | _ => (0, 0, s1, false)
        end in
      if negb pre && negb post then None else
      let '(u, s3) := span_unit s2 in
      unit ← unit_of u;
      if two63 / unit <? v then None else
      let v1 := v * unit in
      let v2 := if 0 <? f then v1 + ftrunc (fmul (float_of_Z f) (fdiv (float_of_Z unit) (float_of_Z (10 ^ n)))) else v1 in
      if two63 <? v2 then None else
      if two63 <? d + v2 then None else duration_groups fl s3 (d + v2)
  end.

Definition ParseDuration (s : string) : option Z :=
  let '(neg, _, s1) := cut_sign s in
  if String.eqb s1 "0" then Some 0
  else if String.eqb s1 "" then None
  else
    d ← duration_groups (slen s1) s1 0;
    if neg then Some (- d) else if int64_max <? d then None else Some d.

Lemma sat64_mono a b : a ≤ b → sat64 a ≤ sat64 b.
Proof. unfold sat64. lia. Qed.

Lemma sat64_id z : in_int64 z = true → sat64 z = z.
Proof. rewrite in_int64_spec. unfold sat64. lia. Qed.
