(* ===== verification/GoNet.v ===== *)
(** * Go's net/url, encoding/hex and encoding/base64

    The decoders of the standard library the program applies to bytes it
    receives.  As for the other [Go*] files nothing here is in the map. *)

From S2P Require Import Prelude GoStrings.
Local Open Scope string_scope.

(** ** url.ParseQuery *)

Definition hex_val (c : ascii) : option N :=
  if in_range 48 57 c then Some (code c - 48)%N
  else if in_range 97 102 c then Some (code c - 87)%N
  else if in_range 65 70 c then Some (code c - 55)%N
  else None.

Fixpoint QueryUnescape (s : string) : option string :=
  match s with
  | "" => Some ""
  | String "%" (String a (String b t)) =>
      x ← hex_val a; y ← hex_val b;
      r ← QueryUnescape t; Some (String (ascii_of_N (x * 16 + y)) r)
  | String c t =>
      if Ascii.eqb c "%" then None
      else r ← QueryUnescape t; Some (String (if Ascii.eqb c "+" then " "%char else c) r)
  end.

(** The values of each key, in the order of the query; [None] is any error. *)
Definition ParseQuery (query : string) : option (gmap string (list string)) :=
  foldl (λ acc part,
    m ← acc;
    if has_char ";" part then None
    else if String.eqb part "" then Some m
    else
      let '(key, val, _) := Cut "=" part in
      key ← QueryUnescape key; val ← QueryUnescape val;
      Some (<[key := default [] (m !! key) ++ [val]]> m)%list) (Some ∅) (Split "&" query).

(** ** hex.DecodeString *)

Fixpoint hex_DecodeString (s : string) : option string :=
  match s with
  | "" => Some ""
  | String a (String b t) =>
      x ← hex_val a; y ← hex_val b;
      r ← hex_DecodeString t; Some (String (ascii_of_N (x * 16 + y)) r)
  | _ => None
  end.

(** ** base64.StdEncoding.DecodeString *)

Definition b64_val (c : ascii) : option N :=
  if is_upper c then Some (code c - 65)%N
  else if is_lower c then Some (code c - 71)%N
  else if is_digit c then Some (code c + 4)%N
  else if Ascii.eqb c "+" then Some 62%N
  else if Ascii.eqb c "/" then Some 63%N
  else None.

Definition byte (n : N) : ascii := ascii_of_N (n mod 256).

Fixpoint b64_groups (l : list ascii) : option string :=
  match l with
  | [] => Some ""
  | a :: b :: c :: d :: rest =>
      x ← b64_val a; y ← b64_val b;
      let b0 := byte (x * 4 + y / 16)%N in
      if Ascii.eqb c "=" then
        if Ascii.eqb d "=" && match rest with [] => true | _ => false end
        then Some (String b0 "") else None
      else
        z ← b64_val c;
        let b1 := byte ((y mod 16) * 16 + z / 4)%N in
        if Ascii.eqb d "=" then
          match rest with [] => Some (String b0 (String b1 "")) | _ => None end
        else
          u ← b64_val d;
          let b2 := byte ((z mod 4) * 64 + u)%N in
          r ← b64_groups rest; Some (String b0 (String b1 (String b2 r)))
  | _ => None
  end.

(** Line breaks are skipped wherever they are. *)
Definition b64_DecodeString (s : string) : option string :=
  b64_groups (List.filter (λ c, negb (Ascii.eqb c "010" || Ascii.eqb c "013")) (chars s)).
