(* ===== verification/Value.v ===== *)
(** * Dynamic values

    Go's [any] as the program uses it: the values a JSON or YAML document
    decodes to, and the ones the contexts produce.  A [map[string]any] is a
    finite map, for the order of its entries is not observable; a number keeps
    the Go type it has ([json.Number] keeps its text).  The JSON codec is not
    part of the repository: it is the class [JSON]. *)

From S2P Require Import Prelude GoStrings GoFloat.
Local Open Scope string_scope.

Inductive value : Type :=
| VNil
| VBool (b : bool)
| VStr (s : string)
| VNumber (s : string)                       (* json.Number *)
| VFloat (f : float64)
| VInt (z : Z)
| VInt64 (z : Z)
| VArr (l : list value)                      (* []any *)
| VObj (m : gmap string value)               (* map[string]any *)
| VAnyMap (l : list (value * value))         (* map[any]any, in the order of its iteration *)
| VOther (typ shown : string).               (* any other type: its name and its %v text *)

Definition is_nil (v : value) : bool := match v with VNil => true | _ => false end.
Definition is_arr (v : value) : bool := match v with VArr _ => true | _ => false end.

(** [fmt.Sprintf("%v", v)]; the keys of a map are printed in byte order. *)
Fixpoint sprint (v : value) : string :=
  match v with
  | VNil => "<nil>"
  | VBool b => FormatBool b
  | VStr s | VNumber s => s
  | VFloat f => sprint_float f
  | VInt z | VInt64 z => Itoa z
  | VArr l => "[" ++ Join " " (map sprint l) ++ "]"
  | VObj m =>
      let shown := sprint <$> m in
      let keys := merge_sort String.le (map fst (map_to_list shown)) in
      "map[" ++ Join " " (map (λ k, k ++ ":" ++ default "" (shown !! k)) keys) ++ "]"
  | VAnyMap l => "map[" ++ Join " " (map (λ kv, let '(k, v) := kv in sprint k ++ ":" ++ sprint v) l) ++ "]"
  | VOther _ shown => shown
  end.

(** [fmt.Sprintf("%T", v)] *)
Definition type_name (v : value) : string :=
  match v with
  | VNil => "<nil>" | VBool _ => "bool" | VStr _ => "string" | VNumber _ => "json.Number"
  | VFloat _ => "float64" | VInt _ => "int" | VInt64 _ => "int64"
  | VArr _ => "[]interface {}" | VObj _ => "map[string]interface {}"
  | VAnyMap _ => "map[interface {}]interface {}" | VOther t _ => t
  end.

(** The JSON codec the program imports (goccy/go-json). *)
Class JSON := {
  (** [Decoder.Decode] into an [any] with [UseNumber] *)
  json_decode : string → option value;
  (** [Unmarshal] into an [any]: numbers are float64 *)
  json_unmarshal : string → option value;
  (** [Unmarshal] into a [map[string]any] *)
  json_unmarshal_map : string → option (gmap string value);
  (** [Marshal] *)
  json_marshal : value → option string;
}.

(** ** Induction *)

Fixpoint vsize (v : value) : nat :=
  match v with
  | VArr l => S (list_sum (map vsize l))
  | VObj m => S (map_fold (λ _ v n, vsize v + n)%nat 0%nat m)
  | VAnyMap l => S (list_sum (map (λ kv, let '(k, v) := kv in vsize k + vsize v) l))%nat
  | _ => 1
  end.

Lemma vsize_lookup (m : gmap string value) k v :
  m !! k = Some v → (vsize v < vsize (VObj m))%nat.
Proof.
  intros H. simpl.
  rewrite (map_fold_delete_L _ _ k v m) by (done || lia). lia.
Qed.

Lemma list_sum_elem (f : value → nat) l v :
  v ∈ l → (f v ≤ list_sum (map f l))%nat.
Proof. induction 1; simpl; lia. Qed.

Lemma vsize_elem l v : v ∈ l → (vsize v < vsize (VArr l))%nat.
Proof. intros H%(list_sum_elem vsize). simpl. lia. Qed.

Lemma value_rect_size (P : value → Prop) :
  (∀ v, (∀ l w, v = VArr l → w ∈ l → P w) →
        (∀ m k w, v = VObj m → m !! k = Some w → P w) → P v) →
  ∀ v, P v.
Proof.
  intros H v. remember (vsize v) as n eqn:Hn. revert v Hn.
  induction n as [n IH] using lt_wf_ind. intros v ->. apply H.
  - intros l w -> Hw. eapply IH; [by apply vsize_elem | done].
  - intros m k w -> Hw. eapply IH; [by eapply vsize_lookup | done].
Qed.
