(* ===== verification/Types.v ===== *)
(** * Rule data (internal/rule/types.go, operators.go)

    The records of a rule, its triggers, conditions and actions, the outcome of
    an evaluation, and the subject and request contexts.  A pointer that may be
    nil is an [option]; a [map[string]string] is a finite map, nil being the
    empty one; the unexported fields computed at load time are kept, with
    [None] for a nil slice. *)

From S2P Require Import Prelude GoStrings GoFloat GoTime Value.
Local Open Scope string_scope.

(** ** Throttles *)

Definition ThrottleLeading : string := "leading".
Definition ThrottleTrailing : string := "trailing".

Record ThrottleConfig := MkThrottle { th_Window : string; th_Key : string; th_Mode : string }.

Definition IsTrailing (t : option ThrottleConfig) : bool :=
  match t with Some c => String.eqb (th_Mode c) ThrottleTrailing | None => false end.

Record DeferSpec := MkDeferSpec { ds_Key : string; ds_Window : Z }.

(** ** Conditions *)

Inductive Conditions : Type :=
| MkConditions (operator : string) (items : list Condition) (groups : list Conditions)
with Condition : Type :=
| MkCondition (field operator : string) (val : value) (conditions : option Conditions)
    (fieldVarName : string) (fieldPath : option (list string))
    (valueVarName : string) (valuePath : option (list string)).

Definition cs_Operator (c : Conditions) := let '(MkConditions o _ _) := c in o.
Definition cs_Items (c : Conditions) := let '(MkConditions _ i _) := c in i.
Definition cs_Groups (c : Conditions) := let '(MkConditions _ _ g) := c in g.
Definition c_Field (c : Condition) := let '(MkCondition f _ _ _ _ _ _ _) := c in f.
Definition c_Operator (c : Condition) := let '(MkCondition _ o _ _ _ _ _ _) := c in o.
Definition c_Value (c : Condition) := let '(MkCondition _ _ v _ _ _ _ _) := c in v.
Definition c_Conditions (c : Condition) := let '(MkCondition _ _ _ n _ _ _ _) := c in n.
Definition c_fieldVarName (c : Condition) := let '(MkCondition _ _ _ _ x _ _ _) := c in x.
Definition c_fieldPath (c : Condition) := let '(MkCondition _ _ _ _ _ p _ _) := c in p.
Definition c_valueVarName (c : Condition) := let '(MkCondition _ _ _ _ _ _ x _) := c in x.
Definition c_valuePath (c : Condition) := let '(MkCondition _ _ _ _ _ _ _ p) := c in p.

(** A condition as YAML decodes it: nothing computed yet. *)
Definition cond (field operator : string) (val : value) : Condition :=
  MkCondition field operator val None "" None "" None.
Definition cond_array (field operator : string) (nested : Conditions) : Condition :=
  MkCondition field operator VNil (Some nested) "" None "" None.

(** ** Triggers *)

Definition ModeJetStream : string := "jetstream".
Definition ModeCore : string := "core".

Record NATSTrigger := MkNATSTrigger {
  nt_Subject : string;
  nt_Throttle : option ThrottleConfig;
  nt_Debounce : option ThrottleConfig;
  nt_Mode : string;
  nt_Reply : bool;
  nt_Queue : string;
}.

Definition IsCore (t : NATSTrigger) : bool := nt_Reply t || String.eqb (nt_Mode t) ModeCore.

Definition NATSTriggerFilter := NATSTrigger → bool.
Definition JetStreamRuleFilter : NATSTriggerFilter := λ t, negb (IsCore t).
Definition CoreRuleFilter : NATSTriggerFilter := λ t, IsCore t.

Record ScheduleTrigger := MkScheduleTrigger { st_Cron : string; st_Timezone : string }.

Record HMACConfig := MkHMACConfig {
  hm_Scheme : string; hm_Header : string; hm_Secret : string;
  hm_Algorithm : string; hm_Encoding : string; hm_Prefix : string;
}.

Record HTTPTrigger := MkHTTPTrigger {
  ht_Path : string;
  ht_Method : string;
  ht_Throttle : option ThrottleConfig;
  ht_Debounce : option ThrottleConfig;
  ht_HMAC : option HMACConfig;
}.

Record Trigger := MkTrigger {
  tr_NATS : option NATSTrigger;
  tr_HTTP : option HTTPTrigger;
  tr_Schedule : option ScheduleTrigger;
}.

(** ** Actions *)

Record RespondAction := MkRespondAction {
  ra_StatusCode : Z;
  ra_Payload : string;
  ra_Passthrough : bool;
  ra_Merge : bool;
  ra_Headers : gmap string string;
  ra_RawPayload : string;
}.

Record NATSAction := MkNATSAction {
  na_Subject : string;
  na_Mode : string;
  na_Payload : string;
  na_Passthrough : bool;
  na_Merge : bool;
  na_Headers : gmap string string;
  na_RawPayload : string;
  na_Request : bool;
  na_Timeout : string;
  na_ForEach : string;
  na_Filter : option Conditions;
  na_Throttle : option ThrottleConfig;
  na_Debounce : option ThrottleConfig;
  na_forEachPath : option (list string);
}.

Record RetryConfig := MkRetryConfig { rc_MaxAttempts : Z; rc_InitialDelay : string; rc_MaxDelay : string }.

Record PublishResponseSpec := MkPublishResponseSpec { pr_Subject : string }.

Record HTTPAction := MkHTTPAction {
  ha_URL : string;
  ha_Method : string;
  ha_Payload : string;
  ha_Passthrough : bool;
  ha_Merge : bool;
  ha_Headers : gmap string string;
  ha_RawPayload : string;
  ha_Retry : option RetryConfig;
  ha_PublishResponse : option PublishResponseSpec;
  ha_ForEach : string;
  ha_Filter : option Conditions;
  ha_Throttle : option ThrottleConfig;
  ha_Debounce : option ThrottleConfig;
  ha_forEachPath : option (list string);
}.

Record Action := MkAction {
  a_NATS : option NATSAction;
  a_HTTP : option HTTPAction;
  a_Respond : option RespondAction;
  a_Defer : option DeferSpec;
}.

(** ** Rules and outcomes *)

Record Rule := MkRule {
  r_Name : string;
  r_Trigger : Trigger;
  r_Conditions : option Conditions;
  r_Action : Action;
  r_index : Z;
}.

Record DeferredBatch := MkDeferredBatch { db_Key : string; db_Window : Z; db_Actions : list Action }.

Record Outcome := MkOutcome { o_Immediate : list Action; o_Deferred : list DeferredBatch }.

Definition Empty (o : Outcome) : bool :=
  (length (o_Immediate o) =? 0)%nat && (length (o_Deferred o) =? 0)%nat.

Definition All (o : Outcome) : list Action :=
  if (length (o_Deferred o) =? 0)%nat then o_Immediate o
  else (o_Immediate o ++ concat (map db_Actions (o_Deferred o)))%list.

(** ** Subject context *)

Record SubjectContext := MkSubjectContext { sc_Full : string; sc_Tokens : list string; sc_Count : Z }.

Definition NewSubjectContext (subject : string) : SubjectContext :=
  if String.eqb subject "" then MkSubjectContext "" [] 0
  else let tokens := Split "." subject in
       MkSubjectContext subject tokens (Z.of_nat (length tokens)).

(** A token by position, the empty string out of range. *)
Definition token_at (tokens : list string) (index : Z) : string :=
  if ((index <? 0) || (Z.of_nat (length tokens) <=? index))%Z then ""
  else default "" (tokens !! Z.to_nat index).

Definition SubjectToken (sc : SubjectContext) (index : Z) : string := token_at (sc_Tokens sc) index.

Definition SubjectField (sc : SubjectContext) (fieldName : string) : option value :=
  if String.eqb fieldName "@subject" then Some (VStr (sc_Full sc))
  else if String.eqb fieldName "@subject.count" then Some (VInt (sc_Count sc))
  else if HasPrefix fieldName "@subject." then
    match Atoi (sdrop 9 fieldName) with
    | Some index =>
        let token := SubjectToken sc index in
        if String.eqb token "" then None else Some (VStr token)
    | None => None
    end
  else None.

(** ** HTTP request context *)

Definition QueryParams := gmap string string.

Record HTTPRequestContext := MkHTTPRequestContext {
  hc_Path : string; hc_PathTokens : list string; hc_Method : string;
  hc_Count : Z; hc_Query : gmap string string;
}.

Definition NewHTTPRequestContext (path method : string) (query : gmap string string) : HTTPRequestContext :=
  let tokens := Split "/" (TrimChar "/" path) in
  let tokens := match tokens with [t] => if String.eqb t "" then [] else tokens | _ => tokens end in
  MkHTTPRequestContext path tokens method (Z.of_nat (length tokens)) query.

Definition HTTPToken (hc : HTTPRequestContext) (index : Z) : string := token_at (hc_PathTokens hc) index.

Definition HTTPField (hc : HTTPRequestContext) (fieldName : string) : option value :=
  if String.eqb fieldName "@path" then Some (VStr (hc_Path hc))
  else if String.eqb fieldName "@path.count" then Some (VInt (hc_Count hc))
  else if String.eqb fieldName "@method" then Some (VStr (hc_Method hc))
  else if HasPrefix fieldName "@path." then
    match Atoi (sdrop 6 fieldName) with
    | Some index =>
        let token := HTTPToken hc index in
        if String.eqb token "" then None else Some (VStr token)
    | None => None
    end
  else None.

(** ** Operators (operators.go) *)

Definition validOperators : list string :=
  ["eq"; "neq"; "gt"; "lt"; "gte"; "lte"; "contains"; "not_contains"; "in"; "not_in";
   "exists"; "not_exists"; "recent"; "any"; "all"; "none"].

Definition IsValidOperator (op : string) : bool := existsb (String.eqb op) validOperators.

(** ** Induction on condition trees *)

Section conditions_ind.
Variables (P : Conditions → Prop) (Q : Condition → Prop).
Hypothesis HP : ∀ op items groups, Forall Q items → Forall P groups → P (MkConditions op items groups).
Hypothesis HQ : ∀ field op val nested fv fp vv vp,
  (∀ cs, nested = Some cs → P cs) → Q (MkCondition field op val nested fv fp vv vp).

Fixpoint conditions_mut (cs : Conditions) : P cs :=
  let '(MkConditions op items groups) := cs in
  HP op items groups
    ((fix go (l : list Condition) : Forall Q l := match l with
      | [] => Forall_nil_2 Q
      | x :: l' => Forall_cons_2 Q x l' (condition_mut x) (go l') end) items)
    ((fix go (l : list Conditions) : Forall P l := match l with
      | [] => Forall_nil_2 P
      | x :: l' => Forall_cons_2 P x l' (conditions_mut x) (go l') end) groups)
with condition_mut (c : Condition) : Q c :=
  let '(MkCondition field op val nested fv fp vv vp) := c in
  HQ field op val nested fv fp vv vp
    (match nested with
     | Some n => λ cs E, match E in _ = o return (match o with Some cs => P cs | None => True end) with
                         | eq_refl => conditions_mut n end
     | None => λ cs E, match E with end
     end).
End conditions_ind.
