(* ===== verification/Pattern.v ===== *)
(** * Wildcard patterns (internal/rule/pattern.go)

    Validation, compilation and matching of NATS subject patterns, on token
    lists so that subjects and paths share it, and the cache of match results.
    The relation [token_match] is the specification of matching. *)

From S2P Require Import Prelude GoStrings.
Local Open Scope string_scope.

(** ** Data *)

Inductive WildcardType := ExactToken | SingleWildcard | GreedyWildcard.

#[export] Instance WildcardType_eq_dec : EqDecision WildcardType.
Proof. solve_decision. Defined.

Record CompiledPattern := MkCompiled {
  exactTokens : list string;
  wildcardMap : list WildcardType;
  hasTerminalWildcard : bool;
  minTokens : Z;
  maxTokens : Z;
}.

Record PatternMatcher := MkMatcher {
  pm_pattern : string;
  pm_tokens : list string;
  pm_compiled : option CompiledPattern;
  pm_isPattern : bool;
}.

Inductive pattern_error :=
| EmptyPattern
| EmptyTokenAt (i : nat)
| GreedyNotLast (i : nat)
| InvalidWildcardUsage (token : string) (i : nat)
| PathWithoutSlash (path : string).

(** ** Validation *)

Definition containsWildcards (pattern : string) : bool :=
  Contains pattern "*" || Contains pattern ">".

Definition tokensContainWildcards (tokens : list string) : bool :=
  existsb (λ t, String.eqb t "*" || String.eqb t ">") tokens.

(** The body of the loop both validators share: token [i] of [n]. *)
Definition validate_token (n i : nat) (token : string) : result pattern_error unit :=
  if String.eqb token "" then Err (EmptyTokenAt i)
  else if String.eqb token ">" then guard_err (negb (i =? n - 1)%nat) (GreedyNotLast i)
  else if String.eqb token "*" then Ok tt
  else guard_err (Contains token "*" || Contains token ">") (InvalidWildcardUsage token i).

Definition validate_tokens (tokens : list string) : result pattern_error unit :=
  forM_ (validate_token (length tokens)) tokens.

Definition ValidatePattern (pattern : string) : result pattern_error unit :=
  if String.eqb pattern "" then Err EmptyPattern
  else validate_tokens (Split "." pattern).

(** ** Compilation *)

Definition compile_step (compiled : CompiledPattern) (i : nat) (token : string) : CompiledPattern :=
  let '(MkCompiled ex wm term mn mx) := compiled in
  if String.eqb token "*" then
    MkCompiled ex (<[i := SingleWildcard]> wm) term (mn + 1) mx
  else if String.eqb token ">" then
    MkCompiled ex (<[i := GreedyWildcard]> wm) true mn (-1)
  else
    MkCompiled (<[i := token]> ex) (<[i := ExactToken]> wm) term (mn + 1) mx.

Fixpoint compile_loop (compiled : CompiledPattern) (i : nat) (tokens : list string) : CompiledPattern :=
  match tokens with
  | [] => compiled
  | token :: rest => compile_loop (compile_step compiled i token) (S i) rest
  end.

Definition compile (tokens : list string) : CompiledPattern :=
  let n := length tokens in
  let compiled := compile_loop
    (MkCompiled (replicate n "") (replicate n ExactToken) false 0 (Z.of_nat n)) 0 tokens in
  if hasTerminalWildcard compiled then
    MkCompiled (exactTokens compiled) (wildcardMap compiled) true
      (Z.of_nat n - 1) (maxTokens compiled)
  else compiled.

Definition newPatternMatcherFromTokens (pattern : string) (tokens : list string) : PatternMatcher :=
  let isPattern := tokensContainWildcards tokens in
  MkMatcher pattern tokens (if isPattern then Some (compile tokens) else None) isPattern.

Definition NewPatternMatcher (pattern : string) : result pattern_error PatternMatcher :=
  _ ← ValidatePattern pattern;
  Ok (newPatternMatcherFromTokens pattern (Split "." pattern)).

(** ** Matching *)

(** The pattern index grows at every call, so the number of pattern tokens
    left, and one for the call past the end, is fuel enough. *)
Fixpoint matchRecursive (fuel : nat) (subjectTokens : list string) (subjectIdx : nat)
    (compiled : CompiledPattern) (patternIdx : nat) : bool :=
  match fuel with
  | O => false
  | S fuel =>
      let patternLen := length (wildcardMap compiled) in
      let subjectLen := length subjectTokens in
      let at_ := nth patternIdx (wildcardMap compiled) ExactToken in
      let token := nth subjectIdx subjectTokens "" in
      if (patternLen <=? patternIdx)%nat then (subjectLen <=? subjectIdx)%nat
      else if (subjectLen <=? subjectIdx)%nat then
        (patternIdx =? patternLen - 1)%nat && bool_decide (at_ = GreedyWildcard)
      else match at_ with
      | ExactToken =>
          if negb (String.eqb token (nth patternIdx (exactTokens compiled) "")) then false
          else matchRecursive fuel subjectTokens (S subjectIdx) compiled (S patternIdx)
      | SingleWildcard =>
          if String.eqb token "" then false
          else matchRecursive fuel subjectTokens (S subjectIdx) compiled (S patternIdx)
      | GreedyWildcard => true
      end
  end.

Definition matchTokens (subjectTokens : list string) (compiled : CompiledPattern) : bool :=
  let patternLen := length (wildcardMap compiled) in
  let subjectLen := length subjectTokens in
  if hasTerminalWildcard compiled && (Z.of_nat subjectLen <? minTokens compiled)%Z then false
  else if negb (hasTerminalWildcard compiled) && negb (subjectLen =? patternLen)%nat then false
  else matchRecursive (S patternLen) subjectTokens 0 compiled 0.

(** A literal matcher has no compiled form; [MatchTokens] never asks for it. *)
Definition match_compiled (pm : PatternMatcher) (subjectTokens : list string) : bool :=
  match pm_compiled pm with
  | Some compiled => matchTokens subjectTokens compiled
  | None => false
  end.

Definition Match (pm : PatternMatcher) (subject : string) : bool :=
  if negb (pm_isPattern pm) then String.eqb (pm_pattern pm) subject
  else if String.eqb subject "" then
    String.eqb (pm_pattern pm) "" || String.eqb (pm_pattern pm) ">"
  else match_compiled pm (Split "." subject).

Fixpoint tokens_eqb (l k : list string) : bool :=
  match l, k with
  | [], [] => true
  | x :: l', y :: k' => String.eqb x y && tokens_eqb l' k'
  | _, _ => false
  end.

Definition MatchTokens (pm : PatternMatcher) (subjectTokens : list string) : bool :=
  if negb (pm_isPattern pm) then tokens_eqb (pm_tokens pm) subjectTokens
  else if (length subjectTokens =? 0)%nat then
    (length (pm_tokens pm) =? 1)%nat && String.eqb (nth 0 (pm_tokens pm) "") ">"
  else match_compiled pm subjectTokens.

(** ** The cache of match results *)

Record PatternCache := MkPatternCache {
  pc_cache : gmap string bool;
  pc_maxSize : Z;
  pc_enabled : bool;
}.

Definition NewPatternCache (maxSize : Z) : PatternCache :=
  MkPatternCache ∅ maxSize (0 <? maxSize)%Z.

Definition pc_Get (pc : PatternCache) (subject : string) : option bool :=
  if negb (pc_enabled pc) then None else pc_cache pc !! subject.

Definition pc_Set (pc : PatternCache) (subject : string) (matches : bool) : PatternCache :=
  if negb (pc_enabled pc) then pc
  else
    let cache := if (pc_maxSize pc <=? Z.of_nat (size (pc_cache pc)))%Z then ∅ else pc_cache pc in
    MkPatternCache (<[subject := matches]> cache) (pc_maxSize pc) (pc_enabled pc).

Definition pc_Clear (pc : PatternCache) : PatternCache :=
  if negb (pc_enabled pc) then pc else MkPatternCache ∅ (pc_maxSize pc) (pc_enabled pc).

Inductive cache_op := CacheSet (subject : string) (matches : bool) | CacheClear.

Definition cache_do (pc : PatternCache) (op : cache_op) : PatternCache :=
  match op with CacheSet s b => pc_Set pc s b | CacheClear => pc_Clear pc end.

(** ** Specification *)

(** A subject's tokens match a pattern's. *)
Inductive token_match : list string → list string → Prop :=
| tm_end : token_match [] []
| tm_exact t p s :
    t ≠ "*" → t ≠ ">" → token_match p s → token_match (t :: p) (t :: s)
| tm_single x p s :
    x ≠ "" → token_match p s → token_match ("*" :: p) (x :: s)
| tm_greedy s : token_match [">"] s.

(** The tokens of a valid pattern. *)
Record valid_tokens (p : list string) : Prop := {
  vt_nonempty : ∀ i t, p !! i = Some t → t ≠ "";
  vt_greedy_last : ∀ i, p !! i = Some ">" → S i = length p;
  vt_wild : ∀ i t, p !! i = Some t → t = "*" ∨ t = ">" ∨ containsWildcards t = false;
}.

(** The same relation as a function, the form the proofs compute with. *)
Fixpoint tmatch (p s : list string) : bool :=
  match p, s with
  | [], _ => match s with [] => true | _ => false end
  | t :: p', [] => String.eqb t ">" && match p' with [] => true | _ => false end
  | t :: p', x :: s' =>
      if String.eqb t ">" then true
      else if String.eqb t "*" then negb (String.eqb x "") && tmatch p' s'
      else String.eqb x t && tmatch p' s'
  end.

Definition wild (t : string) : WildcardType :=
  if String.eqb t "*" then SingleWildcard
  else if String.eqb t ">" then GreedyWildcard else ExactToken.

Definition exact (t : string) : string :=
  if String.eqb t "*" || String.eqb t ">" then "" else t.

(** ** Lemmas *)

Lemma wild_eq t : t = "*" ∨ t = ">" ∨ (t ≠ "*" ∧ t ≠ ">").
Proof. destruct (String.eqb_spec t "*"), (String.eqb_spec t ">"); auto. Qed.

Definition compiled_to (k : list string) (n : nat) (c : CompiledPattern) : Prop :=
  (exactTokens c = map exact k ++ replicate n "")%list ∧
  (wildcardMap c = map wild k ++ replicate n ExactToken)%list.

Lemma compile_step_spec c k n t :
  compiled_to k (S n) c →
  compiled_to (k ++ [t])%list n (compile_step c (length k) t) ∧
  hasTerminalWildcard (compile_step c (length k) t) = hasTerminalWildcard c || String.eqb t ">".
Proof.
  destruct c as [ex wm term mn mx]. intros [Hex Hwm]; simpl in *. subst.
  assert (∀ {A} (l : list A) x y, length l = length k →
    <[length k := x]> (l ++ y :: replicate n y)%list = (l ++ x :: replicate n y)%list) as Hins.
  { intros A l x y <-. by rewrite insert_app_r_alt, Nat.sub_diag by done. }
  unfold compiled_to. rewrite !map_app, <- !app_assoc. cbn [map app].
  assert (exact t = if String.eqb t "*" || String.eqb t ">" then "" else t) as -> by done.
  assert (wild t = if String.eqb t "*" then SingleWildcard
    else if String.eqb t ">" then GreedyWildcard else ExactToken) as -> by done.
  destruct (wild_eq t) as [->|[->|[E1%String.eqb_neq E2%String.eqb_neq]]]; simpl; rewrite ?E1, ?E2; simpl;
    rewrite ?Hins, ?orb_false_r, ?orb_true_r by (by rewrite length_map); done.
Qed.

Lemma compile_loop_spec tokens c k :
  compiled_to k (length tokens) c →
  compiled_to (k ++ tokens)%list 0 (compile_loop c (length k) tokens) ∧
  hasTerminalWildcard (compile_loop c (length k) tokens)
    = hasTerminalWildcard c || existsb (λ t, String.eqb t ">") tokens.
Proof.
  revert c k; induction tokens as [|t tokens IH]; intros c k Hc; simpl.
  - by rewrite app_nil_r, orb_false_r.
  - apply (compile_step_spec c k (length tokens) t) in Hc as [Hc Ht].
    apply IH in Hc. rewrite length_app, Nat.add_1_r, <- app_assoc in Hc.
    destruct Hc as [Hc Ht']. split; [done|]. by rewrite Ht', Ht, orb_assoc.
Qed.

Lemma compile_spec tokens :
  exactTokens (compile tokens) = map exact tokens ∧
  wildcardMap (compile tokens) = map wild tokens ∧
  hasTerminalWildcard (compile tokens) = existsb (λ t, String.eqb t ">") tokens ∧
  (hasTerminalWildcard (compile tokens) = true → minTokens (compile tokens) = Z.of_nat (length tokens) - 1)%Z.
Proof.
  unfold compile. cbv zeta.
  destruct (compile_loop_spec tokens (MkCompiled (replicate (length tokens) "")
    (replicate (length tokens) ExactToken) false 0 (Z.of_nat (length tokens))) []) as [[He Hw] Ht]; [done|].
  simpl in *. rewrite app_nil_r in *. rewrite <- He, <- Hw, <- Ht.
  case_match eqn:E; simpl; rewrite ?E; done.
Qed.

Lemma drop_cons_nth {A} (d : A) l i :
  i < length l → drop i l = nth i l d :: drop (S i) l.
Proof.
  intros Hi. apply lookup_lt_is_Some in Hi as [x Hx].
  by rewrite (drop_S l x i Hx), (nth_lookup_Some _ _ _ _ Hx).
Qed.

(** [matchRecursive] from two indices is [tmatch] of the rests. *)
Lemma matchRecursive_spec fuel tokens subject i j :
  length tokens - j < fuel →
  matchRecursive fuel subject i (compile tokens) j = tmatch (drop j tokens) (drop i subject).
Proof.
  destruct (compile_spec tokens) as (He & Hw & _).
  revert i j; induction fuel as [|fuel IH]; intros i j Hf; [lia|]. cbn [matchRecursive].
  rewrite Hw, He, length_map.
  destruct (Nat.leb_spec (length tokens) j) as [Hj|Hj].
  { rewrite (drop_ge tokens) by lia. cbn [tmatch].
    destruct (Nat.leb_spec (length subject) i); [by rewrite drop_ge by lia|].
    by rewrite (drop_cons_nth "") by lia. }
  rewrite (drop_cons_nth "" tokens) by lia.
  pose proof (map_nth wild tokens "" j) as Ew. pose proof (map_nth exact tokens "" j) as Ee.
  change (wild "") with ExactToken in Ew. change (exact "") with "" in Ee. rewrite Ew, Ee.
  clear Ew Ee. generalize (nth j tokens ""). intros t.
  destruct (Nat.leb_spec (length subject) i) as [Hi|Hi].
  { rewrite (drop_ge subject) by lia. cbn [tmatch]. unfold wild.
    replace (j =? length tokens - 1)%nat with
      match drop (S j) tokens with [] => true | _ => false end.
    - by destruct (wild_eq t) as [->|[->|[->%String.eqb_neq ->%String.eqb_neq]]];
        rewrite ?andb_false_r, ?andb_true_r.
    - pose proof (length_drop tokens (S j)) as Hl.
      destruct (drop (S j) tokens); simpl in Hl; symmetry;
        [apply Nat.eqb_eq | apply Nat.eqb_neq]; lia. }
  rewrite (drop_cons_nth "" subject) by lia. cbn [tmatch]. generalize (nth i subject ""). intros x.
  rewrite !IH by lia. unfold wild, exact.
  destruct (wild_eq t) as [->|[->|[->%String.eqb_neq ->%String.eqb_neq]]]; simpl; try done.
  - by destruct (String.eqb x "").
  - by destruct (String.eqb x t).
Qed.

(** The length checks of [matchTokens] only cut off subjects that fail. *)
Lemma tmatch_length p s :
  tmatch p s = true → if existsb (λ t, String.eqb t ">") p then True else length s = length p.
Proof.
  revert s; induction p as [|t p IH]; intros [|x s]; simpl; try done.
  - rewrite andb_true_iff. by intros [-> _].
  - destruct (String.eqb t ">"); [done|]. simpl. intros Hm.
    assert (tmatch p s = true) as H%IH.
    { by destruct (String.eqb t "*"); apply andb_true_iff in Hm as [_ ?]. }
    case_match; [done|lia].
Qed.

Lemma tmatch_min p s :
  (∀ i, p !! i = Some ">" → S i = length p) →
  tmatch p s = true → (length p - 1 ≤ length s)%nat.
Proof.
  revert s; induction p as [|t p IH]; intros [|x s]; simpl; try lia; intros Hg Hm.
  - destruct p; [simpl; lia|]. by rewrite andb_false_r in Hm.
  - assert (length p = 0 ∨ tmatch p s = true) as [?|H]; [|lia|].
    { destruct (String.eqb_spec t ">") as [->|].
      - left. pose proof (Hg 0 eq_refl). lia.
      - right. by destruct (String.eqb t "*"); apply andb_true_iff in Hm as [_ ?]. }
    apply IH in H; [lia|]. intros i Hi. pose proof (Hg (S i) Hi). lia.
Qed.

Lemma matchTokens_spec p s :
  (∀ i, p !! i = Some ">" → S i = length p) →
  matchTokens s (compile p) = tmatch p s.
Proof.
  intros Hg. unfold matchTokens. destruct (compile_spec p) as (_ & Hw & Ht & Hm).
  rewrite Hw, length_map, matchRecursive_spec by lia. rewrite !drop_0.
  pose proof (tmatch_length p s) as Hl. pose proof (tmatch_min p s Hg) as Hn.
  rewrite Ht in *. destruct (existsb _ p); simpl.
  - rewrite Hm by done. case_match; [|done]. destruct (tmatch p s); [|done].
    specialize (Hn eq_refl). lia.
  - case_match eqn:E; [|done]. destruct (tmatch p s); [|done].
    apply negb_true_iff, Nat.eqb_neq in E. by destruct E, Hl.
Qed.

Lemma tmatch_iff p s :
  (∀ i, p !! i = Some ">" → S i = length p) →
  tmatch p s = true ↔ token_match p s.
Proof.
  revert s; induction p as [|t p IH]; intros s Hg.
  { destruct s; simpl; split; try done; [constructor | by inversion 1]. }
  assert (∀ i, p !! i = Some ">" → S i = length p) as Hg'.
  { intros i Hi. pose proof (Hg (S i) Hi). simpl in *. lia. }
  assert (t = ">" → p = []) as Hlast.
  { intros ->. pose proof (Hg 0 eq_refl). destruct p; simpl in *; [done|lia]. }
  destruct s as [|x s]; simpl.
  - split.
    + rewrite andb_true_iff, String.eqb_eq. intros [-> Hp]. rewrite Hlast by done. constructor.
    + by inversion 1; subst.
  - destruct (wild_eq t) as [->|[->|[Ht1 Ht2]]]; simpl.
    + rewrite andb_true_iff, negb_true_iff, String.eqb_neq, IH by done. split.
      * intros []. by constructor.
      * by inversion 1; subst.
    + rewrite Hlast by done. split; [constructor | done].
    + apply String.eqb_neq in Ht1 as E1, Ht2 as E2. rewrite E1, E2.
      rewrite andb_true_iff, String.eqb_eq, IH by done. split.
      * intros [-> ?]. by constructor.
      * by inversion 1; subst.
Qed.

Lemma tokens_eqb_spec l k : tokens_eqb l k = true ↔ l = k.
Proof.
  revert k; induction l as [|x l IH]; intros [|y k]; simpl; try done.
  rewrite andb_true_iff, String.eqb_eq, IH. naive_solver.
Qed.

(** Without wildcards matching is equality. *)
Lemma tmatch_literal p s :
  tokensContainWildcards p = false → tmatch p s = tokens_eqb p s.
Proof.
  revert s; induction p as [|t p IH]; intros [|x s]; simpl; try done;
    rewrite ?orb_false_iff; intros [[E1 E2] Hp]; rewrite E2; [done|].
  by rewrite E1, IH, String.eqb_sym.
Qed.

Lemma validate_token_Ok n i t :
  i < n →
  validate_token n i t = Ok tt ↔
  t ≠ "" ∧ (t = ">" → S i = n) ∧ (t = "*" ∨ t = ">" ∨ containsWildcards t = false).
Proof.
  intros Hi. unfold validate_token, containsWildcards.
  destruct (String.eqb_spec t ""); [naive_solver|].
  destruct (String.eqb_spec t ">").
  { rewrite guard_err_Ok, negb_false_iff, Nat.eqb_eq. intuition lia. }
  destruct (String.eqb_spec t "*"); [naive_solver|].
  rewrite guard_err_Ok. naive_solver.
Qed.

Lemma validate_tokens_Ok p u : validate_tokens p = Ok u ↔ valid_tokens p.
Proof.
  unfold validate_tokens. rewrite forM_Ok.
  assert ((∀ i t, p !! i = Some t → validate_token (length p) i t = Ok tt) ↔
          (∀ i t, p !! i = Some t →
    t ≠ "" ∧ (t = ">" → S i = length p) ∧ (t = "*" ∨ t = ">" ∨ containsWildcards t = false))) as ->.
  { split; intros H i t Hi; pose proof (lookup_lt_Some _ _ _ Hi); specialize (H i t Hi);
      by apply validate_token_Ok in H. }
  split; [intros H; split; naive_solver | intros [] i t Hi; split_and!; naive_solver].
Qed.

Lemma NewPatternMatcher_Ok pattern pm :
  NewPatternMatcher pattern = Ok pm →
  valid_tokens (Split "." pattern) ∧ pm = newPatternMatcherFromTokens pattern (Split "." pattern).
Proof.
  unfold NewPatternMatcher, ValidatePattern. rewrite bind_Ok. intros (u & Hu & [= <-]).
  case_match; [done|]. apply validate_tokens_Ok in Hu. done.
Qed.

Lemma MatchTokens_spec pattern p s :
  (∀ i, p !! i = Some ">" → S i = length p) →
  MatchTokens (newPatternMatcherFromTokens pattern p) s = tmatch p s.
Proof.
  intros Hg. unfold MatchTokens, newPatternMatcherFromTokens, match_compiled; simpl.
  destruct (tokensContainWildcards p) eqn:E; simpl; [|by rewrite tmatch_literal].
  rewrite matchTokens_spec by done. destruct s; simpl; [|done].
  destruct p as [|t [|t' p]]; simpl; [done| |by rewrite andb_false_r].
  by rewrite andb_true_r.
Qed.

Lemma Match_spec pattern s :
  valid_tokens (Split "." pattern) →
  Match (newPatternMatcherFromTokens pattern (Split "." pattern)) s
    = tmatch (Split "." pattern) (Split "." s).
Proof.
  intros [Hne Hg _]. unfold Match, newPatternMatcherFromTokens, match_compiled; simpl.
  destruct (tokensContainWildcards (Split "." pattern)) eqn:E; simpl.
  - rewrite matchTokens_spec by done. destruct (String.eqb_spec s "") as [->|]; [|done].
    change (Split "." "") with [""]. destruct (Split "." pattern) as [|t p] eqn:Ep;
      [by apply Split_ne in Ep|]. rewrite <- (Join_Split "." pattern), Ep.
    pose proof (Hne 0 t eq_refl) as Ht%String.eqb_neq.
    assert (t = ">" → p = []) as Hlast.
    { intros ->. pose proof (Hg 0 eq_refl). by destruct p. }
    destruct (wild_eq t) as [->|[->|[E1%String.eqb_neq E2%String.eqb_neq]]]; simpl.
    + by destruct p.
    + by rewrite Hlast.
    + rewrite E1, E2. destruct t as [|a t]; [done|]. simpl.
      destruct p as [|u p]; [by rewrite E2|]. cbn [String.append].
      destruct (Ascii.eqb a ">") eqn:Ea; simpl; rewrite ?Ea; [|done]. by destruct t.
  - rewrite tmatch_literal by done. apply eq_bool_prop_intro.
    rewrite !Is_true_true, String.eqb_eq, tokens_eqb_spec.
    split; [by intros -> | apply Split_inj].
Qed.

(** ** Properties *)

(** C9: A pattern that [NewPatternMatcher] accepts matches exactly the subjects whose
    tokens the relation [token_match] relates to its own: [*] one non-empty
    token, a final [>] any number of tokens, none included, every other token
    itself.  The compiled form, the length checks, the literal fast path and the
    fast path for the empty subject change nothing. *)
Theorem Match_correct pattern pm subject :
  NewPatternMatcher pattern = Ok pm →
  Match pm subject = true ↔ token_match (Split "." pattern) (Split "." subject).
Proof.
  intros [Hv ->]%NewPatternMatcher_Ok. rewrite Match_spec by done.
  apply tmatch_iff, Hv.
Qed.

Lemma Match_correct_witness :
  ∃ pm, NewPatternMatcher "sensors.*.>" = Ok pm ∧
  (Match pm "sensors.a.b.c" = true ↔ token_match ["sensors"; "*"; ">"] ["sensors"; "a"; "b"; "c"]).
Proof.
  eexists. split; [reflexivity|]. exact (Match_correct "sensors.*.>" _ "sensors.a.b.c" eq_refl).
Defined.

(** [ValidatePattern] accepts exactly the non-empty patterns without empty
    tokens in which [>] is only the last token and a token that holds a wildcard
    character is nothing but that wildcard. *)
Theorem ValidatePattern_correct pattern :
  ValidatePattern pattern = Ok tt ↔ pattern ≠ "" ∧ valid_tokens (Split "." pattern).
Proof.
  unfold ValidatePattern. destruct (String.eqb_spec pattern ""); [naive_solver|].
  rewrite validate_tokens_Ok. naive_solver.
Qed.

(** The value of the last [CacheSet] of a subject since the last [CacheClear]. *)
Fixpoint last_set (subject : string) (ops : list cache_op) (found : option bool) : option bool :=
  match ops with
  | [] => found
  | CacheSet s b :: ops' => last_set subject ops' (if String.eqb s subject then Some b else found)
  | CacheClear :: ops' => last_set subject ops' None
  end.

Lemma pc_Set_size pc s b :
  (Z.of_nat (size (pc_cache pc)) ≤ Z.max 0 (pc_maxSize pc))%Z → pc_enabled pc = (0 <? pc_maxSize pc)%Z →
  (Z.of_nat (size (pc_cache (pc_Set pc s b))) ≤ Z.max 0 (pc_maxSize pc))%Z.
Proof.
  intros Hs He. unfold pc_Set. destruct (pc_enabled pc) eqn:E; simpl; [|done].
  assert (0 < pc_maxSize pc)%Z by lia.
  destruct (Z.leb_spec (pc_maxSize pc) (Z.of_nat (size (pc_cache pc)))).
  - rewrite map_size_insert, lookup_empty, map_size_empty. lia.
  - rewrite map_size_insert. destruct (_ !! s); simpl; lia.
Qed.

Lemma cache_run_spec maxSize ops pc subject found :
  pc_maxSize pc = maxSize → pc_enabled pc = (0 <? maxSize)%Z →
  (Z.of_nat (size (pc_cache pc)) ≤ Z.max 0 maxSize)%Z →
  (∀ b, pc_Get pc subject = Some b → found = Some b) →
  let pc' := foldl cache_do pc ops in
  (Z.of_nat (size (pc_cache pc')) ≤ Z.max 0 maxSize)%Z ∧
  (∀ b, pc_Get pc' subject = Some b → last_set subject ops found = Some b).
Proof.
  revert pc found; induction ops as [|op ops IH]; intros pc found Hm He Hs Hg; [done|].
  destruct op as [s b|]; cbn [foldl cache_do last_set]; apply IH; clear IH.
  - unfold pc_Set. by destruct (pc_enabled pc).
  - rewrite <- He. unfold pc_Set. by destruct (pc_enabled pc) eqn:E.
  - rewrite <- Hm in *. by apply pc_Set_size.
  - unfold pc_Get, pc_Set in *. destruct (pc_enabled pc) eqn:E; simpl; rewrite ?E; simpl; [|done].
    intros b'. destruct (String.eqb_spec s subject) as [->|Hne].
    + by rewrite lookup_insert_eq.
    + rewrite lookup_insert_ne by done. destruct (_ <=? _)%Z; [by rewrite lookup_empty|]. apply Hg.
  - unfold pc_Clear. by destruct (pc_enabled pc).
  - rewrite <- He. unfold pc_Clear. by destruct (pc_enabled pc) eqn:E.
  - unfold pc_Clear. destruct (pc_enabled pc); simpl; [rewrite map_size_empty; lia | done].
  - unfold pc_Get, pc_Clear in *. destruct (pc_enabled pc) eqn:E; simpl; rewrite ?E; simpl; [|done].
    intros b'. by rewrite lookup_empty.
Qed.

(** Whatever is stored in and cleared from a [PatternCache], it never holds more
    than [maxSize] subjects, and a result it returns is the one stored last for
    that subject: eviction can only cost a miss. *)
Theorem PatternCache_sound maxSize ops subject :
  let pc := foldl cache_do (NewPatternCache maxSize) ops in
  (Z.of_nat (size (pc_cache pc)) ≤ Z.max 0 maxSize)%Z ∧
  (∀ b, pc_Get pc subject = Some b → last_set subject ops None = Some b).
Proof.
  apply cache_run_spec; [done | done | |].
  - simpl. rewrite map_size_empty. lia.
  - unfold pc_Get. simpl. destruct (0 <? maxSize)%Z; simpl; [by rewrite lookup_empty | done].
Qed.
