(* ===== verification/PathMatcher.v ===== *)
(** * HTTP path patterns (internal/rule/path_matcher.go)

    The paths of HTTP triggers, matched segment by segment with the machinery
    of the subject patterns. *)

From S2P Require Import Prelude GoStrings Pattern.
Local Open Scope string_scope.
#[local] Arguments String.append !_ _ /.

Definition pathTokens (path : string) : list string :=
  let trimmed := TrimChar "/" path in
  if String.eqb trimmed "" then [] else Split "/" trimmed.

Definition ValidatePathPattern (path : string) : result pattern_error unit :=
  if String.eqb path "" then Err EmptyPattern
  else if negb (HasPrefix path "/") then Err (PathWithoutSlash path)
  else
    let trimmed := TrimChar "/" path in
    if String.eqb trimmed "" then Ok tt
    else validate_tokens (Split "/" trimmed).

Definition NewPathMatcher (path : string) : result pattern_error PatternMatcher :=
  _ ← ValidatePathPattern path;
  Ok (newPatternMatcherFromTokens path (pathTokens path)).

Definition MatchPath (pm : PatternMatcher) (requestPath : string) : bool :=
  MatchTokens pm (pathTokens requestPath).

Definition PathContainsWildcards (path : string) : bool :=
  existsb (λ token, String.eqb token "*" || String.eqb token ">") (pathTokens path).

(** ** Lemmas *)

Lemma ValidatePathPattern_Ok path u :
  ValidatePathPattern path = Ok u ↔ HasPrefix path "/" = true ∧ valid_tokens (pathTokens path).
Proof.
  unfold ValidatePathPattern, pathTokens.
  destruct (String.eqb_spec path "") as [->|]; [naive_solver|].
  destruct (HasPrefix path "/"); simpl; [|naive_solver].
  destruct (String.eqb (TrimChar "/" path) "").
  - destruct u. split; [|done]. intros _. split; [done|].
    split; intros i; intros; by rewrite lookup_nil in *.
  - rewrite validate_tokens_Ok. naive_solver.
Qed.

(** Slashes around a path do not change its segments. *)
Lemma TrimLeftChar_cons c s : TrimLeftChar c (String c s) = TrimLeftChar c s.
Proof. simpl. by rewrite Ascii.eqb_refl. Qed.

Lemma all_char_snoc c s :
  sforall (λ x, Ascii.eqb x c) (s ++ String c "") = sforall (λ x, Ascii.eqb x c) s.
Proof. induction s as [|a s IH]; cbn; [by rewrite Ascii.eqb_refl | by rewrite IH]. Qed.

Lemma TrimRightChar_snoc c s : TrimRightChar c (s ++ String c "") = TrimRightChar c s.
Proof.
  induction s as [|a s IH]; cbn; [by rewrite Ascii.eqb_refl|].
  by rewrite all_char_snoc, IH.
Qed.

Lemma TrimLeftChar_snoc c s :
  TrimLeftChar c (s ++ String c "") =
    if sforall (λ x, Ascii.eqb x c) s then "" else TrimLeftChar c s ++ String c "".
Proof.
  induction s as [|a s IH]; cbn; [by rewrite Ascii.eqb_refl|].
  by destruct (Ascii.eqb a c).
Qed.

Lemma TrimLeftChar_all c s : sforall (λ x, Ascii.eqb x c) s = true → TrimLeftChar c s = "".
Proof. induction s as [|a s IH]; cbn; [done|]. by intros [-> ?%IH]%andb_true_iff. Qed.

Lemma TrimChar_snoc c s : TrimChar c (s ++ String c "") = TrimChar c s.
Proof.
  unfold TrimChar. rewrite TrimLeftChar_snoc. destruct (sforall _ s) eqn:E.
  - by rewrite TrimLeftChar_all.
  - apply TrimRightChar_snoc.
Qed.

Lemma pathTokens_slash_r path : pathTokens (path ++ "/") = pathTokens path.
Proof. unfold pathTokens. by rewrite TrimChar_snoc. Qed.

Lemma pathTokens_slash_l path : pathTokens ("/" ++ path) = pathTokens path.
Proof. done. Qed.

(** ** Properties *)

(** A matcher that [NewPathMatcher] builds matches exactly the request paths whose
    segments match its own, [*] one non-empty segment and a final [>] any number
    of segments, none included; leading and trailing slashes of the request
    path make no difference. *)
Theorem MatchPath_correct path pm requestPath :
  NewPathMatcher path = Ok pm →
  (MatchPath pm requestPath = true ↔ token_match (pathTokens path) (pathTokens requestPath)) ∧
  MatchPath pm (requestPath ++ "/") = MatchPath pm requestPath ∧
  MatchPath pm ("/" ++ requestPath) = MatchPath pm requestPath.
Proof.
  unfold NewPathMatcher. rewrite bind_Ok. intros (u & [_ Hv]%ValidatePathPattern_Ok & [= <-]).
  unfold MatchPath. rewrite !MatchTokens_spec by apply Hv. split; [apply tmatch_iff, Hv|].
  by rewrite pathTokens_slash_r, pathTokens_slash_l.
Qed.

Lemma MatchPath_correct_witness :
  ∃ pm, NewPathMatcher "/webhooks/*/>" = Ok pm ∧
  (MatchPath pm "/webhooks/github" = true ↔
     token_match (pathTokens "/webhooks/*/>") (pathTokens "/webhooks/github")) ∧
  MatchPath pm ("/webhooks/github" ++ "/") = MatchPath pm "/webhooks/github" ∧
  MatchPath pm ("/" ++ "/webhooks/github") = MatchPath pm "/webhooks/github".
Proof.
  eexists. split; [reflexivity|].
  exact (MatchPath_correct "/webhooks/*/>" _ "/webhooks/github" eq_refl).
Defined.

(** The comment of [NewPathMatcher] says that [>] matches one or more trailing
    segments; it matches none as well. *)
Lemma greedy_path_matches_no_segment :
  (pm ← NewPathMatcher "/webhooks/>"; Ok (MatchPath pm "/webhooks")) = Ok true.
Proof. reflexivity. Qed.
