(* ===== verification/Traversal.v ===== *)
(** * JSON paths (internal/rule/json_traversal.go)

    Navigation of a decoded document by a list of segments, and the splitting
    of a dotted path in which a template variable in braces is one segment.
    [reaches] is the specification of the navigation. *)

From S2P Require Import Prelude GoStrings Value.
Local Open Scope string_scope.
#[local] Arguments String.append !_ _ /.

Inductive traverse_error :=
| EmptyPathSegment (i : nat)
| KeyNotFound (segment : string) (i : nat)
| InvalidArrayIndex (segment : string) (i : nat)
| NegativeIndexOutOfBounds (segment : string) (len : nat) (i : nat)
| ArrayIndexOutOfBounds (index : Z) (len : nat) (i : nat)
| CannotTraverseNil (segment : string) (i : nat)
| CannotTraverse (typeStr segment : string) (i : nat).

(** ** Traversal *)

(** A length and a negative index cannot overflow when added. *)

Definition parseArrayIndex (segment : string) (arrayLen position : nat) : result traverse_error Z :=
  match Atoi segment with
  | None => Err (InvalidArrayIndex segment position)
  | Some index =>
      if (index <? 0)%Z then
        let index := (Z.of_nat arrayLen + index)%Z in
        if (index <? 0)%Z then Err (NegativeIndexOutOfBounds segment arrayLen position) else Ok index
      else Ok index
  end.

(** The entry of a [map[any]any] whose key is the string itself, and else the
    first whose key prints as it. *)
Definition any_map_lookup (m : list (value * value)) (segment : string) : option value :=
  let is_key := λ kv : value * value, match kv.1 with VStr s => String.eqb s segment | _ => false end in
  let prints := λ kv : value * value, String.eqb (sprint kv.1) segment in
  match List.find is_key m with
  | Some kv => Some kv.2
  | None => snd <$> List.find prints m
  end.

Definition traverseSegment (current : value) (segment : string) (position : nat) : result traverse_error value :=
  match current with
  | VObj m => of_option (KeyNotFound segment position) (m !! segment)
  | VAnyMap m => of_option (KeyNotFound segment position) (any_map_lookup m segment)
  | VArr l =>
      index ← parseArrayIndex segment (length l) position;
      if (index <? 0)%Z || (Z.of_nat (length l) <=? index)%Z
      then Err (ArrayIndexOutOfBounds index (length l) position)
      else of_option (ArrayIndexOutOfBounds index (length l) position) (l !! Z.to_nat index)
  | VNil => Err (CannotTraverseNil segment position)
  | _ => Err (CannotTraverse (type_name current) segment position)
  end.

Fixpoint traverse_from (i : nat) (current : value) (path : list string) : result traverse_error value :=
  match path with
  | [] => Ok current
  | segment :: rest =>
      if String.eqb segment "" then Err (EmptyPathSegment i)
      else next ← traverseSegment current segment i; traverse_from (S i) next rest
  end.

Definition TraversePath (data : value) (path : list string) : result traverse_error value :=
  traverse_from 0 data path.

Definition TraversePathString (data : value) (pathStr : string) : result traverse_error value :=
  if String.eqb pathStr "" then Ok data else TraversePath data (Split "." pathStr).

Definition ExtractValue (data : value) (path : list string) : value :=
  match TraversePath data path with Ok v => v | Err _ => VNil end.

Definition HasPath (data : value) (path : list string) : bool := is_ok (TraversePath data path).

(** ** Splitting a path around braces *)

Inductive split_error :=
| UnmatchedClose (i : nat)
| EmptySplitSegment (i : nat)
| UnmatchedOpen (missing : nat)
| EndsWithDot.

Fixpoint split_loop (runes : list (nat * string)) (segments : list string)
    (currentSegment : string) (braceDepth : nat) : result split_error (list string) :=
  match runes with
  | [] =>
      if (0 <? braceDepth)%nat then Err (UnmatchedOpen braceDepth)
      else if negb (String.eqb currentSegment "") then Ok (segments ++ [currentSegment])%list
      else if (0 <? length segments)%nat then Err EndsWithDot
      else Ok segments
  | (i, char) :: rest =>
      if String.eqb char "{" then split_loop rest segments (currentSegment ++ char) (S braceDepth)
      else if String.eqb char "}" then
        match braceDepth with
        | O => Err (UnmatchedClose i)
        | S depth => split_loop rest segments (currentSegment ++ char) depth
        end
      else if String.eqb char "." then
        if (braceDepth =? 0)%nat then
          if negb (String.eqb currentSegment "") then
            split_loop rest (segments ++ [currentSegment])%list "" braceDepth
          else Err (EmptySplitSegment i)
        else split_loop rest segments (currentSegment ++ char) braceDepth
      else split_loop rest segments (currentSegment ++ char) braceDepth
  end.

Definition SplitPathRespectingBraces (path : string) : result split_error (list string) :=
  if String.eqb path "" then Ok [] else split_loop (range_string path) [] "" 0.

(** ** Specification *)

(** The element an index names: from the end when it is negative. *)
Definition element_at (l : list value) (z : Z) : option value :=
  if (z <? 0)%Z then
    if (Z.of_nat (length l) + z <? 0)%Z then None else l !! Z.to_nat (Z.of_nat (length l) + z)
  else l !! Z.to_nat z.

(** The value a path leads to. *)
Inductive reaches : value → list string → value → Prop :=
| reaches_here v : reaches v [] v
| reaches_key m k w path v :
    k ≠ "" → m !! k = Some w → reaches w path v → reaches (VObj m) (k :: path) v
| reaches_any_key m k w path v :
    k ≠ "" → any_map_lookup m k = Some w → reaches w path v → reaches (VAnyMap m) (k :: path) v
| reaches_index l k z w path v :
    Atoi k = Some z → element_at l z = Some w → reaches w path v → reaches (VArr l) (k :: path) v.

(** A segment of a braces-aware path: well-formed text, its braces balanced,
    every dot inside braces. *)
Fixpoint scan_segment (runes : list (nat * string)) (depth : nat) : option nat :=
  match runes with
  | [] => Some depth
  | (_, char) :: rest =>
      if String.eqb char "{" then scan_segment rest (S depth)
      else if String.eqb char "}" then
        match depth with O => None | S d => scan_segment rest d end
      else if String.eqb char "." && (depth =? 0)%nat then None
      else scan_segment rest depth
  end.

Definition segment_ok (s : string) : Prop :=
  s ≠ "" ∧ utf8_Valid s = true ∧ scan_segment (range_string s) 0 = Some 0.

(** ** Lemmas *)

Lemma traverse_from_shift i j data path :
  ok_or_none (traverse_from i data path) = ok_or_none (traverse_from j data path).
Proof.
  revert i j data; induction path as [|seg path IH]; intros i j data; [done|].
  cbn [traverse_from]. destruct (String.eqb seg ""); [done|].
  assert (ok_or_none (traverseSegment data seg i) = ok_or_none (traverseSegment data seg j)) as H.
  { destruct data as [| | | | | | |l|m|m|]; simpl; try done;
      [|by destruct (m !! seg)|by destruct (any_map_lookup m seg)].
    unfold parseArrayIndex. destruct (Atoi seg) as [z|]; [|done].
    assert (∀ y p, ok_or_none (if (y <? 0)%Z || (Z.of_nat (length l) <=? y)%Z
        then Err (ArrayIndexOutOfBounds y (length l) p)
        else of_option (ArrayIndexOutOfBounds y (length l) p) (l !! Z.to_nat y)) =
      if (y <? 0)%Z || (Z.of_nat (length l) <=? y)%Z then None else l !! Z.to_nat y) as Hy.
    { intros y p. case_match; [done|]. by destruct (l !! _). }
    destruct (z <? 0)%Z; [destruct (_ + z <? 0)%Z; [done|]|]; cbn; by rewrite !Hy. }
  destruct (traverseSegment data seg i), (traverseSegment data seg j); simplify_eq/=; try done.
Qed.

Lemma traverse_from_app i data p q :
  traverse_from i data (p ++ q) = (v ← traverse_from i data p; traverse_from (i + length p) v q).
Proof.
  revert i data; induction p as [|seg p IH]; intros i data; cbn [traverse_from app length].
  - by rewrite Nat.add_0_r.
  - destruct (String.eqb seg ""); [done|]. destruct (traverseSegment data seg i); [|done].
    cbn. rewrite IH. by rewrite <- plus_n_Sm.
Qed.

Lemma of_option_Ok {E A} (e : E) (o : option A) a : of_option e o = Ok a ↔ o = Some a.
Proof. destruct o; simpl; naive_solver. Qed.

Lemma traverseSegment_index l seg i v :
  traverseSegment (VArr l) seg i = Ok v ↔ ∃ z, Atoi seg = Some z ∧ element_at l z = Some v.
Proof.
  cbn [traverseSegment]. rewrite bind_Ok. unfold parseArrayIndex, element_at. split.
  - intros (z & Hz & Hv). destruct (Atoi seg) as [y|]; [|done]. exists y. split; [done|].
    destruct (Z.ltb_spec y 0); [destruct (Z.ltb_spec (Z.of_nat (length l) + y) 0)|]; simplify_eq/=.
    all: case_match; [done|]; by apply of_option_Ok in Hv.
  - intros (z & -> & Hv). destruct (Z.ltb_spec z 0); [destruct (Z.ltb_spec (Z.of_nat (length l) + z) 0); [done|]|].
    all: eexists; split; [done|]; pose proof (lookup_lt_Some _ _ _ Hv).
    all: rewrite (proj2 (Z.ltb_ge _ _)), (proj2 (Z.leb_gt _ _)) by lia; simpl; by rewrite Hv.
Qed.

Lemma Atoi_empty : Atoi "" = None.
Proof. done. Qed.

Lemma traverse_from_reaches i data path v :
  traverse_from i data path = Ok v ↔ reaches data path v.
Proof.
  revert i data; induction path as [|seg path IH]; intros i data; cbn [traverse_from].
  { split; [intros [= ->]; constructor | by inversion 1]. }
  destruct (String.eqb_spec seg "") as [->|Hne].
  { split; [done|]. inversion 1; subst; try done. }
  rewrite bind_Ok. setoid_rewrite IH. split.
  - intros (w & Hw & Hr). destruct data; try done.
    + apply traverseSegment_index in Hw as (z & Hz & Hv). by econstructor.
    + apply of_option_Ok in Hw. by econstructor.
    + apply of_option_Ok in Hw. by eapply reaches_any_key.
  - inversion 1; subst; eexists; (split; [|done]); cbn [traverseSegment]; try by apply of_option_Ok.
    apply traverseSegment_index. eauto.
Qed.


(** ** Lemmas on the splitting *)

(** The text a state of the loop stands for. *)
Definition joined (segments : list string) (cur : string) : string :=
  foldr (λ s acc, s ++ "." ++ acc) cur segments.

Lemma joined_app segments s cur : joined (segments ++ [s]) cur = joined segments (s ++ "." ++ cur).
Proof. unfold joined. by rewrite foldr_app. Qed.

Lemma joined_cur segments cur t : joined segments (cur ++ t) = joined segments cur ++ t.
Proof. induction segments as [|s l IH]; simpl; [done|]. by rewrite IH, !app_assoc_str. Qed.

Lemma Join_joined segments cur : Join "." (segments ++ [cur]) = joined segments cur.
Proof.
  induction segments as [|s l IH]; [done|]. cbn [app joined foldr]. fold (joined l cur).
  rewrite <- IH. by destruct l.
Qed.

(** A run of the loop over the runes of one segment. *)
Lemma split_loop_segment rs rest segments cur d d' :
  scan_segment rs d = Some d' →
  split_loop (rs ++ rest) segments cur d = split_loop rest segments (cur ++ concat_runes rs) d'.
Proof.
  revert cur d; induction rs as [|[i c] rs IH]; intros cur d; cbn [scan_segment app].
  { intros [= ->]. by rewrite app_nil_r_str. }
  cbn [split_loop concat_runes foldr snd]. fold (concat_runes rs). rewrite <- app_assoc_str.
  destruct (String.eqb c "{"); [apply IH|].
  destruct (String.eqb c "}"); [destruct d; [done|apply IH]|].
  destruct (String.eqb c "."); [destruct (d =? 0)%nat; [done|]|]; apply IH.
Qed.

Lemma runes_dot pos t : runes_from pos 0 ("." ++ t) = (pos, ".") :: runes_from (S pos) 0 t.
Proof. done. Qed.

Lemma scan_segment_pos rs rs' d :
  map snd rs = map snd rs' → scan_segment rs d = scan_segment rs' d.
Proof.
  revert rs' d; induction rs as [|[i c] rs IH]; intros [|[j c'] rs'] d; try done.
  simpl. intros [= -> H]. repeat case_match; auto.
Qed.

Lemma runes_from_pos pos pos' skip s :
  map snd (runes_from pos skip s) = map snd (runes_from pos' skip s).
Proof.
  revert pos pos' skip; induction s as [|a s IH]; intros pos pos' skip; [done|].
  cbn [runes_from]. destruct skip; [destruct (rune_len _); simpl; f_equal|]; apply IH.
Qed.

Lemma split_loop_joined segs pos segments :
  Forall segment_ok segs → segs ≠ [] →
  split_loop (runes_from pos 0 (Join "." segs)) segments "" 0 = Ok (segments ++ segs)%list.
Proof.
  intros H. revert pos segments; induction H as [|s l (Hne & Hv & Hs) Hl IH]; intros pos segments; [done|].
  intros _. rewrite (scan_segment_pos _ (runes_from pos 0 s)) in Hs by apply runes_from_pos.
  assert (concat_runes (runes_from pos 0 s) = s) as Hc by (apply (concat_runes_from pos 0); [lia|done]).
  apply String.eqb_neq in Hne. destruct l as [|s' l].
  - cbn [Join]. rewrite <- (app_nil_r (runes_from pos 0 s)), (split_loop_segment _ _ _ _ _ _ Hs).
    rewrite Hc. cbn. by rewrite Hne.
  - cbn [Join]. rewrite runes_from_app by (done || lia). rewrite (split_loop_segment _ _ _ _ _ _ Hs).
    rewrite Hc, runes_dot. cbn [split_loop String.append]. simpl. rewrite Hne. simpl.
    rewrite IH by done. by rewrite <- app_assoc.
Qed.

Lemma split_loop_Join rs segments cur d out :
  split_loop rs segments cur d = Ok out → Join "." out = joined segments cur ++ concat_runes rs.
Proof.
  revert segments cur d; induction rs as [|[i c] rs IH]; intros segments cur d; cbn [split_loop].
  - cbn [concat_runes foldr]. rewrite app_nil_r_str. case_match; [done|].
    destruct (String.eqb_spec cur "") as [->|]; simpl.
    + destruct segments; simpl; [by intros [= <-] | done].
    + intros [= <-]. apply Join_joined.
  - cbn [concat_runes foldr snd]. fold (concat_runes rs). rewrite <- app_assoc_str.
    rewrite <- joined_cur.
    destruct (String.eqb c "{"); [apply IH|].
    destruct (String.eqb c "}"); [destruct d; [done|apply IH]|].
    destruct (String.eqb_spec c ".") as [->|]; [|apply IH].
    destruct (d =? 0)%nat; [|apply IH]. destruct (negb _); [|done].
    intros H%IH. rewrite H, joined_app, <- !joined_cur. by rewrite !app_assoc_str.
Qed.

(** ** Properties *)

(** [TraversePath] returns a value exactly when the path leads to it: object keys
    that exist, array indices in range, a negative index counting from the end. *)
Theorem TraversePath_correct data path v :
  TraversePath data path = Ok v ↔ reaches data path v.
Proof. apply traverse_from_reaches. Qed.

(** Traversing a path of two parts is traversing the first and then, from where
    it leads, the second. *)
Theorem TraversePath_app data p q :
  ok_or_none (TraversePath data (p ++ q)) =
    (v ← ok_or_none (TraversePath data p); ok_or_none (TraversePath v q)).
Proof.
  unfold TraversePath. rewrite traverse_from_app.
  destruct (traverse_from 0 data p) as [v|]; [|done]. apply traverse_from_shift.
Qed.

(** Joining segments with dots and splitting around braces gives the segments
    back, when each is non-empty, has its braces balanced and no dot outside
    them; and whatever a well-formed path is split into joins to that path. *)
Theorem SplitPathRespectingBraces_roundtrip segs path :
  (Forall segment_ok segs → SplitPathRespectingBraces (Join "." segs) = Ok segs) ∧
  (utf8_Valid path = true → SplitPathRespectingBraces path = Ok segs → Join "." segs = path).
Proof.
  unfold SplitPathRespectingBraces. split.
  - intros H. destruct (String.eqb_spec (Join "." segs) "") as [E|_].
    + destruct H as [|s l (Hne & _) _]; [done|]. destruct l; [done|]. by destruct s.
    + destruct segs; [done|]. by apply (split_loop_joined _ 0 []).
  - intros Hv. destruct (String.eqb_spec path "") as [->|_]; [by intros [= <-]|].
    intros ->%split_loop_Join. by apply concat_range_string.
Qed.

Lemma SplitPathRespectingBraces_roundtrip_witness :
  SplitPathRespectingBraces (Join "." ["profile"; "{user.name}"; "tier"]) = Ok ["profile"; "{user.name}"; "tier"] ∧
  Join "." ["a"; "{b.{c}}"] = "a.{b.{c}}".
Proof.
  split.
  - apply (proj1 (SplitPathRespectingBraces_roundtrip ["profile"; "{user.name}"; "tier"] "")).
    repeat (constructor; [split_and!; [discriminate | reflexivity | reflexivity]|]). constructor.
  - apply (proj2 (SplitPathRespectingBraces_roundtrip ["a"; "{b.{c}}"] "a.{b.{c}}")); reflexivity.
Defined.
