(* ===== verification/Env.v ===== *)
(** * The environment of an evaluation

    What the evaluation of a rule reaches beyond its arguments: the codec and
    the signature library it imports, the key-value server, the clock and the
    random sources, all parameters ([Env]); and the state it changes, with the
    monad [M] that threads it. *)

From S2P Require Import Prelude GoStrings GoFloat GoTime Value.
Local Open Scope string_scope.

Class Env := {
  env_JSON :: JSON;
  (** what is outside the process *)
  World : Type;
  (** [jetstream.KeyValue.Get] on a bucket: [None] is any error *)
  kv_store_Get : World → string → string → option string * World;
  (** [time.Now] *)
  time_Now : World → Time * World;
  (** [uuid.New().String()] and [uuid.NewV7()] *)
  uuid_New : World → string * World;
  uuid_NewV7 : World → option string * World;
  (** [rand.Int64N(n)], [rand.IntN(n)], [rand.Float64()] *)
  rand_Int64N : World → Z → Z * World;
  rand_IntN : World → Z → Z * World;
  rand_Float64 : World → float64 * World;
  (** [nkeys.FromPublicKey] succeeds, and [Verify] with that key *)
  nkeys_FromPublicKey : string → bool;
  nkeys_Verify : string → string → string → bool;
}.

(** The parse of a KV field, as [parseCache] keeps it. *)
Record parsedKVField := MkParsed { pk_bucket : string; pk_key : string; pk_jsonPath : list string }.

(** [LocalKVCache]: bucket, key, parsed value. *)
Record LocalKVCache := MkLocalCache { lc_cache : gmap string (gmap string value); lc_enabled : bool }.

(** The signature fields of the [EvaluationContext] at hand. *)
Record SigState := MkSig { sigChecked : bool; sigValid : bool; signerPublicKey : string }.

Section state.
Context `{Env}.

(** The mutable state: the signature fields of the current context, the two
    caches of the [KVContext], the number of verifications attempted (the
    metric [IncSignatureVerifications]), and the world. *)
Record St := MkSt {
  st_sig : SigState;
  st_parseCache : gmap string parsedKVField;
  st_localCache : option LocalKVCache;
  st_verifications : nat;
  st_world : World;
}.

Definition M (A : Type) : Type := St → A * St.

#[export] Instance M_ret : MRet M := λ A a st, (a, st).
#[export] Instance M_bind : MBind M := λ A B f m st, let '(a, st') := m st in f a st'.

Definition get : M St := λ st, (st, st).
Definition set_sig (s : SigState) : M unit := λ st,
  (tt, MkSt s (st_parseCache st) (st_localCache st) (st_verifications st) (st_world st)).
Definition set_parseCache (c : gmap string parsedKVField) : M unit := λ st,
  (tt, MkSt (st_sig st) c (st_localCache st) (st_verifications st) (st_world st)).
Definition set_localCache (c : option LocalKVCache) : M unit := λ st,
  (tt, MkSt (st_sig st) (st_parseCache st) c (st_verifications st) (st_world st)).
Definition count_verification : M unit := λ st,
  (tt, MkSt (st_sig st) (st_parseCache st) (st_localCache st) (S (st_verifications st)) (st_world st)).
Definition lift_world {A} (f : World → A * World) : M A := λ st,
  let '(a, w) := f (st_world st) in
  (a, MkSt (st_sig st) (st_parseCache st) (st_localCache st) (st_verifications st) w).

(** A computation on a copy of the current context: its signature fields start
    as the current ones and are dropped at the end. *)
Definition on_copy {A} (m : M A) : M A :=
  st ← get; a ← m; _ ← set_sig (st_sig st); mret a.

(** Loops that stop at the first element that decides. *)
Definition forallM {A} (f : A → M bool) : list A → M bool :=
  fix go l := match l with
  | [] => mret true
  | x :: l' => b ← f x; if (b : bool) then go l' else mret false
  end.

Definition existsM {A} (f : A → M bool) : list A → M bool :=
  fix go l := match l with
  | [] => mret false
  | x :: l' => b ← f x; if (b : bool) then mret true else go l'
  end.

(** ** Computations whose result does not depend on the state

    [returns I m a]: from every state where [I] holds, [m] gives [a] and ends
    where [I] holds.  The proof rules follow the structure of [m]. *)

Definition returns {A} (I : St → Prop) (m : M A) (a : A) : Prop :=
  ∀ st, I st → (m st).1 = a ∧ I (m st).2.

Section rules.
Context (I : St → Prop).

Lemma returns_ret {A} (a : A) : returns I (mret a) a.
Proof. done. Qed.

Lemma returns_bind {A B} (m : M A) (f : A → M B) a b :
  returns I m a → returns I (f a) b → returns I (m ≫= f) b.
Proof.
  intros Hm Hf st Hst. unfold mbind, M_bind. destruct (Hm st Hst) as [Ha Hst'].
  destruct (m st) as [a' st'] eqn:E. simpl in *. subst. by apply Hf.
Qed.

Lemma returns_get {A} (f : St → M A) a :
  (∀ st, I st → (f st st).1 = a ∧ I (f st st).2) → returns I (get ≫= f) a.
Proof. done. Qed.

Lemma returns_lift_world {A} (f : World → A * World) a :
  (∀ st w, I st → I (MkSt (st_sig st) (st_parseCache st) (st_localCache st) (st_verifications st) w)) →
  (∀ w, (f w).1 = a) → returns I (lift_world f) a.
Proof.
  intros HI Hf st Hst. unfold lift_world. specialize (Hf (st_world st)).
  destruct (f (st_world st)) as [a' w]. simpl in *. auto.
Qed.

Lemma returns_det {A} (m : M A) a b st : I st → returns I m a → returns I m b → a = b.
Proof. intros Hst Ha Hb. destruct (Ha st Hst) as [<- _]. by destruct (Hb st Hst) as [<- _]. Qed.

Lemma forallM_returns {A} (f : A → M bool) (p : A → bool) l :
  (∀ x, x ∈ l → returns I (f x) (p x)) → returns I (forallM f l) (forallb p l).
Proof.
  induction l as [|x l IH]; intros Hf; [apply returns_ret|]. cbn [forallM forallb].
  eapply returns_bind; [apply Hf; set_solver|].
  destruct (p x); [|apply returns_ret]. apply IH. set_solver.
Qed.

Lemma existsM_returns {A} (f : A → M bool) (p : A → bool) l :
  (∀ x, x ∈ l → returns I (f x) (p x)) → returns I (existsM f l) (existsb p l).
Proof.
  induction l as [|x l IH]; intros Hf; [apply returns_ret|]. cbn [existsM existsb].
  eapply returns_bind; [apply Hf; set_solver|].
  destruct (p x); [apply returns_ret|]. apply IH. set_solver.
Qed.
End rules.
End state.

#[export] Hint Resolve returns_ret returns_bind forallM_returns existsM_returns : rr.
