(* ===== verification/Demo.v ===== *)
(** * A concrete environment

    An instance of [Env] with which the examples and the witnesses of the
    development compute: a codec given by a table of documents, a server with
    two entries, a clock and random sources that count. *)

From S2P Require Import Prelude GoStrings GoFloat GoTime Value Env.
Local Open Scope string_scope.

Definition obj (l : list (string * value)) : value := VObj (list_to_map l).

(** A document with a number, a string and two arrays. *)
Definition sample : value :=
  obj [("temperature", VNumber "30"); ("unit", VStr "C");
       ("tags", VArr [VStr "a"; VStr "b"]);
       ("readings", VArr [obj [("v", VNumber "1")]; obj [("v", VNumber "9")]])].

Definition documents : list (string * value) :=
  [("sample", sample); ("{}", VObj ∅); ("30", VNumber "30"); ("[]", VArr []);
   ("{'max':25}", obj [("max", VNumber "25")])].

Definition decode (s : string) : option value :=
  snd <$> List.find (λ d, String.eqb d.1 s) documents.

Definition demo_JSON : JSON := {|
  json_decode := decode;
  json_unmarshal := decode;
  json_unmarshal_map := λ s, match decode s with Some (VObj m) => Some m | _ => None end;
  json_marshal := λ v, Some (sprint v);
|}.

Definition demo_snapshot (bucket key : string) : option string :=
  if String.eqb bucket "config" && String.eqb key "limits" then Some "{'max':25}"
  else if String.eqb bucket "config" && String.eqb key "sample" then Some "sample"
  else None.

Definition demo : Env := {|
  env_JSON := demo_JSON;
  World := nat;
  kv_store_Get := λ w bucket key, (demo_snapshot bucket key, S w);
  time_Now := λ w, (MkTime (1700000000 * Second + Z.of_nat w) 0, S w);
  uuid_New := λ w, ("uuid4-" ++ Itoa (Z.of_nat w), S w);
  uuid_NewV7 := λ w, (Some ("uuid7-" ++ Itoa (Z.of_nat w)), S w);
  rand_Int64N := λ w n, (Z.of_nat w mod n, S w)%Z;
  rand_IntN := λ w n, (Z.of_nat w mod n, S w)%Z;
  rand_Float64 := λ w, (float_of_Z 0, S w);
  nkeys_FromPublicKey := λ k, HasPrefix k "U";
  nkeys_Verify := λ k payload sig, String.eqb sig (k ++ payload);
|}.

Definition demo_start : @St demo :=
  @MkSt demo (MkSig false false "") ∅ (Some (MkLocalCache ∅ true)) 0 (0 : @World demo).
