(* ===== verification/TimeContext.v ===== *)
(** * Time fields (internal/rule/time_context.go)

    The [@time], [@day], [@date] and [@timestamp] fields, computed once per
    message from one instant. *)

From S2P Require Import Prelude GoStrings GoTime Value Env.
Local Open Scope string_scope.

Record TimeContext := MkTimeContext { tc_timestamp : Time; tc_fields : gmap string value }.

(** [SystemTimeProvider.ContextAt] *)
Definition ContextAt (t : Time) : TimeContext :=
  let weekday := Weekday t in
  let number := if (weekday =? 0)%Z then 7%Z else weekday in
  MkTimeContext t
    (<["@timestamp.iso" := VStr (FormatRFC3339 t)]>
    (<["@timestamp.unix" := VInt64 (Unix t)]>
    (<["@date.iso" := VStr (FormatDate t)]>
    (<["@date.day" := VInt (Day t)]>
    (<["@date.month" := VInt (Month t)]>
    (<["@date.year" := VInt (Year t)]>
    (<["@day.number" := VInt number]>
    (<["@day.name" := VStr (ToLower (WeekdayName weekday))]>
    (<["@time.minute" := VInt (MinuteOf t)]>
    (<["@time.hour" := VInt (HourOf t)]> ∅)))))))))).

Definition TimeField (tc : TimeContext) (fieldName : string) : option value :=
  tc_fields tc !! fieldName.

(** The interface [TimeProvider] and its implementations: the clock, and an
    instant that is fixed. *)
Inductive TimeProvider := SystemTimeProvider | MockTimeProvider (fixedTime : Time).

Definition CurrentContext `{Env} (tp : TimeProvider) : M TimeContext :=
  match tp with
  | SystemTimeProvider => now ← lift_world time_Now; mret (ContextAt now)
  | MockTimeProvider t => mret (ContextAt t)
  end.
