(* ===== verification/KVContext.v ===== *)
(** * Key-value fields (internal/rule/kv_context.go, kv_local_cache.go)

    The local cache of parsed values, the parser of field specifications with
    its bounded cache, the substitution of variables in a specification, and
    the lookup: local cache first, then the server, whose value populates the
    cache. *)

From S2P Require Import Prelude GoStrings GoFloat GoTime Value Types TimeContext Traversal Env Demo.
Local Open Scope string_scope.

(** ** The local cache *)

Definition NewLocalKVCache : LocalKVCache := MkLocalCache ∅ true.

Definition totalKeysLocked (c : LocalKVCache) : nat :=
  map_fold (λ _ keys total, total + size keys)%nat 0 (lc_cache c).

Definition cache_Get (c : LocalKVCache) (bucket key : string) : option value :=
  if negb (lc_enabled c) then None
  else bucketData ← lc_cache c !! bucket; bucketData !! key.

Definition cache_Set (c : LocalKVCache) (bucket key : string) (v : value) : LocalKVCache :=
  if negb (lc_enabled c) then c
  else
    let bucketData := default ∅ (lc_cache c !! bucket) in
    MkLocalCache (<[bucket := <[key := v]> bucketData]> (lc_cache c)) (lc_enabled c).

Definition cache_Delete (c : LocalKVCache) (bucket key : string) : LocalKVCache :=
  if negb (lc_enabled c) then c
  else match lc_cache c !! bucket with
  | Some bucketData => MkLocalCache (<[bucket := delete key bucketData]> (lc_cache c)) (lc_enabled c)
  | None => c
  end.

Definition cache_SetEnabled (c : LocalKVCache) (enabled : bool) : LocalKVCache :=
  MkLocalCache (lc_cache c) enabled.
Definition cache_IsEnabled (c : LocalKVCache) : bool := lc_enabled c.
Definition cache_Clear (c : LocalKVCache) : LocalKVCache := MkLocalCache ∅ (lc_enabled c).
Definition cache_Keys (c : LocalKVCache) (bucket : string) : gset string :=
  match lc_cache c !! bucket with Some bucketData => dom bucketData | None => ∅ end.

(** ** Parsing a field *)

Definition maxParseCacheSize : nat := 1024.

Inductive kv_error :=
| KVNoPrefix (field : string)
| KVNoBucketKey (part : string)
| KVEmptyBucket (field : string)
| KVEmptyKey (field : string)
| KVTooManyColons (field : string)
| KVBadPath (e : split_error).

(** [strings.SplitN(s, ".", 2)] as the parser uses it: bucket and key. *)
Definition split_bucket_key (field s : string) : result kv_error (string * string) :=
  let '(bucket, key, found) := Cut "." s in
  if negb found then Err (KVNoBucketKey s)
  else if String.eqb bucket "" then Err (KVEmptyBucket field)
  else if String.eqb key "" then Err (KVEmptyKey field)
  else Ok (bucket, key).

Definition parseKVFieldUncached (field : string) : result kv_error parsedKVField :=
  if negb (HasPrefix field "@kv.") then Err (KVNoPrefix field)
  else
    let remainder := sdrop 4 field in
    if negb (Contains remainder ":") then
      '(bucket, key) ← split_bucket_key field remainder;
      Ok (MkParsed bucket key [])
    else if (1 <? count_char ":" remainder)%nat then Err (KVTooManyColons field)
    else
      let '(bucketKeyPart, jsonPathPart, _) := Cut ":" remainder in
      '(bucket, key) ← split_bucket_key field bucketKeyPart;
      if String.eqb jsonPathPart "" then Ok (MkParsed bucket key [])
      else
        jsonPath ← map_err KVBadPath (SplitPathRespectingBraces jsonPathPart);
        Ok (MkParsed bucket key jsonPath).

(** ** The context *)

(** [KVContext]: its buckets; its caches are in the state. *)
Record KVContext := MkKVContext { kv_stores : gset string }.

Definition HasBucket (kv : KVContext) (bucketName : string) : bool :=
  bool_decide (bucketName ∈ kv_stores kv).

Definition kv_convertToString `{JSON} (v : value) : string :=
  match v with
  | VStr s => s
  | VNumber s => s
  | VFloat f => FormatFloat f
  | VInt z | VInt64 z => Itoa z
  | VBool b => FormatBool b
  | VNil => ""
  | _ => match json_marshal v with Some s => s | None => sprint v end
  end.

Definition kv_resolveVariable (varName : string) (msgData : gmap string value)
    (timeCtx : option TimeContext) (subjectCtx : option SubjectContext) : option value :=
  if HasPrefix varName "@" then
    if HasPrefix varName "@subject" then
      subject ← subjectCtx; SubjectField subject varName
    else if HasPrefix varName "@time" || HasPrefix varName "@date" || HasPrefix varName "@timestamp" then
      time ← timeCtx; TimeField time varName
    else None
  else ok_or_none (TraversePath (VObj msgData) (Split "." varName)).

(** [ReplaceAllStringFunc] for the pattern of a brace, one or more bytes other
    than a closing brace, and a closing brace; [f] returns [None] for a
    variable that is not found, and the flag says that one was not. *)
Fixpoint replace_variables (f : string → option string) (skip : nat) (s : string) : string * bool :=
  match s with
  | "" => ("", false)
  | String a t =>
      match skip with
      | S k => replace_variables f k t
      | O =>
          let '(varName, _, closed) := Cut "}" t in
          if Ascii.eqb a "{" && closed && negb (String.eqb varName "") then
            let '(rest, unresolved) := replace_variables f (S (slen varName)) t in
            match f varName with
            | Some strValue => (strValue ++ rest, unresolved)
            | None => (rest, true)
            end
          else
            let '(rest, unresolved) := replace_variables f 0 t in (String a rest, unresolved)
      end
  end.

Definition resolveVariablesEnhanced `{JSON} (field : string) (msgData : gmap string value)
    (timeCtx : option TimeContext) (subjectCtx : option SubjectContext) : string * bool :=
  if negb (Contains field "{") then (field, false)
  else replace_variables
    (λ varName, kv_convertToString <$> kv_resolveVariable varName msgData timeCtx subjectCtx) 0 field.

Definition traverse_found (v : value) (jsonPath : list string) : option value :=
  if (length jsonPath =? 0)%nat then Some v else ok_or_none (TraversePath v jsonPath).

Section kv.
Context `{Env}.

Definition parseKVField (field : string) : M (result kv_error parsedKVField) :=
  st ← get;
  match st_parseCache st !! field with
  | Some cached => mret (Ok cached)
  | None =>
      match parseKVFieldUncached field with
      | Err e => mret (Err e)
      | Ok p =>
          _ ← (if (size (st_parseCache st) <? maxParseCacheSize)%nat
               then set_parseCache (<[field := p]> (st_parseCache st)) else mret tt);
          mret (Ok p)
      end
  end.

Definition getFromNATSKV (kv : KVContext) (bucket key : string) (jsonPath : list string) : M (option value) :=
  if negb (HasBucket kv bucket) then mret None
  else
    entry ← lift_world (λ w, kv_store_Get w bucket key);
    match entry with
    | None => mret None
    | Some rawValue =>
        match json_unmarshal rawValue with
        | None => mret None
        | Some jsonObj =>
            st ← get;
            _ ← match st_localCache st with
                | Some c => if cache_IsEnabled c
                            then set_localCache (Some (cache_Set c bucket key jsonObj)) else mret tt
                | None => mret tt
                end;
            mret (traverse_found jsonObj jsonPath)
        end
    end.

Definition cached_value (lc : option LocalKVCache) (bucket key : string) : option value :=
  match lc with
  | Some c => if cache_IsEnabled c then cache_Get c bucket key else None
  | None => None
  end.

Definition KVField (kv : KVContext) (field : string) : M (option value) :=
  parsed ← parseKVField field;
  match parsed with
  | Err _ => mret None
  | Ok (MkParsed bucket key jsonPath) =>
      st ← get;
      match cached_value (st_localCache st) bucket key with
      | Some cachedValue => mret (traverse_found cachedValue jsonPath)
      | None => getFromNATSKV kv bucket key jsonPath
      end
  end.

(** The value returned beside [false], an empty string, is never used. *)
Definition FieldWithContext (kv : KVContext) (field : string) (msgData : gmap string value)
    (timeCtx : option TimeContext) (subjectCtx : option SubjectContext) : M (option value) :=
  let '(resolvedField, hasUnresolvedVars) := resolveVariablesEnhanced field msgData timeCtx subjectCtx in
  if hasUnresolvedVars then mret None else KVField kv resolvedField.
End kv.

(** ** Specification *)

(** The lookup without caches, against one snapshot of the server. *)
Definition kv_lookup `{JSON} (snapshot : string → string → option string) (kv : KVContext)
    (field : string) : option value :=
  p ← ok_or_none (parseKVFieldUncached field);
  _ ← guard (HasBucket kv (pk_bucket p) = true);
  raw ← snapshot (pk_bucket p) (pk_key p);
  v ← json_unmarshal raw;
  traverse_found v (pk_jsonPath p).

Definition kv_lookup_with `{JSON} (snapshot : string → string → option string) (kv : KVContext)
    (field : string) (msgData : gmap string value) (timeCtx : option TimeContext)
    (subjectCtx : option SubjectContext) : option value :=
  let '(resolved, unresolved) := resolveVariablesEnhanced field msgData timeCtx subjectCtx in
  if unresolved then None else kv_lookup snapshot kv resolved.

Section coherence.
Context `{Env}.
Variable snapshot : string → string → option string.
Variable kv : KVContext.

Definition server_static : Prop :=
  ∀ w bucket key, (kv_store_Get w bucket key).1 = snapshot bucket key.

(** The caches hold what parsing and the server would give. *)
Record kv_coherent (parseCache : gmap string parsedKVField) (lc : option LocalKVCache) : Prop := {
  kc_parsed : ∀ field p, parseCache !! field = Some p → parseKVFieldUncached field = Ok p;
  kc_bounded : (size parseCache ≤ maxParseCacheSize)%nat;
  kc_cached : ∀ bucket key v, cached_value lc bucket key = Some v →
    HasBucket kv bucket = true ∧ (snapshot bucket key ≫= json_unmarshal) = Some v;
}.

Definition kv_inv (P : SigState → Prop) (st : St) : Prop :=
  kv_coherent (st_parseCache st) (st_localCache st) ∧ P (st_sig st).

(** ** Lemmas *)

Variable P : SigState → Prop.

Lemma parseKVField_returns field :
  returns (kv_inv P) (parseKVField field) (parseKVFieldUncached field).
Proof.
  intros [sig pc lc n w] [[Hp Hs Hc] HP]. unfold parseKVField, get, mbind, M_bind. simpl in *.
  destruct (pc !! field) as [p|] eqn:E.
  { apply Hp in E. done. }
  destruct (parseKVFieldUncached field) as [p|e] eqn:Eu; [|done].
  destruct (Nat.ltb_spec (size pc) maxParseCacheSize); [|done]. simpl.
  split; [done|]. split; [|done]. split; simpl; [| |done].
  - intros f q. destruct (decide (f = field)) as [->|].
    + rewrite lookup_insert_eq. by intros [= <-].
    + rewrite lookup_insert_ne by done. apply Hp.
  - rewrite map_size_insert, E. lia.
Qed.

Lemma cached_value_Set c bucket key v b k w :
  cached_value (Some (cache_Set c bucket key v)) b k = Some w →
  cached_value (Some c) b k = Some w ∨ (b = bucket ∧ k = key ∧ w = v).
Proof.
  unfold cached_value, cache_Get, cache_Set, cache_IsEnabled. destruct (lc_enabled c) eqn:E; simpl; rewrite ?E; simpl; [|done].
  destruct (decide (b = bucket)) as [->|]; [rewrite lookup_insert_eq | rewrite lookup_insert_ne by done; auto].
  simpl. destruct (decide (k = key)) as [->|]; [rewrite lookup_insert_eq | rewrite lookup_insert_ne by done].
  - intros [= <-]. auto.
  - destruct (lc_cache c !! bucket); simpl; [auto | by rewrite lookup_empty].
Qed.

Lemma getFromNATSKV_returns bucket key jsonPath :
  server_static →
  returns (kv_inv P) (getFromNATSKV kv bucket key jsonPath)
    (_ ← guard (HasBucket kv bucket = true); raw ← snapshot bucket key; v ← json_unmarshal raw; traverse_found v jsonPath).
Proof.
  intros Hstat. unfold getFromNATSKV.
  destruct (HasBucket kv bucket) eqn:Hb; cbn [negb]; [|rewrite option_guard_False by done; apply returns_ret].
  rewrite option_guard_True by done. cbn [mbind option_bind].
  eapply returns_bind; [apply (returns_lift_world _ _ (snapshot bucket key)); [done | intros w; apply Hstat]|].
  destruct (snapshot bucket key) as [raw|] eqn:Er; [|apply returns_ret]. cbn [mbind option_bind].
  destruct (json_unmarshal raw) as [v|] eqn:Ev; [|apply returns_ret]. cbn [mbind option_bind].
  apply returns_get. intros [sig pc lc n w] [[Hp Hs Hc] HP]. unfold mbind, M_bind. simpl in *.
  destruct lc as [c|]; [|done]. destruct (cache_IsEnabled c); [|done]. simpl.
  split; [done|]. split; [|done]. split; [done|done|].
  intros b k x [Hx|(-> & -> & ->)]%cached_value_Set; [by apply Hc|]. by rewrite Er.
Qed.

Lemma KVField_returns field :
  server_static → returns (kv_inv P) (KVField kv field) (kv_lookup snapshot kv field).
Proof.
  intros Hstat. unfold KVField, kv_lookup. eapply returns_bind; [apply parseKVField_returns|].
  destruct (parseKVFieldUncached field) as [[bucket key jsonPath]|e]; simpl; [|apply returns_ret].
  apply returns_get. intros st Hst.
  destruct (cached_value (st_localCache st) bucket key) as [v|] eqn:Ec; [|by apply getFromNATSKV_returns].
  apply (kc_cached _ _ (proj1 Hst)) in Ec as [Hb Hv]. rewrite option_guard_True by done. simpl.
  destruct (snapshot bucket key) as [raw|]; [|done]. simpl in *. by rewrite Hv.
Qed.

Lemma FieldWithContext_returns field msgData timeCtx subjectCtx :
  server_static →
  returns (kv_inv P) (FieldWithContext kv field msgData timeCtx subjectCtx)
    (kv_lookup_with snapshot kv field msgData timeCtx subjectCtx).
Proof.
  intros Hstat. unfold FieldWithContext, kv_lookup_with. destruct (resolveVariablesEnhanced _ _ _ _) as [resolved []]; [apply returns_ret|].
  by apply KVField_returns.
Qed.
End coherence.

(** ** Properties *)

Lemma split_bucket_key_app field bucket key :
  bucket ≠ "" → key ≠ "" → has_char "." bucket = false →
  split_bucket_key field (bucket ++ "." ++ key) = Ok (bucket, key).
Proof.
  intros Hb Hk Hd. unfold split_bucket_key. change ("." ++ key) with (String "." key).
  rewrite Cut_app by done. apply String.eqb_neq in Hb, Hk. by rewrite Hb, Hk.
Qed.

(** The parser of KV fields reads back what a specification is written from: a
    bucket, a key that may hold dots, and a path after a colon, none of them
    holding a colon; without the colon, or with nothing behind it, the path is
    empty. *)
Theorem parseKVField_roundtrip bucket key path :
  bucket ≠ "" → key ≠ "" → has_char "." bucket = false →
  has_char ":" bucket = false → has_char ":" key = false →
  Forall segment_ok path → Forall (λ s, has_char ":" s = false) path →
  parseKVFieldUncached ("@kv." ++ bucket ++ "." ++ key) = Ok (MkParsed bucket key []) ∧
  parseKVFieldUncached ("@kv." ++ bucket ++ "." ++ key ++ ":" ++ Join "." path) = Ok (MkParsed bucket key path).
Proof.
  intros Hb Hk Hdot Hcb Hck Hok Hcp.
  assert (has_char ":" (bucket ++ "." ++ key) = false) as Hc.
  { change ("." ++ key) with (String "." key). rewrite has_char_app, Hcb. cbn. done. }
  assert (has_char ":" (Join "." path) = false) as Hj.
  { apply has_char_Join; [done|]. intros x Hx. by apply (proj1 (Forall_forall _ _) Hcp). }
  unfold parseKVFieldUncached. rewrite !HasPrefix_app. cbn [negb].
  change 4 with (slen "@kv."). rewrite !sdrop_app. split.
  - rewrite Contains_char, Hc. cbn [negb]. by rewrite split_bucket_key_app.
  - rewrite <- !app_assoc_str, (app_assoc_str bucket).
    change (?s ++ ":" ++ ?t) with (s ++ String ":" t). rewrite app_assoc_str.
    change (":" ++ Join "." path) with (String ":" (Join "." path)).
    rewrite Contains_char, has_char_app. cbn [has_char]. rewrite Ascii.eqb_refl, orb_true_r. cbn [negb].
    rewrite count_char_app. cbn [count_char]. rewrite Ascii.eqb_refl, !count_char_0 by done.
    cbn [Nat.add Nat.ltb Nat.leb]. rewrite Cut_app by done. rewrite split_bucket_key_app by done.
    cbn [mbind result_bind]. destruct (String.eqb_spec (Join "." path) "") as [E|E].
    + destruct Hok as [|s l (Hne & _) _]; [done|]. destruct l; [done|]. by destruct s.
    + assert (SplitPathRespectingBraces (Join "." path) = Ok path) as ->; [|done].
      unfold SplitPathRespectingBraces. apply String.eqb_neq in E. rewrite E.
      destruct path; [done|]. by apply (split_loop_joined _ 0 []).
Qed.

Lemma parseKVField_roundtrip_witness :
  parseKVFieldUncached "@kv.config.limits" = Ok (MkParsed "config" "limits" []) ∧
  parseKVFieldUncached "@kv.config.limits:max.0" = Ok (MkParsed "config" "limits" ["max"; "0"]).
Proof.
  apply (parseKVField_roundtrip "config" "limits" ["max"; "0"]); try discriminate; try reflexivity.
  - repeat (constructor; [split_and!; [discriminate | reflexivity | reflexivity]|]). constructor.
  - repeat constructor.
Defined.

(** While the server's content does not change, a lookup through the parse cache
    and the local cache returns what a lookup without caches against that
    content would, whatever the caches hold that earlier lookups put there; it
    leaves them in such a state, the parse cache within its bound. *)
Theorem KVField_transparent `{Env} snapshot kv field st :
  server_static snapshot →
  kv_coherent snapshot kv (st_parseCache st) (st_localCache st) →
  let '(found, st') := KVField kv field st in
  found = kv_lookup snapshot kv field ∧
  kv_coherent snapshot kv (st_parseCache st') (st_localCache st') ∧
  st_sig st' = st_sig st.
Proof.
  intros Hstat Hco.
  destruct (KVField_returns snapshot kv (λ s, s = st_sig st) field Hstat st (conj Hco eq_refl)) as [Hv [Hc Hs]].
  by destruct (KVField kv field st).
Qed.

Lemma KVField_transparent_witness :
  let kv := MkKVContext {["config"]} in
  let '(found, st') := @KVField demo kv "@kv.config.limits:max" demo_start in
  found = @kv_lookup demo_JSON demo_snapshot kv "@kv.config.limits:max" ∧
  @kv_coherent demo demo_snapshot kv (st_parseCache st') (st_localCache st') ∧
  st_sig st' = st_sig demo_start.
Proof.
  intros kv. refine (KVField_transparent (H:=demo) demo_snapshot kv "@kv.config.limits:max" demo_start _ _).
  - done.
  - split.
    + intros f p Hf. exfalso. cbv in Hf. discriminate.
    + vm_compute. lia.
    + intros b k v Hv. exfalso. cbv in Hv. discriminate.
Defined.

(** The values an enabled cache holds are those set last and not deleted since. *)
Lemma cache_Get_Set c b k v b' k' :
  cache_Get (cache_Set c b k v) b' k' =
    if lc_enabled c && bool_decide (b' = b ∧ k' = k) then Some v else cache_Get c b' k'.
Proof.
  unfold cache_Get, cache_Set. destruct (lc_enabled c) eqn:E; simpl; rewrite ?E; [|done]. simpl.
  destruct (decide (b' = b)) as [->|]; [rewrite lookup_insert_eq|rewrite lookup_insert_ne by done].
  - simpl. destruct (decide (k' = k)) as [->|].
    + rewrite lookup_insert_eq. by rewrite bool_decide_eq_true_2.
    + rewrite lookup_insert_ne, bool_decide_eq_false_2 by naive_solver.
      destruct (lc_cache c !! b); simpl; [done|]. by rewrite lookup_empty.
  - rewrite bool_decide_eq_false_2 by naive_solver. done.
Qed.

Lemma cache_Get_Delete c b k b' k' :
  cache_Get (cache_Delete c b k) b' k' =
    if lc_enabled c && bool_decide (b' = b ∧ k' = k) then None else cache_Get c b' k'.
Proof.
  unfold cache_Get, cache_Delete. destruct (lc_enabled c) eqn:E; simpl; rewrite ?E; [|done]. simpl.
  destruct (lc_cache c !! b) as [data|] eqn:Eb; simpl; rewrite ?E; simpl.
  - destruct (decide (b' = b)) as [->|]; [rewrite lookup_insert_eq|rewrite lookup_insert_ne by done].
    + simpl. rewrite Eb. simpl. destruct (decide (k' = k)) as [->|].
      * rewrite lookup_delete_eq. by rewrite bool_decide_eq_true_2.
      * by rewrite lookup_delete_ne, bool_decide_eq_false_2 by naive_solver.
    + by rewrite bool_decide_eq_false_2 by naive_solver.
  - case_bool_decide as Hb; [|done]. destruct Hb as [-> ->]. by rewrite Eb.
Qed.

(** The local cache is a map from bucket and key to the value set last and not
    deleted or cleared since; a disabled cache ignores writes and misses every
    read. *)
Theorem LocalKVCache_map c b k v b' k' :
  cache_Get (cache_Set c b k v) b' k' =
    (if lc_enabled c && bool_decide (b' = b ∧ k' = k) then Some v else cache_Get c b' k') ∧
  cache_Get (cache_Delete c b k) b' k' =
    (if lc_enabled c && bool_decide (b' = b ∧ k' = k) then None else cache_Get c b' k') ∧
  cache_Get (cache_Clear c) b' k' = None ∧
  (lc_enabled c = false → cache_Get c b' k' = None ∧ cache_Set c b k v = c ∧ cache_Delete c b k = c).
Proof.
  split_and!; [apply cache_Get_Set | apply cache_Get_Delete | |].
  - unfold cache_Get, cache_Clear. destruct (lc_enabled c); simpl; [by rewrite lookup_empty | done].
  - unfold cache_Get, cache_Set, cache_Delete. by intros ->.
Qed.

Lemma LocalKVCache_map_witness :
  let c := MkLocalCache ∅ false in
  cache_Get c "b" "k" = None ∧ cache_Set c "b" "k" VNil = c ∧ cache_Delete c "b" "k" = c.
Proof. apply (LocalKVCache_map (MkLocalCache ∅ false) "b" "k" VNil "b" "k"). reflexivity. Defined.
