(* ===== verification/Context.v ===== *)
(** * The evaluation context (internal/rule/context.go, signature.go, signature_verify.go)

    The message of an evaluation decoded and wrapped, the contexts around it,
    the resolution of the variables a rule names, and the verification of the
    message's signature, done when a rule first asks for it. *)

From S2P Require Import Prelude GoStrings GoFloat GoTime GoNet Value Types TimeContext Traversal Env Demo KVContext.
Local Open Scope string_scope.

Definition prefixMsg : string := "@msg.".
Definition prefixHeader : string := "@header.".
Definition prefixQuery : string := "@query.".
Definition prefixKV : string := "@kv.".
Definition prefixSignature : string := "@signature.".
Definition contentTypeForm : string := "application/x-www-form-urlencoded".

Record SignatureVerification := MkSignatureVerification {
  sv_Enabled : bool; sv_PublicKeyHeader : string; sv_SignatureHeader : string;
}.

Definition NewSignatureVerification (enabled : bool) (pubKeyHeader sigHeader : string) : SignatureVerification :=
  MkSignatureVerification enabled pubKeyHeader sigHeader.

(** The fields of an [EvaluationContext] that never change; those that
    [verifySignature] writes are in the state.  [Time] is never nil: every
    caller of [NewEvaluationContext] passes a time context. *)
Record EvaluationContext := MkContext {
  ctx_Msg : gmap string value;
  ctx_RawPayload : string;
  ctx_Headers : gmap string string;
  ctx_OriginalMsg : gmap string value;
  ctx_Subject : option SubjectContext;
  ctx_HTTP : option HTTPRequestContext;
  ctx_Time : TimeContext;
  ctx_KV : option KVContext;
  ctx_sigVerification : option SignatureVerification;
}.

(** ** Building a context *)

Definition wrapIfNeeded (raw : value) : gmap string value :=
  match raw with
  | VObj m => m
  | VArr l => {["@items" := VArr l]}
  | VNil => {["@value" := VNil]}
  | v => {["@value" := v]}
  end.

Definition isFormContentType (ct : string) : bool :=
  let '(mediaType, _, _) := Cut ";" ct in
  EqualFold (TrimSpace mediaType) contentTypeForm.

Definition form_value (v : list string) : value :=
  match v with
  | [] => VStr ""
  | [s] => VStr s
  | _ => VArr (map VStr v)
  end.

Definition decodeForm (payload : string) : option (gmap string value) :=
  match ParseQuery payload with Some values => Some (form_value <$> values) | None => None end.

(** [headers] are the entries of the map in the order of its iteration: when
    two names have the same canonical form the last one visited stays. *)
Definition canonical_headers (headers : list (string * string)) : gmap string string :=
  foldl (λ canonical kv, <[CanonicalMIMEHeaderKey kv.1 := kv.2]> canonical) ∅ headers.

Inductive context_error := FormPayloadError | PayloadNotText.

Definition decode_payload `{JSON} (payload : string) (headers : gmap string string)
    : result context_error (gmap string value) :=
  if (slen payload =? 0)%nat then Ok (wrapIfNeeded VNil)
  else if isFormContentType (default "" (headers !! "Content-Type")) then
    of_option FormPayloadError (decodeForm payload)
  else match json_decode payload with
  | Some raw => Ok (wrapIfNeeded raw)
  | None =>
      if utf8_Valid payload then Ok (wrapIfNeeded (VStr payload)) else Err PayloadNotText
  end.

Definition NewEvaluationContext `{JSON} (payload : string) (headers : list (string * string))
    (subjectCtx : option SubjectContext) (httpCtx : option HTTPRequestContext)
    (timeCtx : TimeContext) (kvCtx : option KVContext) (sigVerification : option SignatureVerification)
    : result context_error EvaluationContext :=
  let headers := canonical_headers headers in
  msgData ← decode_payload payload headers;
  Ok (MkContext msgData payload headers msgData subjectCtx httpCtx timeCtx kvCtx sigVerification).

Definition WithElement (c : EvaluationContext) (element : gmap string value) : EvaluationContext :=
  MkContext element (ctx_RawPayload c) (ctx_Headers c) (ctx_OriginalMsg c) (ctx_Subject c)
    (ctx_HTTP c) (ctx_Time c) (ctx_KV c) (ctx_sigVerification c).

(** ** Resolving variables *)

Definition traverse_msg (msg : gmap string value) (path : string) : option value :=
  ok_or_none (TraversePathString (VObj msg) path).

Section resolve.
Context `{Env}.

Definition header (c : EvaluationContext) (name : string) : string :=
  default "" (ctx_Headers c !! CanonicalMIMEHeaderKey name).

Definition verifySignature (c : EvaluationContext) : M unit :=
  st ← get;
  if sigChecked (st_sig st) then mret tt
  else
    let checked valid key := set_sig (MkSig true valid key) in
    let none := checked (sigValid (st_sig st)) (signerPublicKey (st_sig st)) in
    match ctx_sigVerification c with
    | None => none
    | Some sv =>
        if negb (sv_Enabled sv) then none
        else
          let pubKeyStr := header c (sv_PublicKeyHeader sv) in
          let sigBase64 := header c (sv_SignatureHeader sv) in
          if String.eqb pubKeyStr "" || String.eqb sigBase64 "" then none
          else
            _ ← checked (sigValid (st_sig st)) pubKeyStr;
            _ ← count_verification;
            match b64_DecodeString sigBase64 with
            | None => mret tt
            | Some sig =>
                if negb (nkeys_FromPublicKey pubKeyStr) then mret tt
                else if nkeys_Verify pubKeyStr (ctx_RawPayload c) sig
                then checked true pubKeyStr else mret tt
            end
    end.

Definition resolveSignature (c : EvaluationContext) (path : string) : M (option value) :=
  match ctx_sigVerification c with
  | Some sv =>
      if sv_Enabled sv then
        _ ← verifySignature c;
        st ← get;
        mret (if String.eqb path "@signature.valid" then Some (VBool (sigValid (st_sig st)))
              else if String.eqb path "@signature.pubkey" then
                if negb (String.eqb (signerPublicKey (st_sig st)) "")
                then Some (VStr (signerPublicKey (st_sig st))) else None
              else None)
      else mret None
  | None => mret None
  end.

Definition resolveSystemField (c : EvaluationContext) (path : string) : M (option value) :=
  if HasPrefix path prefixMsg then
    mret (traverse_msg (ctx_OriginalMsg c) (sdrop (slen prefixMsg) path))
  else if HasPrefix path "@subject" then
    mret (subject ← ctx_Subject c; SubjectField subject path)
  else if HasPrefix path "@path" then
    mret (http ← ctx_HTTP c; HTTPField http path)
  else if String.eqb path "@method" then
    mret (http ← ctx_HTTP c; Some (VStr (hc_Method http)))
  else if HasPrefix path prefixHeader then
    mret (VStr <$> ctx_Headers c !! CanonicalMIMEHeaderKey (sdrop (slen prefixHeader) path))
  else if HasPrefix path prefixQuery then
    mret (http ← ctx_HTTP c; VStr <$> hc_Query http !! sdrop (slen prefixQuery) path)
  else if HasPrefix path "@time" || HasPrefix path "@day" || HasPrefix path "@date" then
    mret (TimeField (ctx_Time c) path)
  else if HasPrefix path prefixKV then
    match ctx_KV c with
    | Some kv => FieldWithContext kv path (ctx_Msg c) (Some (ctx_Time c)) (ctx_Subject c)
    | None => mret None
    end
  else if HasPrefix path prefixSignature then resolveSignature c path
  else mret (traverse_msg (ctx_Msg c) path).

Definition ResolveValue (c : EvaluationContext) (path : string) : M (option value) :=
  if HasPrefix path "@" then resolveSystemField c path
  else mret (traverse_msg (ctx_Msg c) path).
End resolve.

(** ** Specification *)

(** The validity of the message's signature and the key that claims it, computed
    without a state. *)
Definition signature_of `{Env} (c : EvaluationContext) : bool * string :=
  match ctx_sigVerification c with
  | None => (false, "")
  | Some sv =>
      let key := header c (sv_PublicKeyHeader sv) in
      let sig := header c (sv_SignatureHeader sv) in
      if negb (sv_Enabled sv) || String.eqb key "" || String.eqb sig "" then (false, "")
      else
        (match b64_DecodeString sig with
         | Some sig => nkeys_FromPublicKey key && nkeys_Verify key (ctx_RawPayload c) sig
         | None => false
         end, key)
  end.

(** The value of a variable, with no caches and no lazy verification. *)
Definition denote_variable `{Env} (snapshot : string → string → option string)
    (c : EvaluationContext) (path : string) : option value :=
  if HasPrefix path prefixMsg then traverse_msg (ctx_OriginalMsg c) (sdrop (slen prefixMsg) path)
  else if HasPrefix path "@subject" then subject ← ctx_Subject c; SubjectField subject path
  else if HasPrefix path "@path" then http ← ctx_HTTP c; HTTPField http path
  else if String.eqb path "@method" then http ← ctx_HTTP c; Some (VStr (hc_Method http))
  else if HasPrefix path prefixHeader then
    VStr <$> ctx_Headers c !! CanonicalMIMEHeaderKey (sdrop (slen prefixHeader) path)
  else if HasPrefix path prefixQuery then
    http ← ctx_HTTP c; VStr <$> hc_Query http !! sdrop (slen prefixQuery) path
  else if HasPrefix path "@time" || HasPrefix path "@day" || HasPrefix path "@date" then
    TimeField (ctx_Time c) path
  else if HasPrefix path prefixKV then
    kv ← ctx_KV c;
    kv_lookup_with snapshot kv path (ctx_Msg c) (Some (ctx_Time c)) (ctx_Subject c)
  else if HasPrefix path prefixSignature then
    sv ← ctx_sigVerification c;
    if negb (sv_Enabled sv) then None
    else if String.eqb path "@signature.valid" then Some (VBool (signature_of c).1)
    else if String.eqb path "@signature.pubkey" then
      if String.eqb (signature_of c).2 "" then None else Some (VStr (signature_of c).2)
    else None
  else traverse_msg (ctx_Msg c) path.

Section resolution.
Context `{Env}.
Variable snapshot : string → string → option string.

Definition sig_ok (c : EvaluationContext) (s : SigState) : Prop :=
  if sigChecked s then (sigValid s, signerPublicKey s) = signature_of c
  else (sigValid s, signerPublicKey s) = (false, "").

(** The states in which a context resolves to what it denotes. *)
Definition ctx_inv (c : EvaluationContext) (st : St) : Prop :=
  (∀ kv, ctx_KV c = Some kv → kv_coherent snapshot kv (st_parseCache st) (st_localCache st)) ∧
  sig_ok c (st_sig st).

(** ** Lemmas *)

Lemma verifySignature_spec c st :
  ctx_inv c st →
  ctx_inv c (verifySignature c st).2 ∧ sigChecked (st_sig (verifySignature c st).2) = true.
Proof.
  destruct st as [[ch va ke] pc lc n w]. unfold ctx_inv, sig_ok. cbn. intros [Hkv Hs].
  unfold verifySignature, get, mbind, M_bind. cbn. destruct ch; [done|]. cbn in *.
  injection Hs as -> ->. unfold signature_of.
  destruct (ctx_sigVerification c) as [sv|]; [|done].
  destruct (sv_Enabled sv); simpl; [|done].
  destruct (String.eqb (header c (sv_PublicKeyHeader sv)) ""); simpl; [done|].
  destruct (String.eqb (header c (sv_SignatureHeader sv)) ""); simpl; [done|].
  destruct (b64_DecodeString _) as [sig|]; simpl; [|done].
  destruct (nkeys_FromPublicKey _); simpl; [|done].
  by destruct (nkeys_Verify _ _ _).
Qed.

Lemma resolveSignature_returns c path :
  returns (ctx_inv c) (resolveSignature c path)
    (sv ← ctx_sigVerification c;
     if negb (sv_Enabled sv) then None
     else if String.eqb path "@signature.valid" then Some (VBool (signature_of c).1)
     else if String.eqb path "@signature.pubkey" then
       if String.eqb (signature_of c).2 "" then None else Some (VStr (signature_of c).2)
     else None).
Proof.
  unfold resolveSignature. destruct (ctx_sigVerification c) as [sv|] eqn:Esv; [|apply returns_ret].
  cbn [mbind option_bind]. destruct (sv_Enabled sv); [|apply returns_ret]. cbn [negb].
  intros st Hst. destruct (verifySignature_spec c st Hst) as [Hinv Hch].
  unfold mbind, M_bind, get. destruct (verifySignature c st) as [u st']. cbn in *.
  split; [|done]. destruct Hinv as [_ Hs]. unfold sig_ok in Hs. rewrite Hch in Hs. rewrite <- Hs. cbn.
  repeat case_match; by simplify_eq/=.
Qed.

Hypothesis Hstatic : server_static snapshot.

Lemma FieldWithContext_ctx_returns c kv path :
  ctx_KV c = Some kv →
  returns (ctx_inv c) (FieldWithContext kv path (ctx_Msg c) (Some (ctx_Time c)) (ctx_Subject c))
    (kv_lookup_with snapshot kv path (ctx_Msg c) (Some (ctx_Time c)) (ctx_Subject c)).
Proof.
  intros Hkv st [Hco Hs].
  destruct (FieldWithContext_returns snapshot kv (sig_ok c) path (ctx_Msg c) (Some (ctx_Time c))
    (ctx_Subject c) Hstatic st) as [Hv [Hc' Hs']]; [split; [by apply Hco | done]|].
  split; [done|]. split; [|done]. intros kv' Hkv'. by simplify_eq.
Qed.

Lemma HasPrefix_at p path : HasPrefix path (String "@" p) = true → HasPrefix path "@" = true.
Proof. intros [t ->]%HasPrefix_spec. simpl. destruct p, t; done. Qed.

Lemma ResolveValue_returns c path :
  returns (ctx_inv c) (ResolveValue c path) (denote_variable snapshot c path).
Proof.
  unfold ResolveValue, resolveSystemField, denote_variable.
  destruct (HasPrefix path "@") eqn:Eat.
  - do 7 (match goal with |- returns _ (if ?b then _ else _) _ =>
      destruct b; [apply returns_ret|] end).
    destruct (HasPrefix path prefixKV).
    { destruct (ctx_KV c) as [kv|] eqn:Ekv; [|apply returns_ret].
      by apply FieldWithContext_ctx_returns. }
    destruct (HasPrefix path prefixSignature); [apply resolveSignature_returns | apply returns_ret].
  - assert (∀ p, HasPrefix path (String "@" p) = false) as Hp.
    { intros p. destruct (HasPrefix path (String "@" p)) eqn:E; [|done].
      apply HasPrefix_at in E. congruence. }
    unfold prefixMsg, prefixHeader, prefixQuery, prefixKV, prefixSignature. rewrite !Hp. cbn [orb].
    destruct (String.eqb_spec path "@method") as [->|]; [done|]. apply returns_ret.
Qed.

(** A child context denotes the parent's signature, so what it learns of it can
    be dropped. *)
Lemma on_copy_returns {A} c e (m : M A) a :
  returns (ctx_inv (WithElement c e)) m a → returns (ctx_inv c) (on_copy m) a.
Proof.
  intros Hm. unfold on_copy. apply returns_get. intros st Hst. destruct (Hm st Hst) as [Ha [Hkv _]].
  unfold mbind, M_bind. destruct (m st) as [a' st']. cbn in *. subst.
  split; [done|]. split; [done|]. apply Hst.
Qed.
End resolution.

(** ** Properties *)

(** A variable resolves to the value it denotes: the caches of the key-value
    context and the lazy, at most once done, verification of the signature are
    not observable while the server's content stays the same, and resolving one
    variable leaves the state fit for the next. *)
Theorem ResolveValue_correct `{Env} snapshot c path st :
  server_static snapshot → ctx_inv snapshot c st →
  (ResolveValue c path st).1 = denote_variable snapshot c path ∧
  ctx_inv snapshot c (ResolveValue c path st).2.
Proof. intros Hs Hst. by apply ResolveValue_returns. Qed.

Definition demo_headers : list (string * string) :=
  [("nats-public-key", "UABC"); ("nats-signature", "VUFCQ3NhbXBsZQ==")].

Definition demo_context : EvaluationContext :=
  let headers := canonical_headers demo_headers in
  let msg := match sample with VObj m => m | _ => ∅ end in
  MkContext msg "sample" headers msg (Some (NewSubjectContext "sensors.temp.kitchen")) None
    (ContextAt (MkTime 0 0)) (Some (MkKVContext {["config"]}))
    (Some (NewSignatureVerification true "Nats-Public-Key" "Nats-Signature")).

Lemma demo_coherent : @ctx_inv demo demo_snapshot demo_context demo_start.
Proof.
  split.
  - intros kv _. split.
    + intros f p Hf. exfalso. cbv in Hf. discriminate.
    + vm_compute. lia.
    + intros b k v Hv. exfalso. cbv in Hv. discriminate.
  - reflexivity.
Qed.

Lemma ResolveValue_correct_witness :
  @denote_variable demo demo_snapshot demo_context "@signature.valid" = Some (VBool true) ∧
  (@ResolveValue demo demo_context "@signature.valid" demo_start).1 =
    @denote_variable demo demo_snapshot demo_context "@signature.valid" ∧
  @ctx_inv demo demo_snapshot demo_context (@ResolveValue demo demo_context "@signature.valid" demo_start).2.
Proof.
  split; [vm_compute; reflexivity|].
  apply (ResolveValue_correct (H:=demo) demo_snapshot demo_context "@signature.valid" demo_start);
    [done | apply demo_coherent].
Defined.

(** A context is verified at most once: a second request changes nothing, and the
    first attempts at most one verification. *)
Theorem verifySignature_once `{Env} c st :
  let st1 := (verifySignature c st).2 in
  (verifySignature c st1).2 = st1 ∧
  (st_verifications st ≤ st_verifications st1 ≤ S (st_verifications st))%nat.
Proof.
  destruct st as [[ch va ke] pc lc n w]. unfold verifySignature, get, mbind, M_bind. cbn.
  destruct ch; cbn; [split; [done | lia]|].
  destruct (ctx_sigVerification c) as [sv|]; cbn; [|split; [done | lia]].
  destruct (sv_Enabled sv); cbn; [|split; [done | lia]].
  destruct (_ || _); cbn; [split; [done | lia]|].
  destruct (b64_DecodeString _); cbn; [|split; [done | lia]].
  destruct (nkeys_FromPublicKey _); cbn; [|split; [done | lia]].
  destruct (nkeys_Verify _ _ _); cbn; (split; [done | lia]).
Qed.

(** In an element's context a plain field is looked up in the element, while
    [@msg.] and every other system field but [@kv.] keep the meaning they have
    in the message's context. *)
Theorem WithElement_scope `{Env} snapshot c element path :
  (HasPrefix path "@" = false →
   denote_variable snapshot (WithElement c element) path = traverse_msg element path) ∧
  (path = "@method" ∨
   existsb (HasPrefix path) ["@msg."; "@subject"; "@path"; "@header."; "@query.";
                             "@time"; "@day"; "@date"; "@signature."] = true →
   HasPrefix path prefixKV = false →
   denote_variable snapshot (WithElement c element) path = denote_variable snapshot c path).
Proof.
  split.
  - intros Hat. assert (∀ p, HasPrefix path (String "@" p) = false) as Hp.
    { intros p. destruct (HasPrefix path (String "@" p)) eqn:E; [|done].
      apply HasPrefix_at in E. congruence. }
    unfold denote_variable, prefixMsg, prefixHeader, prefixQuery, prefixKV, prefixSignature. rewrite !Hp. cbn [orb].
    by destruct (String.eqb_spec path "@method") as [->|].
  - intros Hsys Hkv. unfold denote_variable. rewrite Hkv.
    destruct Hsys as [->|Hsys]; [done|]. cbn [existsb] in Hsys.
    unfold prefixMsg, prefixHeader, prefixQuery, prefixSignature in *.
    do 6 (match goal with |- (if ?b then _ else _) = _ => destruct b; [done|] end).
    destruct (_ || _ || _) eqn:E; [done|]. destruct (HasPrefix path "@signature."); [done|].
    by destruct (HasPrefix path "@time"), (HasPrefix path "@day"), (HasPrefix path "@date").
Qed.

Lemma WithElement_scope_witness :
  @denote_variable demo demo_snapshot (WithElement demo_context {["v" := VNumber "9"]}) "v" = traverse_msg {["v" := VNumber "9"]} "v" ∧
  @denote_variable demo demo_snapshot (WithElement demo_context ∅) "@msg.unit" =
    @denote_variable demo demo_snapshot demo_context "@msg.unit".
Proof.
  split.
  - by apply (WithElement_scope (H:=demo) demo_snapshot demo_context {["v" := VNumber "9"]} "v").
  - apply (WithElement_scope (H:=demo) demo_snapshot demo_context ∅ "@msg.unit"); [by right | done].
Defined.
