(* ===== verification/Conditions.v ===== *)
(** * Condition operands (internal/rule/condition_resolver.go)

    The template strings of the operands of a condition, their resolution when
    a message is evaluated, and the pre-computation done when a rule is loaded
    from a file. *)

From S2P Require Import Prelude GoStrings Value Types Traversal Env KVContext Context.
Local Open Scope string_scope.

Definition IsTemplate (s : string) : bool := Contains s "{" && Contains s "}".

(** [s[1 : len(s)-1]] *)
Definition inner (s : string) : string := stake (slen s - 2) (sdrop 1 s).

Definition ExtractVariable (template : string) : string :=
  let template := TrimSpace template in
  if negb (HasPrefix template "{") || negb (HasSuffix template "}") then ""
  else
    let varName := inner template in
    if String.eqb (TrimSpace varName) "" then "" else varName.

(** The guard of [resolveConditionValue]: three bytes at least, braces around. *)
Definition is_braced (s : string) : bool :=
  (3 <=? slen s)%nat && HasPrefix s "{" && HasSuffix s "}".

(** ** Pre-computation *)

Definition precomputeTemplatePath (s : string) : string * option (list string) :=
  if negb (IsTemplate s) then ("", None)
  else
    let varName := ExtractVariable s in
    if String.eqb varName "" then ("", None)
    else if HasPrefix varName "@" then (varName, None)
    else if Contains varName "{" then ("", None)
    else (varName, Some (Split "." varName)).

Definition prepareForEachPath (forEachTemplate : string) : option (list string) :=
  let fieldPath := ExtractVariable forEachTemplate in
  if String.eqb fieldPath "" then None
  else if HasPrefix fieldPath "@" then None
  else if Contains fieldPath "{" then None
  else ok_or_none (SplitPathRespectingBraces fieldPath).

Fixpoint PrepareConditions (conditions : Conditions) : Conditions :=
  let '(MkConditions op items groups) := conditions in
  MkConditions op (map prepareCondition items) (map PrepareConditions groups)
with prepareCondition (c : Condition) : Condition :=
  let '(MkCondition field op val nested _ _ valueVarName valuePath) := c in
  let '(fieldVarName, fieldPath) := precomputeTemplatePath field in
  let '(valueVarName, valuePath) :=
    match val with VStr s => precomputeTemplatePath s | _ => (valueVarName, valuePath) end in
  MkCondition field op val
    (match nested with Some cs => Some (PrepareConditions cs) | None => None end)
    fieldVarName fieldPath valueVarName valuePath.

(** ** Resolution *)

Section resolution.
Context `{Env}.

(** [None] is the error of a variable that is not found. *)
Definition resolveConditionValue (v : value) (context : EvaluationContext) : M (option value) :=
  match v with
  | VStr strValue =>
      if negb (is_braced strValue) then mret (Some v)
      else
        let varName := inner strValue in
        if String.eqb varName "" then mret (Some v) else ResolveValue context varName
  | _ => mret (Some v)
  end.

Definition resolveConditionValueFast (v : value) (varName : string) (path : option (list string))
    (context : EvaluationContext) : M (option value) :=
  match path with
  | Some path => mret (ok_or_none (TraversePath (VObj (ctx_Msg context)) path))
  | None =>
      if negb (String.eqb varName "") then ResolveValue context varName
      else resolveConditionValue v context
  end.

(** ** Specification *)

Variable snapshot : string → string → option string.

Definition denote_value (v : value) (c : EvaluationContext) : option value :=
  match v with
  | VStr s =>
      if is_braced s && negb (String.eqb (inner s) "")
      then denote_variable snapshot c (inner s) else Some v
  | _ => Some v
  end.

Definition denote_operand (v : value) (varName : string) (path : option (list string))
    (c : EvaluationContext) : option value :=
  match path with
  | Some path => ok_or_none (TraversePath (VObj (ctx_Msg c)) path)
  | None =>
      if negb (String.eqb varName "") then denote_variable snapshot c varName
      else denote_value v c
  end.

(** ** Lemmas *)

Hypothesis Hstatic : server_static snapshot.

Lemma resolveConditionValueFast_returns v varName path c :
  returns (ctx_inv snapshot c) (resolveConditionValueFast v varName path c)
    (denote_operand v varName path c).
Proof.
  unfold resolveConditionValueFast, denote_operand.
  destruct path; [apply returns_ret|].
  destruct (String.eqb varName ""); cbn [negb]; [|by apply ResolveValue_returns].
  unfold resolveConditionValue, denote_value. destruct v; try apply returns_ret.
  destruct (is_braced s); cbn [negb andb]; [|apply returns_ret].
  destruct (String.eqb (inner s) ""); cbn [negb]; [apply returns_ret|].
  by apply ResolveValue_returns.
Qed.
End resolution.

(** A string no white space surrounds. *)
Definition trimmed (s : string) : bool := String.eqb (TrimSpace s) s.

Lemma denote_variable_plain `{Env} snapshot c s :
  HasPrefix s "@" = false → denote_variable snapshot c s = traverse_msg (ctx_Msg c) s.
Proof.
  intros Hat. assert (∀ p, HasPrefix s (String "@" p) = false) as Hp.
  { intros p. destruct (HasPrefix s (String "@" p)) eqn:E; [|done]. apply HasPrefix_at in E. congruence. }
  unfold denote_variable, prefixMsg, prefixHeader, prefixQuery, prefixKV, prefixSignature. rewrite !Hp. cbn [orb].
  by destruct (String.eqb_spec s "@method") as [->|].
Qed.

Lemma inner_slen s : is_braced s = true → inner s ≠ "".
Proof.
  unfold is_braced, inner. rewrite !andb_true_iff, Nat.leb_le. intros [[Hl _] _].
  destruct s as [|a [|b s]]; unfold slen in *; cbn in *; try lia.
  destruct (String.length s); [lia|]. done.
Qed.

(** What the loader pre-computes resolves to what the string itself does. *)
Lemma precompute_denotes `{Env} snapshot c s :
  trimmed s = true →
  let '(varName, path) := precomputeTemplatePath s in
  denote_operand snapshot (VStr s) varName path c = denote_operand snapshot (VStr s) "" None c.
Proof.
  unfold trimmed, precomputeTemplatePath. rewrite String.eqb_eq. intros Ht.
  destruct (IsTemplate s); cbn [negb]; [|done]. unfold ExtractVariable. rewrite Ht.
  destruct (negb (HasPrefix s "{") || negb (HasSuffix s "}")) eqn:Eb; [done|].
  destruct (String.eqb (TrimSpace (inner s)) "") eqn:Ei; [done|].
  assert (inner s ≠ "") as Hin by (intros E; by rewrite E in Ei).
  assert (is_braced s = true) as Hbr.
  { apply orb_false_iff in Eb as [E1 E2]. apply negb_false_iff in E1, E2.
    unfold is_braced. rewrite E1, E2, !andb_true_r. apply Nat.leb_le.
    unfold inner in Hin. destruct (slen s - 2) eqn:El; [done | lia]. }
  apply String.eqb_neq in Hin as Hin'. rewrite Hin'.
  assert (denote_operand snapshot (VStr s) "" None c = denote_variable snapshot c (inner s)) as ->.
  { unfold denote_operand, denote_value. cbn [String.eqb negb]. by rewrite Hbr, Hin'. }
  destruct (HasPrefix (inner s) "@") eqn:Eat.
  { unfold denote_operand. by rewrite Hin'. }
  destruct (Contains (inner s) "{"); unfold denote_operand, denote_value.
  - cbn [String.eqb negb]. by rewrite Hbr, Hin'.
  - rewrite denote_variable_plain by done. unfold traverse_msg, TraversePathString. by rewrite Hin'.
Qed.
