(* ===== verification/Evaluator.v ===== *)
(** * Conditions (internal/rule/evaluator.go)

    The evaluation of a condition tree against a context: operands resolved
    from left to right, comparison by operator, groups and array operators that
    stop as soon as the answer is known.  [denote] is the meaning of a tree
    without a state, in terms of [forallb] and [existsb]. *)

From S2P Require Import Prelude GoStrings GoFloat GoTime Value Types TimeContext Traversal Env Demo KVContext Context Conditions.
Local Open Scope string_scope.

Definition clockSkewTolerance : Z := 5 * Second.

(** ** Comparisons *)

Definition normalizeNumber (v : value) : value :=
  match v with
  | VNumber n =>
      match ParseInt n with
      | Some i => VInt i
      | None => match ParseFloat n with Some f => VFloat f | None => VStr n end
      end
  | _ => v
  end.

Definition convertToString (v : value) : string := if is_nil v then "" else sprint v.

(** The equality of [compareValues] on normalized operands that are not nil. *)
Definition values_equal (a b : value) : bool :=
  match a, b with
  | VStr va, VStr vb => String.eqb va vb
  | VStr va, _ => String.eqb va (convertToString b)
  | VFloat va, VFloat vb => feqb va vb
  | VFloat va, VInt vb => feqb va (float_of_Z vb)
  | VFloat va, VStr vb => match ParseFloat vb with Some parsed => feqb va parsed | None => false end
  | VFloat _, _ => false
  | VInt va, VInt vb => (va =? vb)%Z
  | VInt va, VFloat vb => feqb (float_of_Z va) vb
  | VInt va, VStr vb => match Atoi vb with Some parsed => (va =? parsed)%Z | None => false end
  | VInt _, _ => false
  | VBool va, VBool vb => Bool.eqb va vb
  | VBool va, VStr vb => match ParseBool vb with Some parsed => Bool.eqb va parsed | None => false end
  | VBool _, _ => false
  | _, _ => String.eqb (convertToString a) (convertToString b)
  end.

Definition compareValues (a b : value) (op : string) : bool :=
  if is_nil a && is_nil b then String.eqb op "eq"
  else if is_nil a || is_nil b then String.eqb op "neq"
  else
    let equal := values_equal (normalizeNumber a) (normalizeNumber b) in
    if String.eqb op "eq" then equal else negb equal.

Definition compareContains (fieldValue searchValue : value) : bool :=
  match fieldValue with
  | VArr arr => existsb (λ item, compareValues item searchValue "eq") arr
  | _ => Contains (convertToString fieldValue) (convertToString searchValue)
  end.

Definition compareIn (fieldValue allowedValues : value) : bool :=
  match allowedValues with
  | VArr arr => existsb (λ item, compareValues fieldValue item "eq") arr
  | _ => false
  end.

Definition toFloat (v : value) : option float64 :=
  match v with
  | VNumber s => ParseFloat s
  | VFloat f => Some f
  | VInt z | VInt64 z => Some (float_of_Z z)
  | VStr s => ParseFloat s
  | _ => None
  end.

Definition compareNumeric (a b : value) (op : string) : bool :=
  match toFloat a with
  | None => false
  | Some numA =>
      match toFloat b with
      | None => false
      | Some numB =>
          if String.eqb op "gt" then fltb numB numA
          else if String.eqb op "lt" then fltb numA numB
          else if String.eqb op "gte" then fleb numB numA
          else if String.eqb op "lte" then fleb numA numB
          else false
      end
  end.

Definition unix_of_float (f : float64) : Time :=
  let '(sec, dec) := Modf f in
  UnixTime (float_to_int64 sec) (float_to_int64 (fmul dec (float_of_Z 1000000000))).

Definition parseTimestamp (v : value) : option Time :=
  match v with
  | VNumber s => unix_of_float <$> ParseFloat s
  | VFloat f => Some (unix_of_float f)
  | VInt64 z | VInt z => Some (UnixTime z 0)
  | VStr s => ParseRFC3339 s
  | _ => None
  end.

Definition compareRecent (msgTimestamp tolerance : value) (context : EvaluationContext) : bool :=
  match tolerance with
  | VStr toleranceStr =>
      match ParseDuration toleranceStr with
      | None => false
      | Some duration =>
          match parseTimestamp msgTimestamp with
          | None => false
          | Some ts =>
              let diff := Sub (tc_timestamp (ctx_Time context)) ts in
              if (diff <? - clockSkewTolerance)%Z then false else (diff <=? duration)%Z
          end
      end
  | _ => false
  end.

Definition is_array_operator (op : string) : bool :=
  String.eqb op "any" || String.eqb op "all" || String.eqb op "none".

(** The switch on the operator once both operands are resolved. *)
Definition compare (op : string) (left right : value) (context : EvaluationContext) : bool :=
  if String.eqb op "eq" then compareValues left right "eq"
  else if String.eqb op "neq" then compareValues left right "neq"
  else if String.eqb op "gt" || String.eqb op "lt" || String.eqb op "gte" || String.eqb op "lte"
  then compareNumeric left right op
  else if String.eqb op "contains" then compareContains left right
  else if String.eqb op "not_contains" then negb (compareContains left right)
  else if String.eqb op "in" then compareIn left right
  else if String.eqb op "not_in" then negb (compareIn left right)
  else if String.eqb op "recent" then compareRecent left right context
  else false.

Definition ensureObject (item : value) : gmap string value :=
  match item with VObj m => m | _ => {["@value" := item]} end.

(** ** Evaluation *)

Section evaluation.
Context `{Env}.

(** The loop over the elements; [total] is the length of the array. *)
Fixpoint array_loop (eval : gmap string value → M bool) (op : string) (total matchCount : nat)
    (elements : list value) : M bool :=
  match elements with
  | [] =>
      mret (if String.eqb op "any" then (0 <? matchCount)%nat
            else if String.eqb op "all" then (0 <? matchCount)%nat && (matchCount =? total)%nat
            else if String.eqb op "none" then (matchCount =? 0)%nat
            else false)
  | element :: rest =>
      holds ← eval (ensureObject element);
      if (holds : bool) then
        if String.eqb op "any" then mret true
        else if String.eqb op "none" then mret false
        else array_loop eval op total (S matchCount) rest
      else
        if String.eqb op "all" then mret false
        else array_loop eval op total matchCount rest
  end.

(** [nested] evaluates the nested conditions in an element's context. *)
Definition evaluateArrayCondition (nested : option (gmap string value → M bool)) (op : string)
    (fieldValue : value) : M bool :=
  match fieldValue, nested with
  | VArr array, Some eval => array_loop eval op (length array) 0 array
  | _, _ => mret false
  end.

Definition evaluateAND {A B} (evaluateCondition : A → M bool) (Evaluate : B → M bool)
    (items : list A) (groups : list B) : M bool :=
  all ← forallM evaluateCondition items;
  if (all : bool) then forallM Evaluate groups else mret false.

Definition evaluateOR {A B} (evaluateCondition : A → M bool) (Evaluate : B → M bool)
    (items : list A) (groups : list B) : M bool :=
  any ← existsM evaluateCondition items;
  if (any : bool) then mret true else existsM Evaluate groups.

Fixpoint Evaluate (context : EvaluationContext) (conditions : Conditions) {struct conditions} : M bool :=
  let '(MkConditions op items groups) := conditions in
  if (length items =? 0)%nat && (length groups =? 0)%nat then mret true
  else if String.eqb op "and" then
    evaluateAND (evaluateCondition context) (Evaluate context) items groups
  else if String.eqb op "or" then
    evaluateOR (evaluateCondition context) (Evaluate context) items groups
  else mret false
with evaluateCondition (context : EvaluationContext) (c : Condition) {struct c} : M bool :=
  let '(MkCondition field op val nested fieldVarName fieldPath valueVarName valuePath) := c in
  leftValue ← resolveConditionValueFast (VStr field) fieldVarName fieldPath context;
  let present := match leftValue with Some v => negb (is_nil v) | None => false end in
  if String.eqb op "exists" then mret present
  else if String.eqb op "not_exists" then mret (negb present)
  else match leftValue with
  | None => mret false
  | Some leftValue =>
      if is_nil leftValue then mret false
      else if is_array_operator op then
        evaluateArrayCondition
          (match nested with
           | Some cs => Some (λ element, on_copy (Evaluate (WithElement context element) cs))
           | None => None
           end) op leftValue
      else
        rightValue ← resolveConditionValueFast val valueVarName valuePath context;
        match rightValue with
        | None => mret false
        | Some rightValue => mret (compare op leftValue rightValue context)
        end
  end.

(** [Evaluate] on the pointer a rule holds: nil conditions hold. *)
Definition EvaluateOpt (context : EvaluationContext) (conditions : option Conditions) : M bool :=
  match conditions with None => mret true | Some cs => Evaluate context cs end.
End evaluation.

(** ** Specification *)

Section denotation.
Context `{Env}.
Variable snapshot : string → string → option string.

(** [all] of an empty array is false, [none] of it is true. *)
Definition denote_array (p : value → bool) (op : string) (array : list value) : bool :=
  if String.eqb op "any" then existsb p array
  else if String.eqb op "all" then negb (length array =? 0)%nat && forallb p array
  else forallb (λ e, negb (p e)) array.

Fixpoint denote (c : EvaluationContext) (conditions : Conditions) {struct conditions} : bool :=
  let '(MkConditions op items groups) := conditions in
  if (length items =? 0)%nat && (length groups =? 0)%nat then true
  else if String.eqb op "and" then forallb (denote_condition c) items && forallb (denote c) groups
  else if String.eqb op "or" then existsb (denote_condition c) items || existsb (denote c) groups
  else false
with denote_condition (c : EvaluationContext) (cond : Condition) {struct cond} : bool :=
  let '(MkCondition field op val nested fieldVarName fieldPath valueVarName valuePath) := cond in
  let lv := denote_operand snapshot (VStr field) fieldVarName fieldPath c in
  let present := match lv with Some v => negb (is_nil v) | None => false end in
  if String.eqb op "exists" then present
  else if String.eqb op "not_exists" then negb present
  else match lv with
  | None => false
  | Some lv =>
      if is_nil lv then false
      else if is_array_operator op then
        match lv, nested with
        | VArr array, Some cs =>
            denote_array (λ e, denote (WithElement c (ensureObject e)) cs) op array
        | _, _ => false
        end
      else match denote_operand snapshot val valueVarName valuePath c with
      | None => false
      | Some rv => compare op lv rv c
      end
  end.

(** ** Lemmas *)

Hypothesis Hstatic : server_static snapshot.

Lemma array_loop_returns I eval p op total n l :
  is_array_operator op = true →
  (∀ e, e ∈ l → returns I (eval (ensureObject e)) (p e)) →
  (op = "all" → total = n + length l) → (op = "any" ∨ op = "none" → n = 0) →
  returns I (array_loop eval op total n l)
    (if String.eqb op "any" then existsb p l
     else if String.eqb op "all" then negb (total =? 0)%nat && forallb p l
     else forallb (λ e, negb (p e)) l).
Proof.
  intros Hop. assert (op = "any" ∨ op = "all" ∨ op = "none") as Hops.
  { unfold is_array_operator in Hop. rewrite !orb_true_iff, !String.eqb_eq in Hop. tauto. }
  revert n; induction l as [|e l IH]; intros n Hev Ht Hn; cbn [array_loop existsb forallb].
  - destruct Hops as [->|[->| ->]]; cbn.
    + rewrite Hn by auto. apply returns_ret.
    + rewrite Ht by done. simpl. rewrite Nat.add_0_r, Nat.eqb_refl, !andb_true_r.
      destruct n; apply returns_ret.
    + rewrite Hn by auto. apply returns_ret.
  - eapply returns_bind; [apply Hev; set_solver|].
    assert (∀ e', e' ∈ l → returns I (eval (ensureObject e')) (p e')) as Hev' by set_solver.
    destruct Hops as [->|[->| ->]]; cbn [String.eqb Ascii.eqb Bool.eqb] in *.
    + destruct (p e); [apply returns_ret|]. apply IH; auto. done.
    + destruct (p e); [|rewrite andb_false_r; apply returns_ret]. cbn [andb].
      apply IH; [done| |by intros [|]]. intros _. rewrite Ht by done. simpl. lia.
    + destruct (p e); [apply returns_ret|]. cbn [negb andb]. apply IH; auto. done.
Qed.

Lemma evaluateAND_returns {A B} I (f : A → M bool) (g : B → M bool) p q items groups :
  (∀ x, x ∈ items → returns I (f x) (p x)) → (∀ x, x ∈ groups → returns I (g x) (q x)) →
  returns I (evaluateAND f g items groups) (forallb p items && forallb q groups).
Proof.
  intros Hf Hg. eapply returns_bind; [by apply forallM_returns|].
  destruct (forallb p items); [by apply forallM_returns | apply returns_ret].
Qed.

Lemma evaluateOR_returns {A B} I (f : A → M bool) (g : B → M bool) p q items groups :
  (∀ x, x ∈ items → returns I (f x) (p x)) → (∀ x, x ∈ groups → returns I (g x) (q x)) →
  returns I (evaluateOR f g items groups) (existsb p items || existsb q groups).
Proof.
  intros Hf Hg. eapply returns_bind; [by apply existsM_returns|].
  destruct (existsb p items); [apply returns_ret | by apply existsM_returns].
Qed.

Lemma Evaluate_both :
  (∀ cs c, returns (ctx_inv snapshot c) (Evaluate c cs) (denote c cs)) ∧
  (∀ cond c, returns (ctx_inv snapshot c) (evaluateCondition c cond) (denote_condition c cond)).
Proof.
  assert (∀ op items groups,
    Forall (λ cond, ∀ c, returns (ctx_inv snapshot c) (evaluateCondition c cond) (denote_condition c cond)) items →
    Forall (λ cs, ∀ c, returns (ctx_inv snapshot c) (Evaluate c cs) (denote c cs)) groups →
    ∀ c, returns (ctx_inv snapshot c) (Evaluate c (MkConditions op items groups))
      (denote c (MkConditions op items groups))) as HP.
  { intros op items groups Hi Hg c. rewrite Forall_forall in Hi. rewrite Forall_forall in Hg. cbn [Evaluate denote].
    destruct (_ && _); [apply returns_ret|].
    destruct (String.eqb op "and"); [apply evaluateAND_returns; naive_solver|].
    destruct (String.eqb op "or"); [apply evaluateOR_returns; naive_solver | apply returns_ret]. }
  assert (∀ field op val nested fv fp vv vp,
    (∀ cs, nested = Some cs → ∀ c, returns (ctx_inv snapshot c) (Evaluate c cs) (denote c cs)) →
    ∀ c, returns (ctx_inv snapshot c) (evaluateCondition c (MkCondition field op val nested fv fp vv vp))
      (denote_condition c (MkCondition field op val nested fv fp vv vp))) as HQ.
  { intros field op val nested fv fp vv vp Hn c. cbn [evaluateCondition denote_condition].
    eapply returns_bind; [by apply resolveConditionValueFast_returns|]. cbv zeta.
    destruct (String.eqb op "exists"); [apply returns_ret|].
    destruct (String.eqb op "not_exists"); [apply returns_ret|].
    destruct (denote_operand snapshot (VStr field) fv fp c) as [lv|]; [|apply returns_ret].
    destruct (is_nil lv); [apply returns_ret|].
    destruct (is_array_operator op) eqn:Hop.
    + destruct lv; try apply returns_ret. destruct nested as [cs|]; [|apply returns_ret].
      unfold evaluateArrayCondition, denote_array. apply array_loop_returns; [done| |done|done].
      intros e _. apply on_copy_returns with (e := ensureObject e). by apply Hn.
    + eapply returns_bind; [by apply resolveConditionValueFast_returns|].
      destruct (denote_operand snapshot val vv vp c); apply returns_ret. }
  split; intros x; [apply (conditions_mut _ _ HP HQ x) | apply (condition_mut _ _ HP HQ x)].
Qed.

Lemma Evaluate_returns cs c : returns (ctx_inv snapshot c) (Evaluate c cs) (denote c cs).
Proof. apply Evaluate_both. Qed.

Lemma evaluateCondition_returns cond c :
  returns (ctx_inv snapshot c) (evaluateCondition c cond) (denote_condition c cond).
Proof. apply Evaluate_both. Qed.
End denotation.

(** ** Conditions as a file gives them *)

(** Nothing pre-computed yet, and no operand surrounded by white space. *)
Fixpoint fresh (conditions : Conditions) : bool :=
  let '(MkConditions _ items groups) := conditions in
  forallb fresh_condition items && forallb fresh groups
with fresh_condition (c : Condition) : bool :=
  let '(MkCondition field _ val nested fv fp vv vp) := c in
  trimmed field && (match val with VStr s => trimmed s | _ => true end) &&
  (match nested with Some cs => fresh cs | None => true end) &&
  String.eqb fv "" && String.eqb vv "" &&
  match fp, vp with None, None => true | _, _ => false end.

Lemma forallb_ext_in {A} (p q : A → bool) l : (∀ x, x ∈ l → p x = q x) → forallb p l = forallb q l.
Proof. induction l as [|x l IH]; simpl; intros Hpq; [done|]. rewrite Hpq, IH by set_solver. done. Qed.

Lemma existsb_ext_in {A} (p q : A → bool) l : (∀ x, x ∈ l → p x = q x) → existsb p l = existsb q l.
Proof. induction l as [|x l IH]; simpl; intros Hpq; [done|]. rewrite Hpq, IH by set_solver. done. Qed.

Lemma forallb_map {A B} (f : A → B) p l : forallb p (map f l) = forallb (λ x, p (f x)) l.
Proof. induction l as [|x l IH]; simpl; [done|]. by rewrite IH. Qed.

Lemma existsb_map {A B} (f : A → B) p l : existsb p (map f l) = existsb (λ x, p (f x)) l.
Proof. induction l as [|x l IH]; simpl; [done|]. by rewrite IH. Qed.

Lemma denote_array_ext p q op l : (∀ v, p v = q v) → denote_array p op l = denote_array q op l.
Proof.
  intros Hpq. unfold denote_array. rewrite (existsb_ext_in p q), (forallb_ext_in p q) by auto.
  rewrite (forallb_ext_in (λ e, negb (p e)) (λ e, negb (q e))); [done|]. intros x _. by rewrite Hpq.
Qed.

Lemma denote_operand_value `{Env} snapshot val c :
  (match val with VStr s => trimmed s | _ => true end) = true →
  let '(vv, vp) := match val with VStr s => precomputeTemplatePath s | _ => ("", None) end in
  denote_operand snapshot val vv vp c = denote_operand snapshot val "" None c.
Proof. destruct val; try done. apply precompute_denotes. Qed.

Lemma denote_prepared `{Env} snapshot cs c :
  fresh cs = true → denote snapshot c (PrepareConditions cs) = denote snapshot c cs.
Proof.
  revert c. apply (conditions_mut
    (λ cs, ∀ c, fresh cs = true → denote snapshot c (PrepareConditions cs) = denote snapshot c cs)
    (λ cond, ∀ c, fresh_condition cond = true →
      denote_condition snapshot c (prepareCondition cond) = denote_condition snapshot c cond)); clear cs.
  - intros op items groups Hi Hg c. rewrite Forall_forall in Hi. rewrite Forall_forall in Hg.
    cbn [fresh PrepareConditions denote]. rewrite andb_true_iff, !forallb_True. intros [Fi Fg].
    rewrite !length_map, !forallb_map, !existsb_map.
    rewrite (forallb_ext_in _ (denote_condition snapshot c) items) by auto.
    rewrite (forallb_ext_in _ (denote snapshot c) groups) by auto.
    rewrite (existsb_ext_in _ (denote_condition snapshot c) items) by auto.
    by rewrite (existsb_ext_in _ (denote snapshot c) groups) by auto.
  - intros field op val nested fv fp vv vp Hn c. cbn [fresh_condition]. rewrite !andb_true_iff, !String.eqb_eq.
    intros [[[[[Hf Hv] Hnest] ->] ->] Hp]. destruct fp, vp; try done. cbn [prepareCondition].
    pose proof (precompute_denotes snapshot c field Hf) as Ef.
    pose proof (denote_operand_value snapshot val c Hv) as Ev.
    destruct (precomputeTemplatePath field) as [fv fp].
    destruct (match val with VStr s => precomputeTemplatePath s | _ => ("", None) end) as [vv vp].
    cbn [denote_condition]. rewrite Ef, Ev. clear Ef Ev Hp Hf Hv.
    destruct (String.eqb op "exists"); [done|]. destruct (String.eqb op "not_exists"); [done|].
    destruct (denote_operand snapshot (VStr field) "" None c) as [lv|]; [|done].
    destruct (is_nil lv); [done|]. destruct (is_array_operator op); [|done].
    destruct nested as [cs|]; [|done]. destruct lv; try done. apply denote_array_ext. intros e. by apply Hn.
Qed.

(** ** Properties *)

(** C4: Evaluating a condition tree gives its meaning, over a key-value store that
    does not change.  Let every read of the store give its snapshot, the caches
    agree with the snapshot, and the signature of the message be not yet checked,
    or checked by this context.  Then groups are conjunctions and disjunctions, array operators
    quantify over the elements, an operand is the value its template denotes, and
    the caches agree with the snapshot again: short-circuiting, filling the
    caches and verifying late change no verdict.  A cache that does not agree can: see
    [KVCache.unwatched_bucket_goes_stale]. *)
Theorem Evaluate_correct `{Env} snapshot c cs st :
  server_static snapshot → ctx_inv snapshot c st →
  (Evaluate c cs st).1 = denote snapshot c cs ∧ ctx_inv snapshot c (Evaluate c cs st).2.
Proof. intros Hs Hst. by apply Evaluate_returns. Qed.

Definition demo_conditions : Conditions :=
  MkConditions "and"
    [cond "{temperature}" "gt" (VStr "{@kv.config.limits:max}");
     cond_array "{readings}" "any" (MkConditions "and" [cond "{v}" "gte" (VInt 9)] [])]
    [MkConditions "or" [cond "{missing}" "exists" VNil; cond "{@signature.valid}" "eq" (VBool true)] []].

Lemma Evaluate_correct_witness :
  (@Evaluate demo demo_context demo_conditions demo_start).1 = true ∧
  (@Evaluate demo demo_context demo_conditions demo_start).1 =
    @denote demo demo_snapshot demo_context demo_conditions ∧
  @ctx_inv demo demo_snapshot demo_context (@Evaluate demo demo_context demo_conditions demo_start).2.
Proof.
  split; [vm_compute; reflexivity|].
  apply (Evaluate_correct (H:=demo) demo_snapshot); [done | apply demo_coherent].
Defined.

(** What [PrepareConditions] computes when rules are loaded changes no verdict,
    as long as no operand is surrounded by white space. *)
Theorem PrepareConditions_sound `{Env} snapshot c cs st st' :
  server_static snapshot → ctx_inv snapshot c st → ctx_inv snapshot c st' → fresh cs = true →
  (Evaluate c (PrepareConditions cs) st).1 = (Evaluate c cs st').1.
Proof.
  intros Hs Hst Hst' Hf. destruct (Evaluate_returns snapshot Hs (PrepareConditions cs) c st Hst) as [-> _].
  destruct (Evaluate_returns snapshot Hs cs c st' Hst') as [-> _]. by apply denote_prepared.
Qed.

Lemma PrepareConditions_sound_witness :
  fresh demo_conditions = true ∧
  (@Evaluate demo demo_context (PrepareConditions demo_conditions) demo_start).1 =
    (@Evaluate demo demo_context demo_conditions demo_start).1.
Proof.
  split; [reflexivity|].
  apply (PrepareConditions_sound (H:=demo) demo_snapshot);
    [done | apply demo_coherent | apply demo_coherent | reflexivity].
Defined.

(** With white space around it the operand is a literal unless it was prepared:
    the same rule is false when it comes from the key-value store, whose rules
    are not prepared, and true when it comes from a file. *)
Lemma padded_operand_differs :
  let cs := MkConditions "and" [cond " {unit} " "eq" (VStr "C")] [] in
  (@Evaluate demo demo_context (PrepareConditions cs) demo_start).1 = true ∧
  (@Evaluate demo demo_context cs demo_start).1 = false.
Proof. vm_compute. done. Qed.

(** The array operators quantify over the elements, each in a context of its own:
    [any] some element, [all] every element of a non-empty array, [none] no
    element; on an empty array [any] and [all] are false and [none] is true. *)
Theorem array_operators_correct `{Env} snapshot c field cs arr st :
  server_static snapshot → ctx_inv snapshot c st →
  denote_operand snapshot (VStr field) "" None c = Some (VArr arr) →
  let verdict op := (evaluateCondition c (MkCondition field op VNil (Some cs) "" None "" None) st).1 in
  let holds e := (Evaluate (WithElement c (ensureObject e)) cs st).1 = true in
  (verdict "any" = true ↔ ∃ e, e ∈ arr ∧ holds e) ∧
  (verdict "all" = true ↔ arr ≠ [] ∧ ∀ e, e ∈ arr → holds e) ∧
  (verdict "none" = true ↔ ∀ e, e ∈ arr → ¬ holds e).
Proof.
  intros Hs Hst Hf. cbv zeta beta.
  assert (∀ e, (Evaluate (WithElement c (ensureObject e)) cs st).1 =
    denote snapshot (WithElement c (ensureObject e)) cs) as He.
  { intros e. by apply (Evaluate_returns snapshot Hs cs (WithElement c (ensureObject e)) st). }
  set (p := λ e, denote snapshot (WithElement c (ensureObject e)) cs) in *.
  assert (∀ op, is_array_operator op = true →
    (evaluateCondition c (MkCondition field op VNil (Some cs) "" None "" None) st).1 = denote_array p op arr) as Hv.
  { intros op Hop. rewrite (proj1 (evaluateCondition_returns snapshot Hs _ c st Hst)).
    cbn [denote_condition]. rewrite Hf. cbn [is_nil]. rewrite Hop.
    unfold is_array_operator in Hop. rewrite !orb_true_iff, !String.eqb_eq in Hop.
    by destruct Hop as [[->| ->]| ->]. }
  rewrite !Hv by done. unfold denote_array. cbn [String.eqb Ascii.eqb Bool.eqb].
  setoid_rewrite He. split_and!.
  - apply existsb_True.
  - rewrite andb_true_iff, forallb_True. destruct arr; simpl; naive_solver.
  - rewrite forallb_True. setoid_rewrite negb_true_iff. by setoid_rewrite not_true_iff_false.
Qed.

Lemma array_operators_correct_witness :
  let cs := MkConditions "and" [cond "{v}" "gt" (VInt 5)] [] in
  (@evaluateCondition demo demo_context (MkCondition "{readings}" "all" VNil (Some cs) "" None "" None) demo_start).1 = true ↔
  [obj [("v", VNumber "1")]; obj [("v", VNumber "9")]] ≠ [] ∧
  ∀ e, e ∈ [obj [("v", VNumber "1")]; obj [("v", VNumber "9")]] →
    (@Evaluate demo (WithElement demo_context (ensureObject e)) cs demo_start).1 = true.
Proof.
  intros cs. apply (array_operators_correct (H:=demo) demo_snapshot demo_context "{readings}" cs
    [obj [("v", VNumber "1")]; obj [("v", VNumber "9")]] demo_start); [done | apply demo_coherent | reflexivity].
Defined.

(** [not_exists] is the negation of [exists] in every context, whatever the field
    resolves to; [neq] is the negation of [eq] on every pair of values, nil
    included, as are [not_in] of [in] and [not_contains] of [contains]. *)
Theorem negated_operators `{Env} c st field val nested fv fp vv vp :
  evaluateCondition c (MkCondition field "not_exists" val nested fv fp vv vp) st =
    (let '(b, st') := evaluateCondition c (MkCondition field "exists" val nested fv fp vv vp) st in (negb b, st')) ∧
  (∀ l r, compare "neq" l r c = negb (compare "eq" l r c) ∧
          compare "not_in" l r c = negb (compare "in" l r c) ∧
          compare "not_contains" l r c = negb (compare "contains" l r c)).
Proof.
  split.
  - cbn [evaluateCondition]. unfold mbind, M_bind.
    destruct (resolveConditionValueFast _ _ _ _ _) as [[v|] st']; cbn; [|done]. by rewrite negb_involutive.
  - intros l r. split_and!; [|done|done]. unfold compare, compareValues. cbn [String.eqb Ascii.eqb Bool.eqb].
    destruct (is_nil l), (is_nil r); done.
Qed.

(** A condition whose field is missing or null is false, whatever its operator,
    [not_exists] excepted; so a misspelt field or a message without it never
    satisfies a comparison, not even a negative one. *)
Theorem missing_field_fails `{Env} c st field op val nested fv fp vv vp :
  (∀ v, (resolveConditionValueFast (VStr field) fv fp c st).1 = Some v → v = VNil) →
  (evaluateCondition c (MkCondition field op val nested fv fp vv vp) st).1 = String.eqb op "not_exists".
Proof.
  intros Hm. cbn [evaluateCondition]. unfold mbind, M_bind.
  destruct (resolveConditionValueFast (VStr field) fv fp c st) as [[v|] st']; cbn in Hm.
  - rewrite (Hm v eq_refl). cbn. destruct (String.eqb_spec op "exists") as [->|]; [done|].
    by destruct (String.eqb op "not_exists").
  - destruct (String.eqb_spec op "exists") as [->|]; [done|]. by destruct (String.eqb op "not_exists").
Qed.

Lemma missing_field_fails_witness :
  (@evaluateCondition demo demo_context (cond "{humidity}" "neq" (VInt 5)) demo_start).1 = String.eqb "neq" "not_exists".
Proof.
  apply (missing_field_fails (H:=demo) demo_context demo_start "{humidity}" "neq").
  intros v Hv. exfalso. vm_compute in Hv. discriminate.
Defined.

(** The numeric operators order the operands they read as numbers: of two numbers
    that are not NaN exactly one of less, equal and greater holds, [gte] and
    [lte] are the negations of [lt] and [gt], and an operand that is no number
    makes all four false. *)
Theorem compareNumeric_order a b :
  (∀ x y, toFloat a = Some x → toFloat b = Some y → is_nan x = false → is_nan y = false →
     compareNumeric a b "gte" = negb (compareNumeric a b "lt") ∧
     compareNumeric a b "lte" = negb (compareNumeric a b "gt") ∧
     feqb x y = negb (compareNumeric a b "lt") && negb (compareNumeric a b "gt") ∧
     compareNumeric a b "gt" = compareNumeric b a "lt") ∧
  (toFloat a = None ∨ toFloat b = None → ∀ op, compareNumeric a b op = false).
Proof.
  split.
  - intros x y Ha Hb Hx Hy. unfold compareNumeric. rewrite Ha, Hb. cbn [String.eqb Ascii.eqb Bool.eqb].
    rewrite (fleb_fltb x y), (fleb_fltb y x), feqb_fltb by done. done.
  - unfold compareNumeric. intros [->| ->] op; [done|]. by destruct (toFloat a).
Qed.

Lemma compareNumeric_order_witness :
  compareNumeric (VNumber "30") (VStr "25.5") "gte" = negb (compareNumeric (VNumber "30") (VStr "25.5") "lt") ∧
  compareNumeric (VNumber "30") (VStr "warm") "lt" = false.
Proof.
  split.
  - eapply (proj1 (compareNumeric_order (VNumber "30") (VStr "25.5"))); vm_compute; reflexivity.
  - apply (proj2 (compareNumeric_order (VNumber "30") (VStr "warm"))). right. vm_compute. reflexivity.
Defined.

(** [eq] between an integer of the message and [@timestamp.unix] fails one way
    round: an [int] on the left is never equal to an [int64] on the right. *)
Lemma int64_equality_is_one_sided :
  compareValues (VNumber "1700000000") (VInt64 1700000000) "eq" = false ∧
  compareValues (VInt64 1700000000) (VNumber "1700000000") "eq" = true.
Proof. vm_compute. done. Qed.

(** A child context verifies the signature again, so a message with an array
    operator over [@signature.valid] is verified once per element. *)
Lemma verified_once_per_element :
  let cs := MkConditions "and" [cond "{@signature.valid}" "eq" (VBool true)] [] in
  st_verifications (@evaluateCondition demo demo_context (cond_array "{readings}" "all" cs) demo_start).2 = 2.
Proof. vm_compute. done. Qed.

(** A text is converted to the type of the other operand only on the right of
    [eq]; on the left the other operand is converted to text.  [gt] never orders
    texts. *)
Lemma text_coerced_on_the_right :
  compareValues (VNumber "1.5") (VStr "1.50") "eq" = true ∧ compareValues (VStr "1.50") (VNumber "1.5") "eq" = false ∧
  compareValues (VBool true) (VStr "True") "eq" = true ∧ compareValues (VStr "True") (VBool true) "eq" = false ∧
  compareNumeric (VStr "b") (VStr "a") "gt" = false.
Proof. vm_compute. done. Qed.
