(* ===== verification/Random.v ===== *)
(** * Random values (internal/rule/random.go)

    The parameterized functions of templates that draw from the random source. *)

From S2P Require Import Prelude GoStrings GoFloat GoTime Value Env Demo.
Local Open Scope string_scope.

Definition randomPrefix : string := "random.".
Definition maxRandomDecimals : Z := 10.

Inductive random_error :=
| MalformedCall
| UnknownFunction (name : string)
| WrongArity (got : nat)
| NotAnInteger (arg : string)
| NotANumber (arg : string)
| NotFinite
| MaxBelowMin
| RangeTooLarge (min max : Z)
| BadDecimals (decimals : Z)
| NoChoice.

Section random.
Context `{Env}.

Definition randomInt (args : list string) : M (result random_error string) :=
  match args with
  | [a; b] =>
      match ParseInt a with
      | None => mret (Err (NotAnInteger a))
      | Some minVal =>
          match ParseInt b with
          | None => mret (Err (NotAnInteger b))
          | Some maxVal =>
              if (maxVal <? minVal)%Z then mret (Err MaxBelowMin)
              else
                let span := wrap64 (maxVal - minVal) in
                if (span <? 0)%Z || (span =? int64_max)%Z then mret (Err (RangeTooLarge minVal maxVal))
                else
                  r ← lift_world (λ w, rand_Int64N w (wrap64 (span + 1)));
                  mret (Ok (Itoa (wrap64 (minVal + r))))
          end
      end
  | _ => mret (Err (WrongArity (length args)))
  end.

Definition randomFloat (args : list string) : M (result random_error string) :=
  match args with
  | [a; b; c] =>
      match ParseFloat a with
      | None => mret (Err (NotANumber a))
      | Some minVal =>
          match ParseFloat b with
          | None => mret (Err (NotANumber b))
          | Some maxVal =>
              match Atoi c with
              | None => mret (Err (NotAnInteger c))
              | Some decimals =>
                  if is_inf minVal || is_nan minVal || is_inf maxVal || is_nan maxVal then mret (Err NotFinite)
                  else if fltb maxVal minVal then mret (Err MaxBelowMin)
                  else if (decimals <? 0)%Z || (maxRandomDecimals <? decimals)%Z then mret (Err (BadDecimals decimals))
                  else
                    r ← lift_world rand_Float64;
                    let v := fadd minVal (fmul r (fsub maxVal minVal)) in
                    mret (Ok (FormatFixed v (Z.to_nat decimals)))
              end
          end
      end
  | _ => mret (Err (WrongArity (length args)))
  end.

Definition randomChoice (args : list string) : M (result random_error string) :=
  if (length args =? 0)%nat || ((length args =? 1)%nat && String.eqb (nth 0 args "") "")
  then mret (Err NoChoice)
  else
    i ← lift_world (λ w, rand_IntN w (Z.of_nat (length args)));
    mret (Ok (nth (Z.to_nat i) args "")).

Definition randomValue (call : string) : M (result random_error string) :=
  let '(name, rest, found) := Cut "(" call in
  if negb found || negb (HasSuffix call ")") then mret (Err MalformedCall)
  else
    let args := Split "," (stake (slen rest - 1) rest) in
    if String.eqb name "random.int" then randomInt args
    else if String.eqb name "random.float" then randomFloat args
    else if String.eqb name "random.choice" then randomChoice args
    else mret (Err (UnknownFunction name)).
End random.

(** ** Lemmas *)

Lemma wrap64_span z : (0 ≤ z ≤ int64_max)%Z → wrap64 z = z.
Proof. intros Hz. apply wrap64_id, in_int64_spec. unfold int64_min. lia. Qed.

(** ** Properties *)

(** What [math/rand/v2] documents: a draw below [n]. *)
Definition rand_in_range `{Env} : Prop :=
  (∀ w n, (0 < n)%Z → (0 ≤ (rand_Int64N w n).1 < n)%Z) ∧
  (∀ w n, (0 < n)%Z → (0 ≤ (rand_IntN w n).1 < n)%Z).

(** [random.int] accepts exactly two integers in order whose distance, computed
    without overflow, is below the largest int64, although it is computed with
    wrap-around; and what it renders is an integer between them, both included. *)
Theorem randomInt_correct `{Env} args st :
  rand_in_range →
  (is_ok (randomInt args st).1 = true ↔
   ∃ a b min max, args = [a; b] ∧ ParseInt a = Some min ∧ ParseInt b = Some max ∧
     (min ≤ max ∧ max - min < int64_max)%Z) ∧
  (∀ s, (randomInt args st).1 = Ok s →
   ∃ a b min max v, args = [a; b] ∧ ParseInt a = Some min ∧ ParseInt b = Some max ∧
     s = Itoa v ∧ ParseInt s = Some v ∧ (min ≤ v ≤ max)%Z).
Proof.
  intros [Hr _]. unfold randomInt.
  destruct args as [|a [|b [|c args]]]; try (split; [split; [done|naive_solver] | done]).
  destruct (ParseInt a) as [min|] eqn:Ea; [|split; [split; [done|naive_solver] | done]].
  destruct (ParseInt b) as [max|] eqn:Eb; [|split; [split; [done|naive_solver] | done]].
  pose proof (ParseInt_range _ _ Ea) as Ra%in_int64_spec. pose proof (ParseInt_range _ _ Eb) as Rb%in_int64_spec.
  destruct (Z.ltb_spec max min); [split; [split; [done|]|done]|].
  { intros (? & ? & ? & ? & [= <- <-] & ? & ? & ?). simplify_eq. lia. }
  pose proof (wrap64_span (max - min)) as Hw. cbv zeta.
  destruct ((wrap64 (max - min) <? 0)%Z || (wrap64 (max - min) =? int64_max)%Z) eqn:Es.
  { split; [split; [done|] | done]. intros (? & ? & ? & ? & [= <- <-] & ? & ? & ?). simplify_eq.
    rewrite Hw in Es by (unfold int64_min, int64_max in *; lia).
    unfold int64_max in *. lia. }
  assert (max - min < int64_max)%Z as Hd.
  { apply Z.lt_nge. intros Hge. apply orb_false_iff in Es as [E1 E2].
    unfold wrap64, int64_min, int64_max in *.
    rewrite <- (Z.mod_unique_pos (max - min + 9223372036854775808) 18446744073709551616 1
      (max - min + 9223372036854775808 - 18446744073709551616)) in E1 by lia. lia. }
  rewrite Hw by (unfold int64_max in *; lia). rewrite (wrap64_id (max - min + 1)) by
    (apply in_int64_spec; unfold int64_min, int64_max in *; lia).
  unfold mbind, M_bind, lift_world. specialize (Hr (st_world st) (max - min + 1)%Z ltac:(lia)).
  destruct (rand_Int64N (st_world st) (max - min + 1)) as [r w]. cbn in *.
  rewrite (wrap64_id (min + r)) by (apply in_int64_spec; lia). split.
  - split; [|done]. intros _. exists a, b, min, max. split_and!; (done || lia).
  - intros s [= <-]. exists a, b, min, max, (min + r)%Z. split_and!; try done; [|lia|lia].
    apply Atoi_Itoa, in_int64_spec. lia.
Qed.

Lemma randomInt_correct_witness :
  is_ok (@randomInt demo ["1"; "6"] demo_start).1 = true ↔
   ∃ a b min max, ["1"; "6"] = [a; b] ∧ ParseInt a = Some min ∧ ParseInt b = Some max ∧
     (min ≤ max ∧ max - min < int64_max)%Z.
Proof.
  apply (randomInt_correct (H:=demo) ["1"; "6"] demo_start).
  split; intros w n Hn; apply Z.mod_pos_bound; done.
Defined.

(** [random.choice] renders one of its arguments verbatim, and fails only when
    there is none. *)
Theorem randomChoice_correct `{Env} args st :
  rand_in_range →
  (randomChoice args st).1 = Err NoChoice ∧ (args = [] ∨ args = [""]) ∨
  ∃ s, (randomChoice args st).1 = Ok s ∧ s ∈ args.
Proof.
  intros [_ Hr]. unfold randomChoice.
  destruct (_ || _) eqn:E.
  - left. split; [done|]. destruct args as [|a [|b args]]; [by left| |done].
    right. cbn in E. by apply String.eqb_eq in E as ->.
  - right. unfold mbind, M_bind, lift_world.
    assert (0 < length args) as Hl by (destruct args; simpl; [done|lia]).
    specialize (Hr (st_world st) (Z.of_nat (length args)) ltac:(lia)).
    destruct (rand_IntN (st_world st) (Z.of_nat (length args))) as [i w]. cbn in *.
    eexists. split; [done|]. apply list_elem_of_In, nth_In. lia.
Qed.

Lemma randomChoice_correct_witness :
  (@randomChoice demo ["on"; "off"] demo_start).1 = Err NoChoice ∧ (["on"; "off"] = [] ∨ ["on"; "off"] = [""]) ∨
  ∃ s, (@randomChoice demo ["on"; "off"] demo_start).1 = Ok s ∧ s ∈ ["on"; "off"].
Proof.
  apply (randomChoice_correct (H:=demo) ["on"; "off"] demo_start).
  split; intros w n Hn; apply Z.mod_pos_bound; done.
Defined.
