(* ===== verification/Template.v ===== *)
(** * Templates (internal/rule/template.go)

    The rendering of a template in one pass: a pair of braces around a valid
    variable is replaced by the variable's value, inner variables first, and
    every other byte stands for itself. *)

From S2P Require Import Prelude GoStrings GoFloat GoTime Value Types TimeContext Traversal Env Demo KVContext Context Random.
Local Open Scope string_scope.
#[local] Arguments String.append !_ _ /.

(** ** Scanning *)

(** The number of bytes before the brace that closes [balance] open ones. *)
Fixpoint match_close (balance : nat) (s : string) : option nat :=
  match s with
  | "" => None
  | String c t =>
      if Ascii.eqb c "{" then S <$> match_close (S balance) t
      else if Ascii.eqb c "}" then
        match balance with
        | S (S b) => S <$> match_close (S b) t
        | _ => Some 0
        end
      else S <$> match_close balance t
  end.

Definition isValidVariableChar (c : ascii) : bool :=
  is_alnum c || existsb (Ascii.eqb c) ["_"; "."; ":"; "("; ")"; "="; "/"; "-"; "@"; ","]%char.

Fixpoint valid_from (skip : nat) (s : string) : bool :=
  match s with
  | "" => true
  | String c t =>
      match skip with
      | S k => valid_from k t
      | O =>
          if Ascii.eqb c "{" then
            match match_close 1 t with Some n => valid_from (S n) t | None => false end
          else if Ascii.eqb c "}" then false
          else isValidVariableChar c && valid_from 0 t
      end
  end.

Definition isValidTemplateStructure (s : string) : bool :=
  negb (slen s =? 0)%nat && valid_from 0 s.

(** ** Rendering *)

Inductive template_error := NestingTooDeep.

Section template.
Context `{Env}.

(** [Some] when the name is one of a function. *)
Definition processSystemFunction (function : string) : M (option string) :=
  if String.eqb function "uuid4()" then id ← lift_world uuid_New; mret (Some id)
  else if String.eqb function "uuid7()" then
    id ← lift_world uuid_NewV7;
    mret (Some match id with Some id => id | None => "" end)
  else if String.eqb function "timestamp()" then
    now ← lift_world time_Now; mret (Some (FormatRFC3339 (UTC now)))
  else if HasPrefix function randomPrefix then
    v ← randomValue function;
    mret (Some match v with Ok s => s | Err _ => "" end)
  else mret None.

Definition te_convertToString (v : value) : string :=
  match v with
  | VNil => ""
  | VStr s => s
  | VNumber s => s
  | VFloat f => FormatFloat f
  | VInt z | VInt64 z => Itoa z
  | VBool b => FormatBool b
  | VObj _ | VArr _ => match json_marshal v with Some s => s | None => "" end
  | _ => sprint v
  end.

(** A variable that does not resolve renders as nothing. *)
Definition render_value (v : option value) : string :=
  match v with Some v => te_convertToString v | None => "" end.

Definition render_variable (context : EvaluationContext) (name : string) : M string :=
  let resolve := v ← ResolveValue context name; mret (render_value v) in
  if HasPrefix name "@" && HasSuffix name ")" then
    out ← processSystemFunction (sdrop 1 name);
    match out with Some s => mret s | None => resolve end
  else resolve.

Definition emit (s : string) (rest : M (result template_error string)) : M (result template_error string) :=
  r ← rest; mret (String.append s <$> r).

(** The scan of one input, from its start ([skip] bytes are passed over first);
    [inner] renders the content of braces that holds braces itself. *)
Fixpoint parse_loop (inner : string → M (result template_error string)) (context : EvaluationContext)
    (skip : nat) (s : string) : M (result template_error string) :=
  match s with
  | "" => mret (Ok "")
  | String char t =>
      match skip with
      | S k => parse_loop inner context k t
      | O =>
          let literal := emit (String char "") (parse_loop inner context 0 t) in
          if Ascii.eqb char "{" then
            match match_close 1 t with
            | Some n =>
                let rawContent := stake n t in
                if isValidTemplateStructure rawContent then
                  resolved ← (if Contains rawContent "{" then inner rawContent else mret (Ok rawContent));
                  match resolved with
                  | Err e => mret (Err e)
                  | Ok resolvedVarName =>
                      out ← render_variable context resolvedVarName;
                      emit out (parse_loop inner context (S n) t)
                  end
                else literal
            | None => literal
            end
          else literal
      end
  end.

(** [levels] is 11 less the depth of the recursion, which fails beyond 10. *)
Fixpoint parseRecursive (levels : nat) (context : EvaluationContext) (input : string)
    : M (result template_error string) :=
  match levels with
  | O => mret (Err NestingTooDeep)
  | S levels => parse_loop (parseRecursive levels context) context 0 input
  end.

Definition max_levels : nat := 11.

Definition Execute (template : string) (context : EvaluationContext) : M (result template_error string) :=
  if negb (Contains template "{") then mret (Ok template)
  else parseRecursive max_levels context template.
End template.

(** ** Specification *)

(** The braces of a text: bytes, and balanced pairs of braces around a text.  A
    brace without its partner is a byte. *)
Inductive braced := Nil | Byte (c : ascii) (rest : braced) | Braces (content rest : braced).

Fixpoint print (f : braced) : string :=
  match f with
  | Nil => ""
  | Byte c rest => String c (print rest)
  | Braces content rest => "{" ++ print content ++ "}" ++ print rest
  end.

(** Between braces every brace has its partner; elsewhere no opening brace comes
    before a closing one. *)
Fixpoint closed (f : braced) : bool :=
  match f with
  | Nil => true
  | Byte c rest => negb (Ascii.eqb c "{") && negb (Ascii.eqb c "}") && closed rest
  | Braces content rest => closed content && closed rest
  end.
Fixpoint paired (opened : bool) (f : braced) : bool :=
  match f with
  | Nil => true
  | Byte c rest =>
      if Ascii.eqb c "{" then paired true rest
      else if Ascii.eqb c "}" then negb opened && paired opened rest
      else paired opened rest
  | Braces content rest => closed content && paired opened rest
  end.

(** The braces of a text, with its length as fuel. *)
Fixpoint braces_of (fuel : nat) (s : string) : braced :=
  match fuel, s with
  | S fuel, String c t =>
      if Ascii.eqb c "{" then
        match match_close 1 t with
        | Some n => Braces (braces_of fuel (stake n t)) (braces_of fuel (sdrop (S n) t))
        | None => Byte c (braces_of fuel t)
        end
      else Byte c (braces_of fuel t)
  | _, _ => Nil
  end.
Definition braces (s : string) : braced := braces_of (slen s) s.

(** The content of a variable: not empty, and its bytes outside inner braces may
    occur in a name. *)
Fixpoint name_bytes (f : braced) : bool :=
  match f with
  | Nil => true
  | Byte c rest => isValidVariableChar c && name_bytes rest
  | Braces _ rest => name_bytes rest
  end.
Definition is_variable (f : braced) : bool := match f with Nil => false | _ => name_bytes f end.

Fixpoint has_braces (f : braced) : bool :=
  match f with Nil => false | Byte _ rest => has_braces rest | Braces _ _ => true end.

(** How deep variables are nested in the names of variables. *)
Fixpoint levels (f : braced) : nat :=
  match f with
  | Nil => 0
  | Byte _ rest => levels rest
  | Braces content rest =>
      Nat.max (if is_variable content then if has_braces content then S (levels content) else 0 else levels content) (levels rest)
  end.

(** What a text renders to: the name of a variable is rendered first, and then
    the variable; other braces, like other bytes, stand for themselves. *)
Fixpoint render `{Env} (c : EvaluationContext) (f : braced) : M string :=
  match f with
  | Nil => mret ""
  | Byte b rest => r ← render c rest; mret (String b r)
  | Braces content rest =>
      if is_variable content then
        name ← render c content; out ← render_variable c name; r ← render c rest; mret (out ++ r)
      else s ← render c content; r ← render c rest; mret ("{" ++ s ++ "}" ++ r)
  end.

(** Without functions a text has a value. *)
Fixpoint denote_text `{Env} snapshot (c : EvaluationContext) (f : braced) : string :=
  match f with
  | Nil => ""
  | Byte b rest => String b (denote_text snapshot c rest)
  | Braces content rest =>
      (if is_variable content then render_value (denote_variable snapshot c (denote_text snapshot c content))
       else "{" ++ denote_text snapshot c content ++ "}") ++ denote_text snapshot c rest
  end.

(** No variable is the call of a function: its name does not start with an at
    sign, or does not end with a parenthesis, whatever is put into it. *)
Definition first_byte (f : braced) : option ascii := match f with Byte c _ => Some c | _ => None end.
Fixpoint last_byte (f : braced) : option ascii :=
  match f with
  | Nil => None
  | Byte c Nil => Some c
  | Byte _ rest | Braces _ rest => last_byte rest
  end.
Definition no_call (f : braced) : bool :=
  match first_byte f with Some c => negb (Ascii.eqb c "@") | None => false end ||
  match last_byte f with Some c => negb (Ascii.eqb c ")") | None => false end.
Fixpoint callless (f : braced) : bool :=
  match f with
  | Nil => true
  | Byte _ rest => callless rest
  | Braces content rest => (if is_variable content then no_call content else true) && callless content && callless rest
  end.

(** The deepest nesting of opening braces. *)
Fixpoint brace_depth (open : nat) (s : string) : nat :=
  match s with
  | "" => 0
  | String c t =>
      if Ascii.eqb c "{" then Nat.max (S open) (brace_depth (S open) t)
      else if Ascii.eqb c "}" then brace_depth (Nat.pred open) t
      else brace_depth open t
  end.

(** ** Lemmas *)

Lemma parse_loop_skip `{Env} inner c s t : parse_loop inner c (slen s) (s ++ t) = parse_loop inner c 0 t.
Proof. unfold slen. induction s as [|a s IH]; simpl; [by destruct t|done]. Qed.

(** *** Finding the closing brace *)

Lemma match_close_closed f b s : closed f = true →
  match_close (S b) (print f ++ s) = (λ n, slen (print f) + n)%nat <$> match_close (S b) s.
Proof.
  revert b s. induction f as [|c f IH|x IHx f IHf]; intros b s; cbn [closed print].
  - intros _. cbn. by destruct (match_close (S b) s).
  - intros [[Ho%negb_true_iff Hc%negb_true_iff]%andb_true_iff Hf]%andb_true_iff.
    cbn [String.append match_close]. rewrite Ho, Hc, IH by done. by destruct (match_close (S b) s).
  - intros [Hx Hf]%andb_true_iff. rewrite !app_assoc_str. cbn [String.append match_close]. cbn [Ascii.eqb Bool.eqb].
    change (Ascii.eqb "{" "{") with true. cbv iota.
    rewrite IHx by done. change ("}" ++ print f ++ s) with (String "}" (print f ++ s)). cbn [match_close].
    change (Ascii.eqb "}" "{") with false. change (Ascii.eqb "}" "}") with true. cbv iota. rewrite IHf by done.
    change ("{" ++ print x ++ "}" ++ print f) with (String "{" (print x ++ String "}" (print f))).
    destruct (match_close (S b) s); cbn; [|done]. f_equal. change (slen (String "{" ?t)) with (S (slen t)).
    rewrite slen_app. unfold slen. cbn. lia.
Qed.

Lemma match_close_unpaired f b : paired true f = true → match_close (S b) (print f) = None.
Proof.
  revert b. induction f as [|c f IH|x IHx f IHf]; intros b; cbn [paired print]; [done| |].
  - cbn [match_close]. destruct (Ascii.eqb c "{") eqn:Eo; [intros Hf; by rewrite (IH (S b))|].
    destruct (Ascii.eqb c "}"); [done|]. intros Hf. by rewrite IH.
  - intros [Hx Hf]%andb_true_iff. change ("{" ++ print x ++ "}" ++ print f) with (String "{" (print x ++ String "}" (print f))).
    cbn [match_close]. change (Ascii.eqb "{" "{") with true. cbv iota. rewrite match_close_closed by done. cbn [match_close].
    change (Ascii.eqb "}" "{") with false. change (Ascii.eqb "}" "}") with true. cbv iota. by rewrite IHf.
Qed.

Lemma match_close_content x s : closed x = true → match_close 1 (print x ++ String "}" s) = Some (slen (print x)).
Proof.
  intros Hx. rewrite match_close_closed by done. cbn [match_close].
  change (Ascii.eqb "}" "{") with false. change (Ascii.eqb "}" "}") with true. cbn. f_equal. lia.
Qed.

Lemma valid_from_skip s t : valid_from (slen s) (s ++ t) = valid_from 0 t.
Proof. unfold slen. induction s as [|a s IH]; simpl; [by destruct t|done]. Qed.

Lemma name_bytes_valid f : closed f = true → valid_from 0 (print f) = name_bytes f.
Proof.
  induction f as [|c f IH|x IHx f IHf]; cbn [closed print name_bytes]; [done| |].
  - intros [[Ho%negb_true_iff Hc%negb_true_iff]%andb_true_iff Hf]%andb_true_iff. cbn [valid_from]. by rewrite Ho, Hc, IH.
  - intros [Hx Hf]%andb_true_iff. change ("{" ++ print x ++ "}" ++ print f) with (String "{" (print x ++ String "}" (print f))).
    cbn [valid_from]. change (Ascii.eqb "{" "{") with true. cbv iota. rewrite match_close_content by done.
    replace (S (slen (print x))) with (slen (print x ++ "}")) by (rewrite slen_app; unfold slen; simpl; lia).
    change (String "}" (print f)) with ("}" ++ print f). rewrite <- app_assoc_str, valid_from_skip. by apply IHf.
Qed.

Lemma is_variable_valid f : closed f = true → isValidTemplateStructure (print f) = is_variable f.
Proof.
  intros Hf. unfold isValidTemplateStructure. rewrite name_bytes_valid by done. by destruct f.
Qed.

Lemma has_braces_contains f : closed f = true → Contains (print f) "{" = has_braces f.
Proof.
  rewrite Contains_char. induction f as [|c f IH|x IHx f IHf]; cbn [closed print has_braces]; [done| |done].
  intros [[Ho%negb_true_iff _]%andb_true_iff Hf]%andb_true_iff. cbn [has_char]. by rewrite Ho, IH.
Qed.

(** *** The braces of a text *)

Lemma match_close_nested a b t :
  match_close (S a + S b) t = (m ← match_close (S a) t; k ← match_close (S b) (sdrop (S m) t); Some (S m + k)%nat).
Proof.
  revert a. induction t as [|c t IH]; intros a; [done|]. cbn [match_close Nat.add].
  assert (∀ a', S <$> match_close (S a' + S b) t =
    (m ← S <$> match_close (S a') t; k ← match_close (S b) (sdrop (S m) (String c t)); Some (S m + k)%nat)) as Hrec.
  { intros a'. rewrite IH. destruct (match_close (S a') t) as [m|]; [|done].
    cbn [fmap option_fmap option_map mbind option_bind]. change (sdrop (S (S m)) (String c t)) with (sdrop (S m) t).
    by destruct (match_close (S b) (sdrop (S m) t)). }
  destruct (Ascii.eqb c "{"); [apply (Hrec (S a))|]. destruct (Ascii.eqb c "}"); [|apply (Hrec a)].
  destruct a as [|a]; [|apply (Hrec a)]. cbn. by destruct (match_close (S b) t).
Qed.

Lemma match_close_split b t n : match_close b t = Some n → t = stake n t ++ "}" ++ sdrop (S n) t ∧ slen (stake n t) = n.
Proof.
  revert b n. induction t as [|c t IH]; intros b n; [done|]. cbn [match_close].
  assert (∀ b', S <$> match_close b' t = Some n → String c t = stake n (String c t) ++ "}" ++ sdrop (S n) (String c t) ∧
    slen (stake n (String c t)) = n) as Hrec.
  { intros b' (m & Hm & ->)%fmap_Some. destruct (IH b' m Hm) as [Ht Hl]. cbn [stake]. split; [cbn; by f_equal|]. unfold slen in *. cbn. lia. }
  destruct (Ascii.eqb c "{"); [by apply Hrec|]. destruct (Ascii.eqb_spec c "}") as [->|]; [|by apply Hrec].
  destruct b as [|[|b]]; [by intros [= <-]|by intros [= <-]|by apply Hrec].
Qed.

(** A text whose first unpaired closing brace is the one put behind it. *)
Definition balanced (s : string) : Prop := match_close 1 (s ++ "}") = Some (slen s).

Lemma match_close_within b s u n : match_close b (s ++ u) = Some n → (n < slen s)%nat → match_close b s = Some n.
Proof.
  revert b n. induction s as [|c s IH]; intros b n; [unfold slen; cbn; lia|]. cbn [String.append match_close].
  assert (∀ b', S <$> match_close b' (s ++ u) = Some n → (n < slen (String c s))%nat → S <$> match_close b' s = Some n) as Hrec.
  { intros b' (m & Hm & ->)%fmap_Some Hlt. rewrite (IH b' m Hm); [done|]. unfold slen in *. cbn in Hlt. lia. }
  destruct (Ascii.eqb c "{"); [apply Hrec|]. destruct (Ascii.eqb c "}"); [|apply Hrec]. destruct b as [|[|b]]; [done|done|apply Hrec].
Qed.

Lemma match_close_bound b s n : match_close b s = Some n → (n < slen s)%nat.
Proof.
  revert b n. induction s as [|c s IH]; intros b n; [done|]. cbn [match_close].
  assert (∀ b', S <$> match_close b' s = Some n → (n < slen (String c s))%nat) as Hrec
    by (intros b' (m & Hm & ->)%fmap_Some; apply IH in Hm; unfold slen in *; cbn; lia).
  destruct (Ascii.eqb c "{"); [apply Hrec|]. destruct (Ascii.eqb c "}"); [|apply Hrec].
  destruct b as [|[|b]]; [intros [= <-]; unfold slen; cbn; lia..|apply Hrec].
Qed.

Lemma slen_sdrop n s : slen (sdrop n s) = (slen s - n)%nat.
Proof. revert n. unfold slen. induction s as [|c s IH]; intros [|n]; cbn; done. Qed.

Lemma sdrop_within n s u : (n ≤ slen s)%nat → sdrop n (s ++ u) = sdrop n s ++ u.
Proof.
  revert n. unfold slen. induction s as [|c s IH]; intros [|n]; cbn; intros Hn; try done; try lia. apply IH. lia.
Qed.

Lemma balanced_inside t n : match_close 1 t = Some n → balanced (stake n t).
Proof.
  intros Hm. pose proof (match_close_split 1 t n Hm) as [Ht Hl]. unfold balanced. rewrite Hl.
  apply (match_close_within 1 _ (sdrop (S n) t)); [by rewrite app_assoc_str, <- Ht|]. rewrite slen_app, Hl. unfold slen. cbn. lia.
Qed.

Lemma braces_of_print fuel s : (slen s ≤ fuel)%nat → print (braces_of fuel s) = s.
Proof.
  revert s. induction fuel as [|fuel IH]; intros [|c t] Hf; try done; [unfold slen in Hf; cbn in Hf; lia|].
  assert (slen t ≤ fuel)%nat as Ht by (unfold slen in *; cbn in Hf; lia). cbn [braces_of].
  assert (print (Byte c (braces_of fuel t)) = String c t) as Hb by (cbn [print]; by rewrite IH).
  destruct (Ascii.eqb_spec c "{") as [->|]; [|done]. destruct (match_close 1 t) as [n|] eqn:Hm; [|done].
  pose proof (match_close_split 1 t n Hm) as [Hs Hl]. pose proof (match_close_bound 1 t n Hm).
  cbn [print]. rewrite !IH by (rewrite ?Hl, ?slen_sdrop; lia). by rewrite Hs at 3.
Qed.

Lemma braces_of_closed fuel s : (slen s ≤ fuel)%nat → balanced s → closed (braces_of fuel s) = true.
Proof.
  revert s. induction fuel as [|fuel IH]; intros [|c t] Hf Hb; try done.
  assert (slen t ≤ fuel)%nat as Ht by (unfold slen in *; cbn in Hf; lia). cbn [braces_of].
  unfold balanced in Hb. cbn [String.append match_close] in Hb. change (slen (String c t)) with (S (slen t)) in Hb.
  destruct (Ascii.eqb c "{") eqn:Eo.
  - destruct (match_close 2 (t ++ "}")) as [k|] eqn:E2; [|done]. injection Hb as ->.
    change 2 with (1 + 1)%nat in E2. rewrite (match_close_nested 0 0) in E2.
    destruct (match_close 1 (t ++ "}")) as [m|] eqn:E1; [|done]. cbn [mbind option_bind] in E2.
    destruct (match_close 1 (sdrop (S m) (t ++ "}"))) as [k|] eqn:Ek; [|done]. injection E2 as E2.
    apply match_close_within in E1 as Em; [|lia]. rewrite Em. cbn [closed].
    pose proof (match_close_split 1 t m Em) as [_ Hl].
    rewrite !IH; [done|rewrite slen_sdrop; lia| |rewrite Hl; lia|by apply balanced_inside].
    unfold balanced. rewrite sdrop_within in Ek by lia. rewrite Ek, slen_sdrop. f_equal. lia.
  - destruct (Ascii.eqb c "}") eqn:Ec; [done|]. cbn [closed]. rewrite Eo, Ec. cbn. apply IH; [done|]. unfold balanced.
    destruct (match_close 1 (t ++ "}")); [|done]. by injection Hb as ->.
Qed.

Lemma braces_of_paired fuel s : (slen s ≤ fuel)%nat →
  paired false (braces_of fuel s) = true ∧ (match_close 1 s = None → paired true (braces_of fuel s) = true).
Proof.
  revert s. induction fuel as [|fuel IH]; intros [|c t] Hf; try done.
  assert (slen t ≤ fuel)%nat as Ht by (unfold slen in *; cbn in Hf; lia). cbn [braces_of match_close].
  destruct (Ascii.eqb c "{") eqn:Eo.
  - destruct (match_close 1 t) as [m|] eqn:Em.
    + pose proof (match_close_split 1 t m Em) as [_ Hl]. pose proof (match_close_bound 1 t m Em).
      destruct (IH (sdrop (S m) t)) as [H1 H2]; [rewrite slen_sdrop; lia|]. cbn [paired].
      rewrite braces_of_closed by (first [rewrite Hl; lia|by apply balanced_inside]). split; [done|]. intros Hn. apply H2.
      change 2 with (1 + 1)%nat in Hn. rewrite (match_close_nested 0 0), Em in Hn. cbn [mbind option_bind] in Hn.
      destruct (match_close 1 (sdrop (S m) t)); done.
    + cbn [paired]. rewrite Eo. destruct (IH t Ht) as [_ H2]. split; [by apply H2|]. intros _. by apply H2.
  - cbn [paired]. rewrite Eo. destruct (IH t Ht) as [H1 H2]. destruct (Ascii.eqb c "}"); [by split|]. split; [done|].
    destruct (match_close 1 t); [done|]. intros _. by apply H2.
Qed.

(** *** Rendering *)

Section rendering.
Context `{Env}.
Variable c : EvaluationContext.

(** A rendering that goes on with [rest]. *)
Definition follow (m : M string) (rest : M (result template_error string)) : M (result template_error string) :=
  s ← m; emit s rest.

(** What an interpreter of inner texts does: it renders what is nested less deep
    than [depth], and fails on the others. *)
Definition renders (depth : nat) (inner : string → M (result template_error string)) : Prop :=
  ∀ f st, closed f = true → if (levels f <? depth)%nat then inner (print f) st = (Ok (render c f st).1, (render c f st).2)
                  else (inner (print f) st).1 = Err NestingTooDeep.

Lemma parse_loop_byte inner b s st : Ascii.eqb b "{" = false →
  parse_loop inner c 0 (String b s) st = emit (String b "") (parse_loop inner c 0 s) st.
Proof. intros Hb. cbn [parse_loop]. by rewrite Hb. Qed.

Lemma parse_loop_variable inner x s st : closed x = true → is_variable x = true →
  parse_loop inner c 0 ("{" ++ print x ++ "}" ++ s) st =
    (r ← (if has_braces x then inner (print x) else mret (Ok (print x)));
     match r with
     | Err e => mret (Err e)
     | Ok name => out ← render_variable c name; emit out (parse_loop inner c 0 s)
     end) st.
Proof.
  intros Hx Hv. change ("{" ++ print x ++ "}" ++ s) with (String "{" (print x ++ String "}" s)). cbn [parse_loop].
  rewrite Ascii.eqb_refl, match_close_content, stake_app by done. cbv zeta.
  rewrite is_variable_valid, Hv, has_braces_contains by done.
  replace (S (slen (print x))) with (slen (print x ++ "}")) by (rewrite slen_app; unfold slen; simpl; lia).
  change (String "}" s) with ("}" ++ s). rewrite <- app_assoc_str, parse_loop_skip. done.
Qed.

Lemma parse_loop_braces inner x s st : closed x = true → is_variable x = false →
  parse_loop inner c 0 ("{" ++ print x ++ "}" ++ s) st = emit "{" (parse_loop inner c 0 (print x ++ "}" ++ s)) st.
Proof.
  intros Hx Hv. change ("{" ++ print x ++ "}" ++ s) with (String "{" (print x ++ String "}" s)). cbn [parse_loop].
  rewrite Ascii.eqb_refl, match_close_content, stake_app by done. cbv zeta. by rewrite is_variable_valid, Hv.
Qed.

Lemma parse_loop_open inner s st : match_close 1 s = None →
  parse_loop inner c 0 (String "{" s) st = emit "{" (parse_loop inner c 0 s) st.
Proof. intros Hs. cbn [parse_loop]. by rewrite Ascii.eqb_refl, Hs. Qed.

Lemma render_flat f st : has_braces f = false → render c f st = (print f, st).
Proof.
  induction f as [|b f IH|x _ f _]; cbn [has_braces render print]; [done| |done]. intros Hf. unfold mbind, M_bind. by rewrite IH.
Qed.

(** What the scan of a text comes to before what follows it. *)
Definition scanned (depth : nat) (f : braced) (m rest : M (result template_error string)) (st : St) : Prop :=
  if (levels f <=? depth)%nat then m st = follow (render c f) rest st else (m st).1 = Err NestingTooDeep.

Lemma emit_err s m st : (m st).1 = Err NestingTooDeep → (emit s m st).1 = Err NestingTooDeep.
Proof. unfold emit, mbind, M_bind. destruct (m st) as [r st']. cbn. by intros ->. Qed.

Lemma emit_follow s m rest st : emit s (follow m rest) st = follow (r ← m; mret (s ++ r)) rest st.
Proof.
  unfold follow, emit, mbind, M_bind, mret, M_ret. destruct (m st) as [a st1]. destruct (rest st1) as [[r|e] st2]; cbn; [|done]. by rewrite app_assoc_str.
Qed.

Lemma scanned_byte depth b f m rest st :
  (∀ st, scanned depth f m rest st) → scanned depth (Byte b f) (emit (String b "") m) rest st.
Proof.
  intros Hm. specialize (Hm st). unfold scanned in *. cbn [levels]. destruct (levels f <=? depth)%nat.
  - unfold emit at 1, mbind at 1, M_bind at 1. rewrite Hm. apply (emit_follow (String b "") (render c f) rest st).
  - by apply emit_err.
Qed.

Lemma scanned_text depth inner x f s m rest st : renders depth inner → closed x = true → is_variable x = false →
  m = parse_loop inner c 0 s →
  (∀ st, scanned depth x (parse_loop inner c 0 (print x ++ String "}" s)) (parse_loop inner c 0 (String "}" s)) st) →
  (∀ st, scanned depth f m rest st) →
  scanned depth (Braces x f) (parse_loop inner c 0 ("{" ++ print x ++ "}" ++ s)) rest st.
Proof.
  intros Hr Hx Hv -> Hsx Hsf. unfold scanned. cbn [levels render]. rewrite Hv.
  rewrite parse_loop_braces by done. change ("}" ++ s) with (String "}" s). specialize (Hsx st). unfold scanned in Hsx.
  unfold follow, emit, mbind, M_bind in *.
  destruct (Nat.leb_spec (levels x) depth); destruct (Nat.leb_spec (Nat.max (levels x) (levels f)) depth); try lia.
  - rewrite Hsx. destruct (render c x st) as [sx st1]. rewrite parse_loop_byte by done. unfold emit, mbind, M_bind.
    specialize (Hsf st1). unfold scanned in Hsf. rewrite (proj2 (Nat.leb_le _ _)) in Hsf by lia. rewrite Hsf. unfold follow, emit, mbind, M_bind.
    destruct (render c f st1) as [sf st2]. unfold mret, M_ret. destruct (rest st2) as [[r|e] st3]; [cbn; by rewrite !app_assoc_str|done].
  - rewrite Hsx. destruct (render c x st) as [sx st1]. rewrite parse_loop_byte by done. unfold emit, mbind, M_bind.
    specialize (Hsf st1). unfold scanned in Hsf. rewrite (proj2 (Nat.leb_gt _ _)) in Hsf by lia.
    destruct (parse_loop inner c 0 s st1) as [r st2]. cbn in *. by rewrite Hsf.
  - destruct (parse_loop _ _ _ _ st) as [r st2]. cbn in *. by rewrite Hsx.
Qed.

Lemma scanned_variable depth inner x f s m rest st : renders depth inner → closed x = true → is_variable x = true →
  m = parse_loop inner c 0 s → (∀ st, scanned depth f m rest st) →
  scanned depth (Braces x f) (parse_loop inner c 0 ("{" ++ print x ++ "}" ++ s)) rest st.
Proof.
  intros Hr Hx Hv -> Hsf. unfold scanned. cbn [levels render]. rewrite Hv, parse_loop_variable by done.
  set (n := (if has_braces x then S (levels x) else 0)%nat).
  assert (if (n <=? depth)%nat then (if has_braces x then inner (print x) else mret (Ok (print x))) st = (Ok (render c x st).1, (render c x st).2)
    else ((if has_braces x then inner (print x) else mret (Ok (print x))) st).1 = Err NestingTooDeep) as Hname.
  { subst n. destruct (has_braces x) eqn:Hb; [apply (Hr x st Hx)|]. cbn. by rewrite render_flat. }
  unfold mbind, M_bind, follow in *. destruct (Nat.leb_spec n depth) as [Hn|Hn].
  - rewrite Hname. destruct (render c x st) as [name st1] eqn:Ex. cbn [fst snd]. destruct (render_variable c name st1) as [out st2] eqn:Eo.
    specialize (Hsf st2). unfold scanned in Hsf. unfold emit, mbind, M_bind.
    destruct (Nat.leb_spec (Nat.max n (levels f)) depth) as [Hm|Hm].
    + rewrite (proj2 (Nat.leb_le _ _)) in Hsf by lia. rewrite Hsf. unfold follow, emit, mbind, M_bind, mret, M_ret.
      rewrite Ex, Eo. destruct (render c f st2) as [sf st3]. destruct (rest st3) as [[r|e] st4]; [cbn; by rewrite app_assoc_str|done].
    + rewrite (proj2 (Nat.leb_gt _ _)) in Hsf by lia. destruct (parse_loop inner c 0 s st2) as [r st3]. cbn in *. by rewrite Hsf.
  - rewrite (proj2 (Nat.leb_gt _ _)) by lia. destruct (_ st) as [[name|e] st1]; cbn in *; [done|exact Hname].
Qed.

Lemma parse_closed depth inner f s : renders depth inner → closed f = true →
  ∀ st, scanned depth f (parse_loop inner c 0 (print f ++ s)) (parse_loop inner c 0 s) st.
Proof.
  intros Hr. revert s. induction f as [|b f IH|x IHx f IHf]; intros s; cbn [closed print].
  - intros _ st. unfold scanned, follow, emit, mbind, M_bind. cbn. by destruct (parse_loop inner c 0 s st) as [[r|e] st'].
  - intros [[Ho%negb_true_iff _]%andb_true_iff Hf]%andb_true_iff st. cbn [String.append].
    unfold scanned. rewrite parse_loop_byte by done. apply scanned_byte. intros st'. by apply IH.
  - intros [Hx Hf]%andb_true_iff st. rewrite !app_assoc_str. destruct (is_variable x) eqn:Hv.
    + eapply scanned_variable; [done..|]. intros st'. by apply IHf.
    + eapply scanned_text; [done..| |]; [intros st'; by apply IHx|intros st'; by apply IHf].
Qed.

Lemma parse_paired depth inner opened f : renders depth inner → paired opened f = true →
  ∀ st, scanned depth f (parse_loop inner c 0 (print f)) (mret (Ok "")) st.
Proof.
  intros Hr. revert opened. induction f as [|b f IH|x _ f IHf]; intros opened; cbn [paired print]; [done| |].
  - intros Hp st. assert (∃ opened', paired opened' f = true) as [opened' Hf].
    { destruct (Ascii.eqb b "{"); [eauto|]. destruct (Ascii.eqb b "}"); [apply andb_true_iff in Hp as [_ Hp]|]; eauto. }
    assert (parse_loop inner c 0 (String b (print f)) st = emit (String b "") (parse_loop inner c 0 (print f)) st) as Hb.
    { destruct (Ascii.eqb_spec b "{") as [->|Hne]; [|apply parse_loop_byte; by apply Ascii.eqb_neq].
      apply parse_loop_open. by apply match_close_unpaired. }
    unfold scanned. rewrite Hb. apply scanned_byte. intros st'. by eapply IH.
  - intros [Hx Hf]%andb_true_iff st. destruct (is_variable x) eqn:Hv.
    + eapply scanned_variable; [done..|]. intros st'. by eapply IHf.
    + eapply scanned_text; [done..| |]; [intros st'; by apply parse_closed|intros st'; by eapply IHf].
Qed.

Lemma closed_paired f : closed f = true → paired false f = true.
Proof.
  induction f as [|b f IH|x _ f IHf]; cbn [closed paired]; [done| |].
  - intros [[->%negb_true_iff ->%negb_true_iff]%andb_true_iff Hf]%andb_true_iff. auto.
  - intros [-> Hf]%andb_true_iff. auto.
Qed.

Lemma scanned_end depth f m st : scanned depth f m (mret (Ok "")) st →
  if (levels f <=? depth)%nat then m st = (Ok (render c f st).1, (render c f st).2) else (m st).1 = Err NestingTooDeep.
Proof.
  unfold scanned. destruct (levels f <=? depth)%nat; [|done]. intros ->. unfold follow, emit, mbind, M_bind, mret, M_ret.
  destruct (render c f st) as [s st']. cbn. by rewrite app_nil_r_str.
Qed.

Lemma parseRecursive_renders n : renders n (parseRecursive n c).
Proof.
  induction n as [|n IH]; intros f st Hf; [done|].
  exact (scanned_end n f _ st (parse_paired n _ false f IH (closed_paired f Hf) st)).
Qed.

(** Rendering a text is rendering its braces. *)
Lemma Execute_renders template st :
  let f := braces template in
  if (levels f <=? 10)%nat then Execute template c st = (Ok (render c f st).1, (render c f st).2)
  else (Execute template c st).1 = Err NestingTooDeep.
Proof.
  intros f. assert (print f = template) as Hp by (by apply braces_of_print).
  assert (paired false f = true) as Hf by (by apply braces_of_paired).
  unfold Execute. destruct (Contains template "{") eqn:Hb; cbn [negb].
  - clearbody f. subst template. exact (scanned_end 10 f _ st (parse_paired 10 _ false f (parseRecursive_renders 10) Hf st)).
  - assert (has_braces f = false) as Hn.
    { rewrite <- Hp, Contains_char in Hb. clear -Hb. induction f as [|b f IH|x _ f _]; [done| |done]. cbn in Hb.
      apply orb_false_iff in Hb as [_ Hb]. by apply IH. }
    assert (levels f = 0) as Hl. { clear -Hn. induction f as [|b f IH|x _ f _]; [done| |done]. by apply IH. }
    rewrite Hl, render_flat by done. cbn. by rewrite Hp.
Qed.
End rendering.

(** *** Texts without functions *)

Section callless.
Context `{Env}.
Variables (snapshot : string → string → option string) (c : EvaluationContext).

Lemma last_byte_denotes f a : last_byte f = Some a → ∃ w, denote_text snapshot c f = w ++ String a "".
Proof.
  induction f as [|b f IH|x _ f IH]; cbn [last_byte denote_text]; [done| |].
  - destruct f as [|b' f'|x f']; [intros [= ->]; by exists ""|..]; intros (w & Hw)%IH; exists (String b w); by rewrite Hw.
  - intros (w & ->)%IH. eexists. symmetry. apply app_assoc_str.
Qed.

Lemma HasSuffix_last w a b : HasSuffix (w ++ String a "") (String b "") = Ascii.eqb a b.
Proof.
  unfold HasSuffix. rewrite slen_app. change (slen (String b "")) with 1. change (slen (String a "")) with 1.
  replace (slen w + 1 - 1)%nat with (slen w) by lia. rewrite sdrop_app, (proj2 (Nat.leb_le _ _)) by lia. cbn.
  by destruct (Ascii.eqb a b).
Qed.

Lemma no_call_name f : no_call f = true →
  HasPrefix (denote_text snapshot c f) "@" && HasSuffix (denote_text snapshot c f) ")" = false.
Proof.
  unfold no_call. intros [Hf|Hl]%orb_true_iff; apply andb_false_iff.
  - left. destruct f as [|a f|x f]; cbn [first_byte] in Hf; try done. apply negb_true_iff, Ascii.eqb_neq in Hf.
    unfold HasPrefix. cbn [denote_text String.prefix]. destruct (ascii_dec "@" a); congruence.
  - right. destruct (last_byte f) as [a|] eqn:E; [|done]. destruct (last_byte_denotes f a E) as [w ->].
    rewrite HasSuffix_last. by apply negb_true_iff.
Qed.

Lemma render_returns f : server_static snapshot → callless f = true →
  returns (ctx_inv snapshot c) (render c f) (denote_text snapshot c f).
Proof.
  intros Hs. induction f as [|b f IH|x IHx f IHf]; cbn [callless render denote_text].
  - intros _. apply returns_ret.
  - intros Hf. eapply returns_bind; [by apply IH|]. apply returns_ret.
  - intros [[Hc Hx]%andb_true_iff Hf]%andb_true_iff. destruct (is_variable x).
    + eapply returns_bind; [by apply IHx|]. eapply returns_bind; [|eapply returns_bind; [by apply IHf|]; apply returns_ret].
      unfold render_variable. rewrite no_call_name by done. cbv zeta.
      eapply returns_bind; [by apply ResolveValue_returns|]. apply returns_ret.
    + eapply returns_bind; [by apply IHx|]. eapply returns_bind; [by apply IHf|]. rewrite !app_assoc_str. apply returns_ret.
Qed.

Lemma Execute_returns template : server_static snapshot → (levels (braces template) ≤ 10)%nat → callless (braces template) = true →
  returns (ctx_inv snapshot c) (Execute template c) (Ok (denote_text snapshot c (braces template))).
Proof.
  intros Hs Hl Hc st Hst. pose proof (Execute_renders c template st) as He. cbn zeta in He. rewrite (proj2 (Nat.leb_le _ _)) in He by done.
  rewrite He. cbn [fst snd]. destruct (render_returns (braces template) Hs Hc st Hst) as [-> ?]. done.
Qed.
End callless.

(** *** The nesting of braces *)

Lemma match_close_inside b t n k :
  match_close (S b) t = Some n →
  brace_depth b (stake n t) = 0 ∨
  (brace_depth b (stake n t) + S k ≤ brace_depth (b + S k) t)%nat.
Proof.
  revert b n; induction t as [|c t IH]; intros b n; [done|]. cbn [match_close].
  destruct (Ascii.eqb c "{") eqn:Eo; [|destruct (Ascii.eqb c "}") eqn:Ec; [destruct b as [|b]|]].
  - intros (m & Hm & ->)%fmap_Some. cbn [stake brace_depth]. rewrite Eo.
    destruct (IH (S b) m Hm) as [->|Hd]; right; [lia|].
    change (S b + S k)%nat with (S (b + S k)) in Hd. lia.
  - intros [= <-]. by left.
  - intros (m & Hm & ->)%fmap_Some. cbn [stake brace_depth]. rewrite Eo, Ec. by apply IH.
  - intros (m & Hm & ->)%fmap_Some. cbn [stake brace_depth]. rewrite Eo, Ec. by apply IH.
Qed.

Lemma match_close_after b t n o :
  match_close (S b) t = Some n → (brace_depth o (sdrop (S n) t) ≤ brace_depth (S b + o) t)%nat.
Proof.
  revert b n; induction t as [|c t IH]; intros b n; [done|]. cbn [match_close].
  destruct (Ascii.eqb c "{") eqn:Eo; [|destruct (Ascii.eqb c "}") eqn:Ec; [destruct b as [|b]|]].
  - intros (m & Hm & ->)%fmap_Some. cbn [brace_depth]. rewrite Eo.
    pose proof (IH (S b) m Hm) as Hd. change (sdrop (S (S m)) (String c t)) with (sdrop (S m) t).
    change (S (S b + o)) with (S (S b) + o)%nat. lia.
  - intros [= <-]. cbn [brace_depth]. rewrite Eo, Ec. cbn. lia.
  - intros (m & Hm & ->)%fmap_Some. cbn [brace_depth]. rewrite Eo, Ec. by apply IH.
  - intros (m & Hm & ->)%fmap_Some. cbn [brace_depth]. rewrite Eo, Ec. by apply IH.
Qed.

Section nesting.
Context `{Env}.
Variable c : EvaluationContext.

Definition succeeds (m : M (result template_error string)) : Prop := ∀ st, is_ok (m st).1 = true.

Lemma succeeds_bind {A} (m : M A) f : (∀ a, succeeds (f a)) → succeeds (m ≫= f).
Proof. intros Hf st. unfold mbind, M_bind. destruct (m st) as [a st']. apply Hf. Qed.

Lemma succeeds_then m (f : string → M (result template_error string)) :
  succeeds m → (∀ a, succeeds (f a)) →
  succeeds (r ← m; match r with Err e => mret (Err e) | Ok a => f a end).
Proof.
  intros Hm Hf st. specialize (Hm st). unfold mbind, M_bind.
  destruct (m st) as [[a|e] st']; [apply Hf | done].
Qed.

Lemma succeeds_emit s m : succeeds m → succeeds (emit s m).
Proof.
  intros Hm st. specialize (Hm st). unfold emit, mbind, M_bind. by destruct (m st) as [[] st'].
Qed.

Lemma parse_loop_succeeds inner depth skip s o :
  (∀ raw, (brace_depth 0 raw < depth)%nat → succeeds (inner raw)) →
  (0 < depth)%nat → (brace_depth o (sdrop skip s) ≤ depth)%nat →
  succeeds (parse_loop inner c skip s).
Proof.
  intros Hin Hpos. revert skip o; induction s as [|a t IH]; intros skip o Hd; [done|].
  cbn [parse_loop]. destruct skip as [|k]; [|by eapply IH].
  assert (succeeds (emit (String a "") (parse_loop inner c 0 t))) as Hlit.
  { apply succeeds_emit. cbn [sdrop brace_depth] in Hd.
    destruct (Ascii.eqb a "{"); [apply (IH 0 (S o)); cbn; lia|].
    destruct (Ascii.eqb a "}"); [by apply (IH 0 (Nat.pred o))|by apply (IH 0 o)]. }
  cbv zeta. destruct (Ascii.eqb a "{") eqn:Ea; [|done].
  destruct (match_close 1 t) as [n|] eqn:Em; [|done].
  destruct (isValidTemplateStructure (stake n t)); [|done].
  cbn [sdrop brace_depth] in Hd. rewrite Ea in Hd.
  assert (succeeds (parse_loop inner c (S n) t)) as Hrest.
  { apply (IH (S n) o). pose proof (match_close_after 0 t n o Em). simpl in *. lia. }
  assert (succeeds (if Contains (stake n t) "{" then inner (stake n t) else mret (Ok (stake n t)))) as Hraw.
  { destruct (Contains (stake n t) "{"); [|done]. apply Hin.
    destruct (match_close_inside 0 t n o Em) as [-> |Hi]; [lia|]. simpl in Hi. lia. }
  apply succeeds_then; [done|]. intros name. apply succeeds_bind. intros out. by apply succeeds_emit.
Qed.

Lemma parseRecursive_succeeds levels input :
  (brace_depth 0 input < levels)%nat → succeeds (parseRecursive levels c input).
Proof.
  revert input; induction levels as [|levels IH]; intros input Hd; [lia|]. cbn [parseRecursive].
  destruct levels as [|levels].
  - assert (has_char "{" input = false) as Hb.
    { assert (∀ o, brace_depth o input = 0 → has_char "{" input = false) as Hz; [|by apply (Hz 0); lia].
      clear. induction input as [|a t IH]; intros o; [done|]. cbn [brace_depth has_char].
      destruct (Ascii.eqb a "{"); [lia|]. destruct (Ascii.eqb a "}"); apply IH. }
    clear Hd IH. induction input as [|a t IH]; [done|]. cbn [has_char] in Hb.
    apply orb_false_iff in Hb as [Ha Hb]. cbn [parse_loop]. rewrite Ha. by apply succeeds_emit, IH.
  - apply (parse_loop_succeeds _ (S levels) 0 input 0); [exact IH | lia | cbn; lia].
Qed.
End nesting.

(** ** Properties *)

(** C5: Rendering a template is rendering its braces.  Every text is, in one way
    that is computed, bytes and balanced pairs of braces, JSON included.  Braces
    around a name are a variable: what is in braces inside the name is rendered
    first, and then the variable, as the result of a function, as its value, or
    as nothing when it has none; other braces and all other bytes stand for
    themselves, from left to right, each effect once.  The only error is a
    variable nested more than ten deep in names.  A text without function calls
    renders, when the store does not change and the cache agrees with it, to the
    text of its values, which no other rendering changes. *)
Theorem Execute_correct `{Env} template c st :
  let f := braces template in
  print f = template ∧ paired false f = true ∧
  (if (levels f <=? 10)%nat then Execute template c st = (Ok (render c f st).1, (render c f st).2)
   else (Execute template c st).1 = Err NestingTooDeep) ∧
  (∀ snapshot, server_static snapshot → ctx_inv snapshot c st → callless f = true →
     (render c f st).1 = denote_text snapshot c f ∧ ctx_inv snapshot c (render c f st).2).
Proof.
  split; [by apply braces_of_print|]. split; [by apply braces_of_paired|]. split; [apply Execute_renders|].
  intros snapshot Hs Hst Hc. by apply render_returns.
Qed.

Lemma Execute_correct_witness :
  let template := "{'at': '{@subject.2}', 'list': [{temperature}, {no.{unit}}], 'max': {@kv.config.limits:max}{missing}}}" in
  (@Execute demo template demo_context demo_start).1 = Ok "{'at': 'kitchen', 'list': [30, ], 'max': 25}}" ∧
  (@render demo demo_context (braces template) demo_start).1 = @denote_text demo demo_snapshot demo_context (braces template) ∧
  @ctx_inv demo demo_snapshot demo_context (@render demo demo_context (braces template) demo_start).2.
Proof.
  intros template. split; [vm_compute; reflexivity|].
  apply (Execute_correct (H:=demo) template demo_context demo_start); [done|apply demo_coherent|]. vm_compute. reflexivity.
Defined.

(** One text with a function and one too deep. *)
Lemma function_and_depth :
  is_ok (@Execute demo "{'id': '{@random.int(7,7)}'}" demo_context demo_start).1 = true ∧
  (@Execute demo "{{{{{{{{{{{{unit}}}}}}}}}}}}" demo_context demo_start).1 = Err NestingTooDeep ∧
  levels (braces "{{{{{{{{{{{unit}}}}}}}}}}}") = 10.
Proof. vm_compute. done. Qed.

(** Rendering fails for one reason only: a template whose braces are nested at
    most ten deep is always rendered, whatever else it holds. *)
Theorem Execute_total `{Env} template c st :
  (brace_depth 0 template ≤ 10)%nat → ∃ out, (Execute template c st).1 = Ok out.
Proof.
  intros Hd. assert (is_ok (Execute template c st).1 = true) as Hok.
  { unfold Execute. destruct (Contains template "{"); [|done]. cbn [negb].
    apply parseRecursive_succeeds. unfold max_levels. lia. }
  destruct (Execute template c st).1 as [out|]; [by exists out | done].
Qed.

Lemma Execute_total_witness :
  (@Execute demo "{'a': {temperature}, 'b': {{unit}}}" demo_context demo_start).1 = Ok "{'a': 30, 'b': }" ∧
  ∃ out, (@Execute demo "{'a': {temperature}, 'b': {{unit}}}" demo_context demo_start).1 = Ok out.
Proof.
  split; [vm_compute; reflexivity|].
  apply (Execute_total (H:=demo) "{'a': {temperature}, 'b': {{unit}}}" demo_context demo_start).
  vm_compute. lia.
Defined.
