(* ===== verification/Throttle.v ===== *)
(** * Throttles (internal/rule/throttle.go)

    The leading throttle: the first message of a key goes through and opens a
    window in which the key is suppressed.  Every call reads the clock once;
    the sequence of calls is explicit in the theorems. *)

From S2P Require Import Prelude GoStrings GoFloat GoTime.
Local Open Scope string_scope.

Definition sweepInterval : Z := 5 * Minute.

Record ThrottleManager := MkThrottleManager { tm_expiry : gmap string Time; tm_lastSweep : Time }.

Definition NewThrottleManager (now : Time) : ThrottleManager := MkThrottleManager ∅ now.

Definition sweepExpired (tm : ThrottleManager) (now : Time) : ThrottleManager :=
  if (Sub now (tm_lastSweep tm) <? sweepInterval)%Z then tm
  else MkThrottleManager (filter (λ kv, Before now kv.2 = true) (tm_expiry tm)) now.

Definition Allow (tm : ThrottleManager) (key : string) (window : Z) (now : Time) : bool * ThrottleManager :=
  let tm := sweepExpired tm now in
  match tm_expiry tm !! key with
  | Some exp =>
      if Before now exp then (false, tm)
      else (true, MkThrottleManager (<[key := Add now window]> (tm_expiry tm)) (tm_lastSweep tm))
  | None => (true, MkThrottleManager (<[key := Add now window]> (tm_expiry tm)) (tm_lastSweep tm))
  end.

Definition ThrottleKey (phase : string) (ruleIndex : Z) (resolvedKey : string) : string :=
  phase ++ ":" ++ Itoa ruleIndex ++ ":" ++ resolvedKey.

(** ** Specification *)

(** One call: the key, its window and the time the clock gave. *)
Record call := MkCall { ca_key : string; ca_window : Z; ca_now : Time }.

Definition call_end (c : call) : Z := (unix_ns (ca_now c) + ca_window c)%Z.

(** The calls let through and the manager after a sequence of calls. *)
Fixpoint run (tm : ThrottleManager) (calls : list call) : list call * ThrottleManager :=
  match calls with
  | [] => ([], tm)
  | c :: rest =>
      let '(ok, tm) := Allow tm (ca_key c) (ca_window c) (ca_now c) in
      let '(through, tm) := run tm rest in
      ((if ok : bool then c :: through else through), tm)
  end.

(** The clock never goes back. *)
Fixpoint clocked (from : Z) (calls : list call) : Prop :=
  match calls with
  | [] => True
  | c :: rest => (from ≤ unix_ns (ca_now c))%Z ∧ clocked (unix_ns (ca_now c)) rest
  end.

(** ** Lemmas *)

Definition blocked (tm : ThrottleManager) (key : string) (t : Z) : Prop :=
  ∃ exp, tm_expiry tm !! key = Some exp ∧ (t < unix_ns exp)%Z.

(** [tm] blocks, from [t] on, what the calls let through block. *)
Definition blocks_as (tm : ThrottleManager) (through : list call) (t : Z) : Prop :=
  ∀ key t', (t ≤ t')%Z → blocked tm key t' ↔ ∃ c, c ∈ through ∧ ca_key c = key ∧ (t' < call_end c)%Z.

Lemma sweepExpired_blocked tm now key t :
  (unix_ns now ≤ t)%Z → blocked (sweepExpired tm now) key t ↔ blocked tm key t.
Proof.
  intros Ht. unfold blocked, sweepExpired. destruct (_ <? _)%Z; [done|]. simpl.
  split; intros (exp & He & Hlt); exists exp; (split; [|done]).
  - by apply map_lookup_filter_Some in He as [].
  - apply map_lookup_filter_Some. split; [done|]. unfold Before. simpl. lia.
Qed.

Lemma Allow_blocked tm key window now :
  (Allow tm key window now).1 = true ↔ ¬ blocked tm key (unix_ns now).
Proof.
  rewrite <- (sweepExpired_blocked tm now) by lia. unfold Allow, blocked.
  destruct (tm_expiry (sweepExpired tm now) !! key) as [exp|]; simpl; [|naive_solver].
  unfold Before. destruct (Z.ltb_spec (unix_ns now) (unix_ns exp)); simpl; [naive_solver|].
  split; [|done]. intros _ (exp' & [= <-] & ?). lia.
Qed.

Lemma Allow_blocks tm key window now through t :
  blocks_as tm through t → (t ≤ unix_ns now)%Z →
  let '(ok, tm') := Allow tm key window now in
  blocks_as tm' (if ok : bool then MkCall key window now :: through else through) (unix_ns now).
Proof.
  intros Hb Ht. destruct (Allow tm key window now) as [ok tm'] eqn:Ha.
  assert (ok = true ↔ ¬ blocked tm key (unix_ns now)) as Hok.
  { rewrite <- (Allow_blocked tm key window now). by rewrite Ha. }
  unfold Allow in Ha. intros key' t' Ht'.
  assert (ok = false ∧ tm' = sweepExpired tm now ∨
    ok = true ∧ tm' = MkThrottleManager (<[key := Add now window]> (tm_expiry (sweepExpired tm now)))
      (tm_lastSweep (sweepExpired tm now))) as [[-> ->]|[-> ->]].
  { destruct (tm_expiry (sweepExpired tm now) !! key) as [exp|]; [destruct (Before now exp)|]; simplify_eq; auto. }
  - rewrite sweepExpired_blocked by lia. apply Hb. lia.
  - assert (¬ blocked tm key (unix_ns now)) as Hn by by apply Hok.
    setoid_rewrite elem_of_cons. unfold blocked at 1. simpl.
    destruct (decide (key' = key)) as [->|Hne].
    + rewrite lookup_insert_eq. split.
      * intros (exp & [= <-] & Hlt). exists (MkCall key window now). auto.
      * intros (c & [->|Hc] & Hk & Hlt); [by eexists|]. exfalso. apply Hn, Hb; [lia|].
        exists c. split_and!; [done|done|lia].
    + rewrite lookup_insert_ne by done.
      change (blocked (sweepExpired tm now) key' t' ↔
        ∃ c, (c = MkCall key window now ∨ c ∈ through) ∧ ca_key c = key' ∧ (t' < call_end c)%Z).
      rewrite sweepExpired_blocked by lia. rewrite (Hb key' t') by lia. split.
      * intros (c & Hc & Hk & Hlt). exists c. auto.
      * intros (c & [->|Hc] & Hk & Hlt); [by simpl in Hk|]. eauto.
Qed.

Lemma blocks_as_perm tm l l' t : (∀ c, c ∈ l ↔ c ∈ l') → blocks_as tm l t → blocks_as tm l' t.
Proof. intros Hl Hb key t' Ht. rewrite (Hb key t' Ht). by setoid_rewrite Hl. Qed.

Lemma run_blocks calls tm through t :
  blocks_as tm through t → clocked t calls →
  let '(through', tm') := run tm calls in
  ∃ t', (t ≤ t')%Z ∧ blocks_as tm' (through' ++ through)%list t' ∧
    (∀ c, clocked t (calls ++ [c])%list → (t' ≤ unix_ns (ca_now c))%Z).
Proof.
  revert tm through t; induction calls as [|c calls IH]; intros tm through t Hb; cbn [run clocked app].
  { intros _. exists t. split_and!; [lia|done|]. by intros c [? _]. }
  intros [Ht Hc]. pose proof (Allow_blocks tm (ca_key c) (ca_window c) (ca_now c) through t Hb Ht) as Hb'.
  destruct (Allow tm (ca_key c) (ca_window c) (ca_now c)) as [ok tm'].
  specialize (IH tm' _ _ Hb' Hc). destruct (run tm' calls) as [through' tm''].
  destruct IH as (t' & Ht' & Hb'' & Hlast). exists t'. split_and!; [lia| |].
  - eapply blocks_as_perm; [|exact Hb'']. intros d. destruct ok; [|done].
    destruct c. set_solver.
  - intros d [_ Hd]. by apply Hlast.
Qed.

(** ** Properties *)

(** C16: With a clock that never goes back, a call goes through exactly when the window
    of every earlier call of the same key that went through is over: the first
    one passes, none passes inside a window, the first one after it does.
    Sweeping old entries changes no answer. *)
Theorem Allow_correct start calls c :
  clocked (unix_ns start) (calls ++ [c])%list →
  let '(through, tm) := run (NewThrottleManager start) calls in
  (Allow tm (ca_key c) (ca_window c) (ca_now c)).1 = true ↔
  ∀ c', c' ∈ through → ca_key c' = ca_key c → (call_end c' ≤ unix_ns (ca_now c))%Z.
Proof.
  intros Hc. assert (blocks_as (NewThrottleManager start) [] (unix_ns start)) as Hb.
  { intros key t' _. split; [intros (exp & He & _)|set_solver]. simpl in He. by rewrite lookup_empty in He. }
  assert (clocked (unix_ns start) calls) as Hc'.
  { revert Hc. generalize (unix_ns start). induction calls as [|d calls IH]; simpl; naive_solver. }
  pose proof (run_blocks calls _ [] _ Hb Hc') as Hr.
  destruct (run (NewThrottleManager start) calls) as [through tm].
  destruct Hr as (t' & _ & Hb' & Hlast). rewrite app_nil_r in Hb'. specialize (Hlast c Hc).
  rewrite Allow_blocked, (Hb' (ca_key c) (unix_ns (ca_now c)) Hlast). split.
  - intros Hn c' Hin Hk. apply Z.nlt_ge. intros Hlt. apply Hn. eauto.
  - intros Hall (c' & Hin & Hk & Hlt). specialize (Hall c' Hin Hk). lia.
Qed.

Lemma Allow_correct_witness :
  let at_ s := MkTime (s * Second) 0 in
  let calls := [MkCall "k" (10 * Second) (at_ 1); MkCall "k" (10 * Second) (at_ 5); MkCall "j" (10 * Second) (at_ 6)]%Z in
  let c := MkCall "k" (10 * Second) (at_ 11%Z) in
  let '(through, tm) := run (NewThrottleManager (at_ 0%Z)) calls in
  (Allow tm (ca_key c) (ca_window c) (ca_now c)).1 = true ↔
  ∀ c', c' ∈ through → ca_key c' = ca_key c → (call_end c' ≤ unix_ns (ca_now c))%Z.
Proof.
  intros at_ calls c. apply (Allow_correct (at_ 0%Z) calls c).
  repeat split; apply Z.leb_le; reflexivity.
Defined.

(** The table does not grow with keys that are no longer used: after any call, an
    entry left in it expired less than five minutes ago or not at all. *)
Theorem Allow_evicts tm key window now :
  (0 ≤ window)%Z → (unix_ns (tm_lastSweep tm) ≤ unix_ns now)%Z →
  (∀ k exp, tm_expiry tm !! k = Some exp → (unix_ns (tm_lastSweep tm) ≤ unix_ns exp)%Z) →
  let tm' := (Allow tm key window now).2 in
  (∀ k exp, tm_expiry tm' !! k = Some exp → (unix_ns (tm_lastSweep tm') ≤ unix_ns exp)%Z) ∧
  (∀ k exp, tm_expiry tm' !! k = Some exp → (unix_ns now - unix_ns exp < sweepInterval)%Z).
Proof.
  intros Hw Hnow Hinv.
  set (s := sweepExpired tm now).
  assert ((∀ k exp, tm_expiry s !! k = Some exp → (unix_ns (tm_lastSweep s) ≤ unix_ns exp)%Z) ∧
    (unix_ns (tm_lastSweep s) ≤ unix_ns now)%Z ∧
    (unix_ns now - unix_ns (tm_lastSweep s) < sweepInterval)%Z) as (H1 & H2 & H3).
  { subst s. unfold sweepExpired. destruct (Z.ltb_spec (Sub now (tm_lastSweep tm)) sweepInterval) as [Hs|Hs].
    - split_and!; [done|done|]. unfold Sub, sat64, int64_min, int64_max, sweepInterval, Minute, Second in *. lia.
    - simpl. split_and!; [|lia|unfold sweepInterval, Minute, Second; lia].
      intros k exp [_ Hb]%map_lookup_filter_Some. unfold Before in Hb. simpl in Hb. lia. }
  assert (∀ m, (m = tm_expiry s ∨ m = <[key := Add now window]> (tm_expiry s)) →
    ∀ k exp, m !! k = Some exp → (unix_ns (tm_lastSweep s) ≤ unix_ns exp)%Z) as Hm.
  { intros m [->| ->] k exp; [apply H1|]. destruct (decide (k = key)) as [->|].
    - rewrite lookup_insert_eq. intros [= <-]. simpl. lia.
    - rewrite lookup_insert_ne by done. apply H1. }
  cbv zeta. unfold Allow. fold s.
  assert (∀ m, (m = tm_expiry s ∨ m = <[key := Add now window]> (tm_expiry s)) →
    ∀ k exp, m !! k = Some exp → (unix_ns now - unix_ns exp < sweepInterval)%Z) as Hm'.
  { intros m H k exp Hk. pose proof (Hm m H k exp Hk). lia. }
  destruct (tm_expiry s !! key) as [e|]; [destruct (Before now e)|]; simpl; eauto 7.
Qed.

Lemma Allow_evicts_witness :
  let at_ s := MkTime (s * Second) 0 in
  let tm := MkThrottleManager {["old" := at_ 20%Z]} (at_ 10%Z) in
  let tm' := (Allow tm "k" (10 * Second) (at_ 400%Z)).2 in
  (∀ k exp, tm_expiry tm' !! k = Some exp → (unix_ns (tm_lastSweep tm') ≤ unix_ns exp)%Z) ∧
  (∀ k exp, tm_expiry tm' !! k = Some exp → (unix_ns (at_ 400%Z) - unix_ns exp < sweepInterval)%Z).
Proof.
  intros at_ tm. apply (Allow_evicts tm "k" (10 * Second)%Z (at_ 400%Z)).
  - apply Z.leb_le. reflexivity.
  - apply Z.leb_le. reflexivity.
  - intros k exp Hk. cbn [tm tm_expiry] in Hk. apply lookup_singleton_Some in Hk as [<- <-]. apply Z.leb_le. reflexivity.
Defined.
