(* ===== verification/Index.v ===== *)
(** * The rule index (internal/rule/index.go)

    Rules with a NATS trigger by subject: exact subjects in a map, wildcard
    subjects in a list with their compiled matchers. *)

From S2P Require Import Prelude GoStrings GoFloat GoTime Value Types Pattern.
Local Open Scope string_scope.

Record PatternRule := MkPatternRule { pr_rule : Rule; pr_matcher : PatternMatcher }.

(** The counters are uint64; [lastUpdated] is [None] for the zero time. *)
Record IndexStats := MkIndexStats {
  exactLookups : Z; patternChecks : Z; matches : Z; lastUpdated : option Time;
}.

Record Index := MkIndex {
  exactMatches : gmap string (list Rule);
  patternRules : list PatternRule;
  ix_stats : IndexStats;
}.

Definition incr (n k : Z) : Z := ((n + k) mod 18446744073709551616)%Z.

Definition NewIndex : Index := MkIndex ∅ [] (MkIndexStats 0 0 0 None).

(** [now] is what the clock gives at the end of the call. *)
Definition Add (idx : Index) (rule : option Rule) (now : Time) : Index :=
  match rule with
  | None => idx
  | Some r =>
      match tr_NATS (r_Trigger r) with
      | None => idx
      | Some t =>
          let subject := nt_Subject t in
          let '(MkIndexStats el pc m _) := ix_stats idx in
          let stats := MkIndexStats el pc m (Some now) in
          if containsWildcards subject then
            match NewPatternMatcher subject with
            | Err _ => idx
            | Ok matcher =>
                MkIndex (exactMatches idx) (patternRules idx ++ [MkPatternRule r matcher]) stats
            end
          else
            MkIndex (<[subject := (default [] (exactMatches idx !! subject) ++ [r])%list]> (exactMatches idx))
              (patternRules idx) stats
      end
  end.

(** The shared body of the two lookups: [matches_] is how a matcher is asked. *)
Definition find_with (matches_ : PatternMatcher → bool) (idx : Index) (subject : string) : list Rule * Index :=
  let exact := default [] (exactMatches idx !! subject) in
  let patterns := map pr_rule (List.filter (λ pr, matches_ (pr_matcher pr)) (patternRules idx)) in
  let allMatches := (exact ++ patterns)%list in
  let '(MkIndexStats el pc m lu) := ix_stats idx in
  (allMatches,
   MkIndex (exactMatches idx) (patternRules idx)
     (MkIndexStats (incr el 1) (incr pc (Z.of_nat (length (patternRules idx))))
       (if (0 <? length allMatches)%nat then incr m 1 else m) lu)).

Definition FindAllMatching (idx : Index) (subject : string) : list Rule * Index :=
  find_with (λ pm, Match pm subject) idx subject.

Definition FindAllMatchingTokenized (idx : Index) (subject : string) (tokens : list string) : list Rule * Index :=
  find_with (λ pm, MatchTokens pm tokens) idx subject.

Definition rule_subject (r : Rule) : string :=
  match tr_NATS (r_Trigger r) with Some t => nt_Subject t | None => "" end.

(** The keys of the map come in no particular order. *)
Definition Subjects (idx : Index) : list string :=
  (map fst (map_to_list (exactMatches idx)) ++ map (λ pr, rule_subject (pr_rule pr)) (patternRules idx))%list.

Definition SubscriptionSubjects (idx : Index) : list string := Subjects idx.

Definition Clear (idx : Index) : Index := NewIndex.

Definition RuleCounts (idx : Index) : Z * Z :=
  (Z.of_nat (size (exactMatches idx)), Z.of_nat (length (patternRules idx))).

(** Rules added in order, the clock read for each. *)
Definition AddAll (idx : Index) (rules : list (Rule * Time)) : Index :=
  foldl (λ idx r, Add idx (Some r.1) r.2) idx rules.

(** ** Specification *)

Definition has_subject (subject : string) (r : Rule) : bool :=
  match tr_NATS (r_Trigger r) with
  | Some t => negb (containsWildcards (nt_Subject t)) && String.eqb (nt_Subject t) subject
  | None => false
  end.

Definition has_pattern (subject : string) (r : Rule) : bool :=
  match tr_NATS (r_Trigger r) with
  | Some t => containsWildcards (nt_Subject t) && is_ok (ValidatePattern (nt_Subject t))
              && tmatch (Split "." (nt_Subject t)) (Split "." subject)
  | None => false
  end.

(** ** Lemmas *)

(** The matchers of an index are those of their rules. *)
Definition matchers_ok (idx : Index) : Prop :=
  Forall (λ pr, NewPatternMatcher (rule_subject (pr_rule pr)) = Ok (pr_matcher pr)) (patternRules idx).

Lemma Add_spec idx r now :
  matchers_ok idx →
  let idx' := Add idx (Some r) now in
  matchers_ok idx' ∧
  (∀ subject, default [] (exactMatches idx' !! subject) =
     (default [] (exactMatches idx !! subject) ++ if has_subject subject r then [r] else [])%list) ∧
  (∀ subject, map pr_rule (List.filter (λ pr, Match (pr_matcher pr) subject) (patternRules idx')) =
     (map pr_rule (List.filter (λ pr, Match (pr_matcher pr) subject) (patternRules idx))
      ++ if has_pattern subject r then [r] else [])%list).
Proof.
  intros Hok. unfold Add, has_subject, has_pattern. cbv zeta.
  destruct (tr_NATS (r_Trigger r)) as [t|] eqn:Et.
  2: { split_and!; [done| |]; intros subject; by rewrite app_nil_r. }
  destruct (ix_stats idx) as [el pc m lu].
  destruct (containsWildcards (nt_Subject t)) eqn:Ew; cbn [negb andb].
  - destruct (NewPatternMatcher (nt_Subject t)) as [pm|e] eqn:Epm.
    + apply NewPatternMatcher_Ok in Epm as Hpm. destruct Hpm as [Hv ->].
      assert (is_ok (ValidatePattern (nt_Subject t)) = true) as ->.
      { unfold NewPatternMatcher in Epm. by destruct (ValidatePattern (nt_Subject t)). }
      split_and!; cbn.
      * apply Forall_app. split; [done|]. repeat constructor. cbn. unfold rule_subject. by rewrite Et.
      * intros subject. by rewrite app_nil_r.
      * intros subject. rewrite List.filter_app, map_app. cbn. rewrite Match_spec by done.
        by destruct (tmatch _ _).
    + assert (is_ok (ValidatePattern (nt_Subject t)) = false) as ->.
      { unfold NewPatternMatcher in Epm. by destruct (ValidatePattern (nt_Subject t)). }
      split_and!; [done| |]; intros subject; by rewrite app_nil_r.
  - split_and!; [done| |]; intros subject; cbn; [|by rewrite app_nil_r].
    destruct (String.eqb_spec (nt_Subject t) subject) as [<-|Hne].
    + by rewrite lookup_insert_eq.
    + rewrite lookup_insert_ne by done. by rewrite app_nil_r.
Qed.

Lemma AddAll_spec idx rules :
  matchers_ok idx →
  let idx' := AddAll idx rules in
  matchers_ok idx' ∧
  (∀ subject, default [] (exactMatches idx' !! subject) =
     (default [] (exactMatches idx !! subject) ++ List.filter (has_subject subject) (map fst rules))%list) ∧
  (∀ subject, map pr_rule (List.filter (λ pr, Match (pr_matcher pr) subject) (patternRules idx')) =
     (map pr_rule (List.filter (λ pr, Match (pr_matcher pr) subject) (patternRules idx))
      ++ List.filter (has_pattern subject) (map fst rules))%list).
Proof.
  revert idx; induction rules as [|[r now] rules IH]; intros idx Hok; cbv zeta.
  { cbn. split_and!; [done| |]; intros subject; by rewrite app_nil_r. }
  destruct (Add_spec idx r now Hok) as (Hok' & He & Hp).
  destruct (IH _ Hok') as (Hok'' & He' & Hp'). cbn [AddAll foldl map fst].
  split_and!; [done| |]; intros subject; cbn [List.filter].
  - etransitivity; [apply He'|]. rewrite He, <- app_assoc. by destruct (has_subject subject r).
  - etransitivity; [apply Hp'|]. rewrite Hp, <- app_assoc. by destruct (has_pattern subject r).
Qed.

Lemma tokenized_match idx subject :
  matchers_ok idx →
  List.filter (λ pr, MatchTokens (pr_matcher pr) (sc_Tokens (NewSubjectContext subject))) (patternRules idx) =
  List.filter (λ pr, Match (pr_matcher pr) subject) (patternRules idx).
Proof.
  intros Hok. apply List.filter_ext_in. intros pr Hpr. apply list_elem_of_In in Hpr.
  pose proof (proj1 (Forall_forall _ _) Hok pr Hpr) as [Hv ->]%NewPatternMatcher_Ok.
  rewrite Match_spec by done. rewrite MatchTokens_spec by apply Hv. unfold NewSubjectContext.
  destruct (String.eqb_spec subject "") as [->|]; [|done]. cbn [sc_Tokens].
  change (Split "." "") with [""]. destruct Hv as [Hne Hg _].
  destruct (Split "." (rule_subject (pr_rule pr))) as [|t p] eqn:Es; [by apply Split_ne in Es|].
  cbn [tmatch]. assert (t = ">" → p = []) as Hlast.
  { intros ->. pose proof (Hg 0 eq_refl). by destruct p. }
  pose proof (Hne 0 t eq_refl) as Ht%String.eqb_neq.
  destruct (wild_eq t) as [->|[->|[E1%String.eqb_neq E2%String.eqb_neq]]]; cbn.
  - done.
  - by rewrite Hlast.
  - rewrite E1, E2. by destruct t.
Qed.

(** ** Properties *)

(** The lookup returns the rules that match the subject and no others: first those
    with exactly this subject, then those whose valid wildcard pattern matches
    it, each group in the order of loading; a rule with an invalid wildcard
    pattern never fires. *)
Theorem FindAllMatching_correct rules subject :
  (FindAllMatching (AddAll NewIndex rules) subject).1 =
    (List.filter (has_subject subject) (map fst rules) ++ List.filter (has_pattern subject) (map fst rules))%list ∧
  (∀ r t, r ∈ (FindAllMatching (AddAll NewIndex rules) subject).1 → tr_NATS (r_Trigger r) = Some t →
     valid_tokens (Split "." (nt_Subject t)) →
     token_match (Split "." (nt_Subject t)) (Split "." subject)).
Proof.
  destruct (AddAll_spec NewIndex rules (Forall_nil_2 _)) as (_ & He & Hp).
  assert ((FindAllMatching (AddAll NewIndex rules) subject).1 =
    (List.filter (has_subject subject) (map fst rules) ++ List.filter (has_pattern subject) (map fst rules))%list) as Hf.
  { unfold FindAllMatching, find_with. destruct (ix_stats _) as [el pc m lu]. cbn [fst].
    rewrite He, Hp. done. }
  split; [done|]. intros r t. rewrite Hf, elem_of_app, !elem_of_filterb. intros [[Hr _]|[Hr _]] Et Hv.
  - unfold has_subject in Hr. rewrite Et in Hr. apply andb_true_iff in Hr as [Hw Hs%String.eqb_eq]. subst subject.
    apply tmatch_iff; [apply Hv|]. rewrite tmatch_literal; [by apply tokens_eqb_spec|].
    apply negb_true_iff in Hw. unfold containsWildcards in Hw. rewrite !Contains_char in Hw.
    apply orb_false_iff in Hw as [H1 H2]. rewrite (has_char_Split ".") in H1, H2 by done.
    unfold tokensContainWildcards. apply existsb_False. intros x Hx.
    rewrite existsb_False in H1, H2. specialize (H1 x Hx). specialize (H2 x Hx).
    apply orb_false_iff. rewrite !String.eqb_neq. split; intros ->; done.
  - unfold has_pattern in Hr. rewrite Et in Hr. apply andb_true_iff in Hr as [_ Hm].
    apply tmatch_iff; [apply Hv | done].
Qed.

Definition demo_rule (subject : string) : Rule :=
  MkRule "" (MkTrigger (Some (MkNATSTrigger subject None None "" false "")) None None) None
    (MkAction None None None None) 0.

Lemma FindAllMatching_correct_witness :
  let rules := map (λ s, (demo_rule s, MkTime 0 0)) ["a.*"; "a.b"; "b.>"; "a.>"] in
  (FindAllMatching (AddAll NewIndex rules) "a.b").1 = [demo_rule "a.b"; demo_rule "a.*"; demo_rule "a.>"] ∧
  token_match ["a"; "*"] ["a"; "b"].
Proof.
  intros rules. split; [reflexivity|].
  refine (proj2 (FindAllMatching_correct rules "a.b") (demo_rule "a.*") _ _ eq_refl _).
  - change (demo_rule "a.*" ∈ [demo_rule "a.b"; demo_rule "a.*"; demo_rule "a.>"]). right. left.
  - apply (validate_tokens_Ok _ tt). reflexivity.
Defined.

(** Asking with the tokens of the subject context, as the processor does, finds the
    same rules and counts the same statistics as asking with the subject. *)
Theorem FindAllMatchingTokenized_same rules subject :
  FindAllMatchingTokenized (AddAll NewIndex rules) subject (sc_Tokens (NewSubjectContext subject)) =
  FindAllMatching (AddAll NewIndex rules) subject.
Proof.
  destruct (AddAll_spec NewIndex rules (Forall_nil_2 _)) as (Hok & _).
  unfold FindAllMatchingTokenized, FindAllMatching, find_with. by rewrite tokenized_match.
Qed.

(** [Subjects] is said to return unique subjects, and [RuleCounts] to count rules:
    wildcard subjects are repeated, and exact rules counted by subject. *)
Lemma Subjects_repeats :
  let idx rules := AddAll NewIndex (map (λ s, (demo_rule s, MkTime 0 0)) rules) in
  Subjects (idx ["a.>"; "a.>"]) = ["a.>"; "a.>"] ∧ RuleCounts (idx ["a.b"; "a.b"]) = (1, 0)%Z.
Proof. done. Qed.
