(* ===== verification/Merge.v ===== *)
(** * Payload merging (internal/rule/processor.go: deepMerge)

    The deep merge of an overlay onto a message, and its laws. *)

From S2P Require Import Prelude GoStrings Value.
Local Open Scope string_scope.

(** What [result[k]] becomes when the loop visits [k]: objects are merged, any
    other overlay value replaces what was there. *)
Fixpoint mergeValue (base : option value) (overlay : value) {struct overlay} : value :=
  match overlay with
  | VObj overlayMap =>
      match base with
      | Some (VObj baseMap) =>
          VObj (map_fold (λ k v result, <[k := mergeValue (result !! k) v]> result) baseMap overlayMap)
      | _ => overlay
      end
  | _ => overlay
  end.

Definition deepMerge (base overlay : gmap string value) : gmap string value :=
  map_fold (λ k v result, <[k := mergeValue (result !! k) v]> result) base overlay.

(** ** Lemmas *)

Lemma deepMerge_lookup base overlay k :
  deepMerge base overlay !! k =
    match overlay !! k with
    | Some v => Some (mergeValue (base !! k) v)
    | None => base !! k
    end.
Proof.
  unfold deepMerge.
  apply (map_fold_weak_ind (λ result m, result !! k = match m !! k with
    | Some v => Some (mergeValue (base !! k) v) | None => base !! k end)).
  - by rewrite lookup_empty.
  - intros j v m result Hj IH. destruct (decide (k = j)) as [->|].
    + rewrite !lookup_insert_eq. rewrite Hj in IH. by rewrite IH.
    + by rewrite !lookup_insert_ne.
Qed.

Lemma mergeValue_obj b o : mergeValue (Some (VObj b)) (VObj o) = VObj (deepMerge b o).
Proof. done. Qed.

Lemma mergeValue_none v : mergeValue None v = v.
Proof. by destruct v. Qed.

Lemma mergeValue_self v : mergeValue (Some v) v = v.
Proof.
  induction v as [v _ IH] using value_rect_size. destruct v as [| | | | | | | |m| |]; try done.
  rewrite mergeValue_obj. f_equal. apply map_eq. intros k. rewrite deepMerge_lookup.
  destruct (m !! k) as [v|] eqn:Hk; [|done]. f_equal. by eapply IH.
Qed.

(** Merging the same overlay again changes nothing. *)
Lemma mergeValue_again b v : mergeValue (Some (mergeValue b v)) v = mergeValue b v.
Proof.
  revert b. induction v as [v _ IH] using value_rect_size. intros b.
  destruct v as [| | | | | | | |m| |]; try done.
  assert (∀ b', (∀ bm, b' ≠ Some (VObj bm)) → mergeValue b' (VObj m) = VObj m) as Hno.
  { intros b' Hb. destruct b' as [[| | | | | | | |bm| |]|]; try done. by destruct (Hb bm eq_refl). }
  destruct b as [[| | | | | | | |bm| |]|]; 
    try (match goal with |- mergeValue (Some (mergeValue ?b' _)) _ = _ =>
      rewrite (Hno b') by (intros ?; discriminate); apply mergeValue_self end).
  rewrite !mergeValue_obj. f_equal. apply map_eq. intros k. rewrite !deepMerge_lookup.
  destruct (m !! k) as [v|] eqn:Hk; [|done]. f_equal. by eapply IH.
Qed.

(** ** Properties *)

(** A merged message holds exactly the keys of the message and of the overlay:
    where only one has the key its value is kept, where both hold an object
    they are merged in turn, and else the overlay wins.  An empty overlay, an
    empty message and merging twice behave as expected. *)
Theorem deepMerge_correct base overlay :
  (∀ k, deepMerge base overlay !! k =
     match base !! k, overlay !! k with
     | Some (VObj b), Some (VObj o) => Some (VObj (deepMerge b o))
     | _, Some v => Some v
     | v, None => v
     end) ∧
  deepMerge base ∅ = base ∧ deepMerge ∅ overlay = overlay ∧ deepMerge base base = base ∧
  deepMerge (deepMerge base overlay) overlay = deepMerge base overlay.
Proof.
  split_and!.
  - intros k. rewrite deepMerge_lookup. destruct (overlay !! k) as [v|]; [|by destruct (base !! k) as [[]|]].
    destruct (base !! k) as [[]|]; destruct v; done.
  - done.
  - apply map_eq. intros k. rewrite deepMerge_lookup, lookup_empty.
    destruct (overlay !! k); [|done]. by rewrite mergeValue_none.
  - apply map_eq. intros k. rewrite deepMerge_lookup. destruct (base !! k) eqn:Hk; [|done].
    by rewrite mergeValue_self.
  - apply map_eq. intros k. rewrite !deepMerge_lookup. destruct (overlay !! k) eqn:Hk; [|done].
    by rewrite mergeValue_again.
Qed.

(** Merging is not associative: an overlay that replaces an object by a scalar
    cuts the merge when it comes first, and is overwritten when it is merged
    into the next overlay. *)
Lemma deepMerge_not_associative :
  ∃ a b c, deepMerge (deepMerge a b) c ≠ deepMerge a (deepMerge b c).
Proof.
  exists {["k" := VObj {["x" := VNil]}]}, {["k" := VBool true]}, {["k" := VObj {["y" := VNil]}]}.
  intros E. apply (f_equal (λ m, match m !! "k" with Some (VObj o) => o !! "x" | _ => None end)) in E.
  vm_compute in E. discriminate.
Qed.
