(* ===== verification/Hmac.v ===== *)
(** * Signatures of inbound webhooks (internal/rule/hmac.go)

    The generic scheme, a keyed hash of the body in a header the rule names, and
    the named schemes, which sign a timestamp with it.  The keyed hashes are a
    parameter. *)

From S2P Require Import Prelude GoStrings GoFloat GoTime GoNet Types.
Local Open Scope string_scope.
#[local] Arguments String.append !_ _ /.

Inductive hash := SHA256 | SHA1.

(** HMAC: the sum of a message under a key. *)
Class Crypto := { hmac_Sum : hash → string → string → string }.

Inductive hmac_result := hmacValid | hmacInvalid | hmacMissing | hmacExpired | hmacError.

Definition hmac_result_eqb (a b : hmac_result) : bool :=
  match a, b with
  | hmacValid, hmacValid | hmacInvalid, hmacInvalid | hmacMissing, hmacMissing
  | hmacExpired, hmacExpired | hmacError, hmacError => true
  | _, _ => false
  end.

Definition schemeStripe : string := "stripe".
Definition schemeSlack : string := "slack".
Definition schemeStandardWebhooks : string := "standardwebhooks".

Definition signatureTolerance : Z := 5 * Minute.

Definition isHMACScheme (scheme : string) : bool :=
  String.eqb scheme "" || String.eqb scheme schemeStripe || String.eqb scheme schemeSlack
  || String.eqb scheme schemeStandardWebhooks.

Definition hmacHash (algorithm : string) : option hash :=
  let a := ToLower algorithm in
  if String.eqb a "" || String.eqb a "sha256" then Some SHA256
  else if String.eqb a "sha1" then Some SHA1
  else None.

(** [None]: no such encoding; [Some None]: it does not decode. *)
Definition hmacDecode (encoding val : string) : option (option string) :=
  let e := ToLower encoding in
  if String.eqb e "" || String.eqb e "hex" then Some (hex_DecodeString val)
  else if String.eqb e "base64" then Some (b64_DecodeString val)
  else None.

(** The value of a header, the empty string when it is absent. *)
Definition header_of (headers : gmap string string) (name : string) : string := default "" (headers !! name).

Section verify.
Context `{Crypto}.

Definition signSHA256 (secret : string) (parts : list string) : string :=
  hmac_Sum SHA256 secret (foldr String.append "" parts).

Definition checkTimestamp (ts : string) (now : Time) : hmac_result :=
  match ParseInt ts with
  | None => hmacInvalid
  | Some secs =>
      let diff := Sub now (UnixTime secs 0) in
      if (signatureTolerance <? diff)%Z || (diff <? - signatureTolerance)%Z then hmacExpired else hmacValid
  end.

Definition checkSignedTimestamp (expected : string) (candidates : list string) (ts : string) (now : Time)
    : hmac_result :=
  if negb (existsb (String.eqb expected) candidates) then hmacInvalid else checkTimestamp ts now.

Definition verifyGeneric (cfg : HMACConfig) (secret body : string) (headers : gmap string string) : hmac_result :=
  match hmacHash (hm_Algorithm cfg) with
  | None => hmacError
  | Some newHash =>
      let sigValue := header_of headers (CanonicalMIMEHeaderKey (hm_Header cfg)) in
      if String.eqb sigValue "" then hmacMissing
      else
        match hmacDecode (hm_Encoding cfg) (TrimPrefix sigValue (hm_Prefix cfg)) with
        | None => hmacError
        | Some None => hmacInvalid
        | Some (Some provided) =>
            if String.eqb (hmac_Sum newHash secret body) provided then hmacValid else hmacInvalid
        end
  end.

(** The parts of the header in order: the last [t], and every [v1] that decodes. *)
Fixpoint stripe_parts (ts : string) (sigs : list string) (parts : list string) : string * list string :=
  match parts with
  | [] => (ts, sigs)
  | part :: rest =>
      let '(key, val, _) := Cut "=" part in
      if String.eqb key "t" then stripe_parts val sigs rest
      else if String.eqb key "v1" then
        match hex_DecodeString val with
        | Some sig => stripe_parts ts (sigs ++ [sig])%list rest
        | None => stripe_parts ts sigs rest
        end
      else stripe_parts ts sigs rest
  end.

Definition verifyStripe (secret body : string) (headers : gmap string string) (now : Time) : hmac_result :=
  let header := header_of headers "Stripe-Signature" in
  if String.eqb header "" then hmacMissing
  else
    let '(ts, sigs) := stripe_parts "" [] (Split "," header) in
    if String.eqb ts "" || (length sigs =? 0)%nat then hmacInvalid
    else checkSignedTimestamp (signSHA256 secret [ts; "."; body]) sigs ts now.

Definition verifySlack (secret body : string) (headers : gmap string string) (now : Time) : hmac_result :=
  let ts := header_of headers "X-Slack-Request-Timestamp" in
  let sigValue := header_of headers "X-Slack-Signature" in
  if String.eqb ts "" || String.eqb sigValue "" then hmacMissing
  else
    match CutPrefix sigValue "v0=" with
    | None => hmacInvalid
    | Some hexSig =>
        match hex_DecodeString hexSig with
        | None => hmacInvalid
        | Some sig => checkSignedTimestamp (signSHA256 secret ["v0:"; ts; ":"; body]) [sig] ts now
        end
    end.

Fixpoint webhook_sigs (entries : list string) : list string :=
  match entries with
  | [] => []
  | entry :: rest =>
      match CutPrefix entry "v1," with
      | None => webhook_sigs rest
      | Some b64 =>
          match b64_DecodeString b64 with
          | Some sig => sig :: webhook_sigs rest
          | None => webhook_sigs rest
          end
      end
  end.

Definition verifyStandardWebhooks (secret body : string) (headers : gmap string string) (now : Time)
    : hmac_result :=
  match b64_DecodeString (TrimPrefix secret "whsec_") with
  | None => hmacError
  | Some key =>
      if String.eqb key "" then hmacError
      else
        let id := header_of headers "Webhook-Id" in
        let ts := header_of headers "Webhook-Timestamp" in
        let sigValue := header_of headers "Webhook-Signature" in
        if String.eqb id "" || String.eqb ts "" || String.eqb sigValue "" then hmacMissing
        else
          let sigs := webhook_sigs (Fields sigValue) in
          if (length sigs =? 0)%nat then hmacInvalid
          else checkSignedTimestamp (signSHA256 key [id; "."; ts; "."; body]) sigs ts now
  end.

Definition verifyHMAC (cfg : HMACConfig) (secret body : string) (headers : gmap string string) (now : Time)
    : hmac_result :=
  if String.eqb secret "" then hmacError
  else if String.eqb (hm_Scheme cfg) "" then verifyGeneric cfg secret body headers
  else if String.eqb (hm_Scheme cfg) schemeStripe then verifyStripe secret body headers now
  else if String.eqb (hm_Scheme cfg) schemeSlack then verifySlack secret body headers now
  else if String.eqb (hm_Scheme cfg) schemeStandardWebhooks then verifyStandardWebhooks secret body headers now
  else hmacError.
End verify.

(** ** Specification *)

(** The values of a key among the [key=value] parts of a header. *)
Definition part_value (key part : string) : option string :=
  let '(k, v, _) := Cut "=" part in if String.eqb k key then Some v else None.
Definition values (key : string) (parts : list string) : list string := omap (part_value key) parts.

(** A timestamp in seconds at most five minutes away from [now]. *)
Definition fresh (ts : string) (now : Time) : Prop :=
  ∃ secs, ParseInt ts = Some secs ∧
    (- signatureTolerance ≤ Sub now (UnixTime secs 0) ≤ signatureTolerance)%Z.

(** What the signature covers must be the body, and under a named scheme the
    fresh timestamp of the request with it. *)
Inductive authentic `{Crypto} (cfg : HMACConfig) (secret body : string) (headers : gmap string string)
    (now : Time) : Prop :=
| authentic_generic h val :
    hm_Scheme cfg = "" → hmacHash (hm_Algorithm cfg) = Some h →
    headers !! CanonicalMIMEHeaderKey (hm_Header cfg) = Some val → val ≠ "" →
    hmacDecode (hm_Encoding cfg) (TrimPrefix val (hm_Prefix cfg)) = Some (Some (hmac_Sum h secret body)) →
    authentic cfg secret body headers now
| authentic_stripe header ts v :
    hm_Scheme cfg = schemeStripe → headers !! "Stripe-Signature" = Some header →
    last (values "t" (Split "," header)) = Some ts → v ∈ values "v1" (Split "," header) →
    hex_DecodeString v = Some (hmac_Sum SHA256 secret (ts ++ "." ++ body)) → fresh ts now →
    authentic cfg secret body headers now
| authentic_slack ts hexSig :
    hm_Scheme cfg = schemeSlack → headers !! "X-Slack-Request-Timestamp" = Some ts →
    headers !! "X-Slack-Signature" = Some ("v0=" ++ hexSig) →
    hex_DecodeString hexSig = Some (hmac_Sum SHA256 secret ("v0:" ++ ts ++ ":" ++ body)) → fresh ts now →
    authentic cfg secret body headers now
| authentic_webhook key id ts sigs b64 :
    hm_Scheme cfg = schemeStandardWebhooks →
    b64_DecodeString (TrimPrefix secret "whsec_") = Some key → key ≠ "" →
    headers !! "Webhook-Id" = Some id → id ≠ "" → headers !! "Webhook-Timestamp" = Some ts →
    headers !! "Webhook-Signature" = Some sigs → ("v1," ++ b64) ∈ Fields sigs →
    b64_DecodeString b64 = Some (hmac_Sum SHA256 key (id ++ "." ++ ts ++ "." ++ body)) → fresh ts now →
    authentic cfg secret body headers now.

(** ** Lemmas *)

Lemma stripe_parts_spec ts sigs parts :
  stripe_parts ts sigs parts =
  (default ts (last (values "t" parts)), (sigs ++ omap hex_DecodeString (values "v1" parts))%list).
Proof.
  revert ts sigs. induction parts as [|part parts IH]; intros ts sigs; cbn [stripe_parts].
  { cbn. by rewrite app_nil_r. }
  unfold values in *. cbn [omap list_omap]. destruct (Cut "=" part) as [[k v] f] eqn:E.
  assert (∀ key, part_value key part = if String.eqb k key then Some v else None) as Hp.
  { intros key. unfold part_value. by rewrite E. }
  rewrite !Hp. clear E Hp.
  destruct (String.eqb_spec k "t") as [->|Ht]; [|destruct (String.eqb_spec k "v1") as [->|Hv]].
  - cbn [String.eqb Ascii.eqb Bool.eqb]. rewrite IH, last_cons. by destruct (last _).
  - cbn. destruct (hex_DecodeString v); rewrite IH; cbn; [by rewrite <- app_assoc|done].
  - by rewrite IH.
Qed.

Lemma CutPrefix_Some s p r : CutPrefix s p = Some r ↔ s = p ++ r.
Proof.
  unfold CutPrefix. split.
  - destruct (HasPrefix s p) eqn:E; [|done]. intros [= <-]. apply HasPrefix_spec in E as [r ->].
    f_equal. by rewrite sdrop_app.
  - intros ->. rewrite HasPrefix_app. by rewrite sdrop_app.
Qed.

Lemma webhook_sigs_spec entries sig :
  sig ∈ webhook_sigs entries ↔ ∃ b64, ("v1," ++ b64) ∈ entries ∧ b64_DecodeString b64 = Some sig.
Proof.
  induction entries as [|e l IH]; cbn [webhook_sigs]; [set_solver|].
  destruct (CutPrefix e "v1,") as [b|] eqn:E.
  - apply CutPrefix_Some in E as ->. destruct (b64_DecodeString b) as [sg|] eqn:Eb;
      rewrite ?elem_of_cons, IH; setoid_rewrite elem_of_cons; split.
    + intros [->|(b' & ? & ?)]; eauto.
    + intros (b' & [[= ->]|?] & ?); [left; congruence|eauto].
    + naive_solver.
    + intros (b' & [[= ->]|?] & ?); [congruence|eauto].
  - rewrite IH. setoid_rewrite elem_of_cons. split; [naive_solver|].
    intros (b' & [<-|?] & ?); [|eauto].
    assert (CutPrefix ("v1," ++ b') "v1," = Some b') by by apply CutPrefix_Some. congruence.
Qed.

Lemma checkTimestamp_valid ts now : checkTimestamp ts now = hmacValid ↔ fresh ts now.
Proof.
  unfold checkTimestamp, fresh. destruct (ParseInt ts) as [secs|]; [|naive_solver].
  set (d := Sub now (UnixTime secs 0)). destruct (_ || _) eqn:E.
  - rewrite orb_true_iff, !Z.ltb_lt in E. split; [done|]. intros (? & [= <-] & Hd). fold d in Hd. lia.
  - rewrite orb_false_iff, !Z.ltb_ge in E. split; [|done]. intros _. exists secs. split; [done|]. fold d. lia.
Qed.

Lemma checkSignedTimestamp_valid expected sigs ts now :
  checkSignedTimestamp expected sigs ts now = hmacValid ↔ expected ∈ sigs ∧ fresh ts now.
Proof.
  unfold checkSignedTimestamp. rewrite <- checkTimestamp_valid.
  destruct (existsb (String.eqb expected) sigs) eqn:E; cbn.
  - apply existsb_True in E as (x & Hx & <-%String.eqb_eq). tauto.
  - split; [done|]. intros [Hin _]. pose proof (proj1 (existsb_False _ _) E _ Hin) as H.
    by rewrite String.eqb_refl in H.
Qed.

(** At another time only the freshness differs. *)
Lemma checkSignedTimestamp_expired expected sigs ts now :
  checkSignedTimestamp expected sigs ts now = hmacExpired ↔
  checkSignedTimestamp expected sigs ts now ≠ hmacValid ∧
  ∃ now', checkSignedTimestamp expected sigs ts now' = hmacValid.
Proof.
  unfold checkSignedTimestamp. destruct (existsb (String.eqb expected) sigs); cbn; [|naive_solver].
  unfold checkTimestamp. destruct (ParseInt ts) as [secs|]; [|naive_solver].
  split.
  - intros H. split; [congruence|]. exists (UnixTime secs 0). unfold Sub. by rewrite Z.sub_diag.
  - intros [H _]. by destruct (_ || _).
Qed.

Lemma header_of_nonempty headers name val :
  header_of headers name = val → val ≠ "" → headers !! name = Some val.
Proof. unfold header_of. destruct (headers !! name); simpl; congruence. Qed.

Lemma header_of_Some headers name val : headers !! name = Some val → header_of headers name = val.
Proof. unfold header_of. by intros ->. Qed.

Lemma fresh_nonempty ts now : fresh ts now → ts ≠ "".
Proof. intros (secs & H & _) ->. done. Qed.

(** ** The schemes *)

Section schemes.
Context `{Crypto}.
Implicit Types (cfg : HMACConfig) (headers : gmap string string) (secret body : string) (now : Time).

Lemma verifyGeneric_valid cfg secret body headers :
  verifyGeneric cfg secret body headers = hmacValid ↔
  ∃ h val, hmacHash (hm_Algorithm cfg) = Some h ∧
    headers !! CanonicalMIMEHeaderKey (hm_Header cfg) = Some val ∧ val ≠ "" ∧
    hmacDecode (hm_Encoding cfg) (TrimPrefix val (hm_Prefix cfg)) = Some (Some (hmac_Sum h secret body)).
Proof.
  unfold verifyGeneric. destruct (hmacHash (hm_Algorithm cfg)) as [h|]; [|naive_solver].
  set (val := header_of headers _). destruct (String.eqb_spec val "") as [Hv|Hv].
  { split; [done|]. intros (? & v & _ & Hl & Hn & _). apply header_of_Some in Hl. by fold val in Hl; subst v. }
  pose proof (header_of_nonempty headers _ val eq_refl Hv) as Hl. rewrite Hl.
  destruct (hmacDecode _ _) as [[provided|]|] eqn:E.
  - destruct (String.eqb_spec (hmac_Sum h secret body) provided) as [<-|Hne].
    + split; [|done]. intros _. by exists h, val.
    + split; [done|]. naive_solver.
  - naive_solver.
  - naive_solver.
Qed.

Lemma verifyStripe_signed secret body headers now r :
  (r = hmacValid ∨ r = hmacExpired) →
  verifyStripe secret body headers now = r ↔
  ∃ header ts, headers !! "Stripe-Signature" = Some header ∧ last (values "t" (Split "," header)) = Some ts ∧
    ts ≠ "" ∧ checkSignedTimestamp (hmac_Sum SHA256 secret (ts ++ "." ++ body))
      (omap hex_DecodeString (values "v1" (Split "," header))) ts now = r.
Proof.
  intros Hr. unfold verifyStripe. set (header := header_of headers _).
  destruct (String.eqb_spec header "") as [Hv|Hv].
  { split; [by intros <-; destruct Hr|]. intros (h & ts & Hl & Ht & _ & _). apply header_of_Some in Hl.
    fold header in Hl. rewrite <- Hl, Hv in Ht. done. }
  pose proof (header_of_nonempty headers _ header eq_refl Hv) as Hl. rewrite Hl.
  clearbody header. rewrite stripe_parts_spec. cbn [app].
  destruct (last (values "t" (Split "," header))) as [ts|] eqn:Et; cbn [default id]; cycle 1.
  { cbn. split; [by intros <-; destruct Hr|]. intros (? & ? & [= <-] & Ht & _). congruence. }
  destruct (String.eqb_spec ts "") as [Hts|Hts]; cbn [orb]; cbv iota.
  { split; [by intros <-; destruct Hr|]. intros (? & ? & [= <-] & Ht & ? & _). congruence. }
  destruct (omap hex_DecodeString (values "v1" (Split "," header))) as [|s l] eqn:Es; cbn [length Nat.eqb]; cbv iota.
  { split; [by intros <-; destruct Hr|]. intros (? & ? & [= <-] & ? & _ & Hc).
    rewrite Es in Hc. by destruct Hr; subst r. }
  unfold signSHA256. cbn [foldr]. rewrite app_nil_r_str. split; [by exists header, ts; rewrite Es|].
  intros (? & ? & [= <-] & Ht & _ & Hc). rewrite Et in Ht. injection Ht as <-. by rewrite Es in Hc.
Qed.

Lemma verifySlack_signed secret body headers now r :
  (r = hmacValid ∨ r = hmacExpired) →
  verifySlack secret body headers now = r ↔
  ∃ ts hexSig sig, headers !! "X-Slack-Request-Timestamp" = Some ts ∧ ts ≠ "" ∧
    headers !! "X-Slack-Signature" = Some ("v0=" ++ hexSig) ∧ hex_DecodeString hexSig = Some sig ∧
    checkSignedTimestamp (hmac_Sum SHA256 secret ("v0:" ++ ts ++ ":" ++ body)) [sig] ts now = r.
Proof.
  intros Hr. unfold verifySlack. set (ts := header_of headers "X-Slack-Request-Timestamp").
  set (sv := header_of headers "X-Slack-Signature").
  destruct (String.eqb_spec ts "") as [Hts|Hts]; cbn [orb]; cbv iota.
  { split; [by intros <-; destruct Hr|]. intros (? & ? & ? & Hl & Hn & _). apply header_of_Some in Hl. by subst. }
  destruct (String.eqb_spec sv "") as [Hsv|Hsv].
  { split; [by intros <-; destruct Hr|]. intros (? & ? & ? & _ & _ & Hl & _). apply header_of_Some in Hl.
    fold sv in Hl. by rewrite Hl in Hsv. }
  pose proof (header_of_nonempty headers _ ts eq_refl Hts) as ->.
  pose proof (header_of_nonempty headers _ sv eq_refl Hsv) as ->.
  clearbody ts sv.
  assert (∀ hx, Some sv = Some ("v0=" ++ hx) ↔ CutPrefix sv "v0=" = Some hx) as Hcut.
  { intros hx. rewrite CutPrefix_Some. split; [by intros ?%(inj Some)|by intros <-]. }
  destruct (CutPrefix sv "v0=") as [hx|] eqn:Ec; cycle 1.
  { split; [by intros <-; destruct Hr|]. by intros (? & hx & ? & _ & _ & ?%Hcut & _). }
  destruct (hex_DecodeString hx) as [sig|] eqn:Eh; cycle 1.
  { split; [by intros <-; destruct Hr|]. intros (? & hx' & ? & _ & _ & [= <-]%Hcut & He & _). congruence. }
  unfold signSHA256. cbn [foldr]. rewrite app_nil_r_str. split.
  - exists ts, hx, sig. by rewrite Hcut.
  - intros (? & hx' & ? & [= <-] & _ & [= <-]%Hcut & He & Hc). rewrite Eh in He. by injection He as <-.
Qed.

Lemma verifyStandardWebhooks_signed secret body headers now r :
  (r = hmacValid ∨ r = hmacExpired) →
  verifyStandardWebhooks secret body headers now = r ↔
  ∃ key id ts sigs, b64_DecodeString (TrimPrefix secret "whsec_") = Some key ∧ key ≠ "" ∧
    headers !! "Webhook-Id" = Some id ∧ id ≠ "" ∧ headers !! "Webhook-Timestamp" = Some ts ∧ ts ≠ "" ∧
    headers !! "Webhook-Signature" = Some sigs ∧ webhook_sigs (Fields sigs) ≠ [] ∧
    checkSignedTimestamp (hmac_Sum SHA256 key (id ++ "." ++ ts ++ "." ++ body)) (webhook_sigs (Fields sigs)) ts now = r.
Proof.
  intros Hr. unfold verifyStandardWebhooks.
  destruct (b64_DecodeString _) as [key|]; [|split; [by intros <-; destruct Hr|naive_solver]].
  destruct (String.eqb_spec key "") as [|Hk]; [split; [by intros <-; destruct Hr|naive_solver]|].
  set (id := header_of headers "Webhook-Id"). set (ts := header_of headers "Webhook-Timestamp").
  set (sv := header_of headers "Webhook-Signature").
  assert (∀ (b : bool) (x : hmac_result), b = (String.eqb id "" || String.eqb ts "" || String.eqb sv "") →
    (b = false → id ≠ "" ∧ ts ≠ "" ∧ sv ≠ "")) as Hb.
  { intros b _ -> [[?%String.eqb_neq ?%String.eqb_neq]%orb_false_iff ?%String.eqb_neq]%orb_false_iff. done. }
  destruct (String.eqb id "" || String.eqb ts "" || String.eqb sv "") eqn:E.
  { split; [by intros <-; destruct Hr|].
    intros (? & id' & ts' & sv' & _ & _ & H1%header_of_Some & Hn & H2%header_of_Some & Hn' & H3%header_of_Some & Hs & _).
    fold id in H1. fold ts in H2. fold sv in H3. subst id' ts' sv'.
    apply String.eqb_neq in Hn, Hn'. rewrite Hn, Hn' in E. apply String.eqb_eq in E. rewrite E in Hs. done. }
  destruct (Hb _ hmacValid eq_refl eq_refl) as (Hid & Hts & Hsv). clear Hb.
  pose proof (header_of_nonempty headers _ id eq_refl Hid) as ->.
  pose proof (header_of_nonempty headers _ ts eq_refl Hts) as ->.
  pose proof (header_of_nonempty headers _ sv eq_refl Hsv) as ->.
  destruct (webhook_sigs (Fields sv)) as [|s l] eqn:Ew; cbn [length Nat.eqb]; cbv iota.
  { split; [by intros <-; destruct Hr|]. naive_solver. }
  unfold signSHA256. cbn [foldr]. rewrite app_nil_r_str. split.
  - intros Hc. exists key, id, ts, sv. by rewrite Ew.
  - intros (? & ? & ? & ? & [= <-] & _ & [= <-] & _ & [= <-] & _ & [= <-] & _ & Hc). by rewrite Ew in Hc.
Qed.
End schemes.

Lemma verifyHMAC_scheme `{Crypto} cfg secret body headers now :
  verifyHMAC cfg secret body headers now =
  if String.eqb secret "" then hmacError
  else if decide (hm_Scheme cfg = "") then verifyGeneric cfg secret body headers
  else if decide (hm_Scheme cfg = schemeStripe) then verifyStripe secret body headers now
  else if decide (hm_Scheme cfg = schemeSlack) then verifySlack secret body headers now
  else if decide (hm_Scheme cfg = schemeStandardWebhooks) then verifyStandardWebhooks secret body headers now
  else hmacError.
Proof.
  unfold verifyHMAC. destruct (String.eqb secret ""); [done|].
  destruct (String.eqb_spec (hm_Scheme cfg) ""); [by rewrite decide_True|]. rewrite (decide_False (P:=_ = "")) by done.
  destruct (String.eqb_spec (hm_Scheme cfg) schemeStripe); [by rewrite decide_True|].
  rewrite (decide_False (P:=_ = schemeStripe)) by done.
  destruct (String.eqb_spec (hm_Scheme cfg) schemeSlack); [by rewrite decide_True|].
  rewrite (decide_False (P:=_ = schemeSlack)) by done.
  destruct (String.eqb_spec (hm_Scheme cfg) schemeStandardWebhooks); [by rewrite decide_True|by rewrite decide_False].
Qed.

(** Two schemes for one configuration. *)
Ltac scheme_clash :=
  exfalso; match goal with
  | H : hm_Scheme ?c = _, H' : hm_Scheme ?c = _ |- _ => rewrite H in H'; first [discriminate H'|clear H']
  end.

(** ** Properties *)

Lemma verifyHMAC_authentic `{Crypto} cfg secret body headers now :
  verifyHMAC cfg secret body headers now = hmacValid ↔
  secret ≠ "" ∧ authentic cfg secret body headers now.
Proof.
  rewrite verifyHMAC_scheme. destruct (String.eqb_spec secret "") as [->|Hs]; [naive_solver|].
  transitivity (authentic cfg secret body headers now); [|naive_solver].
  repeat case_decide.
  - rewrite verifyGeneric_valid. split; [|by destruct 1; [eauto 10|scheme_clash..]].
    intros (h & v & ? & ? & ? & ?). by eapply authentic_generic.
  - rewrite verifyStripe_signed by auto. setoid_rewrite checkSignedTimestamp_valid. split.
    + intros (hd & ts & Hl & Ht & _ & (v & Hv & Hd)%list_elem_of_omap & Hf). by eapply authentic_stripe.
    + destruct 1 as [|hd ts v _ Hl Ht Hv Hd Hf| |]; try scheme_clash. exists hd, ts.
      split_and!; [done|done|by eapply fresh_nonempty| |done]. apply list_elem_of_omap. eauto.
  - rewrite verifySlack_signed by auto. setoid_rewrite checkSignedTimestamp_valid. split.
    + intros (ts & hx & sig & Hl & _ & Hl' & Hd & <-%list_elem_of_singleton & Hf). by eapply authentic_slack.
    + destruct 1 as [| |ts hx _ Hl Hl' Hd Hf|]; try scheme_clash. eexists ts, hx, _.
      split_and!; [done|by eapply fresh_nonempty|done|done|by apply list_elem_of_singleton|done].
  - rewrite verifyStandardWebhooks_signed by auto. setoid_rewrite checkSignedTimestamp_valid. split.
    + intros (key & id & ts & sigs & ? & ? & ? & ? & ? & _ & ? & _ & (b & ? & ?)%webhook_sigs_spec & Hf).
      by eapply authentic_webhook.
    + destruct 1 as [| | |key id ts sigs b _ ? ? ? ? ? ? Hb Hd Hf]; try scheme_clash.
      assert (hmac_Sum SHA256 key (id ++ "." ++ ts ++ "." ++ body) ∈ webhook_sigs (Fields sigs)) as Hin
        by (apply webhook_sigs_spec; eauto).
      exists key, id, ts, sigs. split_and!; try done; [by eapply fresh_nonempty|].
      intros Hn. rewrite Hn in Hin. by apply not_elem_of_nil in Hin.
  - split; [done|]. by destruct 1.
Qed.

(** C29: A request is accepted exactly when it is authentic: under the generic
    scheme the header of the rule decodes to the keyed hash of the body; under a
    named scheme one of the signatures of its header decodes to the hash of the
    body and the timestamp, and that timestamp is at most five minutes from the
    present, before or after.  An empty secret accepts nothing. *)
Theorem verifyHMAC_valid `{Crypto} cfg secret body headers now :
  verifyHMAC cfg secret body headers now = hmacValid ↔
  secret ≠ "" ∧ authentic cfg secret body headers now.
Proof. apply verifyHMAC_authentic. Qed.

(** [expired] is reported exactly for requests that are refused now and would
    have been accepted at another time: only their timestamp is wrong, never
    their signature. *)
Theorem verifyHMAC_expired `{Crypto} cfg secret body headers now :
  verifyHMAC cfg secret body headers now = hmacExpired ↔
  verifyHMAC cfg secret body headers now ≠ hmacValid ∧
  ∃ now', verifyHMAC cfg secret body headers now' = hmacValid.
Proof.
  setoid_rewrite verifyHMAC_scheme. destruct (String.eqb secret ""); [naive_solver|].
  assert (∀ f : Time → hmac_result, (∀ t, f t ≠ hmacExpired) → (∀ t, f t = f now) →
    f now = hmacExpired ↔ f now ≠ hmacValid ∧ ∃ t, f t = hmacValid) as Hconst.
  { intros f Hne Hc. split; [intros Hf; by destruct (Hne now)|]. intros [Hn (t & Ht)]. rewrite Hc in Ht. done. }
  repeat case_decide.
  - apply (Hconst (λ _, verifyGeneric cfg secret body headers)); [|done].
    intros _. unfold verifyGeneric. repeat case_match; done.
  - rewrite !verifyStripe_signed by auto. setoid_rewrite (verifyStripe_signed _ _ _ _ hmacValid); [|auto..]. split.
    + intros (hd & ts & Hl & Ht & Hn & Hc). apply checkSignedTimestamp_expired in Hc as [Hc (now' & Hc')].
      split; [|by exists now', hd, ts]. intros (? & ? & Hl2 & Ht2 & _ & Hc2). rewrite Hl in Hl2. by simplify_eq.
    + intros [Hn (now' & hd & ts & Hl & Ht & Hne & Hc)]. exists hd, ts. split_and!; [done..|].
      apply checkSignedTimestamp_expired. split; [|eauto]. intros Hv. apply Hn. by exists hd, ts.
  - rewrite !verifySlack_signed by auto. setoid_rewrite (verifySlack_signed _ _ _ _ hmacValid); [|auto..]. split.
    + intros (ts & hx & sig & Hl & Hne & Hl' & Hd & Hc). apply checkSignedTimestamp_expired in Hc as [Hc (now' & Hc')].
      split; [|by exists now', ts, hx, sig]. intros (? & ? & ? & Hl2 & _ & Hl2' & Hd2 & Hc2).
      rewrite Hl in Hl2. rewrite Hl' in Hl2'. by simplify_eq.
    + intros [Hn (now' & ts & hx & sig & Hl & Hne & Hl' & Hd & Hc)]. exists ts, hx, sig. split_and!; [done..|].
      apply checkSignedTimestamp_expired. split; [|eauto]. intros Hv. apply Hn. by exists ts, hx, sig.
  - rewrite !verifyStandardWebhooks_signed by auto.
    setoid_rewrite (verifyStandardWebhooks_signed _ _ _ _ hmacValid); [|auto..]. split.
    + intros (k & id & ts & sg & A1 & A2 & A3 & A4 & A5 & A6 & A7 & A8 & Hc).
      apply checkSignedTimestamp_expired in Hc as [Hc (now' & Hc')]. split; [|by exists now', k, id, ts, sg].
      intros (? & ? & ? & ? & E1 & _ & E3 & _ & E5 & _ & E7 & _ & Hc2).
      rewrite A1 in E1. rewrite A3 in E3. rewrite A5 in E5. rewrite A7 in E7. by simplify_eq.
    + intros [Hn (now' & k & id & ts & sg & A1 & A2 & A3 & A4 & A5 & A6 & A7 & A8 & Hc)].
      exists k, id, ts, sg. split_and!; [done..|]. apply checkSignedTimestamp_expired. split; [|eauto].
      intros Hv. apply Hn. by exists k, id, ts, sg.
  - naive_solver.
Qed.

(** ** Signing *)

Definition hex_digit (n : N) : ascii := ascii_of_N (if (n <? 10)%N then 48 + n else 87 + n)%N.
Fixpoint hex_EncodeToString (s : string) : string :=
  match s with
  | "" => ""
  | String a t => String (hex_digit (code a / 16)) (String (hex_digit (code a mod 16)) (hex_EncodeToString t))
  end.

Lemma hex_val_digits a :
  hex_val (hex_digit (code a / 16)) = Some (code a / 16)%N ∧
  hex_val (hex_digit (code a mod 16)) = Some (code a mod 16)%N ∧
  hex_digit (code a / 16) ≠ "," % char ∧ hex_digit (code a mod 16) ≠ ","%char.
Proof. by destruct a as [[] [] [] [] [] [] [] []]. Qed.

Lemma hex_roundtrip s : hex_DecodeString (hex_EncodeToString s) = Some s.
Proof.
  induction s as [|a t IH]; [done|]. cbn [hex_EncodeToString hex_DecodeString].
  destruct (hex_val_digits a) as (-> & -> & _). cbn [mbind option_bind]. rewrite IH. cbn.
  rewrite N.mul_comm, <- N.div_mod by done. unfold code. by rewrite ascii_N_embedding.
Qed.

Lemma hex_no_comma s : has_char "," (hex_EncodeToString s) = false.
Proof.
  induction s as [|a t IH]; [done|]. cbn [hex_EncodeToString has_char].
  destruct (hex_val_digits a) as (_ & _ & H1%Ascii.eqb_neq & H2%Ascii.eqb_neq). by rewrite H1, H2, IH.
Qed.

Section sign.
Context `{Crypto}.

(** The headers the providers document for a body, in hexadecimal. *)
Definition sign (scheme header secret ts body : string) : gmap string string :=
  if String.eqb scheme "" then
    {[ CanonicalMIMEHeaderKey header := hex_EncodeToString (hmac_Sum SHA256 secret body) ]}
  else if String.eqb scheme schemeStripe then
    {[ "Stripe-Signature" := "t=" ++ ts ++ ",v1=" ++
       hex_EncodeToString (hmac_Sum SHA256 secret (ts ++ "." ++ body)) ]}
  else
    {[ "X-Slack-Request-Timestamp" := ts;
       "X-Slack-Signature" := "v0=" ++ hex_EncodeToString (hmac_Sum SHA256 secret ("v0:" ++ ts ++ ":" ++ body)) ]}.

(** Requests signed as the generic scheme with its defaults, Stripe and Slack
    document are accepted: what the provider encodes the gateway decodes, and
    what it signs is what the gateway hashes. *)
Theorem signed_accepted cfg secret ts body now :
  hm_Scheme cfg = "" ∨ hm_Scheme cfg = schemeStripe ∨ hm_Scheme cfg = schemeSlack →
  hm_Algorithm cfg = "" → hm_Encoding cfg = "" → hm_Prefix cfg = "" →
  secret ≠ "" → has_char "," ts = false → fresh ts now → hmac_Sum SHA256 secret body ≠ "" →
  verifyHMAC cfg secret body (sign (hm_Scheme cfg) (hm_Header cfg) secret ts body) now = hmacValid.
Proof.
  intros Hscheme Ha He Hp Hs Hts Hf Hne. apply verifyHMAC_authentic. split; [done|].
  destruct Hscheme as [Hsc|[Hsc|Hsc]]; rewrite Hsc; unfold sign.
  - eapply authentic_generic; [done|by rewrite Ha|apply lookup_singleton_eq| |].
    + intros Hx. pose proof (hex_roundtrip (hmac_Sum SHA256 secret body)) as Hr. rewrite Hx in Hr. by injection Hr.
    + assert (∀ s, TrimPrefix s "" = s) as Htrim by by intros [].
      rewrite He, Hp, Htrim. unfold hmacDecode. apply (f_equal Some), hex_roundtrip.
  - set (sig := hmac_Sum SHA256 secret (ts ++ "." ++ body)).
    assert (Split "," ("t=" ++ ts ++ ",v1=" ++ hex_EncodeToString sig) = ["t=" ++ ts; "v1=" ++ hex_EncodeToString sig]) as Hsp.
    { change ("t=" ++ ts ++ ",v1=" ++ hex_EncodeToString sig)
        with (("t=" ++ ts) ++ String "," ("v1=" ++ hex_EncodeToString sig)).
      rewrite Split_app_sep by done. rewrite Split_single; [done|]. cbn. apply hex_no_comma. }
    eapply (authentic_stripe _ _ _ _ _ _ ts (hex_EncodeToString sig));
      [done|apply lookup_singleton_eq|rewrite Hsp; done|rewrite Hsp; apply list_elem_of_singleton; done| |done].
    apply hex_roundtrip.
  - cbv [schemeSlack schemeStripe]. cbn [String.eqb Ascii.eqb Bool.eqb].
    eapply (authentic_slack _ _ _ _ _ ts); [done|apply lookup_insert_eq| | |done].
    + rewrite lookup_insert_ne by done. apply lookup_singleton_eq.
    + apply hex_roundtrip.
Qed.
End sign.

(** ** Witnesses *)

(** A keyed hash that only marks what it hashes, to compute with. *)
#[local] Instance demo_crypto : Crypto :=
  {| hmac_Sum h key msg := (match h with SHA256 => "256" | SHA1 => "1" end ++ key ++ msg) |}.

Definition demo_hmac : HMACConfig := MkHMACConfig schemeStripe "" "s3cret" "" "" "".

Lemma signed_accepted_witness :
  verifyHMAC demo_hmac "s3cret" "body" (sign schemeStripe "" "s3cret" "1700000000" "body")
    (MkTime (1700000010 * Second) 0) = hmacValid.
Proof.
  apply (signed_accepted demo_hmac); try reflexivity; [by right; left|done| |done].
  exists 1700000000%Z. split; [reflexivity|]. vm_compute. split; discriminate.
Defined.
