(* ===== verification/Expand.v ===== *)
(** * Rewriting rules before validation (internal/rule/loader.go)

    The regular expressions of the loader as scanners, the folding of the old
    [debounce] block into [throttle], the expansion of environment variables in
    a rule, or its refusal for rules of the key-value store, and the strings a
    rule holds. *)

From S2P Require Import Prelude GoStrings GoFloat GoTime Value Types.
Local Open Scope string_scope.
#[local] Arguments String.append !_ _ /.

(** ** Regular expressions *)

Definition word_char (c : ascii) : bool := is_alnum c || Ascii.eqb c "_".

Fixpoint span_while (p : ascii → bool) (s : string) : string * string :=
  match s with
  | "" => ("", "")
  | String c t => if p c then let '(w, r) := span_while p t in (String c w, r) else ("", s)
  end.

(** [envVarPattern] at the start of [s]: the name between the braces. *)
Definition env_match (s : string) : option string :=
  rest ← CutPrefix s "${";
  let '(w, r) := span_while word_char rest in
  if String.eqb w "" then None else if HasPrefix r "}" then Some w else None.

(** [randomCallPattern] at the start of [s]: the call. *)
Definition random_match (s : string) : option string :=
  rest ← CutPrefix s "{@";
  if HasPrefix rest "random." then
    let '(w, r) := span_while (λ c, negb (Ascii.eqb c "{" || Ascii.eqb c "}")) rest in
    if HasPrefix r "}" then Some w else None
  else None.

Fixpoint until_close (s : string) : option string :=
  match s with
  | "" => None
  | String c t =>
      if Ascii.eqb c "}" then Some ""
      else if Ascii.eqb c "010" then None
      else String c <$> until_close t
  end.

(** [kvFieldPattern] at the start of [s]: at least one character, which may be
    a brace, up to the next closing brace on the line. *)
Definition kv_match (s : string) : option string :=
  rest ← CutPrefix s "{@kv.";
  match rest with
  | "" => None
  | String c t => if Ascii.eqb c "010" then None else String c <$> until_close t
  end.

(** [triggerTemplateSpan] at the start of [s]. *)
Definition span_match (s : string) : option string :=
  rest ← CutPrefix s "{";
  let '(w, r) := span_while (λ c, negb (Ascii.eqb c "{" || Ascii.eqb c "}")) rest in
  if HasPrefix r "}" then Some w else None.

(** The leftmost matches that do not overlap: [extra] is what a match has
    around the group it captures. *)
Fixpoint find_all (m : string → option string) (extra skip : nat) (s : string) : list string :=
  match s with
  | "" => []
  | String c t =>
      match skip with
      | S k => find_all m extra k t
      | O => match m s with
             | Some w => w :: find_all m extra (slen w + extra - 1) t
             | None => find_all m extra 0 t
             end
      end
  end.

Fixpoint replace_all (m : string → option string) (extra : nat) (f : string → string) (skip : nat) (s : string)
    : string :=
  match s with
  | "" => ""
  | String c t =>
      match skip with
      | S k => replace_all m extra f k t
      | O => match m s with
             | Some w => f w ++ replace_all m extra f (slen w + extra - 1) t
             | None => String c (replace_all m extra f 0 t)
             end
      end
  end.

Definition env_names (s : string) : list string := find_all env_match 3 0 s.
Definition random_calls (s : string) : list string := find_all random_match 3 0 s.
Definition extractKVFieldsFromTemplate (template : string) : list string :=
  map (λ w, "@kv." ++ w) (find_all kv_match 6 0 template).

(** ** Deprecated throttles *)

(** The throttle of a block and no debounce, or the place where both are set. *)
Definition fold_throttle (throttle debounce : option ThrottleConfig) (location : string)
    : result string (option ThrottleConfig) :=
  match debounce with
  | None => Ok throttle
  | Some d => match throttle with Some _ => Err location | None => Ok (Some d) end
  end.

Definition set_nt_throttle (t : NATSTrigger) (throttle debounce : option ThrottleConfig) : NATSTrigger :=
  MkNATSTrigger (nt_Subject t) throttle debounce (nt_Mode t) (nt_Reply t) (nt_Queue t).
Definition set_ht_throttle (t : HTTPTrigger) (throttle debounce : option ThrottleConfig) : HTTPTrigger :=
  MkHTTPTrigger (ht_Path t) (ht_Method t) throttle debounce (ht_HMAC t).
Definition set_na_throttle (a : NATSAction) (throttle debounce : option ThrottleConfig) : NATSAction :=
  MkNATSAction (na_Subject a) (na_Mode a) (na_Payload a) (na_Passthrough a) (na_Merge a) (na_Headers a)
    (na_RawPayload a) (na_Request a) (na_Timeout a) (na_ForEach a) (na_Filter a) throttle debounce (na_forEachPath a).
Definition set_ha_throttle (a : HTTPAction) (throttle debounce : option ThrottleConfig) : HTTPAction :=
  MkHTTPAction (ha_URL a) (ha_Method a) (ha_Payload a) (ha_Passthrough a) (ha_Merge a) (ha_Headers a)
    (ha_RawPayload a) (ha_Retry a) (ha_PublishResponse a) (ha_ForEach a) (ha_Filter a) throttle debounce
    (ha_forEachPath a).

(** A block that may be absent. *)
Definition opt_map {E A B} (f : A → result E B) (o : option A) : result E (option B) :=
  match o with None => Ok None | Some a => Some <$> f a end.

Definition normalizeThrottle (rule : Rule) : result string Rule :=
  let tr := r_Trigger rule in let ac := r_Action rule in
  nt ← opt_map (λ t, th ← fold_throttle (nt_Throttle t) (nt_Debounce t) "trigger.nats";
                     Ok (set_nt_throttle t th None)) (tr_NATS tr);
  ht ← opt_map (λ t, th ← fold_throttle (ht_Throttle t) (ht_Debounce t) "trigger.http";
                     Ok (set_ht_throttle t th None)) (tr_HTTP tr);
  na ← opt_map (λ a, th ← fold_throttle (na_Throttle a) (na_Debounce a) "action.nats";
                     Ok (set_na_throttle a th None)) (a_NATS ac);
  ha ← opt_map (λ a, th ← fold_throttle (ha_Throttle a) (ha_Debounce a) "action.http";
                     Ok (set_ha_throttle a th None)) (a_HTTP ac);
  Ok (MkRule (r_Name rule) (MkTrigger nt ht (tr_Schedule tr)) (r_Conditions rule)
    (MkAction na ha (a_Respond ac) (a_Defer ac)) (r_index rule)).

(** ** Environment variables *)

(** A computation that records the references it meets: the placeholder and
    where it is. *)
Definition env_ref : Type := string * string.
Definition W (A : Type) : Type := A * list env_ref.
#[export] Instance W_ret : MRet W := λ A a, (a, []).
#[export] Instance W_bind : MBind W := λ A B f m,
  let '(a, refs) := m in let '(b, refs') := f a in (b, (refs ++ refs')%list).

Definition mapW {A B} (f : A → W B) : list A → W (list B) :=
  fix go l := match l with [] => mret [] | a :: l' => b ← f a; bs ← go l'; mret (b :: bs) end.
Definition imapW {A B} (f : nat → A → W B) : nat → list A → W (list B) :=
  fix go i l := match l with [] => mret [] | a :: l' => b ← f i a; bs ← go (S i) l'; mret (b :: bs) end.
Definition optW {A B} (f : A → W B) (o : option A) : W (option B) :=
  match o with None => mret None | Some a => b ← f a; mret (Some b) end.

(** The values of a header map; the references in the order of [map_to_list]. *)
Definition headersW (f : string → string → W string) (headers : gmap string string) : W (gmap string string) :=
  (map_imap (λ k v, Some (f k v).1) headers, concat (map (λ kv, (f kv.1 kv.2).2) (map_to_list headers))).

Section expand.
(** [os.Getenv], and whether the loader may use it. *)
Variables (Getenv : string → string) (allowEnv : bool).

Definition expandEnvVarsInString (location input : string) : W string :=
  if String.eqb input "" || negb (Contains input "${") then mret input
  else if negb allowEnv then
    (input, map (λ name, ("${" ++ name ++ "}", location)) (env_names input))
  else mret (replace_all env_match 3 Getenv 0 input).

Definition expandThrottleEnvVars (location : string) (cfg : ThrottleConfig) : W ThrottleConfig :=
  window ← expandEnvVarsInString (location ++ ".window") (th_Window cfg);
  key ← expandEnvVarsInString (location ++ ".key") (th_Key cfg);
  mret (MkThrottle window key (th_Mode cfg)).

Definition expandTriggerEnvVars (tr : Trigger) : W Trigger :=
  nt ← optW (λ t,
    th ← optW (expandThrottleEnvVars "trigger.nats.throttle") (nt_Throttle t);
    mret (set_nt_throttle t th (nt_Debounce t))) (tr_NATS tr);
  ht ← optW (λ t,
    th ← optW (expandThrottleEnvVars "trigger.http.throttle") (ht_Throttle t);
    hm ← optW (λ h,
      secret ← expandEnvVarsInString "trigger.http.hmac.secret" (hm_Secret h);
      mret (MkHMACConfig (hm_Scheme h) (hm_Header h) secret (hm_Algorithm h) (hm_Encoding h) (hm_Prefix h)))
      (ht_HMAC t);
    mret (MkHTTPTrigger (ht_Path t) (ht_Method t) th (ht_Debounce t) hm)) (tr_HTTP tr);
  st ← optW (λ s,
    cron ← expandEnvVarsInString "trigger.schedule.cron" (st_Cron s);
    tz ← expandEnvVarsInString "trigger.schedule.timezone" (st_Timezone s);
    mret (MkScheduleTrigger cron tz)) (tr_Schedule tr);
  mret (MkTrigger nt ht st).

Definition expandEnvVarsInValue (location : string) (v : value) : W value :=
  match v with
  | VStr s => s ← expandEnvVarsInString location s; mret (VStr s)
  | VArr l =>
      l ← imapW (λ j item,
        match item with
        | VStr s => s ← expandEnvVarsInString (location ++ "[" ++ Itoa (Z.of_nat j) ++ "]") s; mret (VStr s)
        | _ => mret item
        end) 0 l;
      mret (VArr l)
  | _ => mret v
  end.

Fixpoint expandConditionsEnvVars (conds : Conditions) : W Conditions :=
  let '(MkConditions op items groups) := conds in
  items ← mapW expandCondition items;
  groups ← mapW expandConditionsEnvVars groups;
  mret (MkConditions op items groups)
with expandCondition (c : Condition) : W Condition :=
  let '(MkCondition field op val nested fv fp vv vp) := c in
  field ← (if Contains field "${" then expandEnvVarsInString "condition.field" field else mret field);
  val ← expandEnvVarsInValue "condition.value" val;
  nested ← match nested with
           | Some cs => cs ← expandConditionsEnvVars cs; mret (Some cs)
           | None => mret None
           end;
  mret (MkCondition field op val nested fv fp vv vp).

Definition expandActionEnvVars (ac : Action) : W Action :=
  na ← optW (λ a,
    subject ← expandEnvVarsInString "action.nats.subject" (na_Subject a);
    payload ← expandEnvVarsInString "action.nats.payload" (na_Payload a);
    forEach ← expandEnvVarsInString "action.nats.forEach" (na_ForEach a);
    headers ← headersW (λ k v, expandEnvVarsInString ("action.nats.headers[" ++ k ++ "]") v) (na_Headers a);
    filter ← optW expandConditionsEnvVars (na_Filter a);
    th ← optW (expandThrottleEnvVars "action.nats.throttle") (na_Throttle a);
    mret (MkNATSAction subject (na_Mode a) payload (na_Passthrough a) (na_Merge a) headers (na_RawPayload a)
      (na_Request a) (na_Timeout a) forEach filter th (na_Debounce a) (na_forEachPath a))) (a_NATS ac);
  ha ← optW (λ a,
    url ← expandEnvVarsInString "action.http.url" (ha_URL a);
    method ← expandEnvVarsInString "action.http.method" (ha_Method a);
    payload ← expandEnvVarsInString "action.http.payload" (ha_Payload a);
    forEach ← expandEnvVarsInString "action.http.forEach" (ha_ForEach a);
    headers ← headersW (λ k v, expandEnvVarsInString ("action.http.headers[" ++ k ++ "]") v) (ha_Headers a);
    filter ← optW expandConditionsEnvVars (ha_Filter a);
    th ← optW (expandThrottleEnvVars "action.http.throttle") (ha_Throttle a);
    mret (MkHTTPAction url method payload (ha_Passthrough a) (ha_Merge a) headers (ha_RawPayload a) (ha_Retry a)
      (ha_PublishResponse a) forEach filter th (ha_Debounce a) (ha_forEachPath a))) (a_HTTP ac);
  mret (MkAction na ha (a_Respond ac) (a_Defer ac)).

(** The rule expanded, or the references it may not make. *)
Definition expandEnvironmentVariables (rule : Rule) : result (list env_ref) Rule :=
  let '(rule', refs) :=
    (tr ← expandTriggerEnvVars (r_Trigger rule);
     conds ← optW expandConditionsEnvVars (r_Conditions rule);
     ac ← expandActionEnvVars (r_Action rule);
     mret (M:=W) (MkRule (r_Name rule) tr conds ac (r_index rule))) in
  if (0 <? length refs)%nat then Err refs else Ok rule'.
End expand.

(** ** The strings of a rule *)

Fixpoint value_strings (v : value) : list string :=
  match v with
  | VStr s | VNumber s => [s]
  | VArr l => concat (map value_strings l)
  | VObj m => map_fold (λ k v acc, (k :: value_strings v ++ acc)%list) [] m
  | VAnyMap l => concat (map (λ kv, let '(k, v) := kv in (value_strings k ++ value_strings v)%list) l)
  | _ => []
  end.

Definition throttle_strings (t : option ThrottleConfig) : list string :=
  match t with None => [] | Some c => [th_Window c; th_Key c; th_Mode c] end.

Definition trigger_strings (tr : Trigger) : list string :=
  (match tr_NATS tr with
   | None => []
   | Some t => nt_Subject t :: throttle_strings (nt_Throttle t) ++ throttle_strings (nt_Debounce t)
               ++ [nt_Mode t; nt_Queue t]
   end ++
   match tr_HTTP tr with
   | None => []
   | Some t => ht_Path t :: ht_Method t :: throttle_strings (ht_Throttle t) ++ throttle_strings (ht_Debounce t) ++
       match ht_HMAC t with
       | None => []
       | Some h => [hm_Scheme h; hm_Header h; hm_Secret h; hm_Algorithm h; hm_Encoding h; hm_Prefix h]
       end
   end ++
   match tr_Schedule tr with None => [] | Some s => [st_Cron s; st_Timezone s] end)%list.

Fixpoint conditions_strings (cs : Conditions) : list string :=
  let '(MkConditions op items groups) := cs in
  (op :: concat (map condition_strings items) ++ concat (map conditions_strings groups))%list
with condition_strings (c : Condition) : list string :=
  let '(MkCondition field op val nested _ _ _ _) := c in
  (field :: op :: value_strings val ++ match nested with Some cs => conditions_strings cs | None => [] end)%list.

Definition opt_conditions_strings (cs : option Conditions) : list string :=
  match cs with Some cs => conditions_strings cs | None => [] end.
Definition headers_strings (headers : gmap string string) : list string :=
  concat (map (λ kv, [kv.1; kv.2]) (map_to_list headers)).

Definition action_strings (ac : Action) : list string :=
  (match a_NATS ac with
   | None => []
   | Some a => [na_Subject a; na_Mode a; na_Payload a] ++ headers_strings (na_Headers a) ++
       [na_Timeout a; na_ForEach a] ++ opt_conditions_strings (na_Filter a) ++
       throttle_strings (na_Throttle a) ++ throttle_strings (na_Debounce a)
   end ++
   match a_HTTP ac with
   | None => []
   | Some a => [ha_URL a; ha_Method a; ha_Payload a] ++ headers_strings (ha_Headers a) ++
       match ha_Retry a with None => [] | Some r => [rc_InitialDelay r; rc_MaxDelay r] end ++
       match ha_PublishResponse a with None => [] | Some p => [pr_Subject p] end ++
       [ha_ForEach a] ++ opt_conditions_strings (ha_Filter a) ++
       throttle_strings (ha_Throttle a) ++ throttle_strings (ha_Debounce a)
   end ++
   match a_Respond ac with
   | None => []
   | Some a => ra_Payload a :: headers_strings (ra_Headers a)
   end ++
   match a_Defer ac with None => [] | Some d => [ds_Key d] end)%list.

(** [walkStrings] on a rule: every string of its exported fields. *)
Definition walkStrings (rule : Rule) : list string :=
  (r_Name rule :: trigger_strings (r_Trigger rule) ++ opt_conditions_strings (r_Conditions rule)
   ++ action_strings (r_Action rule))%list.

(** ** Specification *)

(** [expandEnvironmentVariables] rewrites these strings of a rule, by one
    function, and no other. *)
Section rewritten.
Variable g : string → string.

Definition throttle_map (c : ThrottleConfig) : ThrottleConfig := MkThrottle (g (th_Window c)) (g (th_Key c)) (th_Mode c).
Definition value_map (v : value) : value :=
  match v with
  | VStr s => VStr (g s)
  | VArr l => VArr (map (λ x, match x with VStr s => VStr (g s) | _ => x end) l)
  | _ => v
  end.
Fixpoint conditions_map (cs : Conditions) : Conditions :=
  let '(MkConditions op items groups) := cs in MkConditions op (map condition_map items) (map conditions_map groups)
with condition_map (c : Condition) : Condition :=
  let '(MkCondition field op val nested fv fp vv vp) := c in
  MkCondition (g field) op (value_map val)
    (match nested with Some cs => Some (conditions_map cs) | None => None end) fv fp vv vp.
Definition hmac_map (h : HMACConfig) : HMACConfig :=
  MkHMACConfig (hm_Scheme h) (hm_Header h) (g (hm_Secret h)) (hm_Algorithm h) (hm_Encoding h) (hm_Prefix h).
Definition trigger_map (tr : Trigger) : Trigger :=
  MkTrigger
    ((λ t, set_nt_throttle t (throttle_map <$> nt_Throttle t) (nt_Debounce t)) <$> tr_NATS tr)
    ((λ t, MkHTTPTrigger (ht_Path t) (ht_Method t) (throttle_map <$> ht_Throttle t) (ht_Debounce t)
             (hmac_map <$> ht_HMAC t)) <$> tr_HTTP tr)
    ((λ s, MkScheduleTrigger (g (st_Cron s)) (g (st_Timezone s))) <$> tr_Schedule tr).
Definition action_map (ac : Action) : Action :=
  MkAction
    ((λ a, MkNATSAction (g (na_Subject a)) (na_Mode a) (g (na_Payload a)) (na_Passthrough a) (na_Merge a)
       (g <$> na_Headers a) (na_RawPayload a) (na_Request a) (na_Timeout a) (g (na_ForEach a))
       (conditions_map <$> na_Filter a) (throttle_map <$> na_Throttle a) (na_Debounce a) (na_forEachPath a)) <$> a_NATS ac)
    ((λ a, MkHTTPAction (g (ha_URL a)) (g (ha_Method a)) (g (ha_Payload a)) (ha_Passthrough a) (ha_Merge a)
       (g <$> ha_Headers a) (ha_RawPayload a) (ha_Retry a) (ha_PublishResponse a) (g (ha_ForEach a))
       (conditions_map <$> ha_Filter a) (throttle_map <$> ha_Throttle a) (ha_Debounce a) (ha_forEachPath a)) <$> a_HTTP ac)
    (a_Respond ac) (a_Defer ac).
Definition rule_map (r : Rule) : Rule :=
  MkRule (r_Name r) (trigger_map (r_Trigger r)) (conditions_map <$> r_Conditions r) (action_map (r_Action r)) (r_index r).
End rewritten.

(** A computation gives [a], and records nothing exactly when [ok]. *)
Definition returnsW {A} (m : W A) (a : A) (ok : Prop) : Prop := m.1 = a ∧ (m.2 = [] ↔ ok).

(** ** Lemmas *)

Lemma returnsW_ret {A} (a : A) : returnsW (mret a) a True.
Proof. done. Qed.

Lemma returnsW_bind {A B} (m : W A) (f : A → W B) a b P Q :
  returnsW m a P → returnsW (f a) b Q → returnsW (m ≫= f) b (P ∧ Q).
Proof.
  unfold returnsW, mbind, W_bind. destruct m as [a' refs]. intros [<- <-]. cbn. destruct (f a') as [b' refs'].
  intros [<- <-]. cbn. split; [done|]. apply app_nil.
Qed.

Lemma returnsW_iff {A} (m : W A) a P Q : returnsW m a P → (P ↔ Q) → returnsW m a Q.
Proof. intros [? ?] HPQ. split; [done|]. by rewrite <- HPQ. Qed.

Lemma mapW_returns {A B} (f : A → W B) (g : A → B) (P : A → Prop) l :
  Forall (λ a, returnsW (f a) (g a) (P a)) l → returnsW (mapW f l) (map g l) (Forall P l).
Proof.
  induction 1 as [|a l Ha Hl IH]; cbn [mapW map].
  - eapply returnsW_iff; [apply returnsW_ret|]. by rewrite Forall_nil.
  - eapply returnsW_iff; [eapply returnsW_bind; [done|]; eapply returnsW_bind; [apply IH|apply returnsW_ret]|].
    rewrite Forall_cons. tauto.
Qed.

Lemma imapW_returns {A B} (f : nat → A → W B) (g : A → B) (P : A → Prop) i l :
  (∀ i a, returnsW (f i a) (g a) (P a)) → returnsW (imapW f i l) (map g l) (Forall P l).
Proof.
  intros Hf. revert i. induction l as [|a l IH]; intros i; cbn [imapW map].
  - eapply returnsW_iff; [apply returnsW_ret|]. by rewrite Forall_nil.
  - eapply returnsW_iff; [eapply returnsW_bind; [apply Hf|]; eapply returnsW_bind; [apply IH|apply returnsW_ret]|].
    rewrite Forall_cons. tauto.
Qed.

(** The claim about what may be absent. *)
Definition from_opt {A} (P : A → Prop) (o : option A) : Prop := match o with Some a => P a | None => True end.

Lemma optW_returns {A B} (f : A → W B) (g : A → B) (P : A → Prop) o :
  (∀ a, returnsW (f a) (g a) (P a)) → returnsW (optW f o) (g <$> o) (from_opt P o).
Proof.
  intros Hf. destruct o as [a|]; cbn; [|apply returnsW_ret].
  eapply returnsW_iff; [eapply returnsW_bind; [apply Hf|apply returnsW_ret]|]. tauto.
Qed.

Lemma headersW_returns (f : string → string → W string) (g : string → string) (P : string → Prop) m :
  (∀ k v, returnsW (f k v) (g v) (P v)) → returnsW (headersW f m) (g <$> m) (map_Forall (λ _, P) m).
Proof.
  intros Hf. split; cbn.
  - apply map_eq. intros k. rewrite map_lookup_imap, lookup_fmap. destruct (m !! k) as [v|]; [|done]. cbn.
    f_equal. apply Hf.
  - split.
    + intros Hn k v Hk. apply (Hf k v).
      assert ((f k v).2 ∈ map (λ kv, (f kv.1 kv.2).2) (map_to_list m)) as Hin.
      { apply list_elem_of_fmap. exists (k, v). split; [done|]. by apply elem_of_map_to_list. }
      destruct (f k v).2 as [|r l]; [done|]. apply list_elem_of_split in Hin as (l1 & l2 & E).
      rewrite E, concat_app in Hn. apply app_nil in Hn as [_ Hn]. done.
    + intros Hall. assert (∀ kv, kv ∈ map_to_list m → (f kv.1 kv.2).2 = []) as Hl.
      { intros [k v] Hkv%elem_of_map_to_list. apply (Hf k v). by apply (Hall k). }
      induction (map_to_list m) as [|kv l IH]; [done|]. cbn. rewrite Hl by set_solver. apply IH. set_solver.
Qed.

(** The strings of a rule in which variables are expanded. *)
Definition throttle_env (c : ThrottleConfig) : list string := [th_Window c; th_Key c].
Definition value_env (v : value) : list string :=
  match v with
  | VStr s => [s]
  | VArr l => concat (map (λ x, match x with VStr s => [s] | _ => [] end) l)
  | _ => []
  end.
Fixpoint conditions_env (cs : Conditions) : list string :=
  let '(MkConditions op items groups) := cs in
  (concat (map condition_env items) ++ concat (map conditions_env groups))%list
with condition_env (c : Condition) : list string :=
  let '(MkCondition field op val nested _ _ _ _) := c in
  (field :: value_env val ++ match nested with Some cs => conditions_env cs | None => [] end)%list.

Definition env_of {A} (f : A → list string) (o : option A) : list string := match o with Some a => f a | None => [] end.
Definition headers_env (headers : gmap string string) : list string := map snd (map_to_list headers).

Definition trigger_env (tr : Trigger) : list string :=
  (env_of (λ t, env_of throttle_env (nt_Throttle t)) (tr_NATS tr) ++
   env_of (λ t, env_of throttle_env (ht_Throttle t) ++ env_of (λ h, [hm_Secret h]) (ht_HMAC t)) (tr_HTTP tr) ++
   env_of (λ s, [st_Cron s; st_Timezone s]) (tr_Schedule tr))%list.
Definition action_env (ac : Action) : list string :=
  (env_of (λ a, [na_Subject a; na_Payload a; na_ForEach a] ++ headers_env (na_Headers a) ++
     env_of conditions_env (na_Filter a) ++ env_of throttle_env (na_Throttle a)) (a_NATS ac) ++
   env_of (λ a, [ha_URL a; ha_Method a; ha_Payload a; ha_ForEach a] ++ headers_env (ha_Headers a) ++
     env_of conditions_env (ha_Filter a) ++ env_of throttle_env (ha_Throttle a)) (a_HTTP ac))%list.
Definition rule_env (r : Rule) : list string :=
  (trigger_env (r_Trigger r) ++ env_of conditions_env (r_Conditions r) ++ action_env (r_Action r))%list.

Section expansion.
Variables (Getenv : string → string) (allowEnv : bool) (g : string → string) (P : string → Prop).
Hypothesis Hstring : ∀ loc s, returnsW (expandEnvVarsInString Getenv allowEnv loc s) (g s) (P s).
Hypothesis Hplain : ∀ s, Contains s "${" = false → g s = s ∧ P s.

Ltac wstep := first
  [ apply returnsW_ret
  | apply Hstring
  | eapply returnsW_bind
  | apply optW_returns; intros ?
  | apply headersW_returns; intros ? ?; apply Hstring ].
Ltac wsteps := eapply returnsW_iff; [repeat wstep|].

Lemma from_opt_env {A} (f : A → list string) (o : option A) :
  from_opt (λ a, Forall P (f a)) o ↔ Forall P (env_of f o).
Proof. destruct o; cbn; [done|]. by rewrite Forall_nil. Qed.

Lemma headers_env_Forall m : map_Forall (λ _, P) m ↔ Forall P (headers_env m).
Proof.
  unfold headers_env. rewrite Forall_map, map_Forall_to_list. apply Forall_iff. by intros [].
Qed.

Lemma expandThrottle_returns loc c :
  returnsW (expandThrottleEnvVars Getenv allowEnv loc c) (throttle_map g c) (Forall P (throttle_env c)).
Proof. wsteps. unfold throttle_env. rewrite !Forall_cons, Forall_nil. tauto. Qed.

Lemma expandValue_returns loc v :
  returnsW (expandEnvVarsInValue Getenv allowEnv loc v) (value_map g v) (Forall P (value_env v)).
Proof.
  destruct v; cbn [expandEnvVarsInValue value_map value_env]; try (by split).
  - wsteps. rewrite Forall_singleton. tauto.
  - eapply returnsW_iff.
    + eapply returnsW_bind; [|apply returnsW_ret].
      apply (imapW_returns _ _ (λ x, Forall P match x with VStr s => [s] | _ => [] end)). intros i x.
      destruct x; try (by split). wsteps. rewrite Forall_singleton. tauto.
    + rewrite Forall_concat, Forall_map. tauto.
Qed.

Lemma expandConditions_both :
  (∀ cs, returnsW (expandConditionsEnvVars Getenv allowEnv cs) (conditions_map g cs) (Forall P (conditions_env cs))) ∧
  (∀ c, returnsW (expandCondition Getenv allowEnv c) (condition_map g c) (Forall P (condition_env c))).
Proof.
  assert (∀ op items groups,
    Forall (λ c, returnsW (expandCondition Getenv allowEnv c) (condition_map g c) (Forall P (condition_env c))) items →
    Forall (λ cs, returnsW (expandConditionsEnvVars Getenv allowEnv cs) (conditions_map g cs) (Forall P (conditions_env cs))) groups →
    returnsW (expandConditionsEnvVars Getenv allowEnv (MkConditions op items groups))
      (conditions_map g (MkConditions op items groups)) (Forall P (conditions_env (MkConditions op items groups)))) as HC.
  { intros op items groups Hi Hg. cbn [expandConditionsEnvVars conditions_map conditions_env]. eapply returnsW_iff.
    - eapply returnsW_bind; [apply (mapW_returns _ (condition_map g) (λ c, Forall P (condition_env c)) _ Hi)|].
      eapply returnsW_bind; [apply (mapW_returns _ (conditions_map g) (λ cs, Forall P (conditions_env cs)) _ Hg)|].
      apply returnsW_ret.
    - rewrite Forall_app, !Forall_concat, !Forall_map. tauto. }
  assert (∀ field op val nested fv fp vv vp,
    (∀ cs, nested = Some cs →
      returnsW (expandConditionsEnvVars Getenv allowEnv cs) (conditions_map g cs) (Forall P (conditions_env cs))) →
    returnsW (expandCondition Getenv allowEnv (MkCondition field op val nested fv fp vv vp))
      (condition_map g (MkCondition field op val nested fv fp vv vp))
      (Forall P (condition_env (MkCondition field op val nested fv fp vv vp)))) as HI.
  { intros field op val nested fv fp vv vp Hn. cbn [expandCondition condition_map condition_env]. eapply returnsW_iff.
    - eapply returnsW_bind; [|eapply returnsW_bind; [apply expandValue_returns|]].
      + destruct (Contains field "${") eqn:E; [apply Hstring|]. destruct (Hplain field E) as [Hg HP]. by split.
      + eapply (returnsW_bind _ _ match nested with Some cs => Some (conditions_map g cs) | None => None end _
          (from_opt (λ cs, Forall P (conditions_env cs)) nested)); [|apply returnsW_ret].
        destruct nested as [cs|]; cbn; [|apply returnsW_ret].
        eapply returnsW_iff; [eapply returnsW_bind; [by apply Hn|apply returnsW_ret]|]. tauto.
    - rewrite Forall_cons, Forall_app. destruct nested; cbn; rewrite ?Forall_nil; tauto. }
  split; [apply (conditions_mut _ _ HC HI)|apply (condition_mut _ _ HC HI)].
Qed.

Ltac wrule := repeat lazymatch goal with
  | |- returnsW (expandThrottleEnvVars _ _ _ _) _ _ => apply expandThrottle_returns
  | |- returnsW (expandConditionsEnvVars _ _ _) _ _ => apply (proj1 expandConditions_both)
  | |- returnsW (expandEnvVarsInString _ _ _ _) _ _ => apply Hstring
  | |- returnsW (headersW _ _) _ _ => apply headersW_returns; intros ? ?
  | |- returnsW (optW _ _) _ _ => apply optW_returns; intros ?
  | |- returnsW (mbind _ _) _ _ => eapply returnsW_bind
  | |- returnsW (mret _) _ _ => apply returnsW_ret
  end.

Lemma expandTrigger_returns tr :
  returnsW (expandTriggerEnvVars Getenv allowEnv tr) (trigger_map g tr) (Forall P (trigger_env tr)).
Proof.
  eapply returnsW_iff; [unfold expandTriggerEnvVars; wrule|]. unfold trigger_env, env_of, from_opt, throttle_env.
  rewrite !Forall_app. destruct (tr_NATS tr) as [nt|]; [destruct (nt_Throttle nt)|];
    (destruct (tr_HTTP tr) as [ht|]; [destruct (ht_Throttle ht), (ht_HMAC ht)|]);
    destruct (tr_Schedule tr); rewrite ?Forall_app, ?Forall_cons, ?Forall_nil; tauto.
Qed.

Lemma expandAction_returns ac :
  returnsW (expandActionEnvVars Getenv allowEnv ac) (action_map g ac) (Forall P (action_env ac)).
Proof.
  eapply returnsW_iff; [unfold expandActionEnvVars; wrule|]. unfold action_env, env_of, from_opt.
  rewrite !Forall_app. destruct (a_NATS ac) as [na|], (a_HTTP ac) as [ha|];
    rewrite ?Forall_app, ?Forall_cons, ?Forall_nil, <- ?headers_env_Forall;
    repeat case_match; rewrite ?Forall_nil; tauto.
Qed.

Lemma expandRule_returns rule :
  returnsW
    (tr ← expandTriggerEnvVars Getenv allowEnv (r_Trigger rule);
     conds ← optW (expandConditionsEnvVars Getenv allowEnv) (r_Conditions rule);
     ac ← expandActionEnvVars Getenv allowEnv (r_Action rule);
     mret (M:=W) (MkRule (r_Name rule) tr conds ac (r_index rule)))
    (rule_map g rule) (Forall P (rule_env rule)).
Proof.
  eapply returnsW_iff.
  - eapply returnsW_bind; [apply expandTrigger_returns|]. eapply returnsW_bind.
    { apply (optW_returns _ (conditions_map g) (λ cs, Forall P (conditions_env cs))), expandConditions_both. }
    eapply returnsW_bind; [apply expandAction_returns|]. apply returnsW_ret.
  - unfold rule_env. rewrite !Forall_app, <- (from_opt_env conditions_env). tauto.
Qed.

Lemma expandEnvironmentVariables_spec rule :
  match expandEnvironmentVariables Getenv allowEnv rule with
  | Ok rule' => Forall P (rule_env rule) ∧ rule' = rule_map g rule
  | Err _ => ¬ Forall P (rule_env rule)
  end.
Proof.
  unfold expandEnvironmentVariables. destruct (expandRule_returns rule) as [Hr Hrefs].
  destruct (_ ≫= _) as [rule' refs]. cbn in *. destruct refs as [|r l]; cbn.
  - split; [by apply Hrefs|done].
  - intros Hall. by apply Hrefs in Hall.
Qed.
End expansion.

(** ** Expansion of one string *)

Definition expand_string (Getenv : string → string) (s : string) : string := replace_all env_match 3 Getenv 0 s.

(** A string as literal text and placeholders. *)
Inductive segment := Lit (s : string) | Var (name : string).
Definition print_segment (x : segment) : string := match x with Lit s => s | Var name => "${" ++ name ++ "}" end.
Definition segment_ok (x : segment) : bool :=
  match x with
  | Lit s => negb (has_char "$" s)
  | Var name => negb (String.eqb name "") && sforall word_char name
  end.
Definition print_segments (l : list segment) : string := foldr (λ x acc, print_segment x ++ acc) "" l.
Definition expanded (Getenv : string → string) (l : list segment) : string :=
  foldr (λ x acc, match x with Lit s => s | Var name => Getenv name end ++ acc) "" l.
Definition variables (l : list segment) : list string := omap (λ x, match x with Var n => Some n | Lit _ => None end) l.

Lemma replace_all_skip m e f w s : replace_all m e f (slen w) (w ++ s) = replace_all m e f 0 s.
Proof. induction w as [|c w IH]; [by destruct s|]. done. Qed.
Lemma find_all_skip m e w s : find_all m e (slen w) (w ++ s) = find_all m e 0 s.
Proof. induction w as [|c w IH]; [by destruct s|]. done. Qed.

Lemma env_match_dollar c t : c ≠ "$"%char → env_match (String c t) = None.
Proof.
  intros Hc. unfold env_match, CutPrefix, HasPrefix. cbn [String.prefix].
  destruct (ascii_dec "$" c) as [E|]; [by destruct Hc|done].
Qed.

Lemma span_while_app p w c t :
  sforall p w = true → p c = false → span_while p (w ++ String c t) = (w, String c t).
Proof.
  intros Hw Hc. induction w as [|a w IH]; cbn in *; [by rewrite Hc|].
  apply andb_true_iff in Hw as [-> Hw]. by rewrite IH.
Qed.

Lemma env_match_var name rest :
  name ≠ "" → sforall word_char name = true → env_match ("${" ++ name ++ "}" ++ rest) = Some name.
Proof.
  intros Hne Hw. unfold env_match. assert (CutPrefix ("${" ++ name ++ "}" ++ rest) "${" = Some (name ++ "}" ++ rest)) as ->.
  { unfold CutPrefix. by rewrite (HasPrefix_app "${"), (sdrop_app "${"). }
  cbn [mbind option_bind]. change ("}" ++ rest) with (String "}" rest). rewrite span_while_app by done. apply String.eqb_neq in Hne.
  pose proof (HasPrefix_app "}" rest) as Hp. cbn [String.append] in Hp. by rewrite Hne, Hp.
Qed.

Lemma env_lit s rest f :
  has_char "$" s = false →
  replace_all env_match 3 f 0 (s ++ rest) = s ++ replace_all env_match 3 f 0 rest ∧
  find_all env_match 3 0 (s ++ rest) = find_all env_match 3 0 rest.
Proof.
  induction s as [|c s IH]; [done|]. cbn [has_char]. intros [Hc Hs]%orb_false_iff.
  apply Ascii.eqb_neq in Hc. destruct (IH Hs) as [IH1 IH2].
  change (String c s ++ rest) with (String c (s ++ rest)). cbn [replace_all find_all].
  rewrite env_match_dollar by done. rewrite IH1, IH2. done.
Qed.

Lemma env_var name rest f :
  name ≠ "" → sforall word_char name = true →
  replace_all env_match 3 f 0 ("${" ++ name ++ "}" ++ rest) = f name ++ replace_all env_match 3 f 0 rest ∧
  find_all env_match 3 0 ("${" ++ name ++ "}" ++ rest) = name :: find_all env_match 3 0 rest.
Proof.
  intros Hne Hw. pose proof (env_match_var name rest Hne Hw) as Hm.
  assert ("${" ++ name ++ "}" ++ rest = String "$" (("{" ++ name ++ "}") ++ rest)) as E by (cbn; by rewrite app_assoc_str).
  rewrite E in *. cbn [replace_all find_all]. rewrite Hm.
  assert ((slen name + 3 - 1)%nat = slen ("{" ++ name ++ "}")) as -> by (rewrite !slen_app; cbn; lia).
  by rewrite replace_all_skip, find_all_skip.
Qed.

Lemma print_segments_env Getenv l :
  Forall (λ x, segment_ok x = true) l →
  expand_string Getenv (print_segments l) = expanded Getenv l ∧ env_names (print_segments l) = variables l.
Proof.
  unfold expand_string, env_names. induction 1 as [|[s|name] l Hx Hl [IH1 IH2]]; [done|..]; cbn in Hx.
  - apply negb_true_iff in Hx. destruct (env_lit s (print_segments l) Getenv Hx) as [H1 H2].
    split; [etrans; [apply H1|]; cbn; by rewrite IH1|etrans; [apply H2|]; done].
  - apply andb_true_iff in Hx as [Hne%negb_true_iff%String.eqb_neq Hw].
    destruct (env_var name (print_segments l) Getenv Hne Hw) as [H1 H2].
    assert (print_segments (Var name :: l) = "${" ++ name ++ "}" ++ print_segments l) as ->.
    { cbn. by rewrite app_assoc_str. }
    rewrite H1, H2. cbn. by rewrite IH1, IH2.
Qed.

Lemma no_env s f : Contains s "${" = false → replace_all env_match 3 f 0 s = s ∧ env_names s = [].
Proof.
  unfold env_names. induction s as [|c s IH]; [done|]. intros Hc.
  assert (HasPrefix (String c s) "${" = false ∧ Contains s "${" = false) as [Hp Hs] by by apply orb_false_iff in Hc.
  destruct (IH Hs) as [IH1 IH2]. cbn [replace_all find_all].
  assert (env_match (String c s) = None) as -> by (unfold env_match, CutPrefix; by rewrite Hp).
  by rewrite IH1, IH2.
Qed.

Lemma expandEnvVarsInString_allowed Getenv loc s :
  returnsW (expandEnvVarsInString Getenv true loc s) (expand_string Getenv s) True.
Proof.
  unfold expandEnvVarsInString, expand_string. destruct (Contains s "${") eqn:E.
  - destruct (String.eqb_spec s "") as [->|]; done.
  - rewrite orb_true_r. destruct (no_env s Getenv E) as [-> _]. done.
Qed.

Lemma expandEnvVarsInString_refused Getenv loc s :
  returnsW (expandEnvVarsInString Getenv false loc s) s (env_names s = []).
Proof.
  unfold expandEnvVarsInString. destruct (Contains s "${") eqn:E.
  - destruct (String.eqb_spec s "") as [->|]; [done|]. cbn. split; [done|]. cbn.
    by destruct (env_names s).
  - rewrite orb_true_r. destruct (no_env s Getenv E) as [_ ->]. done.
Qed.

(** Rewriting by the identity changes nothing. *)
Lemma conditions_map_id : (∀ cs, conditions_map id cs = cs) ∧ (∀ c, condition_map id c = c).
Proof.
  assert (∀ v, value_map id v = v) as Hv.
  { intros []; cbn; try done. f_equal. rewrite <- (map_id l) at 2. apply map_ext. by intros []. }
  assert (∀ op items groups, Forall (λ c, condition_map id c = c) items → Forall (λ cs, conditions_map id cs = cs) groups →
    conditions_map id (MkConditions op items groups) = MkConditions op items groups) as HC.
  { intros op items groups Hi Hg. cbn. f_equal.
    - induction Hi as [|c l Hc _ IH]; cbn; [done|]. by rewrite Hc, IH.
    - induction Hg as [|c l Hc _ IH]; cbn; [done|]. by rewrite Hc, IH. }
  assert (∀ field op val nested fv fp vv vp, (∀ cs, nested = Some cs → conditions_map id cs = cs) →
    condition_map id (MkCondition field op val nested fv fp vv vp) = MkCondition field op val nested fv fp vv vp) as HI.
  { intros field op val nested fv fp vv vp Hn. cbn. rewrite Hv. destruct nested as [cs|]; [|done]. by rewrite Hn. }
  split; [apply (conditions_mut _ _ HC HI)|apply (condition_mut _ _ HC HI)].
Qed.

Lemma option_fmap_same {A} (f : A → A) (o : option A) : (∀ a, f a = a) → f <$> o = o.
Proof. intros Hf. destruct o; cbn; [by rewrite Hf|done]. Qed.

Lemma rule_map_id r : rule_map id r = r.
Proof.
  destruct r as [name tr conds ac i]. unfold rule_map, trigger_map, action_map. cbn.
  assert (∀ c, throttle_map id c = c) as Ht by by intros [].
  assert (∀ c, hmac_map id c = c) as Hh by by intros [].
  rewrite (option_fmap_same _ conds) by apply conditions_map_id. f_equal.
  - destruct tr as [nt ht st]; cbn. f_equal; apply option_fmap_same; intros []; unfold set_nt_throttle; cbn;
      rewrite ?(option_fmap_same (throttle_map id)), ?(option_fmap_same (hmac_map id)) by done; done.
  - destruct ac as [na ha re de]; cbn. f_equal; apply option_fmap_same; intros []; cbn;
      rewrite (option_fmap_same (throttle_map id)), (option_fmap_same (conditions_map id)), map_fmap_id
        by (done || apply conditions_map_id); done.
Qed.

(** *** Rewriting by functions that agree on the strings of a rule *)

Section agree.
Variables g g' : string → string.
Local Notation agree := (Forall (λ s, g s = g' s)).

Lemma env_of_agree {A} (f : A → list string) (h h' : A → A) (o : option A) :
  (∀ a, agree (f a) → h a = h' a) → agree (env_of f o) → h <$> o = h' <$> o.
Proof. intros Hf Ho. destruct o; [|done]. cbn in *. by rewrite Hf. Qed.

Lemma throttle_map_agree c : agree (throttle_env c) → throttle_map g c = throttle_map g' c.
Proof. unfold throttle_env, throttle_map. rewrite !Forall_cons. by intros (-> & -> & _). Qed.

Lemma value_map_agree v : agree (value_env v) → value_map g v = value_map g' v.
Proof.
  destruct v; try done; cbn [value_env value_map]; [by intros (-> & _)%Forall_cons|].
  intros Hl. f_equal. induction l as [|x l IH]; [done|]. cbn in *. apply Forall_app in Hl as [Hx Hl]. rewrite IH by done.
  destruct x; try done. by apply Forall_cons in Hx as [-> _].
Qed.

Lemma headers_map_agree (m : gmap string string) : agree (headers_env m) → g <$> m = g' <$> m.
Proof.
  intros Hm. apply map_fmap_ext. intros k v Hk. rewrite Forall_forall in Hm. apply Hm.
  unfold headers_env. apply list_elem_of_fmap. exists (k, v). split; [done|]. by apply elem_of_map_to_list.
Qed.

Lemma conditions_map_agree : (∀ cs, agree (conditions_env cs) → conditions_map g cs = conditions_map g' cs) ∧
  (∀ c, agree (condition_env c) → condition_map g c = condition_map g' c).
Proof.
  assert (∀ op items groups, Forall (λ c, agree (condition_env c) → condition_map g c = condition_map g' c) items →
    Forall (λ cs, agree (conditions_env cs) → conditions_map g cs = conditions_map g' cs) groups →
    agree (conditions_env (MkConditions op items groups)) →
    conditions_map g (MkConditions op items groups) = conditions_map g' (MkConditions op items groups)) as HC.
  { intros op items groups Hi Hg. cbn. intros [H1 H2]%Forall_app. f_equal.
    - clear H2. induction Hi as [|c l Hc _ IH]; cbn in *; [done|]. apply Forall_app in H1 as [Hx H1]. by rewrite Hc, IH.
    - clear H1. induction Hg as [|c l Hc _ IH]; cbn in *; [done|]. apply Forall_app in H2 as [Hx H2]. by rewrite Hc, IH. }
  assert (∀ field op val nested fv fp vv vp,
    (∀ cs, nested = Some cs → agree (conditions_env cs) → conditions_map g cs = conditions_map g' cs) →
    agree (condition_env (MkCondition field op val nested fv fp vv vp)) →
    condition_map g (MkCondition field op val nested fv fp vv vp) = condition_map g' (MkCondition field op val nested fv fp vv vp)) as HI.
  { intros field op val nested fv fp vv vp Hn. cbn. intros [-> [Hv Hc]%Forall_app]%Forall_cons. rewrite value_map_agree by done.
    destruct nested as [cs|]; [|done]. by rewrite (Hn cs). }
  split; [apply (conditions_mut _ _ HC HI)|apply (condition_mut _ _ HC HI)].
Qed.

Lemma rule_map_agree r : agree (rule_env r) → rule_map g r = rule_map g' r.
Proof.
  destruct r as [name tr conds ac i]. unfold rule_env, rule_map. cbn. rewrite !Forall_app. intros (Ht & Hc & Ha). f_equal.
  - destruct tr as [nt ht st]. unfold trigger_env, trigger_map in *. cbn in *. rewrite !Forall_app in Ht. destruct Ht as (Hn & Hh & Hs).
    f_equal; (eapply env_of_agree; [|eassumption]).
    + intros t Ht. by rewrite (env_of_agree throttle_env (throttle_map g) (throttle_map g') _ throttle_map_agree Ht).
    + intros t. cbn. intros [Ht Hm]%Forall_app. rewrite (env_of_agree throttle_env (throttle_map g) (throttle_map g') _ throttle_map_agree Ht).
      f_equal. eapply (env_of_agree (λ h, [hm_Secret h])); [|exact Hm]. intros h [Heq _]%Forall_cons. unfold hmac_map. by rewrite Heq.
    + intros t. cbn. intros (-> & [-> _]%Forall_cons)%Forall_cons. done.
  - eapply env_of_agree; [apply conditions_map_agree|done].
  - destruct ac as [na ha re de]. unfold action_env, action_map in *. cbn in *. apply Forall_app in Ha as [Hn Hh].
    f_equal; (eapply env_of_agree; [|eassumption]); intros a; cbn; rewrite !Forall_cons, !Forall_app; intros Hall; destruct_and! Hall;
      rewrite headers_map_agree by done;
      rewrite (env_of_agree throttle_env (throttle_map g) (throttle_map g') _ throttle_map_agree) by done;
      rewrite (env_of_agree conditions_env (conditions_map g) (conditions_map g') _ (proj1 conditions_map_agree)) by done; congruence.
Qed.
End agree.

(** Two environments that agree on the names a string refers to expand it alike. *)
Lemma expand_string_agree Getenv Getenv' s : Forall (λ n, Getenv n = Getenv' n) (env_names s) →
  expand_string Getenv s = expand_string Getenv' s.
Proof.
  unfold env_names, expand_string. enough (∀ skip, Forall (λ n, Getenv n = Getenv' n) (find_all env_match 3 skip s) →
    replace_all env_match 3 Getenv skip s = replace_all env_match 3 Getenv' skip s) as Hs by apply Hs.
  induction s as [|c s IH]; [done|]. intros skip. cbn [find_all replace_all].
  destruct skip as [|k]; [|apply IH]. destruct (env_match (String c s)) as [w|]; [|intros Hn; by rewrite (IH 0)].
  intros [-> Hn]%Forall_cons. by rewrite IH.
Qed.

(** ** Properties *)

(** In a file rule every placeholder [${NAME}] of the strings that are expanded
    is replaced by the value of its variable, the empty string if it has none,
    and the text around it is kept; values are not expanded again, nothing is
    refused, and no other part of the rule changes. *)
Theorem expansion_correct Getenv rule :
  expandEnvironmentVariables Getenv true rule = Ok (rule_map (expand_string Getenv) rule) ∧
  ∀ l, Forall (λ x, segment_ok x = true) l → expand_string Getenv (print_segments l) = expanded Getenv l.
Proof.
  split; [|intros l Hl; by apply print_segments_env].
  pose proof (expandEnvironmentVariables_spec Getenv true (expand_string Getenv) (λ _, True)
    (expandEnvVarsInString_allowed Getenv) (λ s E, conj (proj1 (no_env s Getenv E)) I) rule) as H.
  destruct (expandEnvironmentVariables Getenv true rule); [by destruct H as [_ ->]|].
  destruct H. by apply Forall_true.
Qed.

(** In a rule of the key-value store the environment is out of reach: the
    result does not depend on it, the rule is accepted exactly when none of the
    strings that would be expanded holds a placeholder, and is then unchanged. *)
Theorem environment_refused Getenv Getenv' rule :
  expandEnvironmentVariables Getenv false rule = expandEnvironmentVariables Getenv' false rule ∧
  (is_ok (expandEnvironmentVariables Getenv false rule) = true ↔ Forall (λ s, env_names s = []) (rule_env rule)) ∧
  (∀ rule', expandEnvironmentVariables Getenv false rule = Ok rule' → rule' = rule) ∧
  ∀ l, Forall (λ x, segment_ok x = true) l → (env_names (print_segments l) = [] ↔ variables l = []).
Proof.
  pose proof (expandEnvironmentVariables_spec Getenv false id (λ s, env_names s = [])
    (expandEnvVarsInString_refused Getenv) (λ s E, conj eq_refl (proj2 (no_env s id E))) rule) as H.
  split_and!.
  - reflexivity.
  - destruct (expandEnvironmentVariables Getenv false rule); cbn; naive_solver.
  - intros rule' Hr. rewrite Hr in H. destruct H as [_ ->]. apply rule_map_id.
  - intros l Hl. by rewrite (proj2 (print_segments_env id l Hl)).
Qed.

(** The response of a respond action is not among those strings. *)
Lemma respond_reference_accepted Getenv :
  let ac := MkAction None None (Some (MkRespondAction 200 "${SECRET}" false false ∅ "")) None in
  let rule := MkRule "" (MkTrigger None None None) None ac 0 in
  expandEnvironmentVariables Getenv false rule = Ok rule ∧ expandEnvironmentVariables Getenv true rule = Ok rule.
Proof. done. Qed.
