(* ===== verification/Actions.v ===== *)
(** * Actions (internal/rule/processor.go, the evaluation of a rule's action)

    The actions a rule produces for a message: payload, subject or URL and
    headers rendered in the message's context, once, or with [forEach] once
    per element of an array in the element's context. *)

From S2P Require Import Prelude GoStrings GoFloat GoTime Value Types TimeContext Traversal Env Demo.
From S2P Require Import KVContext Context Conditions Evaluator Random Template Merge.
Local Open Scope string_scope.

Definition DefaultMaxForEachIterations : Z := 100.

Inductive action_error :=
| InvalidForEachTemplate (template : string)
| ForEachSystemFieldNotFound (template : string)
| InvalidForEachPath (e : split_error)
| ForEachFieldNotFound (e : traverse_error)
| ForEachNotAnArray (template : string)
| ForEachExceedsLimit (len : nat)
| TemplateFailed (what : string) (e : template_error)
| OverlayNotObject
| MarshalFailed
| NoActionConfigured.

Record ElementError := MkElementError { ee_Index : nat; ee_ErrorType : string }.

Record ForEachResult := MkForEachResult {
  fe_Total : nat; fe_Processed : nat; fe_Filtered : nat; fe_Failed : nat;
  fe_Errors : list ElementError;
}.

Record forEachActionConfig := MkForEachConfig {
  fc_ForEach : string;
  fc_forEachPath : option (list string);
  fc_Filter : option Conditions;
  fc_Passthrough : bool;
  fc_Merge : bool;
  fc_Payload : string;
  fc_Headers : gmap string string;
  fc_MetricsType : string;
}.

Record resolvedPayload := MkResolvedPayload { rp_Text : string; rp_Raw : string; rp_Passthrough : bool }.

Section actions.
Context `{Env}.
Variable maxForEachIters : Z.

Definition AM (A : Type) : Type := M (result action_error A).

(** Sequencing that stops at the first error. *)
Definition then_ {E A B} (m : M (result E A)) (f : A → M (result E B)) : M (result E B) :=
  r ← m; match r with Ok a => f a | Err e => mret (Err e) end.

Definition fail {A} (e : action_error) : AM A := mret (Err e).

Definition execute (what template : string) (context : EvaluationContext) : AM string :=
  r ← Execute template context; mret (map_err (TemplateFailed what) r).

Definition extractForEachArray (forEachTemplate : string) (precomputedPath : option (list string))
    (context : EvaluationContext) : AM (list value) :=
  let fieldPath := ExtractVariable forEachTemplate in
  if String.eqb fieldPath "" then fail (InvalidForEachTemplate forEachTemplate)
  else
    then_
      (if HasPrefix fieldPath "@" then
         resolved ← ResolveValue context fieldPath;
         mret (of_option (ForEachSystemFieldNotFound forEachTemplate) resolved)
       else
         mret (arrayPath ← match precomputedPath with
                           | Some path => Ok path
                           | None => map_err InvalidForEachPath (SplitPathRespectingBraces fieldPath)
                           end;
               map_err ForEachFieldNotFound (TraversePath (VObj (ctx_Msg context)) arrayPath)))
      (λ arrayValue,
        match arrayValue with
        | VArr arrayItems =>
            if (0 <? maxForEachIters)%Z && (maxForEachIters <? Z.of_nat (length arrayItems))%Z
            then fail (ForEachExceedsLimit (length arrayItems))
            else mret (Ok arrayItems)
        | _ => fail (ForEachNotAnArray forEachTemplate)
        end).

Definition safeMarshal (v : value) : result action_error string :=
  of_option MarshalFailed (json_marshal v).

Definition applyMerge (payloadTemplate : string) (base : gmap string value)
    (context : EvaluationContext) : AM string :=
  then_ (execute "overlay" payloadTemplate context) (λ overlayStr,
    match json_unmarshal_map overlayStr with
    | None => fail OverlayNotObject
    | Some overlayData => mret (safeMarshal (VObj (deepMerge base overlayData)))
    end).

Definition resolvePayload (passthrough merge : bool) (payloadTemplate : string)
    (context : EvaluationContext) : AM resolvedPayload :=
  if passthrough then mret (Ok (MkResolvedPayload "" (ctx_RawPayload context) true))
  else if merge then
    then_ (applyMerge payloadTemplate (ctx_Msg context) context)
      (λ mergedBytes, mret (Ok (MkResolvedPayload "" mergedBytes true)))
  else
    then_ (execute "payload" payloadTemplate context)
      (λ payload, mret (Ok (MkResolvedPayload payload "" false))).

(** The loop of [templateHeaders] over the entries of the map. *)
Fixpoint header_loop (entries : list (string * string)) (acc : gmap string string)
    (context : EvaluationContext) : AM (gmap string string) :=
  match entries with
  | [] => mret (Ok acc)
  | (key, valueTemplate) :: rest =>
      then_ (execute "header" valueTemplate context)
        (λ processedValue, header_loop rest (<[key := processedValue]> acc) context)
  end.

Definition templateHeaders (headers : gmap string string) (context : EvaluationContext) : AM (gmap string string) :=
  header_loop (map_to_list headers) ∅ context.

(** ** forEach *)

(** What becomes of one element. *)
Inductive element_outcome := Filtered | Failed (errorType : string) | Built (action : Action).

(** The payload of an element, with the error type of a failure. *)
Definition element_payload (cfg : forEachActionConfig) (itemMap : gmap string value)
    (elementContext : EvaluationContext) : M (result string resolvedPayload) :=
  if fc_Passthrough cfg then
    mret (raw ← map_err (λ _, "marshal_failed") (safeMarshal (VObj itemMap));
          Ok (MkResolvedPayload "" raw true))
  else if fc_Merge cfg then
    r ← applyMerge (fc_Payload cfg) itemMap elementContext;
    mret (merged ← map_err (λ _, "merge_payload_failed") r; Ok (MkResolvedPayload "" merged true))
  else
    r ← Execute (fc_Payload cfg) elementContext;
    mret (payload ← map_err (λ _, "template_payload_failed") r; Ok (MkResolvedPayload payload "" false)).

(** [buildAction] gives the error type of its failure. *)
Definition process_element (cfg : forEachActionConfig) (context : EvaluationContext)
    (buildAction : EvaluationContext → resolvedPayload → gmap string string → M (result string Action))
    (item : value) : M element_outcome :=
  let itemMap := ensureObject item in
  let elementContext := WithElement context itemMap in
  on_copy (
    pass ← EvaluateOpt elementContext (fc_Filter cfg);
    if negb pass then mret Filtered
    else
      payload ← element_payload cfg itemMap elementContext;
      match payload with
      | Err errorType => mret (Failed errorType)
      | Ok pl =>
          headers ← templateHeaders (fc_Headers cfg) elementContext;
          match headers with
          | Err _ => mret (Failed "template_headers_failed")
          | Ok headers =>
              action ← buildAction elementContext pl headers;
              mret match action with Ok a => Built a | Err errorType => Failed errorType end
          end
      end).

Definition record_outcome (i : nat) (o : element_outcome) (acc : list Action * ForEachResult)
    : list Action * ForEachResult :=
  let '(actions, MkForEachResult t p f e errs) := acc in
  match o with
  | Filtered => (actions, MkForEachResult t p (S f) e errs)
  | Failed errorType => (actions, MkForEachResult t p f (S e) (errs ++ [MkElementError i errorType])%list)
  | Built a => ((actions ++ [a])%list, MkForEachResult t (S p) f e errs)
  end.

Fixpoint element_loop (process : value → M element_outcome) (i : nat) (items : list value)
    (acc : list Action * ForEachResult) : M (list Action * ForEachResult) :=
  match items with
  | [] => mret acc
  | item :: rest =>
      o ← process item;
      element_loop process (S i) rest (record_outcome i o acc)
  end.

(** The actions, and the statistics the metrics and the log report. *)
Definition processActionForEach (cfg : forEachActionConfig) (context : EvaluationContext)
    (buildAction : EvaluationContext → resolvedPayload → gmap string string → M (result string Action))
    : AM (list Action * ForEachResult) :=
  then_ (extractForEachArray (fc_ForEach cfg) (fc_forEachPath cfg) context) (λ items,
    r ← element_loop (process_element cfg context buildAction) 0 items
          ([], MkForEachResult (length items) 0 0 0 []);
    mret (Ok r)).

(** ** The kinds of action *)

Definition nats_action (a : NATSAction) : Action := MkAction (Some a) None None None.
Definition http_action (a : HTTPAction) : Action := MkAction None (Some a) None None.
Definition respond_action (a : RespondAction) : Action := MkAction None None (Some a) None.

(** The evaluated form of an action: what the composite literals of the source
    do not name stays zero. *)
Definition evaluated_nats (a : NATSAction) (subject : string) (pl : resolvedPayload)
    (headers : gmap string string) (passthrough : bool) : NATSAction :=
  MkNATSAction subject (na_Mode a) (rp_Text pl) passthrough (na_Merge a) headers (rp_Raw pl)
    (na_Request a) (na_Timeout a) "" None None None None.

Definition evaluated_http (a : HTTPAction) (url method : string) (pl : resolvedPayload)
    (headers : gmap string string) (publish : option PublishResponseSpec) (passthrough : bool) : HTTPAction :=
  MkHTTPAction url method (rp_Text pl) passthrough (ha_Merge a) headers (rp_Raw pl)
    (ha_Retry a) publish "" None None None None.

(** The loop over the elements, with its statistics, and what is left of it. *)
Definition nats_forEach (action : NATSAction) (context : EvaluationContext) : AM (list Action * ForEachResult) :=
  let cfg := MkForEachConfig (na_ForEach action) (na_forEachPath action) (na_Filter action)
    (na_Passthrough action) (na_Merge action) (na_Payload action) (na_Headers action) "nats" in
  processActionForEach cfg context (λ elemCtx pl headers,
      subject ← Execute (na_Subject action) elemCtx;
      mret (subject ← map_err (λ _, "template_subject_failed") subject;
            Ok (nats_action (evaluated_nats action subject pl headers (rp_Passthrough pl))))).

Definition processNATSActionWithForEach (action : NATSAction) (context : EvaluationContext) : AM (list Action) :=
  then_ (nats_forEach action context) (λ r, mret (Ok r.1)).

Definition processNATSAction (action : NATSAction) (context : EvaluationContext) : AM (list Action) :=
  if negb (String.eqb (na_ForEach action) "") then processNATSActionWithForEach action context
  else
    then_ (execute "subject" (na_Subject action) context) (λ subject,
    then_ (resolvePayload (na_Passthrough action) (na_Merge action) (na_Payload action) context) (λ pl,
    then_ (templateHeaders (na_Headers action) context) (λ headers,
    mret (Ok [nats_action (evaluated_nats action subject pl headers
      (na_Passthrough action || rp_Passthrough pl))])))).

Definition template_publish {E} (run : string → EvaluationContext → M (result E string))
    (spec : option PublishResponseSpec) (context : EvaluationContext) : M (result E (option PublishResponseSpec)) :=
  match spec with
  | None => mret (Ok None)
  | Some spec =>
      then_ (run (pr_Subject spec) context) (λ subj, mret (Ok (Some (MkPublishResponseSpec subj))))
  end.

Definition http_forEach (action : HTTPAction) (context : EvaluationContext) : AM (list Action * ForEachResult) :=
  let cfg := MkForEachConfig (ha_ForEach action) (ha_forEachPath action) (ha_Filter action)
    (ha_Passthrough action) (ha_Merge action) (ha_Payload action) (ha_Headers action) "http" in
  let run errorType template elemCtx :=
    r ← Execute template elemCtx; mret (map_err (λ _ : template_error, errorType : string) r) in
  processActionForEach cfg context (λ elemCtx pl headers,
      then_ (run "template_url_failed" (ha_URL action) elemCtx) (λ url,
      then_ (run "template_method_failed" (ha_Method action) elemCtx) (λ method,
      then_ (template_publish (run "template_publish_response_subject_failed")
               (ha_PublishResponse action) elemCtx) (λ publish,
      mret (Ok (http_action (evaluated_http action url method pl headers publish (rp_Passthrough pl)))))))).

Definition processHTTPActionWithForEach (action : HTTPAction) (context : EvaluationContext) : AM (list Action) :=
  then_ (http_forEach action context) (λ r, mret (Ok r.1)).

Definition processHTTPAction (action : HTTPAction) (context : EvaluationContext) : AM (list Action) :=
  if negb (String.eqb (ha_ForEach action) "") then processHTTPActionWithForEach action context
  else
    then_ (execute "URL" (ha_URL action) context) (λ url,
    then_ (execute "method" (ha_Method action) context) (λ method,
    then_ (resolvePayload (ha_Passthrough action) (ha_Merge action) (ha_Payload action) context) (λ pl,
    then_ (templateHeaders (ha_Headers action) context) (λ headers,
    then_ (template_publish (execute "publishResponse.subject") (ha_PublishResponse action) context) (λ publish,
    mret (Ok [http_action (evaluated_http action url method pl headers publish
      (ha_Passthrough action || rp_Passthrough pl))])))))).

Definition processRespondAction (action : RespondAction) (context : EvaluationContext) : AM (list Action) :=
  then_ (resolvePayload (ra_Passthrough action) (ra_Merge action) (ra_Payload action) context) (λ pl,
  then_ (templateHeaders (ra_Headers action) context) (λ headers,
  mret (Ok [respond_action (MkRespondAction (ra_StatusCode action) (rp_Text pl)
    (ra_Passthrough action || rp_Passthrough pl) (ra_Merge action) headers (rp_Raw pl))]))).

Definition processAction (action : Action) (context : EvaluationContext) : AM (list Action) :=
  match a_NATS action, a_HTTP action, a_Respond action with
  | Some nats, _, _ => processNATSAction nats context
  | None, Some http, _ => processHTTPAction http context
  | None, None, Some respond => processRespondAction respond context
  | None, None, None => fail NoActionConfigured
  end.
End actions.

(** ** Lemmas *)

(** What a computation's result satisfies when it succeeds. *)
Definition ensures `{Env} {E A} (m : M (result E A)) (Q : A → Prop) : Prop :=
  ∀ st a, (m st).1 = Ok a → Q a.

Section ensures.
Context `{Env}.

Lemma ensures_ret {E A} (a : A) (Q : A → Prop) : Q a → ensures (E:=E) (mret (Ok a)) Q.
Proof. intros Hq st b [= <-]. done. Qed.

Lemma ensures_err {E A} (e : E) (Q : A → Prop) : ensures (mret (Err e)) Q.
Proof. done. Qed.

Lemma ensures_then {E A B} (m : M (result E A)) (f : A → M (result E B)) (P : A → Prop) (Q : B → Prop) :
  ensures m P → (∀ a, P a → ensures (f a) Q) → ensures (then_ m f) Q.
Proof.
  intros Hm Hf st b. specialize (Hm st). unfold then_, mbind, M_bind.
  destruct (m st) as [[a|e] st']; [|done]. apply Hf. by apply Hm.
Qed.

Lemma ensures_true {E A} (m : M (result E A)) : ensures m (λ _, True).
Proof. done. Qed.

Lemma ensures_bind {E A B} (m : M A) (f : A → M (result E B)) (Q : B → Prop) :
  (∀ a, ensures (f a) Q) → ensures (m ≫= f) Q.
Proof. intros Hf st b. unfold mbind, M_bind. destruct (m st) as [a st']. apply Hf. Qed.

Lemma ensures_weaken {E A} (m : M (result E A)) (P Q : A → Prop) :
  (∀ a, P a → Q a) → ensures m P → ensures m Q.
Proof. intros HPQ Hm st a Ha. apply HPQ. by eapply Hm. Qed.
End ensures.

Definition built (o : element_outcome) : option Action :=
  match o with Built a => Some a | _ => None end.
Definition is_filtered (o : element_outcome) : bool := match o with Filtered => true | _ => false end.
Definition failure (o : element_outcome) : option string :=
  match o with Failed e => Some e | _ => None end.

(** The errors recorded of the elements that failed, each with its position. *)
Definition recorded (outcomes : list element_outcome) : list ElementError :=
  omap (λ io, MkElementError io.1 <$> failure io.2) (imap pair outcomes).

(** The statistics say what the outcomes of the elements are. *)
Definition accounts (outcomes : list element_outcome) (actions : list Action) (r : ForEachResult) : Prop :=
  actions = omap built outcomes ∧
  fe_Processed r = length (omap built outcomes) ∧
  fe_Filtered r = length (List.filter is_filtered outcomes) ∧
  fe_Failed r = length (omap failure outcomes) ∧
  fe_Errors r = recorded outcomes.

Lemma recorded_snoc outcomes o :
  recorded (outcomes ++ [o]) = (recorded outcomes ++ match failure o with Some e => [MkElementError (length outcomes) e] | None => [] end)%list.
Proof.
  unfold recorded. rewrite imap_app, omap_app. cbn. rewrite Nat.add_0_r. by destruct (failure o).
Qed.

Lemma length_recorded outcomes : length (recorded outcomes) = length (omap failure outcomes).
Proof.
  induction outcomes as [|o outcomes IH] using rev_ind; [done|].
  rewrite recorded_snoc, omap_app, !length_app, IH. cbn. by destruct (failure o).
Qed.

Lemma accounts_record outcomes actions r o :
  accounts outcomes actions r →
  accounts (outcomes ++ [o])%list (record_outcome (length outcomes) o (actions, r)).1
    (record_outcome (length outcomes) o (actions, r)).2 ∧
  fe_Total (record_outcome (length outcomes) o (actions, r)).2 = fe_Total r.
Proof.
  destruct r as [t p f e errs]. unfold accounts. intros (-> & Hp & Hf & He & Hl). cbn in *.
  rewrite recorded_snoc, !omap_app, List.filter_app, !length_app.
  destruct o; cbn; rewrite ?app_nil_r; (split; [split_and!|done]); (done || lia || by rewrite Hl).
Qed.

(** What becomes of an element, in its own context: it must pass the filter, and
    then have a payload, headers and an action, in this order; the outcome is
    that of the first of these that fails.  [leave] drops the signature fields of
    the element's context. *)
Definition leave `{Env} (st st' : St) : St :=
  MkSt (st_sig st) (st_parseCache st') (st_localCache st') (st_verifications st') (st_world st').

Inductive element_result `{Env} (cfg : forEachActionConfig) (c : EvaluationContext)
    (build : EvaluationContext → resolvedPayload → gmap string string → M (result string Action))
    (item : value) (st : St) : element_outcome → St → Prop :=
| element_filtered st1 :
    EvaluateOpt (WithElement c (ensureObject item)) (fc_Filter cfg) st = (false, st1) →
    element_result cfg c build item st Filtered (leave st st1)
| element_no_payload st1 e st2 :
    EvaluateOpt (WithElement c (ensureObject item)) (fc_Filter cfg) st = (true, st1) →
    element_payload cfg (ensureObject item) (WithElement c (ensureObject item)) st1 = (Err e, st2) →
    element_result cfg c build item st (Failed e) (leave st st2)
| element_no_headers st1 pl st2 e st3 :
    EvaluateOpt (WithElement c (ensureObject item)) (fc_Filter cfg) st = (true, st1) →
    element_payload cfg (ensureObject item) (WithElement c (ensureObject item)) st1 = (Ok pl, st2) →
    templateHeaders (fc_Headers cfg) (WithElement c (ensureObject item)) st2 = (Err e, st3) →
    element_result cfg c build item st (Failed "template_headers_failed") (leave st st3)
| element_built st1 pl st2 headers st3 action st4 :
    EvaluateOpt (WithElement c (ensureObject item)) (fc_Filter cfg) st = (true, st1) →
    element_payload cfg (ensureObject item) (WithElement c (ensureObject item)) st1 = (Ok pl, st2) →
    templateHeaders (fc_Headers cfg) (WithElement c (ensureObject item)) st2 = (Ok headers, st3) →
    build (WithElement c (ensureObject item)) pl headers st3 = (action, st4) →
    element_result cfg c build item st (match action with Ok a => Built a | Err e => Failed e end) (leave st st4).

(** The elements of an array, each in the state the ones before left. *)
Inductive elements_run `{Env} (cfg : forEachActionConfig) (c : EvaluationContext)
    (build : EvaluationContext → resolvedPayload → gmap string string → M (result string Action)) :
    list value → St → list element_outcome → St → Prop :=
| no_elements st : elements_run cfg c build [] st [] st
| next_element item items st o st1 outcomes st2 :
    element_result cfg c build item st o st1 → elements_run cfg c build items st1 outcomes st2 →
    elements_run cfg c build (item :: items) st (o :: outcomes) st2.

Lemma process_element_result `{Env} cfg c build item st :
  element_result cfg c build item st (process_element cfg c build item st).1 (process_element cfg c build item st).2.
Proof.
  unfold process_element, on_copy, mbind, M_bind, get.
  destruct (EvaluateOpt _ _ _) as [[] st1] eqn:E1; cbn [negb]; [|by apply element_filtered].
  destruct (element_payload _ _ _ _) as [[pl|e] st2] eqn:E2; [|by eapply element_no_payload].
  destruct (templateHeaders _ _ _) as [[h|e] st3] eqn:E3; [|by eapply element_no_headers].
  destruct (build _ _ _ _) as [a st4] eqn:E4. by eapply element_built.
Qed.

Lemma elements_run_length `{Env} cfg c build items st outcomes st' :
  elements_run cfg c build items st outcomes st' → length outcomes = length items.
Proof. induction 1; cbn; congruence. Qed.

Lemma element_loop_accounts `{Env} cfg c build items outcomes actions r st :
  accounts outcomes actions r →
  let out := element_loop (process_element cfg c build) (length outcomes) items (actions, r) st in
  ∃ outcomes', elements_run cfg c build items st outcomes' out.2 ∧
    accounts (outcomes ++ outcomes')%list out.1.1 out.1.2 ∧ fe_Total out.1.2 = fe_Total r.
Proof.
  revert outcomes actions r st; induction items as [|item items IH]; intros outcomes actions r st Ha.
  { exists []. rewrite app_nil_r. split; [constructor|done]. }
  cbn [element_loop]. unfold mbind, M_bind. pose proof (process_element_result cfg c build item st) as He.
  destruct (process_element cfg c build item st) as [o st']. cbn in He.
  destruct (accounts_record outcomes actions r o Ha) as [Ha' Ht].
  destruct (record_outcome (length outcomes) o (actions, r)) as [actions' r']. cbn in Ha', Ht.
  specialize (IH _ _ _ st' Ha') as (outcomes' & Hl & Hacc & Ht').
  rewrite length_app, Nat.add_1_r in Hl, Hacc, Ht'.
  exists (o :: outcomes'). split_and!; [by econstructor| |by rewrite Ht', Ht].
  by rewrite <- app_assoc in Hacc.
Qed.

Lemma outcomes_partition outcomes :
  length outcomes = (length (omap built outcomes) + length (List.filter is_filtered outcomes)
                     + length (omap failure outcomes))%nat.
Proof.
  induction outcomes as [|o l IH]; [done|]. cbn [length]. rewrite IH.
  destruct o; cbn; unfold omap; lia.
Qed.

Lemma extractForEachArray_limit `{Env} max tmpl path c :
  ensures (extractForEachArray max tmpl path c) (λ items, (0 < max)%Z → (Z.of_nat (length items) ≤ max)%Z).
Proof.
  unfold extractForEachArray, fail. destruct (String.eqb _ ""); [apply ensures_err|].
  eapply ensures_then; [apply ensures_true|]. intros v _. destruct v; try apply ensures_err.
  destruct (_ && _) eqn:E; [apply ensures_err|]. apply ensures_ret. intros Hmax.
  apply andb_false_iff in E as [E|E]; lia.
Qed.

Definition undeferred (a : Action) : Prop := a_Defer a = None.

Lemma built_undeferred `{Env} process :
  (∀ item st a, (process item st).1 = Built a → undeferred a) →
  ∀ items i acc st, Forall undeferred acc.1 → Forall undeferred (element_loop process i items acc st).1.1.
Proof.
  intros Hp items. induction items as [|item items IH]; intros i [actions r] st Hacc; [done|].
  cbn [element_loop]. unfold mbind, M_bind. specialize (Hp item st).
  destruct (process item st) as [o st']. apply IH. destruct r, o; cbn; try done.
  apply Forall_app. split; [done|]. repeat constructor. by apply Hp.
Qed.

Lemma processActionForEach_undeferred `{Env} max cfg c build :
  (∀ e pl h, ensures (build e pl h) undeferred) →
  ensures (processActionForEach max cfg c build) (λ r, Forall undeferred r.1).
Proof.
  intros Hb. eapply ensures_then; [apply ensures_true|]. intros items _ st r.
  unfold mbind, M_bind.
  match goal with |- context [element_loop ?p ?i ?l ?acc st] =>
    pose proof (built_undeferred p) as Hl; destruct (element_loop p i l acc st) as [r' st'] eqn:Er end.
  cbn. intros [= <-]. change r' with (r', st').1. rewrite <- Er. apply Hl; [|constructor].
  intros item st1 a. unfold process_element, on_copy, mbind, M_bind, get. cbn.
  destruct (EvaluateOpt _ _ _) as [pass st2]. destruct pass; [|done]. cbn.
  destruct (element_payload _ _ _ _) as [[pl|] st3]; [|done].
  destruct (templateHeaders _ _ _) as [[h|] st4]; [|done].
  specialize (Hb (WithElement c (ensureObject item)) pl h st4).
  destruct (build _ _ _ _) as [[a'|] st5]; cbn; [|done]. intros [= <-]. by apply Hb.
Qed.

Lemma processAction_undeferred `{Env} max action c :
  ensures (processAction max action c) (Forall undeferred).
Proof.
  unfold processAction. destruct (a_NATS action) as [na|]; [|destruct (a_HTTP action) as [ha|]; [|destruct (a_Respond action) as [ra|]; [|apply ensures_err]]].
  - unfold processNATSAction. destruct (negb _).
    + eapply ensures_then; [apply processActionForEach_undeferred|].
      * intros e pl h. apply ensures_bind. intros [s|]; [by apply ensures_ret|apply ensures_err].
      * intros r Hr. by apply ensures_ret.
    + do 3 (eapply ensures_then; [apply ensures_true|]; intros ? _).
      apply ensures_ret. by repeat constructor.
  - unfold processHTTPAction. destruct (negb _).
    + eapply ensures_then; [apply processActionForEach_undeferred|].
      * intros e pl h. do 3 (eapply ensures_then; [apply ensures_true|]; intros ? _). by apply ensures_ret.
      * intros r Hr. by apply ensures_ret.
    + do 5 (eapply ensures_then; [apply ensures_true|]; intros ? _).
      apply ensures_ret. by repeat constructor.
  - do 2 (eapply ensures_then; [apply ensures_true|]; intros ? _).
    apply ensures_ret. by repeat constructor.
Qed.

(** ** Properties *)

(** C19: A [forEach] fails only when its array cannot be had.  Otherwise every element
    of the array is taken once, in order, in its own context: it is filtered out,
    or it fails at its payload, its headers or its action, with its position and
    the type of the error recorded, or it gives one action; the actions are those
    of the elements that gave one, in the order of the elements; one element's
    failure loses no other; the statistics count what happened, and the array is
    within the configured limit. *)
Theorem forEach_accounts `{Env} max cfg c build st :
  match processActionForEach max cfg c build st with
  | (Err e, st') => extractForEachArray max (fc_ForEach cfg) (fc_forEachPath cfg) c st = (Err e, st')
  | (Ok (actions, r), st') => ∃ items st1 outcomes,
      extractForEachArray max (fc_ForEach cfg) (fc_forEachPath cfg) c st = (Ok items, st1) ∧
      elements_run cfg c build items st1 outcomes st' ∧ accounts outcomes actions r ∧
      fe_Total r = length items ∧ fe_Total r = (fe_Processed r + fe_Filtered r + fe_Failed r)%nat ∧
      length actions = fe_Processed r ∧ length (fe_Errors r) = fe_Failed r ∧
      ((0 < max)%Z → (Z.of_nat (length items) ≤ max)%Z)
  end.
Proof.
  unfold processActionForEach, then_, mbind, M_bind.
  pose proof (extractForEachArray_limit max (fc_ForEach cfg) (fc_forEachPath cfg) c st) as Hlim.
  destruct (extractForEachArray _ _ _ _ st) as [[items|e] st1]; [|done]. specialize (Hlim items eq_refl).
  destruct (element_loop_accounts cfg c build items [] [] (MkForEachResult (length items) 0 0 0 []) st1)
    as (outcomes & Hrun & Hacc & Ht); [done|]. cbn [length] in *. unfold mbind, M_bind.
  destruct (element_loop _ _ _ _ st1) as [[actions r] st2]. cbn in *.
  exists items, st1, outcomes. pose proof (elements_run_length _ _ _ _ _ _ _ Hrun) as Hl.
  rewrite Ht. split_and!; try done.
  - rewrite <- Hl, outcomes_partition. destruct Hacc as (_ & Hp & Hf & He & _). lia.
  - by destruct Hacc as (-> & -> & _).
  - destruct Hacc as (_ & _ & _ & -> & ->). apply length_recorded.
Qed.

Definition demo_foreach : forEachActionConfig :=
  MkForEachConfig "{readings}" None (Some (MkConditions "and" [cond "{v}" "gt" (VInt 5)] [])) false false "{v}" ∅ "nats".

(** Of two readings the lower is filtered out, and the other fires. *)
Lemma forEach_demo :
  let build := λ (_ : EvaluationContext) pl (_ : gmap string string),
    mret (M:=@M demo) (Ok (E:=string) (respond_action (MkRespondAction 200 (rp_Text pl) false false ∅ ""))) in
  match (@processActionForEach demo 100 demo_foreach demo_context build demo_start).1 with
  | Ok (actions, r) => map (λ a, ra_Payload <$> a_Respond a) actions = [Some "9"] ∧ fe_Total r = 2
  | Err _ => False
  end.
Proof. vm_compute. done. Qed.
