(* ===== verification/Processor.v ===== *)
(** * The processor (internal/rule/processor.go)

    Rules loaded from files or from the key-value store, the rules a message,
    a request or a schedule concerns, and their evaluation into an [Outcome]:
    what to do now and what a trailing throttle holds. *)

From S2P Require Import Prelude GoStrings GoFloat GoTime Value Types TimeContext Traversal Env Demo.
From S2P Require Import Pattern PathMatcher KVContext Context Conditions Evaluator Random Template Throttle Index Hmac Actions.
Local Open Scope string_scope.

(** ** State *)

Record HTTPPatternRule := MkHTTPPatternRule { hp_Rule : Rule; hp_Matcher : PatternMatcher }.

Record HTTPKVRuleSet := MkHTTPKVRuleSet {
  hk_Exact : gmap string (list Rule); hk_Patterns : list HTTPPatternRule;
}.

Record KVRuleSet := MkKVRuleSet {
  ks_NATS : gmap string (list Rule); ks_HTTP : HTTPKVRuleSet; ks_Schedule : list Rule;
}.

Record ProcessorStats := MkProcessorStats { ps_Processed : Z; ps_Matched : Z; ps_Errors : Z }.

Record Processor := MkProcessor {
  p_index : Index;
  p_allRules : list Rule;
  p_scheduleRules : list Rule;
  p_httpExactPaths : gmap string (list Rule);
  p_httpPatternRules : list HTTPPatternRule;
  p_kvContext : option KVContext;
  p_stats : ProcessorStats;
  p_sigVerification : option SignatureVerification;
  p_maxForEachIters : Z;
  p_timeProvider : TimeProvider;
  p_throttle : ThrottleManager;
  p_kvRuleSet : option KVRuleSet;
  p_kvRuleSeq : Z;
}.

(** Made with the options the daemon sets; [now] is the time the throttle manager
    starts at. *)
Definition NewProcessor (kv : option KVContext) (sv : option SignatureVerification)
    (maxForEach : option Z) (now : Time) : Processor :=
  MkProcessor NewIndex [] [] ∅ [] kv (MkProcessorStats 0 0 0) sv
    (default DefaultMaxForEachIterations maxForEach) SystemTimeProvider (NewThrottleManager now) None 0.

(** The options, as setters: [NewProcessor] applies its own in order. *)
Definition Option : Type := Processor → Processor.

Definition WithKVContext (kv : KVContext) : Option := λ p,
  MkProcessor (p_index p) (p_allRules p) (p_scheduleRules p) (p_httpExactPaths p) (p_httpPatternRules p) (Some kv)
    (p_stats p) (p_sigVerification p) (p_maxForEachIters p) (p_timeProvider p) (p_throttle p) (p_kvRuleSet p) (p_kvRuleSeq p).
Definition WithSignatureVerification (sv : SignatureVerification) : Option := λ p,
  MkProcessor (p_index p) (p_allRules p) (p_scheduleRules p) (p_httpExactPaths p) (p_httpPatternRules p) (p_kvContext p)
    (p_stats p) (Some sv) (p_maxForEachIters p) (p_timeProvider p) (p_throttle p) (p_kvRuleSet p) (p_kvRuleSeq p).
Definition WithMaxForEachIterations (n : Z) : Option := λ p,
  MkProcessor (p_index p) (p_allRules p) (p_scheduleRules p) (p_httpExactPaths p) (p_httpPatternRules p) (p_kvContext p)
    (p_stats p) (p_sigVerification p) n (p_timeProvider p) (p_throttle p) (p_kvRuleSet p) (p_kvRuleSeq p).
Definition WithTimeProvider (tp : TimeProvider) : Option := λ p,
  MkProcessor (p_index p) (p_allRules p) (p_scheduleRules p) (p_httpExactPaths p) (p_httpPatternRules p) (p_kvContext p)
    (p_stats p) (p_sigVerification p) (p_maxForEachIters p) tp (p_throttle p) (p_kvRuleSet p) (p_kvRuleSeq p).

Definition set_index (p : Processor) (i : Index) : Processor :=
  MkProcessor i (p_allRules p) (p_scheduleRules p) (p_httpExactPaths p) (p_httpPatternRules p) (p_kvContext p)
    (p_stats p) (p_sigVerification p) (p_maxForEachIters p) (p_timeProvider p) (p_throttle p) (p_kvRuleSet p) (p_kvRuleSeq p).
Definition set_throttle (p : Processor) (t : ThrottleManager) : Processor :=
  MkProcessor (p_index p) (p_allRules p) (p_scheduleRules p) (p_httpExactPaths p) (p_httpPatternRules p) (p_kvContext p)
    (p_stats p) (p_sigVerification p) (p_maxForEachIters p) (p_timeProvider p) t (p_kvRuleSet p) (p_kvRuleSeq p).
Definition set_stats (p : Processor) (s : ProcessorStats) : Processor :=
  MkProcessor (p_index p) (p_allRules p) (p_scheduleRules p) (p_httpExactPaths p) (p_httpPatternRules p) (p_kvContext p)
    s (p_sigVerification p) (p_maxForEachIters p) (p_timeProvider p) (p_throttle p) (p_kvRuleSet p) (p_kvRuleSeq p).

(** ** Loading rules *)

Definition prepared_action (a : Action) : Action :=
  let nats := match a_NATS a with
    | None => None
    | Some n => Some (MkNATSAction (na_Subject n) (na_Mode n) (na_Payload n) (na_Passthrough n) (na_Merge n)
        (na_Headers n) (na_RawPayload n) (na_Request n) (na_Timeout n) (na_ForEach n)
        (PrepareConditions <$> na_Filter n) (na_Throttle n) (na_Debounce n)
        (if String.eqb (na_ForEach n) "" then na_forEachPath n else prepareForEachPath (na_ForEach n)))
    end in
  let http := match a_HTTP a with
    | None => None
    | Some h => Some (MkHTTPAction (ha_URL h) (ha_Method h) (ha_Payload h) (ha_Passthrough h) (ha_Merge h)
        (ha_Headers h) (ha_RawPayload h) (ha_Retry h) (ha_PublishResponse h) (ha_ForEach h)
        (PrepareConditions <$> ha_Filter h) (ha_Throttle h) (ha_Debounce h)
        (if String.eqb (ha_ForEach h) "" then ha_forEachPath h else prepareForEachPath (ha_ForEach h)))
    end in
  MkAction nats http (a_Respond a) (a_Defer a).

Definition prepared_rule (i : Z) (r : Rule) : Rule :=
  MkRule (r_Name r) (r_Trigger r) (PrepareConditions <$> r_Conditions r) (prepared_action (r_Action r)) i.

Inductive load_error := InvalidHTTPPattern (i : Z) (path : string) (e : pattern_error).

Definition index_http (p : Processor) (i : Z) (r : Rule) : result load_error Processor :=
  match tr_HTTP (r_Trigger r) with
  | None => Ok p
  | Some http =>
      let path := ht_Path http in
      let with_http exact patterns :=
        MkProcessor (p_index p) (p_allRules p) (p_scheduleRules p) exact patterns (p_kvContext p)
          (p_stats p) (p_sigVerification p) (p_maxForEachIters p) (p_timeProvider p) (p_throttle p) (p_kvRuleSet p) (p_kvRuleSeq p) in
      if PathContainsWildcards path then
        match NewPathMatcher path with
        | Err e => Err (InvalidHTTPPattern i path e)
        | Ok matcher =>
            Ok (with_http (p_httpExactPaths p) (p_httpPatternRules p ++ [MkHTTPPatternRule r matcher])%list)
        end
      else
        Ok (with_http
          (<[path := (default [] (p_httpExactPaths p !! path) ++ [r])%list]> (p_httpExactPaths p))
          (p_httpPatternRules p))
  end.

Definition load_rule (now : Time) (p : Processor) (i : Z) (rule : Rule) : result load_error Processor :=
  let r := prepared_rule i rule in
  let index := match tr_NATS (r_Trigger r) with Some _ => Add (p_index p) (Some r) now | None => p_index p end in
  let p := MkProcessor index (p_allRules p ++ [r])%list (p_scheduleRules p) (p_httpExactPaths p)
    (p_httpPatternRules p) (p_kvContext p) (p_stats p) (p_sigVerification p) (p_maxForEachIters p) (p_timeProvider p)
    (p_throttle p) (p_kvRuleSet p) (p_kvRuleSeq p) in
  p ← index_http p i r;
  Ok (MkProcessor (p_index p) (p_allRules p)
    (match tr_Schedule (r_Trigger r) with Some _ => (p_scheduleRules p ++ [r])%list | None => p_scheduleRules p end)
    (p_httpExactPaths p) (p_httpPatternRules p) (p_kvContext p) (p_stats p) (p_sigVerification p)
    (p_maxForEachIters p) (p_timeProvider p) (p_throttle p) (p_kvRuleSet p) (p_kvRuleSeq p)).

Fixpoint load_loop (now : Time) (p : Processor) (i : Z) (rules : list Rule) : result load_error Processor :=
  match rules with
  | [] => Ok p
  | r :: rest => p ← load_rule now p i r; load_loop now p (i + 1)%Z rest
  end.

(** On an error the processor is to be discarded, so the model returns none. *)
Definition LoadRules (now : Time) (p : Processor) (rules : list Rule) : result load_error Processor :=
  load_loop now (MkProcessor (Clear (p_index p)) [] [] ∅ [] (p_kvContext p) (p_stats p) (p_sigVerification p)
    (p_maxForEachIters p) (p_timeProvider p) (p_throttle p) (p_kvRuleSet p) (p_kvRuleSeq p)) 0 rules.

(** ** Rules from the key-value store *)

Definition set_rule_index (r : Rule) (i : Z) : Rule :=
  MkRule (r_Name r) (r_Trigger r) (r_Conditions r) (r_Action r) i.

Definition number_rule (seq : Z) (r : Rule) : Z * Rule :=
  if (r_index r =? 0)%Z then ((seq + 1)%Z, set_rule_index r (seq + 1)) else (seq, r).

Fixpoint number_list (seq : Z) (rules : list Rule) : Z * list Rule :=
  match rules with
  | [] => (seq, [])
  | r :: rest =>
      let '(seq, r) := number_rule seq r in
      let '(seq, rest) := number_list seq rest in (seq, r :: rest)
  end.

(** The lists of a map, in the order its iteration visits them. *)
Fixpoint number_entries (seq : Z) (entries : list (string * list Rule)) : Z * list (string * list Rule) :=
  match entries with
  | [] => (seq, [])
  | (k, rs) :: rest =>
      let '(seq, rs) := number_list seq rs in
      let '(seq, rest) := number_entries seq rest in (seq, (k, rs) :: rest)
  end.

Definition number_map (seq : Z) (m : gmap string (list Rule)) : Z * gmap string (list Rule) :=
  let '(seq, entries) := number_entries seq (map_to_list m) in (seq, list_to_map entries).

Fixpoint number_patterns (seq : Z) (prs : list HTTPPatternRule) : Z * list HTTPPatternRule :=
  match prs with
  | [] => (seq, [])
  | MkHTTPPatternRule r m :: rest =>
      let '(seq, r) := number_rule seq r in
      let '(seq, rest) := number_patterns seq rest in (seq, MkHTTPPatternRule r m :: rest)
  end.

Definition ReplaceKVRuleSet (p : Processor) (set : KVRuleSet) : Processor :=
  let '(seq, nats) := number_map (p_kvRuleSeq p) (ks_NATS set) in
  let '(seq, exact) := number_map seq (hk_Exact (ks_HTTP set)) in
  let '(seq, patterns) := number_patterns seq (hk_Patterns (ks_HTTP set)) in
  let '(seq, schedule) := number_list seq (ks_Schedule set) in
  MkProcessor (p_index p) (p_allRules p) (p_scheduleRules p) (p_httpExactPaths p) (p_httpPatternRules p)
    (p_kvContext p) (p_stats p) (p_sigVerification p) (p_maxForEachIters p) (p_timeProvider p) (p_throttle p)
    (Some (MkKVRuleSet nats (MkHTTPKVRuleSet exact patterns) schedule)) seq.

(** ** Finding rules *)

Definition Subjects_ (p : Processor) : list string := SubscriptionSubjects (p_index p).

Definition ScheduleRules (p : Processor) : list Rule :=
  match p_kvRuleSet p with Some set => ks_Schedule set | None => p_scheduleRules p end.

Definition http_path (r : Rule) : string := match tr_HTTP (r_Trigger r) with Some h => ht_Path h | None => "" end.
Definition http_method (r : Rule) : string := match tr_HTTP (r_Trigger r) with Some h => ht_Method h | None => "" end.

Definition AllRules (p : Processor) : list Rule := p_allRules p.

Definition declared_paths (exact : gmap string (list Rule)) (patterns : list HTTPPatternRule) : gset string :=
  dom exact ∪ list_to_set (map (λ pr, http_path (hp_Rule pr)) patterns).
Definition HTTPPaths (p : Processor) : gset string :=
  declared_paths (p_httpExactPaths p) (p_httpPatternRules p) ∪
  match p_kvRuleSet p with
  | Some set => declared_paths (hk_Exact (ks_HTTP set)) (hk_Patterns (ks_HTTP set))
  | None => ∅
  end.

Definition match_in (exact : gmap string (list Rule)) (patterns : list HTTPPatternRule) (path : string) : option string :=
  if (0 <? length (default [] (exact !! path)))%nat then Some path
  else (λ pr, http_path (hp_Rule pr)) <$> List.find (λ pr, MatchPath (hp_Matcher pr) path) patterns.

Definition MatchHTTPPath (p : Processor) (path : string) : option string :=
  match match_in (p_httpExactPaths p) (p_httpPatternRules p) path with
  | Some route => Some route
  | None =>
      match p_kvRuleSet p with
      | Some set => match_in (hk_Exact (ks_HTTP set)) (hk_Patterns (ks_HTTP set)) path
      | None => None
      end
  end.

Definition HasHTTPPath (p : Processor) (path : string) : bool :=
  match MatchHTTPPath p path with Some _ => true | None => false end.

Definition rules_in (exact : gmap string (list Rule)) (patterns : list HTTPPatternRule) (path : string) : list Rule :=
  (default [] (exact !! path)
    ++ map hp_Rule (List.filter (λ pr, MatchPath (hp_Matcher pr) path) patterns))%list.

Definition findHTTPRules (p : Processor) (path method : string) : list Rule :=
  let rulesForPath :=
    (rules_in (p_httpExactPaths p) (p_httpPatternRules p) path
      ++ match p_kvRuleSet p with
         | Some set => rules_in (hk_Exact (ks_HTTP set)) (hk_Patterns (ks_HTTP set)) path
         | None => []
         end)%list in
  if String.eqb method "" then rulesForPath
  else List.filter (λ r, String.eqb (http_method r) "" || String.eqb (http_method r) method) rulesForPath.

Definition HasSyncHTTPPath (p : Processor) (path method : string) : bool :=
  existsb (λ r,
    match a_Respond (r_Action r) with
    | Some _ => true
    | None => match a_NATS (r_Action r) with Some n => na_Request n | None => false end
    end) (findHTTPRules p path method).

(** A nil filter passes everything. *)
Definition filterNATSRules (rules : list Rule) (filter_ : option NATSTriggerFilter) : list Rule :=
  match filter_ with
  | None => rules
  | Some f =>
      let passes r := match tr_NATS (r_Trigger r) with Some t => f t | None => false end in
      let pass := length (List.filter passes rules) in
      if (pass =? length rules)%nat then rules else List.filter passes rules
  end.

Definition getTriggerThrottle (rule : Rule) : option ThrottleConfig :=
  match tr_NATS (r_Trigger rule) with
  | Some t => nt_Throttle t
  | None => match tr_HTTP (r_Trigger rule) with Some t => ht_Throttle t | None => None end
  end.

Definition getActionThrottle (rule : Rule) : option ThrottleConfig :=
  match a_NATS (r_Action rule) with
  | Some a => na_Throttle a
  | None => match a_HTTP (r_Action rule) with Some a => ha_Throttle a | None => None end
  end.

(** ** Evaluation *)

Section processing.
Context `{Env}.

(** Computations that also read and write the processor. *)
Definition PM (A : Type) : Type := Processor * St → A * (Processor * St).
#[export] Instance PM_ret : MRet PM := λ A a s, (a, s).
#[export] Instance PM_bind : MBind PM := λ A B f m s, let '(a, s') := m s in f a s'.
Definition lift {A} (m : M A) : PM A := λ s, let '(a, st) := m s.2 in (a, (s.1, st)).
Definition getP : PM Processor := λ s, (s.1, s).
Definition putP (p : Processor) : PM unit := λ s, (tt, (p, s.2)).

Definition allow (key : string) (window : Z) : PM bool :=
  now ← lift (lift_world time_Now);
  p ← getP;
  let '(ok, tm) := Allow (p_throttle p) key window now in
  _ ← putP (set_throttle p tm);
  mret ok.

Definition resolveThrottleKey (cfg : ThrottleConfig) (ctx : EvaluationContext) (triggerType : string) : M string :=
  if String.eqb (th_Key cfg) "" then
    mret (if String.eqb triggerType "nats" then
            match ctx_Subject ctx with Some s => sc_Full s | None => "" end
          else if String.eqb triggerType "http" then
            match ctx_HTTP ctx with Some h => hc_Path h | None => "" end
          else "")
  else
    resolved ← Execute (th_Key cfg) ctx;
    mret match resolved with Ok s => s | Err _ => th_Key cfg end.

(** The key of a throttle and its window; an unparsable window is 0. *)
Definition throttle_args (phase : string) (rule : Rule) (cfg : ThrottleConfig) (ctx : EvaluationContext)
    (triggerType : string) : M (string * Z) :=
  key ← resolveThrottleKey cfg ctx triggerType;
  mret (ThrottleKey phase (r_index rule) key, default 0%Z (ParseDuration (th_Window cfg))).

Definition trigger_allows (rule : Rule) (ctx : EvaluationContext) (triggerType : string) : PM bool :=
  match getTriggerThrottle rule with
  | None => mret true
  | Some cfg => '(key, window) ← lift (throttle_args "t" rule cfg ctx triggerType); allow key window
  end.

(** [None]: suppressed; [Some spec]: to be carried out, held when [spec] is. *)
Definition action_gate (rule : Rule) (ctx : EvaluationContext) (triggerType : string) : PM (option (option DeferSpec)) :=
  match getActionThrottle rule with
  | None => mret (Some None)
  | Some cfg =>
      '(key, window) ← lift (throttle_args "a" rule cfg ctx triggerType);
      if IsTrailing (Some cfg) then mret (Some (Some (MkDeferSpec key window)))
      else ok ← allow key window; mret (M:=PM) (if (ok : bool) then Some None else None)
  end.

Definition stamp (spec : DeferSpec) (a : Action) : Action :=
  MkAction (a_NATS a) (a_HTTP a) (a_Respond a) (Some spec).

(** One rule: nothing, or its actions and where they go. *)
Definition evaluate_rule (rule : Rule) (ctx : EvaluationContext) (triggerType : string)
    : PM (option (option DeferSpec * list Action)) :=
  go ← trigger_allows rule ctx triggerType;
  if negb go then mret None
  else
    holds ← lift (EvaluateOpt ctx (r_Conditions rule));
    if negb holds then mret None
    else
      gate ← action_gate rule ctx triggerType;
      match gate with
      | None => mret None
      | Some deferSpec =>
          p ← getP;
          actionResults ← lift (processAction (p_maxForEachIters p) (r_Action rule) ctx);
          match actionResults with
          | Err _ | Ok [] => mret None
          | Ok results => mret (Some (deferSpec, results))
          end
      end.

Definition add_results (out : Outcome) (deferSpec : option DeferSpec) (results : list Action) : Outcome :=
  match deferSpec with
  | None => MkOutcome (o_Immediate out ++ results)%list (o_Deferred out)
  | Some spec =>
      MkOutcome (o_Immediate out)
        (o_Deferred out ++ [MkDeferredBatch (ds_Key spec) (ds_Window spec) (map (stamp spec) results)])%list
  end.

Fixpoint evaluate_loop (rules : list Rule) (ctx : EvaluationContext) (triggerType : string)
    (out : Outcome) (matched : bool) : PM (Outcome * bool) :=
  match rules with
  | [] => mret (out, matched)
  | rule :: rest =>
      r ← evaluate_rule rule ctx triggerType;
      match r with
      | None => evaluate_loop rest ctx triggerType out matched
      | Some (deferSpec, results) =>
          evaluate_loop rest ctx triggerType (add_results out deferSpec results) true
      end
  end.

Definition evaluateRules (rules : list Rule) (ctx : EvaluationContext) (triggerType : string) : PM Outcome :=
  r ← evaluate_loop rules ctx triggerType (MkOutcome [] []) false;
  let '(out, matched) := r : Outcome * bool in
  p ← getP;
  let '(MkProcessorStats pr ma er) := p_stats p in
  _ ← putP (set_stats p (MkProcessorStats (incr pr 1) (if matched then incr ma 1 else ma) er));
  mret out.

(** ** Entry points *)

Definition noOutcome : Outcome := MkOutcome [] [].

(** A context for the message, fresh, with the time of its provider; an error is
    counted. *)
Definition with_context (payload : string) (headers : list (string * string)) (subjectCtx : option SubjectContext)
    (httpCtx : option HTTPRequestContext) (sv : option SignatureVerification)
    (f : EvaluationContext → PM Outcome) : PM (result context_error Outcome) :=
  p ← getP;
  timeCtx ← lift (CurrentContext (p_timeProvider p));
  match NewEvaluationContext payload headers subjectCtx httpCtx timeCtx (p_kvContext p) sv with
  | Err e =>
      let '(MkProcessorStats pr ma er) := p_stats p in
      _ ← putP (set_stats p (MkProcessorStats pr ma (incr er 1)));
      mret (Err e)
  | Ok context =>
      _ ← lift (set_sig (MkSig false false ""));
      out ← f context; mret (M:=PM) (Ok (E:=context_error) out)
  end.

Definition processNATSFiltered (subject payload : string) (headers : list (string * string))
    (filter_ : option NATSTriggerFilter) : PM (result context_error Outcome) :=
  p ← getP;
  let subjectCtx := NewSubjectContext subject in
  let '(found, index) := FindAllMatchingTokenized (p_index p) subject (sc_Tokens subjectCtx) in
  _ ← putP (set_index p index);
  let rules := filterNATSRules found filter_ in
  if (length rules =? 0)%nat then mret (Ok noOutcome)
  else with_context payload headers (Some subjectCtx) None (p_sigVerification p)
         (λ context, evaluateRules rules context "nats").

Definition ProcessNATS (subject payload : string) (headers : list (string * string)) : PM (result context_error Outcome) :=
  processNATSFiltered subject payload headers None.

Definition ProcessForSubscription (triggerSubject messageSubject payload : string)
    (headers : list (string * string)) (filter_ : option NATSTriggerFilter) : PM (result context_error Outcome) :=
  p ← getP;
  match p_kvRuleSet p with
  | None => processNATSFiltered messageSubject payload headers filter_
  | Some set =>
      let rules := default [] (ks_NATS set !! triggerSubject) in
      if (length rules =? 0)%nat then processNATSFiltered messageSubject payload headers filter_
      else
        let rules := filterNATSRules rules filter_ in
        if (length rules =? 0)%nat then mret (Ok noOutcome)
        else with_context payload headers (Some (NewSubjectContext messageSubject)) None (p_sigVerification p)
               (λ context, evaluateRules rules context "nats")
  end.

Definition ProcessSchedule (rule : Rule) : PM (result context_error Outcome) :=
  with_context "" [] None None None (λ context, evaluateRules [rule] context "schedule").

Definition ProcessHTTP (path method payload : string) (headers : list (string * string)) (query : QueryParams)
    : PM (result context_error Outcome) :=
  p ← getP;
  let rules := findHTTPRules p path method in
  if (length rules =? 0)%nat then mret (Ok noOutcome)
  else with_context payload headers None (Some (NewHTTPRequestContext path method query)) (p_sigVerification p)
         (λ context, evaluateRules rules context "http").

(** *** Inbound signatures *)

Context `{Crypto}.

Definition secretToString (v : value) : string :=
  match v with VStr s => s | VNil => "" | _ => sprint v end.

Definition is_kv_secret (secret : string) : bool := HasPrefix secret "{@kv." && HasSuffix secret "}".

Definition resolveHMACSecret (p : Processor) (secret : string) : M (option string) :=
  if is_kv_secret secret then
    match p_kvContext p with
    | None => mret None
    | Some kv =>
        val ← FieldWithContext kv (inner secret) ∅ None None;
        mret match val with
             | None => None
             | Some v => let s := secretToString v in if String.eqb s "" then None else Some s
             end
    end
  else mret (if String.eqb secret "" then None else Some secret).

Definition check_rule (p : Processor) (cfg : HMACConfig) (body : string) (headers : gmap string string)
    : M hmac_result :=
  secret ← resolveHMACSecret p (hm_Secret cfg);
  match secret with
  | None => mret hmacError
  | Some secret => now ← lift_world time_Now; mret (verifyHMAC cfg secret body headers now)
  end.

Fixpoint check_loop (p : Processor) (body : string) (headers : gmap string string) (required : bool)
    (rules : list Rule) : M (bool * bool) :=
  match rules with
  | [] => mret (required, true)
  | rule :: rest =>
      match (t ← tr_HTTP (r_Trigger rule); ht_HMAC t) with
      | None => check_loop p body headers required rest
      | Some cfg =>
          result ← check_rule p cfg body headers;
          if negb (hmac_result_eqb result hmacValid) then mret (true, false)
          else check_loop p body headers true rest
      end
  end.

(** Whether a signature is required, and whether the request satisfies every
    rule that requires one. *)
Definition CheckHTTPHMAC (p : Processor) (path method body : string) (headers : gmap string string)
    : M (bool * bool) :=
  check_loop p body headers false (findHTTPRules p path method).
End processing.

(** ** Specification *)

(** An outcome is well formed: what fires now carries no hold, every batch holds
    something, and each of its actions carries the key and window of its batch. *)
Record outcome_ok (out : Outcome) : Prop := {
  oo_immediate : Forall undeferred (o_Immediate out);
  oo_batches : Forall (λ b, db_Actions b ≠ [] ∧
    Forall (λ a, a_Defer a = Some (MkDeferSpec (db_Key b) (db_Window b))) (db_Actions b)) (o_Deferred out);
}.

(** The rules of a rule set, in the order in which they are numbered. *)
Definition all_rules (set : KVRuleSet) : list Rule :=
  (concat (map snd (map_to_list (ks_NATS set))) ++
   concat (map snd (map_to_list (hk_Exact (ks_HTTP set)))) ++
   map hp_Rule (hk_Patterns (ks_HTTP set)) ++ ks_Schedule set)%list.

(** A numbering in use: positive numbers up to [seq], no two rules share one;
    zero is for the rules not numbered yet. *)
Definition numbered (seq : Z) (rules : list Rule) : Prop :=
  Forall (λ r, 0 ≤ r_index r ≤ seq)%Z rules ∧
  NoDup (List.filter (λ i, negb (i =? 0)%Z) (map r_index rules)).

(** ** Lemmas *)

Lemma add_results_ok out spec results :
  outcome_ok out → results ≠ [] → Forall undeferred results → outcome_ok (add_results out spec results).
Proof.
  intros [Hi Hb] Hne Hr. destruct spec as [spec|]; split; cbn; try done.
  - apply Forall_app. split; [done|]. repeat constructor; cbn.
    + by destruct results.
    + apply Forall_map, Forall_true. by destruct spec.
  - by apply Forall_app.
Qed.

Section outcomes.
Context `{Env}.

Lemma evaluate_rule_results rule ctx triggerType s :
  match (evaluate_rule rule ctx triggerType s).1 with
  | Some (_, results) => results ≠ [] ∧ Forall undeferred results
  | None => True
  end.
Proof.
  unfold evaluate_rule, lift, getP, mbind, PM_bind. cbn.
  destruct (trigger_allows rule ctx triggerType s) as [[] s1]; cbn; [|done].
  destruct (EvaluateOpt ctx (r_Conditions rule) s1.2) as [[] st2]; cbn; [|done].
  destruct (action_gate rule ctx triggerType (s1.1, st2)) as [[spec|] s3]; cbn; [|done].
  pose proof (processAction_undeferred (p_maxForEachIters s3.1) (r_Action rule) ctx s3.2) as Hu.
  destruct (processAction (p_maxForEachIters s3.1) (r_Action rule) ctx s3.2) as [[[|a l]|e] st4]; cbn; try done.
  split; [done|]. by apply Hu.
Qed.

Lemma evaluate_loop_ok rules ctx triggerType out matched s :
  outcome_ok out → outcome_ok (evaluate_loop rules ctx triggerType out matched s).1.1.
Proof.
  revert out matched s; induction rules as [|rule rules IH]; intros out matched s Hout; [done|].
  cbn [evaluate_loop]. unfold mbind, PM_bind. pose proof (evaluate_rule_results rule ctx triggerType s) as Hr.
  destruct (evaluate_rule rule ctx triggerType s) as [[[spec results]|] s']; cbn in Hr; [|by apply IH].
  apply IH. destruct Hr. by apply add_results_ok.
Qed.
End outcomes.

Lemma filterNATSRules_filter rules f :
  filterNATSRules rules (Some f) =
  List.filter (λ r, match tr_NATS (r_Trigger r) with Some t => f t | None => false end) rules.
Proof.
  unfold filterNATSRules. destruct (Nat.eqb_spec (length (List.filter
    (λ r, match tr_NATS (r_Trigger r) with Some t => f t | None => false end) rules)) (length rules)); [|done].
  symmetry. by apply filterb_length_all.
Qed.

Lemma filter_complement {A} (p q : A → bool) l :
  (∀ x, x ∈ l → q x = negb (p x)) → (List.filter p l ++ List.filter q l)%list ≡ₚ l.
Proof.
  induction l as [|x l IH]; intros Hpq; [done|]. simpl. rewrite (Hpq x) by set_solver.
  assert ((List.filter p l ++ List.filter q l)%list ≡ₚ l) as IH' by (apply IH; set_solver).
  destruct (p x); cbn; [by rewrite IH'|]. by rewrite <- Permutation_middle, IH'.
Qed.

(** *** Numbering *)

Lemma number_list_app seq l k :
  number_list seq (l ++ k) =
    let '(seq1, l') := number_list seq l in let '(seq2, k') := number_list seq1 k in (seq2, (l' ++ k')%list).
Proof.
  revert seq; induction l as [|r l IH]; intros seq; cbn [number_list app]; [by destruct (number_list seq k)|].
  destruct (number_rule seq r) as [seq1 r']. rewrite IH. destruct (number_list seq1 l) as [seq2 l'].
  by destruct (number_list seq2 k).
Qed.

Lemma number_entries_list seq entries :
  (number_entries seq entries).1 = (number_list seq (concat (map snd entries))).1 ∧
  concat (map snd (number_entries seq entries).2) = (number_list seq (concat (map snd entries))).2 ∧
  map fst (number_entries seq entries).2 = map fst entries.
Proof.
  revert seq; induction entries as [|[k rs] entries IH]; intros seq; [done|].
  cbn [number_entries map concat snd fst]. rewrite number_list_app.
  destruct (number_list seq rs) as [seq1 rs']. destruct (IH seq1) as (H1 & H2 & H3).
  destruct (number_entries seq1 entries) as [seq2 entries'].
  destruct (number_list seq1 (concat (map snd entries))) as [seq3 l]. cbn in *.
  split_and!; [done|by f_equal|by f_equal].
Qed.

Lemma number_map_list seq m :
  (number_map seq m).1 = (number_list seq (concat (map snd (map_to_list m)))).1 ∧
  concat (map snd (map_to_list (number_map seq m).2)) ≡ₚ (number_list seq (concat (map snd (map_to_list m)))).2.
Proof.
  unfold number_map. destruct (number_entries_list seq (map_to_list m)) as (H1 & H2 & H3).
  destruct (number_entries seq (map_to_list m)) as [seq' entries]. cbn in *. split; [done|].
  rewrite <- H2. rewrite map_to_list_to_map; [done|].
  change (NoDup (map fst entries)). rewrite H3. apply NoDup_fst_map_to_list.
Qed.

Lemma number_patterns_list seq prs :
  (number_patterns seq prs).1 = (number_list seq (map hp_Rule prs)).1 ∧
  map hp_Rule (number_patterns seq prs).2 = (number_list seq (map hp_Rule prs)).2.
Proof.
  revert seq; induction prs as [|[r m] prs IH]; intros seq; [done|]. cbn [number_patterns map hp_Rule number_list].
  destruct (number_rule seq r) as [seq1 r']. destruct (IH seq1) as [H1 H2].
  destruct (number_patterns seq1 prs), (number_list seq1 (map hp_Rule prs)). cbn in *. by subst.
Qed.

(** What numbering a list keeps: numbers given earlier stay, new ones are fresh. *)
Lemma number_list_spec seq rules :
  numbered seq rules → (0 ≤ seq)%Z →
  let '(seq', rules') := number_list seq rules in
  (seq ≤ seq')%Z ∧ length rules' = length rules ∧
  Forall (λ r, 1 ≤ r_index r ≤ seq')%Z rules' ∧ NoDup (map r_index rules') ∧
  Forall2 (λ r r', r_index r ≠ 0%Z → r' = r) rules rules' ∧
  Forall (λ i, (seq < i ≤ seq')%Z ∨ i ∈ map r_index rules) (map r_index rules').
Proof.
  revert seq; induction rules as [|r rules IH]; intros seq [Hr Hnd] Hseq; cbn [number_list].
  { split_and!; try constructor; lia. }
  apply Forall_cons in Hr as [Hr Hrs]. unfold number_rule.
  destruct (Z.eqb_spec (r_index r) 0) as [E|E].
  - assert (numbered (seq + 1) rules) as Hn.
    { split; [eapply Forall_impl; [exact Hrs|]; cbn; lia|]. cbn in Hnd. by rewrite E in Hnd. }
    specialize (IH (seq + 1)%Z Hn ltac:(lia)).
    destruct (number_list (seq + 1) rules) as [seq' rules'].
    destruct IH as (Hs & Hl & Hf & Hd & H2 & Hi). split_and!.
    + lia.
    + simpl. by rewrite Hl.
    + constructor; [cbn; lia|done].
    + cbn. constructor; [|done]. intros Hin. rewrite Forall_forall in Hi.
      destruct (Hi _ Hin) as [?|Hin']; [lia|]. apply list_elem_of_fmap in Hin' as (r0 & Heq & Hin').
      rewrite Forall_forall in Hrs. specialize (Hrs r0 Hin'). cbn in Hrs. lia.
    + constructor; [done|done].
    + cbn. constructor; [left; lia|]. eapply Forall_impl; [exact Hi|]. cbn. intros i [?|?]; [left; lia|right; set_solver].
  - cbn in Hnd. replace (r_index r =? 0)%Z with false in Hnd by lia. cbn in Hnd.
    apply NoDup_cons in Hnd as [Hni Hnd].
    specialize (IH seq (conj Hrs Hnd) Hseq). destruct (number_list seq rules) as [seq' rules'].
    destruct IH as (Hs & Hl & Hf & Hd & H2 & Hi). split_and!.
    + done.
    + simpl. by rewrite Hl.
    + constructor; [lia|done].
    + cbn. constructor; [|done]. intros Hin. rewrite Forall_forall in Hi.
      destruct (Hi _ Hin) as [?|Hin']; [lia|]. apply Hni. apply elem_of_filterb. split; [|done].
      by apply negb_true_iff, Z.eqb_neq.
    + constructor; [done|done].
    + cbn. constructor; [right; set_solver|]. eapply Forall_impl; [exact Hi|]. cbn. intros i [?|?]; [by left|right; set_solver].
Qed.

Lemma ReplaceKVRuleSet_rules p set :
  ∃ set', p_kvRuleSet (ReplaceKVRuleSet p set) = Some set' ∧
    p_kvRuleSeq (ReplaceKVRuleSet p set) = (number_list (p_kvRuleSeq p) (all_rules set)).1 ∧
    all_rules set' ≡ₚ (number_list (p_kvRuleSeq p) (all_rules set)).2.
Proof.
  unfold ReplaceKVRuleSet, all_rules. rewrite !number_list_app.
  destruct (number_map_list (p_kvRuleSeq p) (ks_NATS set)) as [A1 A2].
  destruct (number_map (p_kvRuleSeq p) (ks_NATS set)) as [s1 nats].
  destruct (number_list (p_kvRuleSeq p) _) as [s1' l1]. cbn in A1, A2. subst s1'.
  rewrite !number_list_app.
  destruct (number_map_list s1 (hk_Exact (ks_HTTP set))) as [B1 B2].
  destruct (number_map s1 (hk_Exact (ks_HTTP set))) as [s2 exact].
  destruct (number_list s1 _) as [s2' l2]. cbn in B1, B2. subst s2'. rewrite number_list_app.
  destruct (number_patterns_list s2 (hk_Patterns (ks_HTTP set))) as [C1 C2].
  destruct (number_patterns s2 _) as [s3 patterns]. destruct (number_list s2 _) as [s3' l3]. cbn in C1, C2. subst s3' l3.
  destruct (number_list s3 (ks_Schedule set)) as [s4 schedule].
  eexists. split; [done|]. split; [done|]. cbn. by rewrite A2, B2.
Qed.

(** ** Properties *)

(** C6: Whatever the rules and the state, an evaluation returns an outcome in which the
    actions to run now are not marked as held, no held batch is empty, and each
    held action carries the key and the window its batch is held under. *)
Theorem evaluateRules_outcome `{Env} rules ctx triggerType s :
  outcome_ok (evaluateRules rules ctx triggerType s).1.
Proof.
  unfold evaluateRules, mbind, PM_bind.
  pose proof (evaluate_loop_ok rules ctx triggerType noOutcome false s) as Hok.
  change (MkOutcome [] []) with noOutcome.
  destruct (evaluate_loop rules ctx triggerType noOutcome false s) as [[out matched] s'].
  cbn [getP]. unfold getP. destruct (p_stats s'.1) as [pr ma er]. cbn. apply Hok. split; constructor.
Qed.

(** The two transports split the rules of a subject: each rule with a NATS trigger
    passes exactly one of the two filters, so a message delivered once by each
    fires every rule once; and within a transport the order is kept. *)
Theorem transports_partition rules :
  Forall (λ r, tr_NATS (r_Trigger r) ≠ None) rules →
  (filterNATSRules rules (Some JetStreamRuleFilter) ++ filterNATSRules rules (Some CoreRuleFilter))%list ≡ₚ rules ∧
  (∀ r, r ∈ filterNATSRules rules (Some JetStreamRuleFilter) → r ∉ filterNATSRules rules (Some CoreRuleFilter)) ∧
  filterNATSRules rules (Some JetStreamRuleFilter) `sublist_of` rules.
Proof.
  intros Hr. rewrite !filterNATSRules_filter. split_and!.
  - apply filter_complement. intros r Hin. rewrite Forall_forall in Hr. specialize (Hr r Hin).
    destruct (tr_NATS (r_Trigger r)); [|done]. unfold JetStreamRuleFilter, CoreRuleFilter. by rewrite negb_involutive.
  - intros r. rewrite !elem_of_filterb. intros [Hj _] [Hc _].
    destruct (tr_NATS (r_Trigger r)); [|done]. unfold JetStreamRuleFilter, CoreRuleFilter in *. by rewrite Hc in Hj.
  - clear. induction rules as [|r rules IH]; [done|]. simpl. case_match; by constructor.
Qed.

Lemma transports_partition_witness :
  let rules := [demo_rule "a.b";
    MkRule "" (MkTrigger (Some (MkNATSTrigger "a.b" None None ModeCore false "")) None None) None (MkAction None None None None) 1] in
  (filterNATSRules rules (Some JetStreamRuleFilter) ++ filterNATSRules rules (Some CoreRuleFilter))%list ≡ₚ rules ∧
  (∀ r, r ∈ filterNATSRules rules (Some JetStreamRuleFilter) → r ∉ filterNATSRules rules (Some CoreRuleFilter)) ∧
  filterNATSRules rules (Some JetStreamRuleFilter) `sublist_of` rules.
Proof. intros rules. apply (transports_partition rules). by repeat constructor. Defined.

(** The gateway's early check and the lookup agree: a route is found for a path
    exactly when some rule would be evaluated for it with some method, and a
    synchronous rule only exists where a route does. *)
Theorem MatchHTTPPath_agrees p path :
  (HasHTTPPath p path = true ↔ findHTTPRules p path "" ≠ []) ∧
  (∀ method, HasSyncHTTPPath p path method = true → HasHTTPPath p path = true).
Proof.
  assert (∀ exact patterns, match_in exact patterns path = None ↔ rules_in exact patterns path = []) as Hin.
  { intros exact patterns. unfold match_in, rules_in. destruct (default [] (exact !! path)) as [|r l]; [|done].
    cbn. induction patterns as [|pr patterns IH]; [done|]. cbn. by destruct (MatchPath (hp_Matcher pr) path). }
  assert (HasHTTPPath p path = true ↔ findHTTPRules p path "" ≠ []) as Hpath.
  { unfold HasHTTPPath, MatchHTTPPath, findHTTPRules. cbn [String.eqb].
    pose proof (Hin (p_httpExactPaths p) (p_httpPatternRules p)) as Hf.
    destruct (match_in (p_httpExactPaths p) (p_httpPatternRules p) path) as [route|].
    { destruct (rules_in (p_httpExactPaths p) (p_httpPatternRules p) path); [naive_solver|done]. }
    rewrite (proj1 Hf eq_refl). destruct (p_kvRuleSet p) as [set|]; [|done]. cbn [app].
    specialize (Hin (hk_Exact (ks_HTTP set)) (hk_Patterns (ks_HTTP set))).
    destruct (match_in _ _ path); naive_solver. }
  split; [done|]. intros method. unfold HasSyncHTTPPath. rewrite existsb_True. intros (r & Hr & _).
  apply Hpath. intros He. unfold findHTTPRules in *. cbn [String.eqb] in He. rewrite He in Hr.
  destruct (String.eqb method ""); set_solver.
Qed.

(** C26: Every rule of a set loaded from the key-value store gets a number of its own,
    and keeps it: numbers are positive and never shared, a rule numbered before
    is unchanged, and new rules get numbers never used.  So no throttle window
    of one rule can suppress another. *)
Theorem ReplaceKVRuleSet_numbering p set :
  numbered (p_kvRuleSeq p) (all_rules set) → (0 ≤ p_kvRuleSeq p)%Z →
  ∃ set', p_kvRuleSet (ReplaceKVRuleSet p set) = Some set' ∧
    (p_kvRuleSeq p ≤ p_kvRuleSeq (ReplaceKVRuleSet p set))%Z ∧
    length (all_rules set') = length (all_rules set) ∧
    NoDup (map r_index (all_rules set')) ∧
    Forall (λ r, 1 ≤ r_index r ≤ p_kvRuleSeq (ReplaceKVRuleSet p set))%Z (all_rules set') ∧
    (∀ r, r ∈ all_rules set → r_index r ≠ 0%Z → r ∈ all_rules set') ∧
    (∀ r, r ∈ all_rules set' → r_index r ∈ map r_index (all_rules set) ∨ (p_kvRuleSeq p < r_index r)%Z).
Proof.
  intros Hn Hs. destruct (ReplaceKVRuleSet_rules p set) as (set' & Hset & Hseq & Hperm).
  exists set'. split; [done|]. rewrite Hseq. pose proof (number_list_spec (p_kvRuleSeq p) (all_rules set) Hn Hs) as Hspec.
  destruct (number_list (p_kvRuleSeq p) (all_rules set)) as [seq' rules']. cbn in Hseq, Hperm |- *.
  destruct Hspec as (H1 & H2 & H3 & H4 & H5 & H6). split_and!.
  - done.
  - by rewrite Hperm.
  - by rewrite Hperm.
  - by rewrite Hperm.
  - intros r Hr Hne. rewrite Hperm. apply list_elem_of_lookup in Hr as [i Hi].
    destruct (Forall2_lookup_l _ _ _ _ _ H5 Hi) as (r' & Hi' & Heq). rewrite Heq in Hi' by done.
    by eapply list_elem_of_lookup_2.
  - intros r Hr. rewrite Hperm in Hr. rewrite Forall_forall in H6.
    destruct (H6 (r_index r)) as [?|?]; [by apply list_elem_of_fmap_2 | right; lia | by left].
Qed.

Lemma ReplaceKVRuleSet_numbering_witness :
  let p := NewProcessor None None None (MkTime 0 0) in
  let set := MkKVRuleSet {["a.b" := [demo_rule "a.b"; demo_rule "a.b"]]} (MkHTTPKVRuleSet ∅ []) [] in
  ∃ set', p_kvRuleSet (ReplaceKVRuleSet p set) = Some set' ∧
    (p_kvRuleSeq p ≤ p_kvRuleSeq (ReplaceKVRuleSet p set))%Z ∧
    length (all_rules set') = length (all_rules set) ∧
    NoDup (map r_index (all_rules set')) ∧
    Forall (λ r, 1 ≤ r_index r ≤ p_kvRuleSeq (ReplaceKVRuleSet p set))%Z (all_rules set') ∧
    (∀ r, r ∈ all_rules set → r_index r ≠ 0%Z → r ∈ all_rules set') ∧
    (∀ r, r ∈ all_rules set' → r_index r ∈ map r_index (all_rules set) ∨ (p_kvRuleSeq p < r_index r)%Z).
Proof.
  intros p set. apply (ReplaceKVRuleSet_numbering p set); [|done].
  change (numbered 0 [demo_rule "a.b"; demo_rule "a.b"]). split; [by repeat constructor|]. cbn. constructor.
Defined.

(** ** Loading *)

Definition has_path (path : string) (r : Rule) : bool :=
  match tr_HTTP (r_Trigger r) with
  | Some h => negb (PathContainsWildcards (ht_Path h)) && String.eqb (ht_Path h) path
  | None => false
  end.

Definition has_path_pattern (path : string) (r : Rule) : bool :=
  match tr_HTTP (r_Trigger r) with
  | Some h => PathContainsWildcards (ht_Path h) && tmatch (pathTokens (ht_Path h)) (pathTokens path)
  | None => false
  end.

Definition has_schedule (r : Rule) : bool :=
  match tr_Schedule (r_Trigger r) with Some _ => true | None => false end.

(** A wildcard path of the rule is well formed. *)
Definition loadable (r : Rule) : bool :=
  match tr_HTTP (r_Trigger r) with
  | Some h => negb (PathContainsWildcards (ht_Path h)) || is_ok (ValidatePathPattern (ht_Path h))
  | None => true
  end.

Fixpoint numbered_from (i : Z) (rules : list Rule) : list Rule :=
  match rules with [] => [] | r :: rest => prepared_rule i r :: numbered_from (i + 1) rest end.

(** The lists of a processor are those of the rules loaded so far. *)
Record holds_rules (now : Time) (p : Processor) (loaded : list Rule) : Prop := {
  hr_all : p_allRules p = loaded;
  hr_schedule : p_scheduleRules p = List.filter has_schedule loaded;
  hr_index : p_index p = AddAll NewIndex (map (λ r, (r, now)) loaded);
  hr_http : ∀ path, rules_in (p_httpExactPaths p) (p_httpPatternRules p) path =
    (List.filter (has_path path) loaded ++ List.filter (has_path_pattern path) loaded)%list;
}.

Lemma index_http_spec p i r :
  match index_http p i r with
  | Err _ => loadable r = false
  | Ok p' => loadable r = true ∧
      p_allRules p' = p_allRules p ∧ p_scheduleRules p' = p_scheduleRules p ∧ p_index p' = p_index p ∧
      (∀ path, default [] (p_httpExactPaths p' !! path) =
        (default [] (p_httpExactPaths p !! path) ++ if has_path path r then [r] else [])%list) ∧
      (∀ path, map hp_Rule (List.filter (λ pr, MatchPath (hp_Matcher pr) path) (p_httpPatternRules p')) =
        (map hp_Rule (List.filter (λ pr, MatchPath (hp_Matcher pr) path) (p_httpPatternRules p))
         ++ if has_path_pattern path r then [r] else [])%list)
  end.
Proof.
  unfold index_http, loadable, has_path, has_path_pattern.
  destruct (tr_HTTP (r_Trigger r)) as [h|]; [|by split_and!; try done; intros path; rewrite app_nil_r].
  destruct (PathContainsWildcards (ht_Path h)) eqn:Ew; cbn [negb andb orb].
  - destruct (NewPathMatcher (ht_Path h)) as [pm|e] eqn:Epm; unfold NewPathMatcher in Epm.
    + destruct (ValidatePathPattern (ht_Path h)) eqn:Ev; [|done]. injection Epm as <-.
      apply ValidatePathPattern_Ok in Ev as [_ Hv]. split_and!; try done; intros path; cbn; [by rewrite app_nil_r|].
      rewrite List.filter_app, map_app. f_equal. cbn. unfold MatchPath. rewrite MatchTokens_spec by apply Hv.
      by destruct (tmatch _ _).
    + by destruct (ValidatePathPattern (ht_Path h)).
  - split_and!; try done; intros path; cbn; [|by rewrite app_nil_r].
    destruct (String.eqb_spec (ht_Path h) path) as [<-|Hne].
    + by rewrite lookup_insert_eq.
    + rewrite lookup_insert_ne by done. by rewrite app_nil_r.
Qed.

(** Adding a rule without a NATS trigger changes nothing. *)
Lemma Add_indexes idx r now :
  match tr_NATS (r_Trigger r) with Some _ => Add idx (Some r) now | None => idx end = Add idx (Some r) now.
Proof. unfold Add. by destruct (tr_NATS (r_Trigger r)). Qed.

Lemma load_rule_spec now p i r loaded :
  holds_rules now p loaded →
  (∀ path, default [] (p_httpExactPaths p !! path) = List.filter (has_path path) loaded) →
  match load_rule now p i r with
  | Err _ => loadable r = false
  | Ok p' => loadable r = true ∧ holds_rules now p' (loaded ++ [prepared_rule i r])%list ∧
      (∀ path, default [] (p_httpExactPaths p' !! path) = List.filter (has_path path) (loaded ++ [prepared_rule i r])%list)
  end.
Proof.
  intros [Ha Hs Hi Hh] Hx. unfold load_rule.
  set (q := MkProcessor _ _ _ _ _ _ _ _ _ _ _ _ _).
  assert (loadable (prepared_rule i r) = loadable r) as Hload by done.
  pose proof (index_http_spec q i (prepared_rule i r)) as Hq.
  destruct (index_http q i (prepared_rule i r)) as [p'|e]; cbn [mbind result_bind]; [|by rewrite <- Hload].
  destruct Hq as (Hl & Hall & Hsch & Hidx & Hex & Hpat). rewrite Hload in Hl.
  assert (∀ path, default [] (p_httpExactPaths p' !! path) =
    List.filter (has_path path) (loaded ++ [prepared_rule i r])%list) as Hx'.
  { intros path. rewrite Hex, List.filter_app. cbn. rewrite Hx. by destruct (has_path path (prepared_rule i r)). }
  split; [done|]. split; [|done]. split; cbn.
  - rewrite Hall. cbn. by rewrite Ha.
  - rewrite Hsch. cbn [p_scheduleRules q]. rewrite Hs, List.filter_app. cbn [List.filter].
    change (has_schedule (prepared_rule i r)) with
      (match tr_Schedule (r_Trigger r) with Some _ => true | None => false end).
    cbn. destruct (tr_Schedule (r_Trigger r)); [done|]. by rewrite app_nil_r.
  - rewrite Hidx. unfold AddAll. rewrite map_app, foldl_app. cbn [map foldl fst snd].
    fold (AddAll NewIndex (map (λ r, (r, now)) loaded)). rewrite <- Hi.
    rewrite <- Add_indexes. done.
  - intros path. unfold rules_in. rewrite Hx', Hpat, List.filter_app. cbn.
    specialize (Hh path). unfold rules_in in Hh. rewrite Hx in Hh. apply app_inv_head in Hh. rewrite Hh.
    rewrite List.filter_app. cbn. by destruct (has_path_pattern path (prepared_rule i r)).
Qed.

Lemma load_loop_spec now p i rules loaded :
  holds_rules now p loaded →
  (∀ path, default [] (p_httpExactPaths p !! path) = List.filter (has_path path) loaded) →
  match load_loop now p i rules with
  | Err _ => forallb loadable rules = false
  | Ok p' => forallb loadable rules = true ∧ holds_rules now p' (loaded ++ numbered_from i rules)%list
  end.
Proof.
  revert p i loaded; induction rules as [|r rules IH]; intros p i loaded Hp Hx; cbn [load_loop forallb numbered_from].
  { by rewrite app_nil_r. }
  pose proof (load_rule_spec now p i r loaded Hp Hx) as Hr.
  destruct (load_rule now p i r) as [p'|e]; cbn [mbind result_bind]; [|by rewrite Hr].
  destruct Hr as (-> & Hp' & Hx'). specialize (IH p' (i + 1)%Z _ Hp' Hx').
  destruct (load_loop now p' (i + 1)%Z rules); [|done]. by rewrite <- app_assoc in IH.
Qed.

(** Loading leaves the settings of the processor. *)
Lemma load_loop_keeps now p i rules p' : load_loop now p i rules = Ok p' →
  p_timeProvider p' = p_timeProvider p ∧ p_kvContext p' = p_kvContext p ∧ p_sigVerification p' = p_sigVerification p ∧
  p_throttle p' = p_throttle p ∧ p_maxForEachIters p' = p_maxForEachIters p ∧ p_kvRuleSet p' = p_kvRuleSet p.
Proof.
  revert p i. induction rules as [|r rest IH]; intros p i; cbn [load_loop]; [by intros [= <-]|].
  destruct (load_rule now p i r) as [p1|e] eqn:El; cbn [mbind result_bind]; [|done]. intros (-> & -> & -> & -> & -> & ->)%IH.
  revert El. unfold load_rule, index_http. destruct (tr_HTTP _) as [h|]; cbn; [|by intros [= <-]].
  destruct (PathContainsWildcards _); cbn; [|by intros [= <-]]. destruct (NewPathMatcher _); cbn; [|done]. by intros [= <-].
Qed.

(** Rules whose paths are well formed load into any processor. *)
Lemma loadable_loads now p rules : forallb loadable rules = true → is_ok (LoadRules now p rules) = true.
Proof.
  intros Hl. unfold LoadRules. set (q := MkProcessor _ _ _ _ _ _ _ _ _ _ _ _ _).
  pose proof (load_loop_spec now q 0 rules []) as H. destruct (load_loop now q 0 rules); [done|].
  rewrite H in Hl; [done| |]; [|intros path; cbn; by rewrite lookup_empty].
  split; [done|done|done|]. intros path. unfold rules_in. cbn. by rewrite lookup_empty.
Qed.

(** C15: [LoadRules] succeeds exactly when every wildcard path among the rules is well
    formed; then every rule is loaded once, numbered by its position, and found
    for the subjects and paths it matches and no others: rules of the exact
    subject or path first, then the matching wildcards, in loading order. *)
Theorem LoadRules_correct now p rules :
  match LoadRules now p rules with
  | Err _ => forallb loadable rules = false
  | Ok p' =>
      let loaded := numbered_from 0 rules in
      forallb loadable rules = true ∧
      p_allRules p' = loaded ∧ p_scheduleRules p' = List.filter has_schedule loaded ∧
      (∀ subject, (FindAllMatching (p_index p') subject).1 =
        (List.filter (has_subject subject) loaded ++ List.filter (has_pattern subject) loaded)%list) ∧
      (∀ path, rules_in (p_httpExactPaths p') (p_httpPatternRules p') path =
        (List.filter (has_path path) loaded ++ List.filter (has_path_pattern path) loaded)%list)
  end.
Proof.
  unfold LoadRules.
  set (q := MkProcessor _ _ _ _ _ _ _ _ _ _ _ _ _).
  assert (∀ path, default [] (p_httpExactPaths q !! path) = []) as Hx.
  { intros path. cbn. by rewrite lookup_empty. }
  assert (holds_rules now q []) as Hq.
  { split; [done|done|done|]. intros path. unfold rules_in. by rewrite Hx. }
  pose proof (load_loop_spec now q 0 rules [] Hq Hx) as Hl.
  destruct (load_loop now q 0 rules) as [p'|e]; [|done].
  destruct Hl as (H1 & [H2 H3 H4 H5]). cbn in *. split_and!; try done.
  intros subject. rewrite H4.
  destruct (AddAll_spec NewIndex (map (λ r, (r, now)) (numbered_from 0 rules)) (Forall_nil_2 _)) as (_ & He & Hp).
  unfold FindAllMatching, find_with. destruct (ix_stats _) as [el pc m lu]. cbn [fst].
  rewrite He, Hp, map_map. cbn. by rewrite map_id.
Qed.

(** ** Inbound signatures *)

Definition rule_hmac (r : Rule) : option HMACConfig := t ← tr_HTTP (r_Trigger r); ht_HMAC t.

(** The signatures the rules of a request declare, in the order of the rules. *)
Definition signatures (p : Processor) (path method : string) : list HMACConfig :=
  omap rule_hmac (findHTTPRules p path method).

(** The secret a configuration stands for in a state: itself, or what its key
    holds when it is read there; [st'] is the state after. *)
Definition resolves_to `{Env} (p : Processor) (cfg : HMACConfig) (secret : string) (st st' : St) : Prop :=
  secret ≠ "" ∧
  if is_kv_secret (hm_Secret cfg) then
    ∃ kv v, p_kvContext p = Some kv ∧ secretToString v = secret ∧
      FieldWithContext kv (inner (hm_Secret cfg)) ∅ None None st = (Some v, st')
  else secret = hm_Secret cfg ∧ st' = st.

Lemma resolveHMACSecret_resolves `{Env} p cfg secret st st' :
  resolveHMACSecret p (hm_Secret cfg) st = (Some secret, st') ↔ resolves_to p cfg secret st st'.
Proof.
  unfold resolveHMACSecret, resolves_to. destruct (is_kv_secret (hm_Secret cfg)).
  - destruct (p_kvContext p) as [kv|]; [|split; [done|by intros (_ & ? & ? & ? & _)]].
    unfold mbind, M_bind. destruct (FieldWithContext _ _ _ _ _ st) as [[v|] st1] eqn:E;
      [|split; [done|intros (_ & kv' & v' & [= <-] & _ & He); congruence]].
    unfold mret, M_ret. destruct (String.eqb_spec (secretToString v) "") as [Hs|Hs]; [split; [done|]|split].
    + intros (Hne & kv' & v' & [= <-] & Hv & He). congruence.
    + intros [= <- <-]. split; [done|]. by exists kv, v.
    + intros (Hne & kv' & v' & [= <-] & Hv & He). congruence.
  - unfold mret, M_ret. destruct (String.eqb_spec (hm_Secret cfg) "") as [Hs|Hs]; [split; [done|by intros (Hne & -> & _)]|].
    split; [by intros [= <- <-]|by intros (_ & -> & ->)].
Qed.

(** A signature passes: its secret resolves, the clock is read after that, and the
    request is authentic under the one at the time of the other. *)
Inductive signed_at `{Env} `{Crypto} (p : Processor) (body : string) (headers : gmap string string)
    (cfg : HMACConfig) (st : St) : St → Prop :=
| signed_by secret st1 now w :
    resolves_to p cfg secret st st1 → time_Now (st_world st1) = (now, w) →
    authentic cfg secret body headers now →
    signed_at p body headers cfg st (MkSt (st_sig st1) (st_parseCache st1) (st_localCache st1) (st_verifications st1) w).

(** All of them pass, each in the state the ones before left. *)
Inductive all_signed `{Env} `{Crypto} (p : Processor) (body : string) (headers : gmap string string) :
    list HMACConfig → St → St → Prop :=
| signed_none st : all_signed p body headers [] st st
| signed_one cfg cfgs st st1 st2 :
    signed_at p body headers cfg st st1 → all_signed p body headers cfgs st1 st2 →
    all_signed p body headers (cfg :: cfgs) st st2.

Lemma check_rule_valid `{Env} `{Crypto} p cfg body headers st st' :
  check_rule p cfg body headers st = (hmacValid, st') ↔ signed_at p body headers cfg st st'.
Proof.
  unfold check_rule, mbind, M_bind. split.
  - destruct (resolveHMACSecret _ _ _) as [[secret|] st1] eqn:E; [|done]. unfold lift_world.
    destruct (time_Now (st_world st1)) as [now w] eqn:Ew. cbn. intros [= Ha%verifyHMAC_authentic <-].
    apply resolveHMACSecret_resolves in E. destruct Ha. by eapply signed_by.
  - destruct 1 as [secret st1 now w Hr Hw Ha]. pose proof (proj1 Hr) as Hne.
    apply resolveHMACSecret_resolves in Hr. rewrite Hr. unfold lift_world. rewrite Hw. cbn.
    by rewrite (proj2 (verifyHMAC_authentic _ _ _ _ _) (conj Hne Ha)).
Qed.

Lemma check_loop_spec `{Env} `{Crypto} p body headers required rules st :
  let out := check_loop p body headers required rules st in
  out.1.1 = (required || bool_decide (omap rule_hmac rules ≠ []))%bool ∧
  if out.1.2 then all_signed p body headers (omap rule_hmac rules) st out.2
  else ∀ st', ¬ all_signed p body headers (omap rule_hmac rules) st st'.
Proof.
  cbv zeta. revert required st. induction rules as [|r rules IH]; intros required st; cbn [check_loop omap list_omap].
  { cbn. rewrite orb_false_r. split; [done|constructor]. }
  change (t ← tr_HTTP (r_Trigger r); ht_HMAC t) with (rule_hmac r).
  destruct (rule_hmac r) as [cfg|]; [|apply IH]. rewrite bool_decide_true, orb_true_r by done.
  unfold mbind, M_bind. destruct (check_rule p cfg body headers st) as [res st1] eqn:Ec.
  destruct (hmac_result_eqb res hmacValid) eqn:Er; cbn [negb].
  - assert (res = hmacValid) as -> by (by destruct res). specialize (IH true st1) as [-> IH]. split; [done|].
    destruct (check_loop _ _ _ _ _ _) as [[req [|]] st2]; cbn in *.
    + eapply signed_one; [by apply check_rule_valid|done].
    + intros st'. inversion 1 as [|? ? ? st1' ? Hs%check_rule_valid Hall]; subst. rewrite Ec in Hs.
      injection Hs as ->. by eapply IH.
  - split; [done|]. intros st'. inversion 1 as [|? ? ? st1' ? Hs%check_rule_valid Hall]; subst.
    rewrite Ec in Hs. by injection Hs as ->.
Qed.

Lemma CheckHTTPHMAC_gate `{Env} `{Crypto} p path method body headers st :
  let '(required, ok, st') := CheckHTTPHMAC p path method body headers st in
  required = bool_decide (signatures p path method ≠ []) ∧
  if ok then all_signed p body headers (signatures p path method) st st'
  else required = true ∧ ∀ st', ¬ all_signed p body headers (signatures p path method) st st'.
Proof.
  unfold CheckHTTPHMAC. pose proof (check_loop_spec p body headers false (findHTTPRules p path method) st) as Hl.
  destruct (check_loop _ _ _ _ _ _) as [[required ok] st']. destruct Hl as [Hr Hl]. cbn [fst snd orb] in Hr, Hl.
  fold (signatures p path method) in Hr, Hl. split; [done|]. destruct ok; [done|]. split; [|done].
  rewrite Hr. apply bool_decide_eq_true. intros Hn. rewrite Hn in Hl. by eapply Hl, signed_none.
Qed.

(** C30: The gateway's signature check fails closed.  A signature is required
    exactly when some rule for the path and method declares one.  The request
    passes exactly if it is authentic for every declaration, in the order of the
    rules, under the secret its configuration stands for when the check comes to
    it (not empty: itself, or what its key holds at that moment), and at the time
    the clock shows then; so an unset secret, an unreadable key, a configuration no
    scheme knows or a stale timestamp refuses it; and where no rule declares a
    signature nothing is refused. *)
Theorem CheckHTTPHMAC_fails_closed `{Env} `{Crypto} p path method body headers st :
  let '(required, ok, st') := CheckHTTPHMAC p path method body headers st in
  (required = true ↔ ∃ r cfg, r ∈ findHTTPRules p path method ∧ rule_hmac r = Some cfg) ∧
  if ok then all_signed p body headers (signatures p path method) st st'
  else required = true ∧ ∀ st', ¬ all_signed p body headers (signatures p path method) st st'.
Proof.
  pose proof (CheckHTTPHMAC_gate p path method body headers st) as Hg.
  destruct (CheckHTTPHMAC _ _ _ _ _ _) as [[required ok] st']. destruct Hg as [Hr Hg]. split; [|done].
  rewrite Hr, bool_decide_eq_true. split.
  - destruct (signatures p path method) as [|cfg l] eqn:Hs; [done|]. intros _.
    assert (cfg ∈ signatures p path method) as (r & Hin & Hc)%list_elem_of_omap by (rewrite Hs; by left). eauto.
  - intros (r & cfg & Hin & Hc) Hn. assert (cfg ∈ signatures p path method) as Hx by (apply list_elem_of_omap; eauto).
    rewrite Hn in Hx. by apply elem_of_nil in Hx.
Qed.
