(* ===== verification/Engine.v ===== *)
(** * What the engine computes (internal/rule/processor.go)

    A meaning for rules that does not mention caches, parsing states, the
    preparation of conditions and paths, or the order of evaluation: the outcome
    of a message is that of the rules whose trigger matches it and whose
    conditions hold, in order, every template replaced by what it denotes.  The
    engine is shown to compute it for rules as a file gives them, whose templates
    are plain and whose throttles hold back rather than drop, while the key-value
    store does not change and the caches agree with it. *)

From S2P Require Import Prelude GoStrings GoFloat GoTime Value Types TimeContext Traversal Env Demo.
From S2P Require Import Pattern PathMatcher KVContext Context Conditions Evaluator Random Template Merge Throttle Index Hmac Actions Processor.
Local Open Scope string_scope.

(** ** Plain templates *)

(** Texts without function calls, whose names are not nested too deep: any JSON
    around variables is one. *)
Definition plain (t : string) : bool := (levels (braces t) <=? 10)%nat && callless (braces t).

(** ** Actions *)

Section denotation.
Context `{Env}.
Variable snapshot : string → string → option string.
Variable maxForEachIters : Z.

Definition denote_template (t : string) (c : EvaluationContext) : string :=
  denote_text snapshot c (braces t).

Definition denote_opt (c : EvaluationContext) (conditions : option Conditions) : bool :=
  match conditions with None => true | Some cs => denote snapshot c cs end.

Definition denote_merge (template : string) (base : gmap string value) (c : EvaluationContext) : result action_error string :=
  overlay ← of_option OverlayNotObject (json_unmarshal_map (denote_template template c));
  safeMarshal (VObj (deepMerge base overlay)).

Definition denote_payload (passthrough merge : bool) (template : string) (c : EvaluationContext) : result action_error resolvedPayload :=
  if passthrough then Ok (MkResolvedPayload "" (ctx_RawPayload c) true)
  else if merge then merged ← denote_merge template (ctx_Msg c) c; Ok (MkResolvedPayload "" merged true)
  else Ok (MkResolvedPayload (denote_template template c) "" false).

Definition denote_headers (headers : gmap string string) (c : EvaluationContext) : gmap string string :=
  (λ t, denote_template t c) <$> headers.

(** The array of a [forEach]. *)
Definition denote_elements (template : string) (c : EvaluationContext) : result action_error (list value) :=
  let fieldPath := ExtractVariable template in
  if String.eqb fieldPath "" then Err (InvalidForEachTemplate template)
  else
    v ← (if HasPrefix fieldPath "@" then of_option (ForEachSystemFieldNotFound template) (denote_variable snapshot c fieldPath)
         else arrayPath ← map_err InvalidForEachPath (SplitPathRespectingBraces fieldPath);
              map_err ForEachFieldNotFound (TraversePath (VObj (ctx_Msg c)) arrayPath));
    match v with
    | VArr items =>
        if ((0 <? maxForEachIters) && (maxForEachIters <? Z.of_nat (length items)))%Z
        then Err (ForEachExceedsLimit (length items)) else Ok items
    | _ => Err (ForEachNotAnArray template)
    end.

Definition denote_element_payload (passthrough merge : bool) (template : string) (item : gmap string value) (c : EvaluationContext)
    : option resolvedPayload :=
  if passthrough then raw ← json_marshal (VObj item); Some (MkResolvedPayload "" raw true)
  else if merge then merged ← ok_or_none (denote_merge template item c); Some (MkResolvedPayload "" merged true)
  else Some (MkResolvedPayload (denote_template template c) "" false).

(** What becomes of an element: nothing when it is filtered out or cannot be
    encoded. *)
Definition denote_element (filter_ : option Conditions) (passthrough merge : bool) (payload : string)
    (build : EvaluationContext → resolvedPayload → Action) (c : EvaluationContext) (item : value) : option Action :=
  let element := ensureObject item in
  let ec := WithElement c element in
  if denote_opt ec filter_ then build ec <$> denote_element_payload passthrough merge payload element ec else None.

Definition denote_foreach (forEach : string) (filter_ : option Conditions) (passthrough merge : bool) (payload : string)
    (build : EvaluationContext → resolvedPayload → Action) (c : EvaluationContext) : result action_error (list Action) :=
  (λ items : list value, omap (denote_element filter_ passthrough merge payload build c) items) <$> denote_elements forEach c.

Definition denote_nats (a : NATSAction) (c : EvaluationContext) : result action_error (list Action) :=
  let build passthrough ec pl :=
    nats_action (evaluated_nats a (denote_template (na_Subject a) ec) pl (denote_headers (na_Headers a) ec) (passthrough || rp_Passthrough pl)) in
  if negb (String.eqb (na_ForEach a) "") then
    denote_foreach (na_ForEach a) (na_Filter a) (na_Passthrough a) (na_Merge a) (na_Payload a) (build false) c
  else
    pl ← denote_payload (na_Passthrough a) (na_Merge a) (na_Payload a) c;
    Ok [build (na_Passthrough a) c pl].

Definition denote_publish (spec : option PublishResponseSpec) (c : EvaluationContext) : option PublishResponseSpec :=
  (λ spec, MkPublishResponseSpec (denote_template (pr_Subject spec) c)) <$> spec.

Definition denote_http (a : HTTPAction) (c : EvaluationContext) : result action_error (list Action) :=
  let build passthrough ec pl :=
    http_action (evaluated_http a (denote_template (ha_URL a) ec) (denote_template (ha_Method a) ec) pl
      (denote_headers (ha_Headers a) ec) (denote_publish (ha_PublishResponse a) ec) (passthrough || rp_Passthrough pl)) in
  if negb (String.eqb (ha_ForEach a) "") then
    denote_foreach (ha_ForEach a) (ha_Filter a) (ha_Passthrough a) (ha_Merge a) (ha_Payload a) (build false) c
  else
    pl ← denote_payload (ha_Passthrough a) (ha_Merge a) (ha_Payload a) c;
    Ok [build (ha_Passthrough a) c pl].

Definition denote_respond (a : RespondAction) (c : EvaluationContext) : result action_error (list Action) :=
  pl ← denote_payload (ra_Passthrough a) (ra_Merge a) (ra_Payload a) c;
  Ok [respond_action (MkRespondAction (ra_StatusCode a) (rp_Text pl) (ra_Passthrough a || rp_Passthrough pl) (ra_Merge a)
        (denote_headers (ra_Headers a) c) (rp_Raw pl))].

Definition denote_action (a : Action) (c : EvaluationContext) : result action_error (list Action) :=
  match a_NATS a, a_HTTP a, a_Respond a with
  | Some nats, _, _ => denote_nats nats c
  | None, Some http, _ => denote_http http c
  | None, None, Some respond => denote_respond respond c
  | None, None, None => Err NoActionConfigured
  end.

(** ** Rules *)

(** Where the actions of a rule go: out at once, or held under a key. *)
Definition denote_key (cfg : ThrottleConfig) (c : EvaluationContext) (triggerType : string) : string :=
  if String.eqb (th_Key cfg) "" then
    if String.eqb triggerType "nats" then match ctx_Subject c with Some s => sc_Full s | None => "" end
    else if String.eqb triggerType "http" then match ctx_HTTP c with Some h => hc_Path h | None => "" end
    else ""
  else denote_template (th_Key cfg) c.
Definition denote_hold (r : Rule) (c : EvaluationContext) (triggerType : string) : option DeferSpec :=
  (λ cfg, MkDeferSpec (ThrottleKey "a" (r_index r) (denote_key cfg c triggerType)) (default 0%Z (ParseDuration (th_Window cfg))))
    <$> getActionThrottle r.

Definition denote_rule (c : EvaluationContext) (triggerType : string) (r : Rule) : option (option DeferSpec * list Action) :=
  if denote_opt c (r_Conditions r) then
    match denote_action (r_Action r) c with
    | Ok (a :: results) => Some (denote_hold r c triggerType, a :: results)
    | _ => None
    end
  else None.

Definition denote_rules (rules : list Rule) (c : EvaluationContext) (triggerType : string) : Outcome :=
  foldl (λ out r, add_results out r.1 r.2) noOutcome (omap (denote_rule c triggerType) rules).
End denotation.

(** ** The rules it is for *)

Definition plain_headers (headers : gmap string string) : bool := forallb (λ h, plain h.2) (map_to_list headers).
Definition plain_action (a : Action) : bool :=
  match a_NATS a, a_HTTP a, a_Respond a with
  | Some n, _, _ => plain (na_Subject n) && (na_Passthrough n || plain (na_Payload n)) && plain_headers (na_Headers n)
  | None, Some h, _ =>
      plain (ha_URL h) && plain (ha_Method h) && (ha_Passthrough h || plain (ha_Payload h)) && plain_headers (ha_Headers h) &&
      match ha_PublishResponse h with Some spec => plain (pr_Subject spec) | None => true end
  | None, None, Some r => (ra_Passthrough r || plain (ra_Payload r)) && plain_headers (ra_Headers r)
  | None, None, None => true
  end.

(** Nothing is dropped for the time it comes at. *)
Definition undropped (r : Rule) : bool :=
  match getTriggerThrottle r with Some _ => false | None => true end &&
  match getActionThrottle r with
  | Some cfg => IsTrailing (Some cfg) && (String.eqb (th_Key cfg) "" || plain (th_Key cfg))
  | None => true
  end.

Definition plain_rule (r : Rule) : bool := plain_action (r_Action r) && undropped r.

(** Conditions and filters as a file gives them, and no paths computed. *)
Definition fresh_opt (conditions : option Conditions) : bool := match conditions with Some cs => Evaluator.fresh cs | None => true end.
Definition fresh_rule (r : Rule) : bool :=
  fresh_opt (r_Conditions r) &&
  match a_NATS (r_Action r) with
  | Some n => fresh_opt (na_Filter n) && match na_forEachPath n with None => true | Some _ => false end
  | None => true
  end &&
  match a_HTTP (r_Action r) with
  | Some h => fresh_opt (ha_Filter h) && match ha_forEachPath h with None => true | Some _ => false end
  | None => true
  end.

(** ** Messages *)

(** A NATS message, one delivered to a subscription for the rules of its
    transport, a request, or a fire of the schedule rule at a position. *)
Inductive message :=
| NATSMessage (subject payload : string) (headers : list (string * string))
| Delivery (subscription subject payload : string) (headers : list (string * string)) (transport : NATSTriggerFilter)
| HTTPRequest (path method payload : string) (headers : list (string * string)) (query : QueryParams)
| Fire (position : nat).

Fixpoint number_from (i : Z) (rules : list Rule) : list Rule :=
  match rules with [] => [] | r :: rest => set_rule_index r i :: number_from (i + 1) rest end.

(** The rules a message concerns: those that name its subject or path, then those
    whose pattern matches it. *)
Definition subject_rules (subject : string) (rules : list Rule) : list Rule :=
  (List.filter (has_subject subject) rules ++ List.filter (has_pattern subject) rules)%list.
Definition of_transport (transport : NATSTriggerFilter) (r : Rule) : bool :=
  match tr_NATS (r_Trigger r) with Some t => transport t | None => false end.
Definition triggered (m : message) (rules : list Rule) : list Rule :=
  match m with
  | NATSMessage subject _ _ => subject_rules subject rules
  | Delivery _ subject _ _ transport => List.filter (of_transport transport) (subject_rules subject rules)
  | HTTPRequest path method _ _ _ =>
      let found := (List.filter (has_path path) rules ++ List.filter (has_path_pattern path) rules)%list in
      if String.eqb method "" then found
      else List.filter (λ r, String.eqb (http_method r) "" || String.eqb (http_method r) method) found
  | Fire position => option_list (List.filter has_schedule rules !! position)
  end.

Section messages.
Context `{Env}.

Definition process_message (m : message) : PM (result context_error Outcome) :=
  match m with
  | NATSMessage subject payload headers => ProcessNATS subject payload headers
  | Delivery subscription subject payload headers transport => ProcessForSubscription subscription subject payload headers (Some transport)
  | HTTPRequest path method payload headers query => ProcessHTTP path method payload headers query
  | Fire position =>
      p ← getP;
      match ScheduleRules p !! position with Some r => ProcessSchedule r | None => mret (Ok noOutcome) end
  end.

Fixpoint process_all (ms : list message) : PM unit :=
  match ms with
  | [] => mret tt
  | m :: rest => _ ← process_message m; process_all rest
  end.

(** What a message comes to, with the rules it concerns and the settings of a
    processor. *)
Definition denote_with (snapshot : string → string → option string) (p : Processor) (concerned : list Rule)
    (timeCtx : TimeContext) (m : message) : result context_error Outcome :=
  let meaning payload headers subjectCtx httpCtx sv triggerType :=
    c ← NewEvaluationContext payload headers subjectCtx httpCtx timeCtx (p_kvContext p) sv;
    Ok (denote_rules snapshot (p_maxForEachIters p) concerned c triggerType) in
  if (length concerned =? 0)%nat then Ok noOutcome
  else match m with
  | NATSMessage subject payload headers | Delivery _ subject payload headers _ =>
      meaning payload headers (Some (NewSubjectContext subject)) None (p_sigVerification p) "nats"
  | HTTPRequest path method payload headers query =>
      meaning payload headers None (Some (NewHTTPRequestContext path method query)) (p_sigVerification p) "http"
  | Fire _ => meaning "" [] None None None "schedule"
  end.

(** What a message comes to for the rules of files. *)
Definition denote_message (snapshot : string → string → option string) (p : Processor) (rules : list Rule)
    (timeCtx : TimeContext) (m : message) : result context_error Outcome :=
  denote_with snapshot p (triggered m (number_from 0 rules)) timeCtx m.
End messages.

(** ** Lemmas *)

Section engine.
Context `{Env}.
Variable snapshot : string → string → option string.
Hypothesis Hstatic : server_static snapshot.
Variable maxForEachIters : Z.

Lemma Execute_denotes c t : plain t = true → returns (ctx_inv snapshot c) (Execute t c) (Ok (denote_template snapshot t c)).
Proof.
  intros [Hl%Nat.leb_le Hc]%andb_prop. by apply Execute_returns.
Qed.

Lemma returns_then {E A B} I (m : M (result E A)) (f : A → M (result E B)) r g :
  returns I m r → (∀ a, r = Ok a → returns I (f a) (g a)) → returns I (then_ m f) (r ≫= g).
Proof.
  intros Hm Hf. unfold then_. eapply returns_bind; [exact Hm|]. destruct r as [a|e]; [by apply Hf|apply returns_ret].
Qed.

Lemma execute_denotes what c t : plain t = true → returns (ctx_inv snapshot c) (execute what t c) (Ok (denote_template snapshot t c)).
Proof. intros Ht. unfold execute. eapply returns_bind; [by apply Execute_denotes|]. apply returns_ret. Qed.

Lemma applyMerge_denotes c t base : plain t = true → returns (ctx_inv snapshot c) (applyMerge t base c) (denote_merge snapshot t base c).
Proof.
  intros Ht. unfold applyMerge, denote_merge.
  unfold then_. eapply returns_bind; [by apply execute_denotes|]. cbn beta iota.
  destruct (json_unmarshal_map _); apply returns_ret.
Qed.

Lemma resolvePayload_denotes c passthrough merge t : passthrough || plain t = true →
  returns (ctx_inv snapshot c) (resolvePayload passthrough merge t c) (denote_payload snapshot passthrough merge t c).
Proof.
  unfold resolvePayload, denote_payload. destruct passthrough; [intros _; apply returns_ret|]. cbn [orb]. intros Ht. destruct merge.
  - apply returns_then; [by apply applyMerge_denotes|]. intros s _. apply returns_ret.
  - unfold then_. eapply returns_bind; [exact (execute_denotes "payload" c t Ht)|]. apply returns_ret.
Qed.

Lemma header_loop_denotes c entries acc : forallb (λ h, plain h.2) entries = true → NoDup entries.*1 → (∀ k, k ∈ entries.*1 → acc !! k = None) →
  returns (ctx_inv snapshot c) (header_loop entries acc c) (Ok (list_to_map (prod_map id (λ t, denote_template snapshot t c) <$> entries) ∪ acc)).
Proof.
  revert acc. induction entries as [|[k t] entries IH]; intros acc Hp Hn Hacc.
  { cbn. rewrite (left_id_L ∅ (∪)). apply returns_ret. }
  cbn in Hp. apply andb_prop in Hp as [Ht Hp]. cbn in Hn. apply NoDup_cons in Hn as [Hk Hn]. cbn [header_loop].
  assert (list_to_map (M := gmap string string) (prod_map id (λ t, denote_template snapshot t c) <$> (k, t) :: entries) ∪ acc =
    list_to_map (prod_map id (λ t, denote_template snapshot t c) <$> entries) ∪ <[k := denote_template snapshot t c]> acc) as ->.
  { cbn. rewrite <- insert_union_l, insert_union_r; [done|]. apply not_elem_of_list_to_map. rewrite <- list_fmap_compose.
    by rewrite (list_fmap_ext _ fst). }
  unfold then_. eapply returns_bind; [by apply execute_denotes|]. cbn beta iota.
  apply IH; [done|done|]. intros k' Hk'. rewrite lookup_insert_ne by (intros ->; done). apply Hacc. cbn. set_solver.
Qed.

Lemma templateHeaders_denotes c headers : plain_headers headers = true →
  returns (ctx_inv snapshot c) (templateHeaders headers c) (Ok (denote_headers snapshot headers c)).
Proof.
  intros Hp. unfold templateHeaders. replace (denote_headers snapshot headers c) with
    (list_to_map (M := gmap string string) (prod_map id (λ t, denote_template snapshot t c) <$> map_to_list headers) ∪ ∅).
  - apply header_loop_denotes; [done|apply NoDup_fst_map_to_list|]. intros k _. apply lookup_empty.
  - rewrite (right_id_L ∅ (∪)). unfold denote_headers. by rewrite list_to_map_fmap, list_to_map_to_list.
Qed.

(** *** forEach *)

Lemma EvaluateOpt_denotes c conditions : returns (ctx_inv snapshot c) (EvaluateOpt c conditions) (denote_opt snapshot c conditions).
Proof. destruct conditions as [cs|]; [exact (Evaluate_returns snapshot Hstatic cs c)|apply returns_ret]. Qed.

(** The path of a forEach, computed when the rule was loaded or not. *)
Definition given_path (t : string) (path : option (list string)) : Prop := path = None ∨ path = prepareForEachPath t.

Lemma extract_denotes c t path : given_path t path → returns (ctx_inv snapshot c) (extractForEachArray maxForEachIters t path c)
  (denote_elements snapshot maxForEachIters t c).
Proof.
  intros Hpath. unfold extractForEachArray, denote_elements. destruct (String.eqb (ExtractVariable t) "") eqn:Ee; [apply returns_ret|].
  apply returns_then.
  - destruct (HasPrefix (ExtractVariable t) "@") eqn:Eat.
    + eapply returns_bind; [by apply ResolveValue_returns|]. apply returns_ret.
    + destruct Hpath as [->| ->]; [apply returns_ret|]. unfold prepareForEachPath. rewrite Ee, Eat. destruct (Contains _ "{"); [apply returns_ret|].
      destruct (SplitPathRespectingBraces (ExtractVariable t)); apply returns_ret.
  - intros v _. destruct v; try apply returns_ret. destruct (_ && _); apply returns_ret.
Qed.

(** What an element gives: its action when it gives one. *)
Lemma process_element_denotes c cfg (buildM : EvaluationContext → resolvedPayload → gmap string string → M (result string Action)) build item :
  plain_headers (fc_Headers cfg) = true → fc_Passthrough cfg || plain (fc_Payload cfg) = true →
  (∀ ec pl, returns (ctx_inv snapshot ec) (buildM ec pl (denote_headers snapshot (fc_Headers cfg) ec)) (Ok (build ec pl))) →
  ∃ o, returns (ctx_inv snapshot c) (process_element cfg c buildM item) o ∧
    built o = denote_element snapshot (fc_Filter cfg) (fc_Passthrough cfg) (fc_Merge cfg) (fc_Payload cfg) build c item.
Proof.
  intros Hh Hp Hb. unfold process_element, denote_element. set (element := ensureObject item). set (ec := WithElement c element).
  destruct (denote_opt snapshot ec (fc_Filter cfg)) eqn:Ef.
  2: { exists Filtered. split; [|done]. apply (on_copy_returns _ c element). eapply returns_bind; [apply EvaluateOpt_denotes|].
       fold ec. rewrite Ef. apply returns_ret. }
  assert (∃ r, returns (ctx_inv snapshot ec) (element_payload cfg element ec) r ∧
    ok_or_none r = denote_element_payload snapshot (fc_Passthrough cfg) (fc_Merge cfg) (fc_Payload cfg) element ec) as (r & Hr & Er).
  { unfold element_payload, denote_element_payload. destruct (fc_Passthrough cfg).
    - eexists. split; [apply returns_ret|]. unfold safeMarshal. by destruct (json_marshal _).
    - cbn [orb] in Hp. destruct (fc_Merge cfg).
      + eexists. split; [eapply returns_bind; [by apply applyMerge_denotes|]; apply returns_ret|]. by destruct (denote_merge _ _ _ _).
      + eexists. split; [eapply returns_bind; [by apply Execute_denotes|]; apply returns_ret|]. done. }
  rewrite <- Er. clear Er. destruct r as [pl|e].
  - exists (Built (build ec pl)). split; [|done]. apply (on_copy_returns _ c element). eapply returns_bind; [apply EvaluateOpt_denotes|].
    fold ec. rewrite Ef. cbn [negb]. eapply returns_bind; [exact Hr|]. cbn beta iota. eapply returns_bind; [by apply templateHeaders_denotes|].
    cbn beta iota. eapply returns_bind; [apply Hb|]. apply returns_ret.
  - exists (Failed e). split; [|done]. apply (on_copy_returns _ c element). eapply returns_bind; [apply EvaluateOpt_denotes|].
    fold ec. rewrite Ef. cbn [negb]. eapply returns_bind; [exact Hr|]. apply returns_ret.
Qed.

Lemma element_loop_denotes I process f i items acc :
  (∀ item, ∃ o, returns I (process item) o ∧ built o = f item) →
  ∃ r, returns I (element_loop process i items acc) r ∧ r.1 = (acc.1 ++ omap f items)%list.
Proof.
  intros Hp. revert i acc. induction items as [|item items IH]; intros i acc.
  - exists acc. split; [apply returns_ret|]. by rewrite app_nil_r.
  - destruct (Hp item) as (o & Ho & Hf). destruct (IH (S i) (record_outcome i o acc)) as (r & Hr & Er). exists r. split.
    + cbn [element_loop]. by eapply returns_bind.
    + rewrite Er. destruct acc as [actions [t p fi e errs]]. cbn [omap list_omap]. rewrite <- Hf.
      destruct o; cbn; [done|done|]. by rewrite <- app_assoc.
Qed.

Lemma foreach_denotes c t path filter_ pt mg payload headers kind buildM build :
  given_path t path →
  plain_headers headers = true → pt || plain payload = true →
  (∀ ec pl, returns (ctx_inv snapshot ec) (buildM ec pl (denote_headers snapshot headers ec)) (Ok (build ec pl))) →
  returns (ctx_inv snapshot c)
    (then_ (processActionForEach maxForEachIters (MkForEachConfig t path filter_ pt mg payload headers kind) c buildM)
       (λ r, mret (Ok r.1)))
    (denote_foreach snapshot maxForEachIters t filter_ pt mg payload build c).
Proof.
  intros Hpath Hh Hp Hb. unfold processActionForEach, denote_foreach, then_. set (cfg := MkForEachConfig _ _ _ _ _ _ _ _).
  cbn [cfg fc_ForEach fc_forEachPath]. pose proof (extract_denotes c t path Hpath) as He. destruct (denote_elements snapshot maxForEachIters t c) as [items|e].
  - destruct (element_loop_denotes (ctx_inv snapshot c) (process_element cfg c buildM)
      (denote_element snapshot filter_ pt mg payload build c) 0 items ([], MkForEachResult (length items) 0 0 0 [])) as (r & Hr & Er);
      [intros item; by apply (process_element_denotes c cfg)|].
    eapply returns_bind; [eapply returns_bind; [exact He|]; eapply returns_bind; [exact Hr|]; apply returns_ret|].
    cbn. rewrite Er. apply returns_ret.
  - eapply returns_bind; [eapply returns_bind; [exact He|]; apply returns_ret|]. apply returns_ret.
Qed.

(** *** The kinds of action *)

Definition prepared_nats (n : NATSAction) : NATSAction :=
  MkNATSAction (na_Subject n) (na_Mode n) (na_Payload n) (na_Passthrough n) (na_Merge n)
    (na_Headers n) (na_RawPayload n) (na_Request n) (na_Timeout n) (na_ForEach n) (PrepareConditions <$> na_Filter n) (na_Throttle n)
    (na_Debounce n) (if String.eqb (na_ForEach n) "" then na_forEachPath n else prepareForEachPath (na_ForEach n)).
Definition prepared_http (h : HTTPAction) : HTTPAction :=
  MkHTTPAction (ha_URL h) (ha_Method h) (ha_Payload h) (ha_Passthrough h) (ha_Merge h)
    (ha_Headers h) (ha_RawPayload h) (ha_Retry h) (ha_PublishResponse h) (ha_ForEach h) (PrepareConditions <$> ha_Filter h)
    (ha_Throttle h) (ha_Debounce h) (if String.eqb (ha_ForEach h) "" then ha_forEachPath h else prepareForEachPath (ha_ForEach h)).

Lemma denote_opt_prepared c conditions : fresh_opt conditions = true →
  denote_opt snapshot c (PrepareConditions <$> conditions) = denote_opt snapshot c conditions.
Proof. destruct conditions as [cs|]; [|done]. intros Hf. exact (denote_prepared snapshot cs c Hf). Qed.

Lemma denote_foreach_filter t filter_ f' pt mg payload build c : fresh_opt filter_ = true → f' = filter_ ∨ f' = PrepareConditions <$> filter_ →
  denote_foreach snapshot maxForEachIters t f' pt mg payload build c =
  denote_foreach snapshot maxForEachIters t filter_ pt mg payload build c.
Proof.
  intros Hf [->| ->]; [done|]. unfold denote_foreach. destruct (denote_elements _ _ _ _) as [items|e]; [|done]. cbn. f_equal.
  induction items as [|item items IH]; [done|]. cbn. rewrite IH. unfold denote_element. by rewrite denote_opt_prepared.
Qed.

(** An action as its rule gives it, or as loading prepares it. *)
Definition given_nats (n n' : NATSAction) : Prop := n' = n ∧ na_forEachPath n = None ∨ n' = prepared_nats n.
Definition given_http (h h' : HTTPAction) : Prop := h' = h ∧ ha_forEachPath h = None ∨ h' = prepared_http h.

Lemma processNATSAction_denotes n n' c : given_nats n n' → plain (na_Subject n) = true → na_Passthrough n || plain (na_Payload n) = true →
  plain_headers (na_Headers n) = true → fresh_opt (na_Filter n) = true →
  returns (ctx_inv snapshot c) (processNATSAction maxForEachIters n' c) (denote_nats snapshot maxForEachIters n c).
Proof.
  intros Hn Hs Hp Hh Hf. unfold processNATSAction, denote_nats.
  assert (na_ForEach n' = na_ForEach n) as -> by (by destruct Hn as [[-> _]| ->]).
  destruct (String.eqb (na_ForEach n) "") eqn:Ee; cbn [negb].
  - destruct Hn as [[-> _]| ->]; cbn [prepared_nats na_Subject na_Passthrough na_Merge na_Payload na_Headers].
    all: unfold then_ at 1; eapply returns_bind; [by apply execute_denotes|]; cbn beta iota.
    all: apply returns_then; [by apply resolvePayload_denotes|]; intros pl _; unfold then_.
    all: eapply returns_bind; [by apply templateHeaders_denotes|]; apply returns_ret.
  - assert (given_path (na_ForEach n) (na_forEachPath n')) as Hpath
      by (destruct Hn as [[-> Hnone]| ->]; [by left|right; cbn; by rewrite Ee]).
    rewrite <- (denote_foreach_filter (na_ForEach n) (na_Filter n) (na_Filter n')) by (first [done|by destruct Hn as [[-> _]| ->]; [left|right]]).
    unfold processNATSActionWithForEach, nats_forEach.
    destruct Hn as [[-> _]| ->]; cbn [prepared_nats na_ForEach na_forEachPath na_Filter na_Passthrough na_Merge na_Payload na_Headers na_Subject] in *.
    all: eapply foreach_denotes; [done|done|done|].
    all: intros ec pl; eapply returns_bind; [by apply Execute_denotes|]; apply returns_ret.
Qed.

Lemma publish_denotes {E} (run : string → EvaluationContext → M (result E string)) spec c :
  (∀ t, plain t = true → returns (ctx_inv snapshot c) (run t c) (Ok (denote_template snapshot t c))) →
  match spec with Some s => plain (pr_Subject s) | None => true end = true →
  returns (ctx_inv snapshot c) (template_publish run spec c) (Ok (denote_publish snapshot spec c)).
Proof.
  intros Hr Hp. unfold template_publish, denote_publish. destruct spec as [s|]; [|apply returns_ret].
  unfold then_. eapply returns_bind; [by apply Hr|]. apply returns_ret.
Qed.

Lemma processHTTPAction_denotes h h' c : given_http h h' → plain (ha_URL h) = true → plain (ha_Method h) = true → ha_Passthrough h || plain (ha_Payload h) = true →
  plain_headers (ha_Headers h) = true → match ha_PublishResponse h with Some s => plain (pr_Subject s) | None => true end = true →
  fresh_opt (ha_Filter h) = true →
  returns (ctx_inv snapshot c) (processHTTPAction maxForEachIters h' c) (denote_http snapshot maxForEachIters h c).
Proof.
  intros Hg Hu Hm Hp Hh Hpub Hf. unfold processHTTPAction, denote_http.
  assert (ha_ForEach h' = ha_ForEach h) as -> by (by destruct Hg as [[-> _]| ->]).
  destruct (String.eqb (ha_ForEach h) "") eqn:Ee; cbn [negb].
  - destruct Hg as [[-> _]| ->]; cbn [prepared_http ha_URL ha_Method ha_Passthrough ha_Merge ha_Payload ha_Headers ha_PublishResponse].
    all: do 2 (unfold then_ at 1; eapply returns_bind; [by apply execute_denotes|]; cbn beta iota).
    all: apply returns_then; [by apply resolvePayload_denotes|]; intros pl _; unfold then_.
    all: eapply returns_bind; [by apply templateHeaders_denotes|]; cbn beta iota.
    all: eapply returns_bind; [apply publish_denotes; [intros; by apply execute_denotes|done]|]; apply returns_ret.
  - assert (given_path (ha_ForEach h) (ha_forEachPath h')) as Hpath
      by (destruct Hg as [[-> Hnone]| ->]; [by left|right; cbn; by rewrite Ee]).
    rewrite <- (denote_foreach_filter (ha_ForEach h) (ha_Filter h) (ha_Filter h')) by (first [done|by destruct Hg as [[-> _]| ->]; [left|right]]).
    unfold processHTTPActionWithForEach, http_forEach.
    destruct Hg as [[-> _]| ->]; cbn [prepared_http ha_ForEach ha_forEachPath ha_Filter ha_Passthrough ha_Merge ha_Payload ha_Headers ha_URL ha_Method ha_PublishResponse] in *.
    all: eapply foreach_denotes; [done|done|done|]; intros ec pl; cbv zeta.
    all: assert (∀ errorType t, plain t = true → returns (ctx_inv snapshot ec)
      (r ← Execute t ec; mret (map_err (λ _ : template_error, errorType : string) r)) (Ok (denote_template snapshot t ec))) as Hrun
      by (intros errorType t Ht; eapply returns_bind; [by apply Execute_denotes|]; apply returns_ret).
    all: unfold then_; do 2 (eapply returns_bind; [by apply Hrun|]; cbn beta iota).
    all: eapply returns_bind; [apply publish_denotes; [intros; by apply Hrun|done]|]; apply returns_ret.
Qed.

Definition given_action (a a' : Action) : Prop :=
  a' = a ∧ (a_NATS a ≫= na_forEachPath) = None ∧ (a_HTTP a ≫= ha_forEachPath) = None ∨ a' = prepared_action a.

Lemma processAction_denotes a a' c : given_action a a' → plain_action a = true →
  fresh_opt (a_NATS a ≫= na_Filter) = true → fresh_opt (a_HTTP a ≫= ha_Filter) = true →
  returns (ctx_inv snapshot c) (processAction maxForEachIters a' c) (denote_action snapshot maxForEachIters a c).
Proof.
  unfold plain_action, processAction, denote_action. intros Hg.
  destruct (a_NATS a) as [n|] eqn:En; [|destruct (a_HTTP a) as [h|] eqn:Eh; [|destruct (a_Respond a) as [r|] eqn:Er]].
  - assert (∃ n', a_NATS a' = Some n' ∧ given_nats n n') as (n' & -> & Hn).
    { destruct Hg as [(-> & Hp & _)| ->]; [rewrite En in Hp; exists n; split; [done|by left]|]. unfold prepared_action. rewrite En. eexists. split; [done|by right]. }
    cbn [mbind option_bind]. rewrite ?andb_true_iff. intros [[? ?] ?] ? ?. by apply processNATSAction_denotes.
  - assert (a_NATS a' = None ∧ ∃ h', a_HTTP a' = Some h' ∧ given_http h h') as (-> & h' & -> & Hh).
    { destruct Hg as [(-> & _ & Hp)| ->]; [rewrite Eh in Hp; split; [done|]; exists h; split; [done|by left]|]. unfold prepared_action. rewrite En, Eh.
      split; [done|]. eexists. split; [done|by right]. }
    cbn [mbind option_bind]. rewrite ?andb_true_iff. intros [[[[? ?] ?] ?] ?] ? ?. by apply processHTTPAction_denotes.
  - assert (a_NATS a' = None ∧ a_HTTP a' = None ∧ a_Respond a' = Some r) as (-> & -> & ->).
    { destruct Hg as [(-> & _)| ->]; [done|]. unfold prepared_action. by rewrite En, Eh, Er. }
    intros [Hp Hh]%andb_prop _ _. unfold processRespondAction, denote_respond. apply returns_then; [by apply resolvePayload_denotes|]. intros pl _.
    unfold then_. eapply returns_bind; [by apply templateHeaders_denotes|]. apply returns_ret.
  - assert (a_NATS a' = None ∧ a_HTTP a' = None ∧ a_Respond a' = None) as (-> & -> & ->).
    { destruct Hg as [(-> & _)| ->]; [done|]. unfold prepared_action. by rewrite En, Eh, Er. }
    intros _ _ _. apply returns_ret.
Qed.

(** *** Rules *)

Definition prepare (r : Rule) : Rule := prepared_rule (r_index r) r.

(** A rule as the key value bucket gives it, or prepared as one from a file. *)
Definition given (r r' : Rule) : Prop := r' = r ∨ r' = prepare r.

Lemma given_prepare rules : Forall2 given rules (map prepare rules).
Proof. induction rules; constructor; [by right|done]. Qed.
Lemma given_plain rules : Forall2 given rules rules.
Proof. induction rules; constructor; [by left|done]. Qed.

Lemma fresh_rule_parts r : fresh_rule r = true → fresh_opt (r_Conditions r) = true ∧
  fresh_opt (a_NATS (r_Action r) ≫= na_Filter) = true ∧ fresh_opt (a_HTTP (r_Action r) ≫= ha_Filter) = true ∧
  (a_NATS (r_Action r) ≫= na_forEachPath) = None ∧ (a_HTTP (r_Action r) ≫= ha_forEachPath) = None.
Proof.
  unfold fresh_rule. rewrite !andb_true_iff. intros [[? Hn] Hh]. split; [done|]. destruct (a_NATS (r_Action r)) as [n|], (a_HTTP (r_Action r)) as [h|]; cbn in *.
  all: repeat match goal with
    | H : _ && match ?x with None => true | Some _ => false end = true |- _ => apply andb_prop in H as [? ?]; destruct x; [done|]
    end; done.
Qed.

Lemma given_action_of r r' : fresh_rule r = true → given r r' → given_action (r_Action r) (r_Action r').
Proof. intros (_ & _ & _ & ? & ?)%fresh_rule_parts [->| ->]; [by left|by right]. Qed.

Lemma given_trigger r r' : given r r' → r_Trigger r' = r_Trigger r ∧ r_index r' = r_index r.
Proof. by intros [->| ->]. Qed.

Lemma lift_returns {A} I (m : M A) a p st : returns I m a → I st → ∃ st', lift m (p, st) = (a, (p, st')) ∧ I st'.
Proof. intros Hm Hst. destruct (Hm st Hst) as [Ha Hi]. unfold lift. cbn. destruct (m st) as [a' st']. cbn in *. subst. eauto. Qed.

Lemma given_throttles r r' : given r r' → getTriggerThrottle r' = getTriggerThrottle r ∧ getActionThrottle r' = getActionThrottle r.
Proof.
  intros [->| ->]; [done|]. split; [done|]. unfold getActionThrottle. cbn. destruct (a_NATS (r_Action r)); [done|]. by destruct (a_HTTP (r_Action r)).
Qed.

Lemma key_denotes cfg c triggerType : String.eqb (th_Key cfg) "" || plain (th_Key cfg) = true →
  returns (ctx_inv snapshot c) (resolveThrottleKey cfg c triggerType) (denote_key snapshot cfg c triggerType).
Proof.
  unfold resolveThrottleKey, denote_key. destruct (String.eqb (th_Key cfg) ""); [intros _; apply returns_ret|]. cbn [orb]. intros Hk.
  eapply returns_bind; [by apply Execute_denotes|]. apply returns_ret.
Qed.

Lemma action_gate_denotes r r' c triggerType p st : given r r' → undropped r = true → ctx_inv snapshot c st →
  ∃ st', action_gate r' c triggerType (p, st) = (Some (denote_hold snapshot r c triggerType), (p, st')) ∧ ctx_inv snapshot c st'.
Proof.
  intros Hgiven [_ Hg]%andb_prop Hst. unfold action_gate, denote_hold. rewrite (proj2 (given_throttles r r' Hgiven)).
  destruct (getActionThrottle r) as [cfg|]; [|by exists st]. apply andb_prop in Hg as [Ht Hk].
  destruct (lift_returns (ctx_inv snapshot c) (throttle_args "a" r' cfg c triggerType)
    (ThrottleKey "a" (r_index r) (denote_key snapshot cfg c triggerType), default 0%Z (ParseDuration (th_Window cfg))) p st) as (st' & Hl & Hst');
    [rewrite <- (proj2 (given_trigger r r' Hgiven)); eapply returns_bind; [by apply key_denotes|apply returns_ret]|done|].
  exists st'. split; [|done]. unfold mbind, PM_bind. rewrite Hl, Ht. done.
Qed.

Lemma conditions_denote r r' c : fresh_rule r = true → given r r' → denote_opt snapshot c (r_Conditions r') = denote_opt snapshot c (r_Conditions r).
Proof. intros (Hfc & _)%fresh_rule_parts [->| ->]; [done|]. by apply denote_opt_prepared. Qed.

Lemma evaluate_rule_denotes r r' c triggerType p st : given r r' → plain_rule r = true → fresh_rule r = true → p_maxForEachIters p = maxForEachIters →
  ctx_inv snapshot c st →
  ∃ st', evaluate_rule r' c triggerType (p, st) = (denote_rule snapshot maxForEachIters c triggerType r, (p, st')) ∧ ctx_inv snapshot c st'.
Proof.
  intros Hgiven [Hp Hu]%andb_prop Hfresh Hmax Hst. pose proof (fresh_rule_parts r Hfresh) as (_ & Hf1 & Hf2 & _). unfold evaluate_rule, denote_rule.
  assert (trigger_allows r' c triggerType (p, st) = (true, (p, st))) as Hta.
  { unfold trigger_allows. rewrite (proj1 (given_throttles r r' Hgiven)). unfold undropped in Hu. by destruct (getTriggerThrottle r). }
  unfold mbind, PM_bind. rewrite Hta. cbn [negb].
  destruct (lift_returns _ (EvaluateOpt c (r_Conditions r')) _ p st (EvaluateOpt_denotes c _) Hst) as (st1 & -> & Hst1).
  rewrite (conditions_denote r r') by done. destruct (denote_opt snapshot c (r_Conditions r)); cbn [negb]; [|eauto].
  destruct (action_gate_denotes r r' c triggerType p st1 Hgiven Hu Hst1) as (st2 & -> & Hst2). cbn [getP fst snd]. unfold getP. rewrite Hmax.
  destruct (lift_returns _ (processAction maxForEachIters (r_Action r') c) _ p st2
    (processAction_denotes (r_Action r) (r_Action r') c (given_action_of r r' Hfresh Hgiven) Hp Hf1 Hf2) Hst2)
    as (st3 & -> & Hst3). exists st3. split; [|done]. by destruct (denote_action _ _ _ _) as [[|a results]|e].
Qed.

Lemma evaluate_loop_denotes rules rules' c triggerType out matched p st :
  Forall2 given rules rules' → Forall (λ r, plain_rule r = true ∧ fresh_rule r = true) rules → p_maxForEachIters p = maxForEachIters → ctx_inv snapshot c st →
  ∃ matched' st', evaluate_loop rules' c triggerType out matched (p, st) =
    ((foldl (λ out r, add_results out r.1 r.2) out (omap (denote_rule snapshot maxForEachIters c triggerType) rules), matched'), (p, st')) ∧
    ctx_inv snapshot c st'.
Proof.
  intros Hg Hr Hmax. revert out matched st. induction Hg as [|r r' rules rules' Hgiven Hg IH]; intros out matched st Hst; [by do 2 eexists|].
  apply Forall_cons in Hr as [[Hp Hf] Hr]. cbn [map evaluate_loop]. unfold mbind, PM_bind.
  destruct (evaluate_rule_denotes r r' c triggerType p st Hgiven Hp Hf Hmax Hst) as (st1 & -> & Hst1). cbn [omap list_omap].
  destruct (denote_rule snapshot maxForEachIters c triggerType r) as [[spec results]|]; by apply IH.
Qed.
End engine.

(** *** Messages *)

(** A processor with other counters. *)
Definition recount (p : Processor) (ix : IndexStats) (stats : ProcessorStats) : Processor :=
  set_stats (set_index p (MkIndex (exactMatches (p_index p)) (patternRules (p_index p)) ix)) stats.

Lemma recount_id p : recount p (ix_stats (p_index p)) (p_stats p) = p.
Proof. by destruct p as [[]]. Qed.

Section messages.
Context `{Env}.
Variable snapshot : string → string → option string.
Hypothesis Hstatic : server_static snapshot.

(** The caches hold what the server would give. *)
Definition engine_ready (p : Processor) (st : St) : Prop :=
  ∀ kv, p_kvContext p = Some kv → kv_coherent snapshot kv (st_parseCache st) (st_localCache st).

Lemma evaluateRules_denotes rules rules' c triggerType p ix stats st :
  Forall2 given rules rules' → Forall (λ r, plain_rule r = true ∧ fresh_rule r = true) rules → ctx_inv snapshot c st →
  ∃ stats' st', evaluateRules rules' c triggerType (recount p ix stats, st) =
    (denote_rules snapshot (p_maxForEachIters p) rules c triggerType, (recount p ix stats', st')) ∧ ctx_inv snapshot c st'.
Proof.
  intros Hg Hr Hst. unfold evaluateRules, mbind, PM_bind. change (MkOutcome [] []) with noOutcome.
  destruct (evaluate_loop_denotes snapshot Hstatic (p_maxForEachIters p) rules rules' c triggerType noOutcome false (recount p ix stats) st Hg Hr eq_refl Hst)
    as (matched & st' & -> & Hst'). unfold getP. cbn. destruct stats as [pr ma er]. by do 2 eexists.
Qed.

(** A message processed with the given rules. *)
Lemma with_context_denotes rules rules' payload headers subjectCtx httpCtx sv triggerType p ix stats st :
  Forall2 given rules rules' → Forall (λ r, plain_rule r = true ∧ fresh_rule r = true) rules → engine_ready p st →
  ∃ stats' st',
    with_context payload headers subjectCtx httpCtx sv (λ c, evaluateRules rules' c triggerType) (recount p ix stats, st) =
    ((c ← NewEvaluationContext payload headers subjectCtx httpCtx (CurrentContext (p_timeProvider p) st).1 (p_kvContext p) sv;
      Ok (denote_rules snapshot (p_maxForEachIters p) rules c triggerType)), (recount p ix stats', st')) ∧
    engine_ready p st'.
Proof.
  intros Hg Hr Hst. unfold with_context, mbind, PM_bind, getP, lift. cbn [fst snd].
  change (p_timeProvider (recount p ix stats)) with (p_timeProvider p). change (p_kvContext (recount p ix stats)) with (p_kvContext p).
  assert (st_parseCache (CurrentContext (p_timeProvider p) st).2 = st_parseCache st ∧
    st_localCache (CurrentContext (p_timeProvider p) st).2 = st_localCache st) as [Epc Elc].
  { unfold CurrentContext. destruct (p_timeProvider p); [|done]. unfold mbind, M_bind, lift_world. by destruct (time_Now _). }
  destruct (CurrentContext (p_timeProvider p) st) as [timeCtx st1]. cbn [fst snd] in *.
  destruct (NewEvaluationContext _ _ _ _ _ _ _) as [c|e] eqn:Ec; cbn [result_bind].
  - assert (ctx_KV c = p_kvContext p) as Ekv.
    { unfold NewEvaluationContext in Ec. destruct (decode_payload _ _); [|done]. by injection Ec as <-. }
    destruct (set_sig (MkSig false false "") st1) as [[] st2] eqn:Es.
    assert (ctx_inv snapshot c st2) as Hinv.
    { unfold set_sig in Es. injection Es as <-. split; [|done]. intros kv Hkv. cbn. rewrite Epc, Elc. apply Hst. by rewrite <- Ekv. }
    cbn [fst snd]. rewrite Es.
    destruct (evaluateRules_denotes rules rules' c triggerType p ix stats st2 Hg Hr Hinv) as (stats' & st' & -> & Hst'). exists stats', st'.
    split; [done|]. intros kv Hkv. apply Hst'. by rewrite Ekv.
  - destruct stats as [pr ma er]. eexists _, st1. split; [done|]. intros kv Hkv. rewrite Epc, Elc. by apply Hst.
Qed.

Lemma number_from_prepared i rules : numbered_from i rules = map prepare (number_from i rules).
Proof. revert i. induction rules as [|r rules IH]; intros i; [done|]. cbn. by rewrite IH. Qed.

Lemma filter_map_prepare (f : Rule → bool) l : (∀ r, f (prepare r) = f r) → List.filter f (map prepare l) = map prepare (List.filter f l).
Proof. intros Hf. induction l as [|r l IH]; [done|]. cbn. rewrite Hf, IH. by destruct (f r). Qed.

(** The rules the processor finds are the triggered ones, prepared. *)
Record serves (now : Time) (rules : list Rule) (p : Processor) : Prop := {
  sv_index : p_index p = AddAll NewIndex (map (λ r, (r, now)) (numbered_from 0 rules));
  sv_http : ∀ path, rules_in (p_httpExactPaths p) (p_httpPatternRules p) path =
    (List.filter (has_path path) (numbered_from 0 rules) ++ List.filter (has_path_pattern path) (numbered_from 0 rules))%list;
  sv_schedule : p_scheduleRules p = List.filter has_schedule (numbered_from 0 rules);
  sv_kv : p_kvRuleSet p = None;
}.

Lemma LoadRules_serves now p0 rules p : LoadRules now p0 rules = Ok p → p_kvRuleSet p0 = None → serves now rules p ∧
  p_kvContext p = p_kvContext p0 ∧ p_sigVerification p = p_sigVerification p0 ∧ p_maxForEachIters p = p_maxForEachIters p0 ∧
  p_timeProvider p = p_timeProvider p0.
Proof.
  unfold LoadRules. set (q := MkProcessor _ _ _ _ _ _ _ _ _ _ _ _ _). intros Hl Hkv.
  assert (∀ path, default [] (p_httpExactPaths q !! path) = []) as Hx by (intros path; cbn; by rewrite lookup_empty).
  assert (holds_rules now q []) as Hq by (split; [done|done|done|]; intros path; unfold rules_in; by rewrite Hx).
  pose proof (load_loop_spec now q 0 rules [] Hq Hx) as Hs. rewrite Hl in Hs. destruct Hs as (_ & [_ Hsch Hi Hh]).
  apply load_loop_keeps in Hl as (? & ? & ? & _ & ? & Hk). split; [split; [done|done|done|by rewrite Hk]|done].
Qed.

Lemma find_triggered now rules p ix stats subject : serves now rules p →
  ∃ ix', FindAllMatchingTokenized (p_index (recount p ix stats)) subject (sc_Tokens (NewSubjectContext subject)) =
    (map prepare (subject_rules subject (number_from 0 rules)), MkIndex (exactMatches (p_index p)) (patternRules (p_index p)) ix').
Proof.
  intros [Hi _ _ _]. destruct (AddAll_spec NewIndex (map (λ r, (r, now)) (numbered_from 0 rules)) (Forall_nil_2 _)) as (Hok & He & Hp).
  unfold FindAllMatchingTokenized, find_with. cbn [recount set_stats set_index p_index exactMatches patternRules ix_stats]. rewrite Hi.
  rewrite tokenized_match by exact Hok. destruct ix as [el pc m lu]. eexists. f_equal. rewrite He, Hp, map_map. cbn [NewIndex exactMatches patternRules].
  rewrite map_id, number_from_prepared. unfold subject_rules. by rewrite map_app, !filter_map_prepare.
Qed.

Lemma triggered_plain m rules : Forall (λ r, plain_rule r = true ∧ fresh_rule r = true) rules →
  Forall (λ r, plain_rule r = true ∧ fresh_rule r = true) (triggered m (number_from 0 rules)).
Proof.
  intros Hr. assert (∀ i, Forall (λ r, plain_rule r = true ∧ fresh_rule r = true) (number_from i rules)) as Hn.
  { induction Hr as [|r rules Hr _ IH]; intros i; constructor; [done|apply IH]. }
  specialize (Hn 0%Z). revert Hn. generalize (number_from 0 rules). intros l Hl. rewrite Forall_forall in *. intros r.
  assert (∀ subject, r ∈ subject_rules subject l → r ∈ l) as Hsub
    by (intros subject; unfold subject_rules; rewrite elem_of_app, !elem_of_filterb; naive_solver).
  destruct m as [subject payload headers|subscription subject payload headers transport|path method payload headers query|position];
    cbn [triggered]; [intros Hin; by apply Hl, (Hsub subject)|rewrite elem_of_filterb; naive_solver| |].
  - destruct (String.eqb method ""); rewrite ?elem_of_filterb, ?elem_of_app, ?elem_of_filterb; naive_solver.
  - destruct (List.filter has_schedule l !! position) as [r'|] eqn:E; cbn; [|by intros ?%elem_of_nil]. intros Hin. apply elem_of_cons in Hin as [->|?%elem_of_nil]; [|done].
    apply Hl. apply list_elem_of_lookup_2, elem_of_filterb in E. apply E.
Qed.

Lemma http_triggered now rules p ix stats path method payload headers query : serves now rules p →
  findHTTPRules (recount p ix stats) path method =
    map prepare (triggered (HTTPRequest path method payload headers query) (number_from 0 rules)).
Proof.
  intros [_ Hh _ Hk]. unfold findHTTPRules. cbn [recount set_stats set_index p_httpExactPaths p_httpPatternRules p_kvRuleSet]. rewrite Hh, Hk, app_nil_r.
  rewrite number_from_prepared, !filter_map_prepare by done. rewrite <- map_app. cbn [triggered].
  destruct (String.eqb method ""); [done|]. by rewrite filter_map_prepare.
Qed.

(** The rules found for a subject, of one transport or of both. *)
Lemma filtered_denotes now rules p subject payload headers transport ix stats st :
  serves now rules p → Forall (λ r, plain_rule r = true ∧ fresh_rule r = true) rules → engine_ready p st →
  let m := match transport with Some t => Delivery "" subject payload headers t | None => NATSMessage subject payload headers end in
  ∃ ix' stats' st', processNATSFiltered subject payload headers transport (recount p ix stats, st) =
    (denote_message snapshot p rules (CurrentContext (p_timeProvider p) st).1 m, (recount p ix' stats', st')) ∧ engine_ready p st'.
Proof.
  intros Hs Hr Hst m. pose proof (triggered_plain m rules Hr) as Ht.
  unfold processNATSFiltered, mbind, PM_bind, getP. cbn [fst]. destruct (find_triggered now rules p ix stats subject Hs) as [ix' ->].
  assert (filterNATSRules (map prepare (subject_rules subject (number_from 0 rules))) transport = map prepare (triggered m (number_from 0 rules))) as ->.
  { subst m. destruct transport as [t|]; [|done]. rewrite filterNATSRules_filter. by rewrite filter_map_prepare. }
  unfold putP. cbn [snd]. rewrite length_map. unfold denote_message, denote_with.
  destruct (length (triggered m (number_from 0 rules)) =? 0)%nat; [by exists ix', stats, st|].
  change (set_index (recount p ix stats) (MkIndex (exactMatches (p_index p)) (patternRules (p_index p)) ix')) with (recount p ix' stats).
  change (p_sigVerification (recount p ix stats)) with (p_sigVerification p).
  destruct (with_context_denotes _ _ payload headers (Some (NewSubjectContext subject)) None (p_sigVerification p) "nats" p ix' stats st (given_prepare _) Ht Hst)
    as (stats' & st' & -> & Hst').
  exists ix', stats', st'. split; [|done]. subst m. by destruct transport.
Qed.

Lemma process_denotes now rules p m ix stats st :
  serves now rules p → Forall (λ r, plain_rule r = true ∧ fresh_rule r = true) rules → engine_ready p st →
  ∃ ix' stats' st', process_message m (recount p ix stats, st) =
    (denote_message snapshot p rules (CurrentContext (p_timeProvider p) st).1 m, (recount p ix' stats', st')) ∧ engine_ready p st'.
Proof.
  intros Hs Hr Hst. pose proof (triggered_plain m rules Hr) as Ht.
  destruct m as [subject payload headers|subscription subject payload headers transport|path method payload headers query|position]; cbn [process_message].
  - by apply (filtered_denotes now rules p subject payload headers None).
  - unfold ProcessForSubscription, mbind, PM_bind, getP. cbn [fst]. change (p_kvRuleSet (recount p ix stats)) with (p_kvRuleSet p).
    rewrite (sv_kv _ _ _ Hs). by apply (filtered_denotes now rules p subject payload headers (Some transport)).
  - unfold ProcessHTTP, denote_message, denote_with, mbind, PM_bind, getP. cbn [fst].
    rewrite (http_triggered now rules p ix stats path method payload headers query Hs).
    rewrite length_map. destruct (_ =? 0)%nat; [by exists ix, stats, st|].
    change (p_sigVerification (recount p ix stats)) with (p_sigVerification p).
    destruct (with_context_denotes _ _ payload headers None (Some (NewHTTPRequestContext path method query)) (p_sigVerification p) "http" p ix stats st (given_prepare _) Ht Hst)
      as (stats' & st' & -> & Hst'). by exists ix, stats', st'.
  - unfold denote_message, denote_with, mbind, PM_bind, getP, ScheduleRules. cbn [fst]. change (p_kvRuleSet (recount p ix stats)) with (p_kvRuleSet p).
    change (p_scheduleRules (recount p ix stats)) with (p_scheduleRules p). rewrite (sv_kv _ _ _ Hs), (sv_schedule _ _ _ Hs).
    rewrite number_from_prepared, filter_map_prepare by done. rewrite list_lookup_fmap. cbn [triggered] in *.
    destruct (List.filter has_schedule (number_from 0 rules) !! position) as [r|]; [|by exists ix, stats, st].
    cbn [option_list fmap option_fmap option_map length Nat.eqb] in *. unfold ProcessSchedule.
    destruct (with_context_denotes [r] [prepare r] "" [] None None None "schedule" p ix stats st (given_prepare [r]) Ht Hst) as (stats' & st' & Hrun & Hst').
    exists ix, stats', st'. split; [exact Hrun|done].
Qed.

Lemma process_all_ready now rules p ms ix stats st :
  serves now rules p → Forall (λ r, plain_rule r = true ∧ fresh_rule r = true) rules → engine_ready p st →
  ∃ ix' stats' st', process_all ms (recount p ix stats, st) = (tt, (recount p ix' stats', st')) ∧ engine_ready p st'.
Proof.
  intros Hs Hr. revert ix stats st. induction ms as [|m ms IH]; intros ix stats st Hst; [by exists ix, stats, st|].
  cbn [process_all]. unfold mbind, PM_bind. destruct (process_denotes now rules p m ix stats st Hs Hr Hst) as (ix' & stats' & st' & -> & Hst').
  by apply IH.
Qed.
End messages.

(** ** Properties *)

(** C1: The engine computes the meaning of its rules, over a key-value store that
    does not change.  Load, without rules from a bucket, rules as a file gives them
    (nothing prepared, no operand with white space around its braces), whose
    action templates call no function and nest no more than ten names, and whose throttles are
    trailing ones; let every read of the store give its snapshot, and let the
    parse cache and the local cache agree with it at the start.  Then whatever was
    processed before, the outcome of a message, of a delivery to a subscription, of a request or
    of a fire of a schedule is that of the rules it triggers, in order: each whose conditions hold
    gives the actions its templates denote in the context of the message, out at
    once or held under its key, one per element of a forEach; a payload that
    cannot be decoded is an error.  Under these hypotheses the preparation of the rules, the index, the
    reads that fill the caches, the counters and the lazy signature check change no outcome.
    They can without them: a stale cache ([KVCache.unwatched_bucket_goes_stale]),
    a text that is no JSON ([KVCache.plain_text_needs_the_cache]) and a padded
    operand ([Evaluator.padded_operand_differs]) are examples. *)
Theorem engine_denotes `{Env} snapshot now p0 rules p st history m :
  server_static snapshot → LoadRules now p0 rules = Ok p → p_kvRuleSet p0 = None →
  Forall (λ r, plain_rule r = true ∧ fresh_rule r = true) rules → engine_ready snapshot p0 st →
  let '(p', st') := (process_all history (p, st)).2 in
  (process_message m (p', st')).1 = denote_message snapshot p0 rules (CurrentContext (p_timeProvider p0) st').1 m.
Proof.
  intros Hstat Hl Hk Hr Hst. destruct (LoadRules_serves now p0 rules p Hl Hk) as (Hs & Ekv & Esig & Emax & Etp).
  assert (engine_ready snapshot p st) as Hst0 by (intros kv Hkv; apply Hst; by rewrite <- Ekv).
  rewrite <- (recount_id p).
  destruct (process_all_ready snapshot Hstat now rules p history (ix_stats (p_index p)) (p_stats p) st Hs Hr Hst0) as (ix & stats & st1 & -> & Hst1).
  cbn [snd].   destruct (process_denotes snapshot Hstat now rules p m ix stats st1 Hs Hr Hst1) as (? & ? & ? & -> & _). cbn [fst].
  unfold denote_message, denote_with. by rewrite Ekv, Esig, Emax, Etp.
Qed.

(** A rule with conditions and a template of its own, one that holds back, and one
    that fans out over an array. *)
Definition engine_rules : list Rule :=
  [MkRule "" (MkTrigger (Some (MkNATSTrigger "a.*" None None "" false "")) None None)
     (Some (MkConditions "and" [cond "{temperature}" "gt" (VStr "{@kv.config.limits:max}")] []))
     (MkAction (Some (MkNATSAction "alerts.{unit}" "" "{'temperature': {temperature}, 'in': '{@subject.1}'}" false false {["x" := "{unit}"]} "" false "" "" None None None None)) None None None) 0;
   MkRule "" (MkTrigger (Some (MkNATSTrigger "a.b" None None "" false "")) None None) None
     (MkAction (Some (MkNATSAction "copy" "" "" true false ∅ "" false "" "" None (Some (MkThrottle "5s" "{unit}" "trailing")) None None)) None None None) 0;
   MkRule "" (MkTrigger (Some (MkNATSTrigger "a.b" None None "" false "")) None None) None
     (MkAction (Some (MkNATSAction "each.{v}" "" "" true false ∅ "" false "" "{readings}" None None None None)) None None None) 0].

#[local] Existing Instance demo.
Definition engine_before : Processor := NewProcessor (Some (MkKVContext {["config"]})) None None (MkTime 0 0).
#[local] Notation engine_loaded := (match LoadRules (MkTime 0 0) engine_before engine_rules with Ok p => p | Err _ => engine_before end).

#[local] Notation engine_history := [NATSMessage "a.b" "sample" []; HTTPRequest "/none" "GET" "30" [] ∅; Delivery "a.>" "a.c" "sample" [] CoreRuleFilter].
#[local] Notation engine_after := (process_all engine_history (engine_loaded, demo_start)).2.

Lemma engine_loads : LoadRules (MkTime 0 0) engine_before engine_rules = Ok engine_loaded.
Proof. vm_compute. reflexivity. Qed.
Lemma engine_rules_plain : Forall (λ r, plain_rule r = true ∧ fresh_rule r = true) engine_rules.
Proof. repeat constructor. Qed.

Lemma engine_denotes_witness :
  (let '(p', st') := engine_after in
   (@process_message demo (NATSMessage "a.b" "sample" []) (p', st')).1 =
     denote_message demo_snapshot engine_before engine_rules (CurrentContext (p_timeProvider engine_before) st').1 (NATSMessage "a.b" "sample" [])) ∧
  (λ out, (length (o_Immediate out), length (o_Deferred out))) <$>
    ok_or_none (@process_message demo (NATSMessage "a.b" "sample" []) engine_after).1 = Some (3%nat, 1%nat).
Proof.
  split; [|vm_compute; reflexivity].
  apply (@engine_denotes demo demo_snapshot (MkTime 0 0) engine_before engine_rules engine_loaded demo_start engine_history);
    [done|exact engine_loads|reflexivity|exact engine_rules_plain|].
  intros kv [= <-]. apply demo_coherent. done.
Defined.
