(* ===== verification/Loader.v ===== *)
(** * Loading rules (internal/rule/loader.go)

    The validation of a rule, the pipeline that parses, normalises, expands and
    validates a source of rules, and the walk over a directory of sources.  The
    YAML decoder, the cron parser and the zone database are parameters. *)

From S2P Require Import Prelude GoStrings GoFloat GoTime Value Types Pattern PathMatcher Traversal Env Demo KVContext Conditions.
From S2P Require Import Random Hmac Expand Index Processor.
Local Open Scope string_scope.
#[local] Arguments String.append !_ _ /.

Class LoaderEnv := {
  (** [yaml.Unmarshal] into a list of rules *)
  yaml_Unmarshal : string → option (list Rule);
  (** [CronParser.Parse] and [time.LoadLocation] succeed *)
  cron_Parse : string → bool;
  time_LoadLocation : string → bool;
  os_Getenv : string → string;
}.

Record Loader := MkLoader { ld_configuredKVBuckets : list string; ld_allowEnv : bool }.
Definition NewLoader (kvBuckets : list string) : Loader := MkLoader kvBuckets true.
Definition DisallowEnv (l : Loader) : Loader := MkLoader (ld_configuredKVBuckets l) false.

(** ** Errors *)

Inductive kv_field_error :=
| KVPrefix (field : string) | KVNoKey (field : string) | KVEmptyBucket (field : string)
| KVEmptyKey (field : string) | KVManyColons (field : string) | KVNoKeyBeforeColon (part : string).

Inductive system_field_error := FieldIndex | FieldName.

Inductive conditions_error :=
| GroupOperator (op : string)
| FieldEmpty (i : nat)
| FieldNoTemplate (i : nat) (field : string)
| FieldMalformed (i : nat) (field : string)
| ConditionOperator (i : nat) (op : string)
| NoNestedConditions (i : nat) (op : string)
| InNested (i : nat) (op : string) (e : conditions_error)
| InSubjectField (i : nat) (field : string) (e : system_field_error)
| InPathField (i : nat) (field : string) (e : system_field_error)
| InKVField (i : nat) (field : string) (e : kv_field_error)
| InGroup (i : nat) (e : conditions_error).

Inductive throttle_error :=
| WindowEmpty | WindowInvalid (window : string) | WindowNotPositive (window : string)
| TrailingOnTrigger | ThrottleMode (mode : string) | ThrottleKeyKV (e : kv_field_error).

Inductive hmac_error_kind :=
| SchemeUnknown (scheme : string) | FixedByScheme (field scheme : string) | HeaderEmpty
| AlgorithmUnknown (algorithm : string) | EncodingUnknown (encoding : string) | SecretKV (e : kv_field_error).

Inductive rule_error :=
| SubjectEmpty | SubjectTemplate (field pattern example : string) (first : Z)
| SubjectPattern (e : pattern_error) | DoubleWildcard | EmptyTokens
| InThrottle (location : string) (e : throttle_error) | ModeInvalid (where_ mode : string)
| ReplyOverJetStream | QueueWithoutCore
| PathInvalid (e : pattern_error) | MethodInvalid (method : string) | InHMAC (e : hmac_error_kind)
| CronEmpty | CronInvalid (cron : string) | TimezoneInvalid (tz : string)
| NoTrigger | ManyTriggers
| PayloadAndPassthrough | StatusCode (code : Z) | HeaderNameEmpty
| KVIn (place : string) (e : kv_field_error)
| ActionSubjectEmpty | TrailingRequest | TimeoutWithoutRequest | TimeoutInvalid (timeout : string)
| URLEmpty | URLScheme (url : string) | ActionMethodEmpty | RetryDelay (field delay : string) | PublishSubjectEmpty
| ForEachNoTemplate (field : string) | ForEachMalformed (field : string) | ForEachWildcard (field : string)
| ForEachDeep (field : string) | ForEachFilter (e : conditions_error)
| NoAction | ManyActions (nats http respond : nat)
| RespondWithoutCaller | ReplyWithoutRespond | RequestWithoutHTTP
| InConditions (e : conditions_error).

(** ** Fields *)

Definition validateKVFieldWithVariables (field : string) : result kv_field_error unit :=
  match CutPrefix field "@kv." with
  | None => Err (KVPrefix field)
  | Some remainder =>
      if negb (has_char ":" remainder) then
        let '(bucket, key, found) := Cut "." remainder in
        if negb found then Err (KVNoKey field)
        else if String.eqb bucket "" then Err (KVEmptyBucket field)
        else guard_err (String.eqb key "") (KVEmptyKey field)
      else if (1 <? count_char ":" remainder)%nat then Err (KVManyColons field)
      else
        let '(bucketKeyPart, _, _) := Cut ":" remainder in
        let '(bucket, key, found) := Cut "." bucketKeyPart in
        if negb found then Err (KVNoKeyBeforeColon bucketKeyPart)
        else if String.eqb bucket "" then Err (KVEmptyBucket field)
        else guard_err (String.eqb key "") (KVEmptyKey field)
  end.

Definition validateKVFieldsInTemplate (template : string) : result kv_field_error unit :=
  if String.eqb template "" then Ok tt
  else forM_ (λ _, validateKVFieldWithVariables) (extractKVFieldsFromTemplate template).

Definition extractBucketFromKVField (field : string) : string :=
  match CutPrefix field "@kv." with
  | None => ""
  | Some remainder => let '(bucket, _, _) := Cut "." remainder in bucket
  end.

Definition isBucketConfigured (l : Loader) (bucket : string) : bool :=
  if (length (ld_configuredKVBuckets l) =? 0)%nat then true
  else existsb (String.eqb bucket) (ld_configuredKVBuckets l).

(** [@subject], [@subject.count] and [@subject.N]; the same for [@path]. *)
Definition validate_system_field (name field : string) : result system_field_error unit :=
  if String.eqb field name || String.eqb field (name ++ ".count") then Ok tt
  else match CutPrefix field (name ++ ".") with
       | Some indexStr => match Atoi indexStr with Some _ => Ok tt | None => Err FieldIndex end
       | None => Err FieldName
       end.
Definition validateSubjectField : string → result system_field_error unit := validate_system_field "@subject".
Definition validatePathField : string → result system_field_error unit := validate_system_field "@path".

(** ** Conditions *)

(** A loop over positions that stops at the first error. *)
Definition checks {E A} (f : nat → A → result E unit) : nat → list A → result E unit :=
  fix go i l := match l with [] => Ok tt | a :: l' => _ ← f i a; go (S i) l' end.

(** The checks of a condition beside those of its nested conditions. *)
Definition validate_field (i : nat) (field : string) : result conditions_error string :=
  _ ← guard_err (String.eqb field "") (FieldEmpty i);
  _ ← guard_err (negb (IsTemplate field)) (FieldNoTemplate i field);
  let varName := ExtractVariable field in
  _ ← guard_err (String.eqb varName "") (FieldMalformed i field);
  Ok varName.

Definition validate_variable (i : nat) (field varName : string) : result conditions_error unit :=
  _ ← (if HasPrefix varName "@subject" then map_err (InSubjectField i field) (validateSubjectField varName) else Ok tt);
  _ ← (if HasPrefix varName "@path" then map_err (InPathField i field) (validatePathField varName) else Ok tt);
  if HasPrefix varName "@kv" then map_err (InKVField i field) (validateKVFieldWithVariables varName) else Ok tt.

Definition array_operator (op : string) : bool := String.eqb op "any" || String.eqb op "all" || String.eqb op "none".

Fixpoint validateConditions (conditions : Conditions) : result conditions_error unit :=
  let '(MkConditions op items groups) := conditions in
  _ ← guard_err (negb (String.eqb op "and") && negb (String.eqb op "or")) (GroupOperator op);
  _ ← checks validate_item 0 items;
  checks (λ i group, map_err (InGroup i) (validateConditions group)) 0 groups
with validate_item (i : nat) (c : Condition) : result conditions_error unit :=
  let '(MkCondition field op _ nested _ _ _ _) := c in
  varName ← validate_field i field;
  _ ← guard_err (negb (IsValidOperator op)) (ConditionOperator i op);
  _ ← (if array_operator op then
         match nested with
         | None => Err (NoNestedConditions i op)
         | Some cs => map_err (InNested i op) (validateConditions cs)
         end
       else Ok tt);
  validate_variable i field varName.

(** ** Blocks *)

Definition validateThrottleConfig (cfg : option ThrottleConfig) (allowTrailing : bool) : result throttle_error unit :=
  match cfg with
  | None => Ok tt
  | Some cfg =>
      if String.eqb (th_Window cfg) "" then Err WindowEmpty
      else
        match ParseDuration (th_Window cfg) with
        | None => Err (WindowInvalid (th_Window cfg))
        | Some window =>
            if (window <=? 0)%Z then Err (WindowNotPositive (th_Window cfg))
            else
              _ ← (if String.eqb (th_Mode cfg) "" || String.eqb (th_Mode cfg) ThrottleLeading then Ok tt
                   else if String.eqb (th_Mode cfg) ThrottleTrailing then guard_err (negb allowTrailing) TrailingOnTrigger
                   else Err (ThrottleMode (th_Mode cfg)));
              if String.eqb (th_Key cfg) "" then Ok tt
              else map_err ThrottleKeyKV (validateKVFieldsInTemplate (th_Key cfg))
        end
  end.

Definition is_kv_reference (secret : string) : bool := HasPrefix secret "{@kv." && HasSuffix secret "}".

Definition validateHMACConfig (cfg : option HMACConfig) : result hmac_error_kind unit :=
  match cfg with
  | None => Ok tt
  | Some cfg =>
      if negb (isHMACScheme (hm_Scheme cfg)) then Err (SchemeUnknown (hm_Scheme cfg))
      else
        _ ← (if negb (String.eqb (hm_Scheme cfg) "") then
               checks (λ _ f, guard_err (negb (String.eqb f.2 "")) (FixedByScheme f.1 (hm_Scheme cfg))) 0
                 [("header", hm_Header cfg); ("algorithm", hm_Algorithm cfg);
                  ("encoding", hm_Encoding cfg); ("prefix", hm_Prefix cfg)]
             else if String.eqb (hm_Header cfg) "" then Err HeaderEmpty
             else match hmacHash (hm_Algorithm cfg) with
                  | None => Err (AlgorithmUnknown (hm_Algorithm cfg))
                  | Some _ =>
                      match hmacDecode (hm_Encoding cfg) "" with
                      | None => Err (EncodingUnknown (hm_Encoding cfg))
                      | Some _ => Ok tt
                      end
                  end);
        if is_kv_reference (hm_Secret cfg)
        then map_err SecretKV (validateKVFieldsInTemplate (hm_Secret cfg)) else Ok tt
  end.

Definition validateNATSMode (mode where_ : string) : result rule_error unit :=
  guard_err (negb (String.eqb mode "") && negb (String.eqb mode ModeJetStream) && negb (String.eqb mode ModeCore))
    (ModeInvalid where_ mode).

Definition validateWildcardPattern (subject : string) : result rule_error unit :=
  _ ← map_err SubjectPattern (ValidatePattern subject);
  _ ← guard_err (Contains subject "**") DoubleWildcard;
  guard_err (Contains subject "..") EmptyTokens.

(** [strings.ContainsAny(s, "{}")] *)
Definition has_brace (s : string) : bool := has_char "{" s || has_char "}" s.

(** The tokens of the example: a wildcard for each token with a brace, and the
    position of the first of them. *)
Fixpoint example_tokens (i : Z) (tokens : list string) (first : Z) : list string * Z :=
  match tokens with
  | [] => ([], first)
  | tok :: rest =>
      if has_brace tok then
        let '(l, f) := example_tokens (i + 1) rest (if (first <? 0)%Z then i else first) in ("*" :: l, f)
      else let '(l, f) := example_tokens (i + 1) rest first in (tok :: l, f)
  end.

Definition validateNoTriggerTemplate (pattern field : string) (sep : ascii) : result rule_error unit :=
  if negb (has_brace pattern) then Ok tt
  else
    let body := replace_all span_match 2 (λ _, "{}") 0 pattern in
    let '(prefix, body) := if Ascii.eqb sep "/" then ("/", TrimChar "/" body) else ("", body) in
    let '(tokens, first) := example_tokens 0 (Split sep body) (-1) in
    Err (SubjectTemplate field pattern (prefix ++ Join (String sep "") tokens) first).

Definition validMethods : list string := ["GET"; "POST"; "PUT"; "PATCH"; "DELETE"; "HEAD"; "OPTIONS"].

(** The method in upper case, if it is one. *)
Definition validate_method (method : string) : result rule_error string :=
  let m := ToUpper method in
  if existsb (String.eqb m) validMethods then Ok m else Err (MethodInvalid method).

(** The first header, in some order, with an empty name or a bad value. *)
Definition validate_headers (headers : gmap string string) : result rule_error unit :=
  checks (λ _ kv,
    _ ← guard_err (String.eqb kv.1 "") HeaderNameEmpty;
    map_err (KVIn ("header " ++ kv.1)) (validateKVFieldsInTemplate kv.2)) 0 (map_to_list headers).

Definition validateForEachConfig (forEachField : string) (filter : option Conditions) : result rule_error unit :=
  _ ← guard_err (negb (IsTemplate forEachField)) (ForEachNoTemplate forEachField);
  let fieldName := ExtractVariable forEachField in
  _ ← guard_err (String.eqb fieldName "") (ForEachMalformed forEachField);
  _ ← guard_err (Contains fieldName "*" || Contains fieldName ">") (ForEachWildcard forEachField);
  _ ← guard_err (10 <? count_char "." fieldName)%nat (ForEachDeep forEachField);
  match filter with Some cs => map_err ForEachFilter (validateConditions cs) | None => Ok tt end.

(** ** Actions *)

Definition validateRespondAction (a : RespondAction) : result rule_error unit :=
  _ ← guard_err (ra_Passthrough a && negb (String.eqb (ra_Payload a) "")) PayloadAndPassthrough;
  _ ← guard_err (negb (ra_StatusCode a =? 0)%Z && ((ra_StatusCode a <? 100)%Z || (599 <? ra_StatusCode a)%Z))
        (StatusCode (ra_StatusCode a));
  _ ← map_err (KVIn "payload") (validateKVFieldsInTemplate (ra_Payload a));
  validate_headers (ra_Headers a).

Definition validateNATSAction (a : NATSAction) : result rule_error unit :=
  _ ← guard_err (String.eqb (na_Subject a) "") ActionSubjectEmpty;
  _ ← validateNATSMode (na_Mode a) "action";
  _ ← guard_err (na_Passthrough a && negb (String.eqb (na_Payload a) "")) PayloadAndPassthrough;
  _ ← (if negb (String.eqb (na_ForEach a) "") then validateForEachConfig (na_ForEach a) (na_Filter a) else Ok tt);
  _ ← map_err (KVIn "payload") (validateKVFieldsInTemplate (na_Payload a));
  _ ← map_err (KVIn "subject") (validateKVFieldsInTemplate (na_Subject a));
  _ ← validate_headers (na_Headers a);
  _ ← map_err (InThrottle "action.nats.throttle") (validateThrottleConfig (na_Throttle a) true);
  _ ← guard_err (na_Request a && IsTrailing (na_Throttle a)) TrailingRequest;
  if negb (String.eqb (na_Timeout a) "") then
    _ ← guard_err (negb (na_Request a)) TimeoutWithoutRequest;
    match ParseDuration (na_Timeout a) with Some _ => Ok tt | None => Err (TimeoutInvalid (na_Timeout a)) end
  else Ok tt.

Definition validate_delay (field delay : string) : result rule_error unit :=
  if negb (String.eqb delay "") then
    match ParseDuration delay with Some _ => Ok tt | None => Err (RetryDelay field delay) end
  else Ok tt.

(** At least one attempt, and delays that parse. *)
Definition validate_retry (r : RetryConfig) : result rule_error RetryConfig :=
  let maxAttempts := if (rc_MaxAttempts r <? 1)%Z then 1%Z else rc_MaxAttempts r in
  _ ← validate_delay "initialDelay" (rc_InitialDelay r);
  _ ← validate_delay "maxDelay" (rc_MaxDelay r);
  Ok (MkRetryConfig maxAttempts (rc_InitialDelay r) (rc_MaxDelay r)).

Definition validateHTTPAction (a : HTTPAction) : result rule_error HTTPAction :=
  _ ← guard_err (String.eqb (ha_URL a) "") URLEmpty;
  _ ← guard_err (negb (Contains (ha_URL a) "{") && negb (HasPrefix (ha_URL a) "http://")
                 && negb (HasPrefix (ha_URL a) "https://")) (URLScheme (ha_URL a));
  _ ← guard_err (String.eqb (ha_Method a) "") ActionMethodEmpty;
  method ← validate_method (ha_Method a);
  _ ← guard_err (ha_Passthrough a && negb (String.eqb (ha_Payload a) "")) PayloadAndPassthrough;
  _ ← (if negb (String.eqb (ha_ForEach a) "") then validateForEachConfig (ha_ForEach a) (ha_Filter a) else Ok tt);
  _ ← map_err (KVIn "payload") (validateKVFieldsInTemplate (ha_Payload a));
  _ ← map_err (KVIn "URL") (validateKVFieldsInTemplate (ha_URL a));
  _ ← validate_headers (ha_Headers a);
  retry ← opt_map validate_retry (ha_Retry a);
  _ ← map_err (InThrottle "action.http.throttle") (validateThrottleConfig (ha_Throttle a) true);
  _ ← match ha_PublishResponse a with
      | None => Ok tt
      | Some p =>
          _ ← guard_err (String.eqb (pr_Subject p) "") PublishSubjectEmpty;
          map_err (KVIn "publishResponse.subject") (validateKVFieldsInTemplate (pr_Subject p))
      end;
  Ok (MkHTTPAction (ha_URL a) method (ha_Payload a) (ha_Passthrough a) (ha_Merge a) (ha_Headers a) (ha_RawPayload a)
    retry (ha_PublishResponse a) (ha_ForEach a) (ha_Filter a) (ha_Throttle a) (ha_Debounce a) (ha_forEachPath a)).

Definition present {A} (o : option A) : nat := match o with Some _ => 1 | None => 0 end.

Definition validateAction (ac : Action) : result rule_error Action :=
  _ ← match a_NATS ac with Some a => validateNATSAction a | None => Ok tt end;
  ha ← opt_map validateHTTPAction (a_HTTP ac);
  _ ← match a_Respond ac with Some a => validateRespondAction a | None => Ok tt end;
  let total := (present (a_NATS ac) + present (a_HTTP ac) + present (a_Respond ac))%nat in
  _ ← guard_err (total =? 0)%nat NoAction;
  _ ← guard_err (1 <? total)%nat (ManyActions (present (a_NATS ac)) (present (a_HTTP ac)) (present (a_Respond ac)));
  Ok (MkAction (a_NATS ac) ha (a_Respond ac) (a_Defer ac)).

(** ** Triggers and rules *)

Definition validate_nats_trigger (t : NATSTrigger) : result rule_error unit :=
  _ ← guard_err (String.eqb (nt_Subject t) "") SubjectEmpty;
  _ ← validateNoTriggerTemplate (nt_Subject t) "trigger.nats.subject" ".";
  _ ← validateWildcardPattern (nt_Subject t);
  _ ← map_err (InThrottle "trigger.nats.throttle") (validateThrottleConfig (nt_Throttle t) false);
  _ ← validateNATSMode (nt_Mode t) "trigger";
  _ ← guard_err (nt_Reply t && String.eqb (nt_Mode t) ModeJetStream) ReplyOverJetStream;
  guard_err (negb (String.eqb (nt_Queue t) "") && negb (IsCore t)) QueueWithoutCore.

Definition validate_http_trigger (t : HTTPTrigger) : result rule_error HTTPTrigger :=
  _ ← validateNoTriggerTemplate (ht_Path t) "trigger.http.path" "/";
  _ ← map_err PathInvalid (ValidatePathPattern (ht_Path t));
  method ← (if negb (String.eqb (ht_Method t) "") then validate_method (ht_Method t) else Ok (ht_Method t));
  _ ← map_err (InThrottle "trigger.http.throttle") (validateThrottleConfig (ht_Throttle t) false);
  _ ← map_err InHMAC (validateHMACConfig (ht_HMAC t));
  Ok (MkHTTPTrigger (ht_Path t) method (ht_Throttle t) (ht_Debounce t) (ht_HMAC t)).

Definition validateTriggerActionCompatibility (tr : Trigger) (ac : Action) : result rule_error unit :=
  let natsReply := match tr_NATS tr with Some t => nt_Reply t | None => false end in
  let http := match tr_HTTP tr with Some _ => true | None => false end in
  let respond := match a_Respond ac with Some _ => true | None => false end in
  _ ← guard_err (respond && (negb http && negb natsReply)) RespondWithoutCaller;
  _ ← guard_err (natsReply && negb respond) ReplyWithoutRespond;
  guard_err (match a_NATS ac with Some a => na_Request a | None => false end && negb http) RequestWithoutHTTP.

Section loading.
Context `{LoaderEnv}.

Definition validateScheduleTrigger (s : ScheduleTrigger) : result rule_error unit :=
  _ ← guard_err (String.eqb (st_Cron s) "") CronEmpty;
  _ ← guard_err (negb (cron_Parse (st_Cron s))) (CronInvalid (st_Cron s));
  if negb (String.eqb (st_Timezone s) "")
  then guard_err (negb (time_LoadLocation (st_Timezone s))) (TimezoneInvalid (st_Timezone s)) else Ok tt.

Definition validateTrigger (tr : Trigger) : result rule_error Trigger :=
  _ ← match tr_NATS tr with Some t => validate_nats_trigger t | None => Ok tt end;
  ht ← opt_map validate_http_trigger (tr_HTTP tr);
  _ ← match tr_Schedule tr with Some s => validateScheduleTrigger s | None => Ok tt end;
  let triggerCount := (present (tr_NATS tr) + present (tr_HTTP tr) + present (tr_Schedule tr))%nat in
  _ ← guard_err (triggerCount =? 0)%nat NoTrigger;
  _ ← guard_err (1 <? triggerCount)%nat ManyTriggers;
  Ok (MkTrigger (tr_NATS tr) ht (tr_Schedule tr)).

Definition validateRule (rule : Rule) : result rule_error Rule :=
  tr ← validateTrigger (r_Trigger rule);
  ac ← validateAction (r_Action rule);
  _ ← validateTriggerActionCompatibility tr ac;
  _ ← match r_Conditions rule with Some cs => map_err InConditions (validateConditions cs) | None => Ok tt end;
  Ok (MkRule (r_Name rule) tr (r_Conditions rule) ac (r_index rule)).

(** ** The pipeline *)

Inductive source_error :=
| ParseFailed
| NormalizeFailed (i : nat) (location : string)
| ExpandFailed (i : nat) (refs : list env_ref)
| RuleInvalid (i : nat) (e : rule_error)
| RandomInvalid (i : nat) (call : string) (e : random_error)
| AccessFailed | NotADirectory | NoFiles
| ReadFailed (path : string)
| InFile (path : string) (e : source_error).

Definition mapE {E A B} (f : nat → A → result E B) : nat → list A → result E (list B) :=
  fix go i l := match l with [] => Ok [] | a :: l' => b ← f i a; bs ← go (S i) l'; Ok (b :: bs) end.

Context `{Env}.

(** The first call that cannot be evaluated, with its error. *)
Fixpoint first_bad_call (calls : list string) : M (option (string * random_error)) :=
  match calls with
  | [] => mret None
  | call :: rest =>
      r ← randomValue call;
      match r with Err e => mret (Some (call, e)) | Ok _ => first_bad_call rest end
  end.

Definition validateRandomCalls (rule : Rule) : M (option (string * random_error)) :=
  first_bad_call (concat (map random_calls (walkStrings rule))).

Fixpoint validate_loop (i : nat) (rules : list Rule) : M (result source_error (list Rule)) :=
  match rules with
  | [] => mret (Ok [])
  | rule :: rest =>
      match validateRule rule with
      | Err e => mret (Err (RuleInvalid i e))
      | Ok rule =>
          bad ← validateRandomCalls rule;
          match bad with
          | Some (call, e) => mret (Err (RandomInvalid i call e))
          | None => rules ← validate_loop (S i) rest; mret (cons rule <$> rules)
          end
      end
  end.

Definition ParseAndValidateYAML (l : Loader) (data : string) : M (result source_error (list Rule)) :=
  match yaml_Unmarshal data with
  | None => mret (Err ParseFailed)
  | Some rules =>
      if (length rules =? 0)%nat then mret (Ok rules)
      else
        match mapE (λ i r, map_err (NormalizeFailed i) (normalizeThrottle r)) 0 rules with
        | Err e => mret (Err e)
        | Ok rules =>
            match mapE (λ i r, map_err (ExpandFailed i) (expandEnvironmentVariables os_Getenv (ld_allowEnv l) r)) 0 rules with
            | Err e => mret (Err e)
            | Ok rules => validate_loop 0 rules
            end
        end
  end.

(** ** Directories *)

(** A directory tree; the entries of a directory are in the order in which
    [filepath.Walk] visits them, and a file that cannot be read has no content. *)
Inductive fs := FsFile (name : string) (content : option string) | FsDir (name : string) (entries : list fs).

(** [filepath.Ext]: from the last dot. *)
Fixpoint Ext (name : string) : string :=
  match name with
  | "" => ""
  | String c t => let e := Ext t in if negb (String.eqb e "") then e else if Ascii.eqb c "." then name else ""
  end.

Definition is_yaml (name : string) : bool :=
  let ext := ToLower (Ext name) in String.eqb ext ".yaml" || String.eqb ext ".yml".

Fixpoint yaml_files (dir : string) (f : fs) : list (string * option string) :=
  match f with
  | FsFile name content => if is_yaml name then [(dir ++ "/" ++ name, content)] else []
  | FsDir name entries =>
      if HasSuffix name "_test" then [] else concat (map (yaml_files (dir ++ "/" ++ name)) entries)
  end.

Definition LoadFromFile (l : Loader) (f : string * option string) : M (result source_error (list Rule)) :=
  match f.2 with
  | None => mret (Err (ReadFailed f.1))
  | Some data => ParseAndValidateYAML l data
  end.

Fixpoint load_files (l : Loader) (files : list (string * option string)) (allRules : list Rule)
    : M (result source_error (list Rule)) :=
  match files with
  | [] => mret (Ok allRules)
  | f :: rest =>
      rules ← LoadFromFile l f;
      match rules with
      | Err e => mret (Err (InFile f.1 e))
      | Ok rules => load_files l rest (allRules ++ rules)%list
      end
  end.

(** [root]: what [os.Stat] finds at the path, if it succeeds. *)
Definition LoadFromDirectory (l : Loader) (root : option fs) : M (result source_error (list Rule)) :=
  match root with
  | None => mret (Err AccessFailed)
  | Some (FsFile _ _) => mret (Err NotADirectory)
  | Some (FsDir _ _ as dir) =>
      let files := yaml_files "" dir in
      if (length files =? 0)%nat then mret (Err NoFiles) else load_files l files []
  end.
End loading.

(** ** Specification *)

(** A field of a condition names a variable: anything in braces, but a name that
    starts as a system field must be one. *)
Definition system_field (name field : string) : Prop :=
  field = name ∨ field = name ++ ".count" ∨ ∃ n z, field = (name ++ ".") ++ n ∧ Atoi n = Some z.

(** A bucket without dots, a dot, a key; and a path behind a colon at most. *)
Definition bucket_key (s : string) : Prop :=
  ∃ bucket key, s = bucket ++ "." ++ key ∧ has_char "." bucket = false ∧ bucket ≠ "" ∧ key ≠ "".
Definition kv_field (field : string) : Prop :=
  ∃ s, bucket_key s ∧ has_char ":" s = false ∧
    (field = "@kv." ++ s ∨ ∃ path, field = "@kv." ++ s ++ ":" ++ path ∧ has_char ":" path = false).

Record condition_field (field : string) : Prop := {
  cf_template : IsTemplate field = true;
  cf_named : ExtractVariable field ≠ "";
  cf_subject : HasPrefix (ExtractVariable field) "@subject" = true → system_field "@subject" (ExtractVariable field);
  cf_path : HasPrefix (ExtractVariable field) "@path" = true → system_field "@path" (ExtractVariable field);
  cf_kv : HasPrefix (ExtractVariable field) "@kv" = true → kv_field (ExtractVariable field);
}.

(** A condition tree: groups combine with [and] or [or], operators are known,
    and an array operator has the conditions its elements are tested with. *)
Inductive ok_conditions : Conditions → Prop :=
| ok_group op items groups :
    op = "and" ∨ op = "or" → Forall ok_condition items → Forall ok_conditions groups →
    ok_conditions (MkConditions op items groups)
with ok_condition : Condition → Prop :=
| ok_item field op val nested fv fp vv vp :
    condition_field field → op ∈ validOperators →
    (op ∈ ["any"; "all"; "none"] → ∃ cs, nested = Some cs ∧ ok_conditions cs) →
    ok_condition (MkCondition field op val nested fv fp vv vp).

(** ** Lemmas *)

Lemma CutPrefix_app s p r : CutPrefix s p = Some r ↔ s = p ++ r.
Proof. apply CutPrefix_Some. Qed.

Lemma guard_ok {E} (b : bool) (e : E) : guard_err b e = Ok tt ↔ b = false.
Proof. apply guard_err_Ok. Qed.

Lemma bind_tt {E} (m : result E unit) (f : unit → result E unit) :
  m ≫= f = Ok tt ↔ m = Ok tt ∧ f tt = Ok tt.
Proof. rewrite bind_Ok. split; [by intros ([] & ? & ?)|intros []; by exists tt]. Qed.

Lemma map_err_ok {E F} (f : E → F) (m : result E unit) : map_err f m = Ok tt ↔ m = Ok tt.
Proof. apply map_err_Ok. Qed.

Lemma if_ok {E} (b : bool) (m : result E unit) : (if b then m else Ok tt) = Ok tt ↔ (b = true → m = Ok tt).
Proof. destruct b; naive_solver. Qed.

Lemma checks_ok {E A} (f : nat → A → result E unit) (P : A → Prop) i l :
  Forall (λ a, ∀ i, f i a = Ok tt ↔ P a) l → checks f i l = Ok tt ↔ Forall P l.
Proof.
  intros Hl. revert i. induction Hl as [|a l Ha Hl IH]; intros i; cbn [checks]; [by rewrite Forall_nil|].
  by rewrite bind_tt, Ha, IH, Forall_cons.
Qed.

#[local] Hint Rewrite @guard_ok @bind_tt @map_err_ok @if_ok : loader.

Lemma validate_system_field_ok name field :
  validate_system_field name field = Ok tt ↔ system_field name field.
Proof.
  unfold validate_system_field, system_field. destruct (String.eqb_spec field name) as [->|H1]; cbn; [naive_solver|].
  destruct (String.eqb_spec field (name ++ ".count")) as [->|H2]; [naive_solver|].
  destruct (CutPrefix field (name ++ ".")) as [n|] eqn:E.
  - apply CutPrefix_app in E as ->. destruct (Atoi n) as [z|] eqn:En; [naive_solver|].
    split; [done|]. intros [?|[?|(n' & z & Heq%CutPrefix_app & Hn)]]; [done|done|].
    rewrite (proj2 (CutPrefix_app _ _ n) eq_refl) in Heq. congruence.
  - split; [done|]. intros [?|[?|(n' & z & Heq%CutPrefix_app & Hn)]]; congruence.
Qed.

Lemma count_char_has c s : (0 <? count_char c s)%nat = has_char c s.
Proof.
  induction s as [|a s IH]; [done|]. cbn. destruct (Ascii.eqb a c); [done|]. by rewrite <- IH.
Qed.

Definition has_bucket_key (s : string) : bool :=
  let '(b, k, found) := Cut "." s in found && negb (String.eqb b "") && negb (String.eqb k "").

Lemma has_bucket_key_spec s : has_bucket_key s = true ↔ bucket_key s.
Proof.
  unfold has_bucket_key, bucket_key. split.
  - destruct (Cut "." s) as [[b k] f] eqn:E. apply Cut_spec in E as [Hd Hf].
    rewrite !andb_true_iff, !negb_true_iff, !String.eqb_neq. intros [[-> Hb] Hk]. by exists b, k.
  - intros (b & k & -> & Hd & Hb%String.eqb_neq & Hk%String.eqb_neq).
    pose proof (Cut_app "." b k Hd) as E. cbn [String.append] in *. by rewrite E, Hb, Hk.
Qed.

(** A string with at most one colon, cut there. *)
Lemma one_colon r :
  has_char ":" r = true → (count_char ":" r ≤ 1)%nat →
  ∃ a path, Cut ":" r = (a, path, true) ∧ r = a ++ String ":" path ∧ has_char ":" a = false ∧ has_char ":" path = false.
Proof.
  intros Hc Hn. destruct (Cut ":" r) as [[a path] f] eqn:E. apply Cut_spec in E as [Ha Hf].
  destruct f; [|destruct Hf as [_ ->]; congruence]. subst r. exists a, path. split_and!; [done..|].
  rewrite <- count_char_has. apply Nat.ltb_ge. rewrite count_char_app in Hn. cbn in Hn. lia.
Qed.

(** The loader's checks of a field, as one condition. *)
Lemma validateKVField_bool field :
  validateKVFieldWithVariables field = Ok tt ↔
  ∃ r, field = "@kv." ++ r ∧
    if has_char ":" r then (count_char ":" r ≤ 1)%nat ∧ has_bucket_key (Cut ":" r).1.1 = true
    else has_bucket_key r = true.
Proof.
  unfold validateKVFieldWithVariables, has_bucket_key. destruct (CutPrefix field "@kv.") as [r|] eqn:E; cycle 1.
  { split; [done|]. intros (r & Hr%CutPrefix_app & _). congruence. }
  apply CutPrefix_app in E as ->.
  assert (∀ P : string → Prop, (∃ r', "@kv." ++ r = "@kv." ++ r' ∧ P r') ↔ P r) as ->.
  { intros P. split; [by intros (r' & [= <-] & ?)|by exists r]. }
  destruct (has_char ":" r); cbn [negb].
  - destruct (Nat.ltb_spec 1 (count_char ":" r)); [split; [done|lia]|].
    destruct (Cut ":" r) as [[a path] f]. cbn [fst]. destruct (Cut "." a) as [[b k] found].
    destruct found, (String.eqb b ""); cbn; try naive_solver. rewrite guard_ok, negb_true_iff. tauto.
  - destruct (Cut "." r) as [[b k] found]. destruct found, (String.eqb b ""); cbn; try naive_solver.
    by rewrite guard_ok, negb_true_iff.
Qed.

Lemma validateKVField_ok field : validateKVFieldWithVariables field = Ok tt ↔ kv_field field.
Proof.
  rewrite validateKVField_bool. unfold kv_field. split.
  - intros (r & -> & Hr). destruct (has_char ":" r) eqn:Hc.
    + destruct Hr as [Hn Hb]. destruct (one_colon r Hc Hn) as (a & path & E & -> & Ha & Hp). rewrite E in Hb.
      exists a. split; [by apply has_bucket_key_spec|]. split; [done|]. right. by exists path.
    + exists r. rewrite <- has_bucket_key_spec. auto.
  - intros (a & Ha%has_bucket_key_spec & Hc & [->|(path & -> & Hp)]).
    + exists a. by rewrite Hc.
    + exists (a ++ ":" ++ path). split; [done|]. pose proof (Cut_app ":" a path Hc) as E. cbn [String.append] in *.
      rewrite has_char_app. cbn. rewrite orb_true_r, E. split; [|done].
      rewrite count_char_app. cbn. rewrite !count_char_0 by done. lia.
Qed.

Lemma split_bucket_key_ok field s : is_ok (split_bucket_key field s) = has_bucket_key s.
Proof.
  unfold split_bucket_key, has_bucket_key. destruct (Cut "." s) as [[b k] []]; [|done]. cbn.
  by destruct (String.eqb b ""), (String.eqb k "").
Qed.

Lemma validate_variable_ok i field v :
  validate_variable i field v = Ok tt ↔
  (HasPrefix v "@subject" = true → system_field "@subject" v) ∧
  (HasPrefix v "@path" = true → system_field "@path" v) ∧
  (HasPrefix v "@kv" = true → kv_field v).
Proof.
  unfold validate_variable, validateSubjectField, validatePathField.
  by rewrite !bind_tt, !if_ok, !map_err_ok, !validate_system_field_ok, validateKVField_ok.
Qed.

Lemma validate_field_ok i field v :
  validate_field i field = Ok v ↔ IsTemplate field = true ∧ ExtractVariable field ≠ "" ∧ v = ExtractVariable field.
Proof.
  unfold validate_field, guard_err. destruct (String.eqb_spec field "") as [->|]; [cbn; naive_solver|].
  destruct (IsTemplate field); cbn; [|naive_solver].
  destruct (String.eqb_spec (ExtractVariable field) ""); cbn; naive_solver.
Qed.

Lemma array_operator_spec op : array_operator op = true ↔ op ∈ ["any"; "all"; "none"].
Proof.
  unfold array_operator. rewrite !orb_true_iff, !String.eqb_eq. set_solver.
Qed.

Lemma validateConditions_both :
  (∀ cs, validateConditions cs = Ok tt ↔ ok_conditions cs) ∧
  (∀ c i, validate_item i c = Ok tt ↔ ok_condition c).
Proof.
  assert (∀ op items groups,
    Forall (λ c, ∀ i, validate_item i c = Ok tt ↔ ok_condition c) items →
    Forall (λ cs, validateConditions cs = Ok tt ↔ ok_conditions cs) groups →
    validateConditions (MkConditions op items groups) = Ok tt ↔ ok_conditions (MkConditions op items groups)) as HC.
  { intros op items groups Hi Hg. cbn [validateConditions].
    rewrite !bind_tt, guard_ok, (checks_ok _ _ _ _ Hi), (checks_ok _ ok_conditions 0 groups).
    - rewrite andb_false_iff, !negb_false_iff, !String.eqb_eq. split; [by intros (? & ? & ?); constructor|].
      inversion 1; subst; done.
    - eapply Forall_impl; [exact Hg|]. intros cs Hcs i. cbn. by rewrite map_err_ok. }
  assert (∀ field op val nested fv fp vv vp,
    (∀ cs, nested = Some cs → validateConditions cs = Ok tt ↔ ok_conditions cs) →
    ∀ i, validate_item i (MkCondition field op val nested fv fp vv vp) = Ok tt ↔
      ok_condition (MkCondition field op val nested fv fp vv vp)) as HI.
  { intros field op val nested fv fp vv vp Hn i. cbn [validate_item].
    assert ((match nested with None => Err (NoNestedConditions i op)
             | Some cs => map_err (InNested i op) (validateConditions cs) end = Ok tt) ↔
            ∃ cs, nested = Some cs ∧ ok_conditions cs) as Hnested.
    { destruct nested as [cs|]; [rewrite map_err_ok, Hn by done|]; naive_solver. }
    assert (negb (IsValidOperator op) = false ↔ op ∈ validOperators) as Hop.
    { unfold IsValidOperator. rewrite negb_false_iff, existsb_True. split.
      - by intros (x & ? & ->%String.eqb_eq).
      - intros Hin. exists op. by rewrite String.eqb_refl. }
    rewrite bind_Ok. split.
    - intros (v & (Ht & Hne & ->)%validate_field_ok & Hrest).
      rewrite !bind_tt, guard_ok, if_ok, validate_variable_ok, array_operator_spec, Hnested, Hop in Hrest.
      destruct Hrest as (? & ? & ? & ? & ?). constructor; [by split|done|done].
    - inversion 1 as [? ? ? ? ? ? ? ? [Ht Hne Hs Hpa Hkv] Ho Ha]; subst. exists (ExtractVariable field).
      split; [by apply validate_field_ok|].
      by rewrite !bind_tt, guard_ok, if_ok, validate_variable_ok, array_operator_spec, Hnested, Hop. }
  split; [apply (conditions_mut _ _ HC HI)|apply (condition_mut _ _ HC HI)].
Qed.

(** ** Random calls *)

Lemma randomValue_ok `{Env} call st st' : is_ok (randomValue call st).1 = is_ok (randomValue call st').1.
Proof.
  unfold randomValue. destruct (Cut "(" call) as [[name rest] found]. destruct (negb found || _); [done|].
  set (args := Split _ _).
  assert (∀ {A B} (f : World → A * World) (g : A → result B string) s s',
    (∀ a, is_ok (g a) = true) → is_ok ((r ← lift_world f; mret (M:=M) (g r)) s).1 = is_ok ((r ← lift_world f; mret (M:=M) (g r)) s').1) as Hl.
  { intros A B f g s s' Hg. unfold mbind, M_bind, lift_world. destruct (f (st_world s)), (f (st_world s')). cbn. by rewrite !Hg. }
  repeat case_match; try done.
  - unfold randomInt. repeat case_match; try done. by apply (Hl _ _ _ (λ r, Ok _)).
  - unfold randomFloat. repeat case_match; try done. by apply (Hl _ _ _ (λ r, Ok _)).
  - unfold randomChoice. repeat case_match; try done. by apply (Hl _ _ _ (λ r, Ok _)).
Qed.

Lemma first_bad_call_none `{Env} calls st :
  (first_bad_call calls st).1 = None → ∀ call st', call ∈ calls → is_ok (randomValue call st').1 = true.
Proof.
  revert st. induction calls as [|c l IH]; intros st; cbn [first_bad_call]; [set_solver|].
  unfold mbind, M_bind. destruct (randomValue c st) as [r st1] eqn:E. destruct r; [|done].
  intros Hn call st' [->|Hin]%elem_of_cons; [|by eapply IH].
  rewrite (randomValue_ok c st' st). by rewrite E.
Qed.

(** ** What an accepted rule is *)

Record runnable_throttle (allowTrailing : bool) (cfg : ThrottleConfig) : Prop := {
  rt_window : ∃ w, ParseDuration (th_Window cfg) = Some w ∧ (0 < w)%Z;
  rt_mode : th_Mode cfg ∈ ["";  ThrottleLeading] ∨ (th_Mode cfg = ThrottleTrailing ∧ allowTrailing = true);
}.

(** An array to loop over is named by a template, and its filter is a valid tree. *)
Definition ok_forEach (forEach : string) (filter : option Conditions) : Prop :=
  forEach ≠ "" → ExtractVariable forEach ≠ "" ∧ containsWildcards (ExtractVariable forEach) = false ∧
    from_opt ok_conditions filter.

Record accepted_nats (t : NATSTrigger) : Prop := {
  an_subject : valid_tokens (Split "." (nt_Subject t));
  an_literal : has_brace (nt_Subject t) = false;
  an_throttle : from_opt (runnable_throttle false) (nt_Throttle t);
  an_mode : nt_Mode t ∈ [""; ModeJetStream; ModeCore];
  an_reply : nt_Reply t = true → nt_Mode t ≠ ModeJetStream;
  an_queue : nt_Queue t ≠ "" → IsCore t = true;
}.

Record accepted_http (t : HTTPTrigger) : Prop := {
  ah_path : is_ok (NewPathMatcher (ht_Path t)) = true;
  ah_literal : has_brace (ht_Path t) = false;
  ah_method : ht_Method t = "" ∨ ht_Method t ∈ validMethods;
  ah_throttle : from_opt (runnable_throttle false) (ht_Throttle t);
  ah_scheme : from_opt (λ h, isHMACScheme (hm_Scheme h) = true ∧
    (hm_Scheme h = "" → hm_Header h ≠ "" ∧ hmacHash (hm_Algorithm h) ≠ None ∧ hmacDecode (hm_Encoding h) "" ≠ None)) (ht_HMAC t);
}.

Record accepted_nats_action (a : NATSAction) : Prop := {
  ana_subject : na_Subject a ≠ "";
  ana_mode : na_Mode a ∈ [""; ModeJetStream; ModeCore];
  ana_payload : na_Passthrough a = true → na_Payload a = "";
  ana_forEach : ok_forEach (na_ForEach a) (na_Filter a);
  ana_headers : na_Headers a !! "" = None;
  ana_throttle : from_opt (runnable_throttle true) (na_Throttle a);
  ana_request : na_Request a = true → IsTrailing (na_Throttle a) = false;
  ana_timeout : na_Timeout a ≠ "" → na_Request a = true ∧ ParseDuration (na_Timeout a) ≠ None;
}.

Record accepted_http_action (a : HTTPAction) : Prop := {
  aha_url : ha_URL a ≠ "" ∧
    (Contains (ha_URL a) "{" = true ∨ HasPrefix (ha_URL a) "http://" = true ∨ HasPrefix (ha_URL a) "https://" = true);
  aha_method : ha_Method a ∈ validMethods;
  aha_payload : ha_Passthrough a = true → ha_Payload a = "";
  aha_forEach : ok_forEach (ha_ForEach a) (ha_Filter a);
  aha_headers : ha_Headers a !! "" = None;
  aha_retry : from_opt (λ r, (1 ≤ rc_MaxAttempts r)%Z) (ha_Retry a);
  aha_throttle : from_opt (runnable_throttle true) (ha_Throttle a);
  aha_publish : from_opt (λ p, pr_Subject p ≠ "") (ha_PublishResponse a);
}.

Record accepted_respond (a : RespondAction) : Prop := {
  ar_payload : ra_Passthrough a = true → ra_Payload a = "";
  ar_status : ra_StatusCode a = 0%Z ∨ (100 ≤ ra_StatusCode a ≤ 599)%Z;
  ar_headers : ra_Headers a !! "" = None;
}.

Record accepted `{LoaderEnv} (r : Rule) : Prop := {
  ac_one_trigger : (present (tr_NATS (r_Trigger r)) + present (tr_HTTP (r_Trigger r)) + present (tr_Schedule (r_Trigger r)) = 1)%nat;
  ac_one_action : (present (a_NATS (r_Action r)) + present (a_HTTP (r_Action r)) + present (a_Respond (r_Action r)) = 1)%nat;
  ac_nats : from_opt accepted_nats (tr_NATS (r_Trigger r));
  ac_http : from_opt accepted_http (tr_HTTP (r_Trigger r));
  ac_schedule : from_opt (λ s, cron_Parse (st_Cron s) = true ∧ (st_Timezone s = "" ∨ time_LoadLocation (st_Timezone s) = true))
    (tr_Schedule (r_Trigger r));
  ac_nats_action : from_opt accepted_nats_action (a_NATS (r_Action r));
  ac_http_action : from_opt accepted_http_action (a_HTTP (r_Action r));
  ac_respond : from_opt accepted_respond (a_Respond (r_Action r));
  ac_reply : from_opt (λ t, nt_Reply t = true → a_Respond (r_Action r) ≠ None) (tr_NATS (r_Trigger r));
  ac_caller : a_Respond (r_Action r) ≠ None → tr_HTTP (r_Trigger r) ≠ None ∨ ∃ t, tr_NATS (r_Trigger r) = Some t ∧ nt_Reply t = true;
  ac_request : from_opt (λ a, na_Request a = true → tr_HTTP (r_Trigger r) ≠ None) (a_NATS (r_Action r));
  ac_conditions : from_opt ok_conditions (r_Conditions r);
}.

(** ** Soundness of the checks *)

Lemma bind_guard {E A} (b : bool) (e : E) (f : unit → result E A) v :
  guard_err b e ≫= f = Ok v ↔ b = false ∧ f tt = Ok v.
Proof. destruct b; cbn; naive_solver. Qed.

Lemma bind_unit {E A} (m : result E unit) (f : unit → result E A) v :
  m ≫= f = Ok v ↔ m = Ok tt ∧ f tt = Ok v.
Proof. rewrite bind_Ok. split; [by intros ([] & ? & ?)|intros []; by exists tt]. Qed.

Lemma opt_map_ok {E A B} (f : A → result E B) o o' :
  opt_map f o = Ok o' → match o with None => o' = None | Some a => ∃ b, f a = Ok b ∧ o' = Some b end.
Proof.
  destruct o as [a|]; cbn; [|by intros [= <-]]. destruct (f a) as [b|]; cbn; [|done]. intros [= <-]. by exists b.
Qed.

Lemma opt_check_ok {E A} (f : A → result E unit) o :
  match o with Some a => f a | None => Ok tt end = Ok tt ↔ from_opt (λ a, f a = Ok tt) o.
Proof. destruct o; cbn; [done|]. naive_solver. Qed.

Lemma validateThrottle_sound cfg allow :
  validateThrottleConfig cfg allow = Ok tt → from_opt (runnable_throttle allow) cfg.
Proof.
  destruct cfg as [cfg|]; [|done]. cbn [validateThrottleConfig from_opt].
  destruct (String.eqb (th_Window cfg) ""); [done|]. destruct (ParseDuration (th_Window cfg)) as [w|] eqn:E; [|done].
  destruct (Z.leb_spec w 0); [done|]. rewrite bind_tt. intros [Hm _]. split; [by exists w|].
  destruct (String.eqb_spec (th_Mode cfg) ""); [set_solver|].
  destruct (String.eqb_spec (th_Mode cfg) ThrottleLeading); [set_solver|]. cbn in Hm.
  destruct (String.eqb_spec (th_Mode cfg) ThrottleTrailing); [|done].
  right. by apply guard_ok, negb_false_iff in Hm.
Qed.

Lemma mode_sound mode where_ : validateNATSMode mode where_ = Ok tt → mode ∈ [""; ModeJetStream; ModeCore].
Proof.
  unfold validateNATSMode. rewrite guard_ok, !andb_false_iff, !negb_false_iff, !String.eqb_eq. set_solver.
Qed.

Lemma no_template_sound pattern field sep : validateNoTriggerTemplate pattern field sep = Ok tt → has_brace pattern = false.
Proof.
  unfold validateNoTriggerTemplate. destruct (has_brace pattern); [|done]. cbn.
  destruct (if Ascii.eqb sep "/" then _ else _) as [p b]. by destruct (example_tokens _ _ _).
Qed.

Lemma method_sound method m : validate_method method = Ok m → m ∈ validMethods ∧ m = ToUpper method.
Proof.
  unfold validate_method. destruct (existsb _ _) eqn:E; [|done]. intros [= <-].
  apply existsb_True in E as (x & Hx & ->%String.eqb_eq). done.
Qed.

Lemma headers_sound headers : validate_headers headers = Ok tt → headers !! "" = None.
Proof.
  unfold validate_headers. intros Hc.
  assert (Forall (λ kv : string * string, kv.1 ≠ "") (map_to_list headers)) as Hall.
  { revert Hc. generalize 0%nat. induction (map_to_list headers) as [|kv l IH]; intros i; cbn [checks]; [done|].
    rewrite !bind_tt, guard_ok, String.eqb_neq. intros [[? _] ?]. constructor; [done|by eapply IH]. }
  apply eq_None_not_Some. intros [v Hv%elem_of_map_to_list].
  by apply (proj1 (Forall_forall _ _) Hall ("", v) Hv).
Qed.

Lemma forEach_sound forEach filter :
  (if negb (String.eqb forEach "") then validateForEachConfig forEach filter else Ok tt) = Ok tt →
  ok_forEach forEach filter.
Proof.
  intros Hv Hne. apply String.eqb_neq in Hne. rewrite Hne in Hv. cbn in Hv. unfold validateForEachConfig in Hv.
  rewrite !bind_tt, !guard_ok, String.eqb_neq in Hv. destruct Hv as (_ & Hn & Hw & _ & Hf).
  split_and!; [done|done|]. destruct filter as [cs|]; [|done]. apply map_err_ok in Hf. by apply validateConditions_both.
Qed.

Lemma respond_sound a : validateRespondAction a = Ok tt → accepted_respond a.
Proof.
  unfold validateRespondAction. rewrite !bind_tt, !guard_ok, map_err_ok.
  rewrite !andb_false_iff, !negb_false_iff, String.eqb_eq, Z.eqb_eq, orb_false_iff, !Z.ltb_ge.
  intros (Hp & Hs & _ & Hh%headers_sound). split; [intros E; rewrite E in Hp; naive_solver|naive_solver lia|done].
Qed.

Lemma nats_action_sound a : validateNATSAction a = Ok tt → accepted_nats_action a.
Proof.
  unfold validateNATSAction. rewrite !bind_tt, !guard_ok, !map_err_ok, String.eqb_neq.
  intros (Hs & Hm%mode_sound & Hp & Hf%forEach_sound & _ & _ & Hh%headers_sound & Ht%validateThrottle_sound & Hr & Hto).
  split; try done.
  - intros E. rewrite E in Hp. cbn in Hp. by apply negb_false_iff, String.eqb_eq in Hp.
  - intros E. by rewrite E in Hr.
  - intros E%String.eqb_neq. rewrite E in Hto. cbn in Hto. rewrite bind_tt, guard_ok, negb_false_iff in Hto.
    destruct Hto as [-> Hd]. by destruct (ParseDuration (na_Timeout a)).
Qed.

Lemma http_action_sound a a' : validateHTTPAction a = Ok a' → accepted_http_action a'.
Proof.
  unfold validateHTTPAction. rewrite !bind_guard, !String.eqb_neq.
  intros (Hu & Hsch & Hm & Hrest). apply bind_Ok in Hrest as (m & [Hm' _]%method_sound & Hrest).
  rewrite bind_guard, !bind_unit, !map_err_ok in Hrest.
  destruct Hrest as (Hp & Hf%forEach_sound & _ & _ & Hh%headers_sound & Hrest).
  apply bind_Ok in Hrest as (retry & Hretry%opt_map_ok & Hrest). rewrite !bind_unit, map_err_ok, opt_check_ok in Hrest.
  destruct Hrest as (Ht%validateThrottle_sound & Hpub & [= <-]). split; cbn; try done.
  - split; [done|]. rewrite !andb_false_iff, !negb_false_iff in Hsch. tauto.
  - intros E. rewrite E in Hp. cbn in Hp. by apply negb_false_iff, String.eqb_eq in Hp.
  - destruct (ha_Retry a) as [r|]; [|by subst]. destruct Hretry as (r' & Hr & ->). cbn.
    unfold validate_retry in Hr. rewrite !bind_unit in Hr. destruct Hr as (_ & _ & [= <-]). cbn.
    destruct (Z.ltb_spec (rc_MaxAttempts r) 1); lia.
  - destruct (ha_PublishResponse a); cbn in *; [|done]. rewrite bind_tt, guard_ok, String.eqb_neq in Hpub. tauto.
Qed.

Lemma hmac_sound cfg : validateHMACConfig cfg = Ok tt →
  from_opt (λ h, isHMACScheme (hm_Scheme h) = true ∧
    (hm_Scheme h = "" → hm_Header h ≠ "" ∧ hmacHash (hm_Algorithm h) ≠ None ∧ hmacDecode (hm_Encoding h) "" ≠ None)) cfg.
Proof.
  destruct cfg as [h|]; [|done]. cbn [validateHMACConfig from_opt].
  destruct (isHMACScheme (hm_Scheme h)); [|done]. cbn [negb]. rewrite bind_tt. intros [Hs _]. split; [done|].
  intros E. rewrite E in Hs. cbn in Hs. destruct (String.eqb_spec (hm_Header h) ""); [done|].
  by destruct (hmacHash (hm_Algorithm h)), (hmacDecode (hm_Encoding h) "").
Qed.

Lemma nats_trigger_sound t : validate_nats_trigger t = Ok tt → accepted_nats t.
Proof.
  unfold validate_nats_trigger, validateWildcardPattern. rewrite !bind_tt, !guard_ok, !map_err_ok.
  intros (_ & Hb%no_template_sound & (Hp & _) & Ht%validateThrottle_sound & Hm%mode_sound & Hr & Hq). split; try done.
  - unfold ValidatePattern in Hp. destruct (String.eqb _ _); [done|]. by apply validate_tokens_Ok in Hp.
  - intros E. rewrite E in Hr. cbn in Hr. by apply String.eqb_neq in Hr.
  - intros E%String.eqb_neq. rewrite E in Hq. cbn in Hq. by apply negb_false_iff in Hq.
Qed.

Lemma http_trigger_sound t t' : validate_http_trigger t = Ok t' → accepted_http t'.
Proof.
  unfold validate_http_trigger. rewrite !bind_unit, map_err_ok. intros (Hb%no_template_sound & Hp & Hrest).
  apply bind_Ok in Hrest as (m & Hm & Hrest). rewrite !bind_unit, !map_err_ok in Hrest.
  destruct Hrest as (Ht%validateThrottle_sound & Hh%hmac_sound & [= <-]). split; cbn; try done.
  - unfold NewPathMatcher. by rewrite Hp.
  - destruct (String.eqb_spec (ht_Method t) "") as [E|E]; cbn in Hm; [left; congruence|].
    right. by apply method_sound in Hm as [? _].
Qed.

Lemma present_same {A B} (o : option A) (o' : option B) : is_Some o ↔ is_Some o' → present o = present o'.
Proof. destruct o, o'; cbn; [done| | |done]; intros [H1 H2]; [by destruct H1|by destruct H2]. Qed.

Lemma one_of (a b c : nat) :
  (a + b + c =? 0)%nat = false → (1 <? a + b + c)%nat = false → (a + b + c = 1)%nat.
Proof. rewrite Nat.eqb_neq, Nat.ltb_ge. lia. Qed.

Section sound.
Context `{LoaderEnv}.

Lemma validateTrigger_sound tr tr' : validateTrigger tr = Ok tr' →
  (present (tr_NATS tr') + present (tr_HTTP tr') + present (tr_Schedule tr') = 1)%nat ∧
  from_opt accepted_nats (tr_NATS tr') ∧ from_opt accepted_http (tr_HTTP tr') ∧
  from_opt (λ s, cron_Parse (st_Cron s) = true ∧ (st_Timezone s = "" ∨ time_LoadLocation (st_Timezone s) = true)) (tr_Schedule tr').
Proof.
  unfold validateTrigger. rewrite bind_unit, opt_check_ok. intros [Hn Hrest].
  apply bind_Ok in Hrest as (ht & Hht%opt_map_ok & Hrest). rewrite bind_unit, opt_check_ok, !bind_guard in Hrest.
  destruct Hrest as (Hs & H0 & H1 & [= <-]). cbn [tr_NATS tr_HTTP tr_Schedule].
  assert (present ht = present (tr_HTTP tr)) as ->.
  { apply present_same. destruct (tr_HTTP tr); [destruct Hht as (? & _ & ->)|subst]; by split. }
  split_and!; [by apply one_of| | |].
  - destruct (tr_NATS tr); [|done]. by apply nats_trigger_sound.
  - destruct (tr_HTTP tr) as [t|]; [|by subst]. destruct Hht as (t' & Ht & ->). by apply http_trigger_sound in Ht.
  - destruct (tr_Schedule tr) as [s|]; [|done]. cbn in *. unfold validateScheduleTrigger in Hs.
    rewrite !bind_tt, !guard_ok, negb_false_iff in Hs. destruct Hs as (_ & Hc & Htz). split; [done|].
    destruct (String.eqb_spec (st_Timezone s) ""); [by left|right]. cbn in Htz. by apply guard_ok, negb_false_iff in Htz.
Qed.

Lemma validateAction_sound ac ac' : validateAction ac = Ok ac' →
  (present (a_NATS ac') + present (a_HTTP ac') + present (a_Respond ac') = 1)%nat ∧
  from_opt accepted_nats_action (a_NATS ac') ∧ from_opt accepted_http_action (a_HTTP ac') ∧
  from_opt accepted_respond (a_Respond ac').
Proof.
  unfold validateAction. rewrite bind_unit, opt_check_ok. intros [Hn Hrest].
  apply bind_Ok in Hrest as (ha & Hha%opt_map_ok & Hrest). rewrite bind_unit, opt_check_ok, !bind_guard in Hrest.
  destruct Hrest as (Hr & H0 & H1 & [= <-]). cbn [a_NATS a_HTTP a_Respond].
  assert (present ha = present (a_HTTP ac)) as ->.
  { apply present_same. destruct (a_HTTP ac); [destruct Hha as (? & _ & ->)|subst]; by split. }
  split_and!; [by apply one_of| | |].
  - destruct (a_NATS ac); [|done]. by apply nats_action_sound.
  - destruct (a_HTTP ac) as [a|]; [|by subst]. destruct Hha as (a' & Ha & ->). by apply http_action_sound in Ha.
  - destruct (a_Respond ac); [|done]. by apply respond_sound.
Qed.

(** Callers and replies fit each other. *)
Lemma compatibility_ok tr ac :
  validateTriggerActionCompatibility tr ac = Ok tt ↔
  (a_Respond ac ≠ None → tr_HTTP tr ≠ None ∨ ∃ t, tr_NATS tr = Some t ∧ nt_Reply t = true) ∧
  from_opt (λ t, nt_Reply t = true → a_Respond ac ≠ None) (tr_NATS tr) ∧
  from_opt (λ a, na_Request a = true → tr_HTTP tr ≠ None) (a_NATS ac).
Proof.
  unfold validateTriggerActionCompatibility. rewrite !bind_tt, !guard_ok.
  destruct (tr_NATS tr) as [[? ? ? ? [] ?]|], (tr_HTTP tr), (a_Respond ac), (a_NATS ac) as [[? ? ? ? ? ? ? [] ? ? ? ? ? ?]|];
    cbn; naive_solver.
Qed.

Lemma validateRule_accepted rule rule' :
  validateRule rule = Ok rule' → accepted rule' ∧ r_Name rule' = r_Name rule ∧ r_Conditions rule' = r_Conditions rule.
Proof.
  unfold validateRule. rewrite bind_Ok. intros (tr & (? & ? & ? & ?)%validateTrigger_sound & Hrest).
  apply bind_Ok in Hrest as (ac & (? & ? & ? & ?)%validateAction_sound & Hrest).
  rewrite !bind_unit, compatibility_ok, opt_check_ok in Hrest. destruct Hrest as ((? & ? & ?) & Hc & [= <-]).
  split; [|done]. split; cbn; try done. destruct (r_Conditions rule) as [cs|]; [|done]. cbn in *.
  apply map_err_ok in Hc. by apply validateConditions_both.
Qed.

(** Whatever the loader accepts can run: there is exactly one trigger and one
    action; the subject or path compiles to a matcher and holds no template; the
    cron expression and zone parse; throttle windows parse to a positive duration
    and only actions hold trailing ones; methods are in the list, in capitals;
    conditions form a valid tree; a response has a caller, a reply has a
    response, and a request has an HTTP trigger and no trailing throttle. *)
Theorem validateRule_sound rule rule' :
  validateRule rule = Ok rule' → accepted rule' ∧ r_Name rule' = r_Name rule ∧ r_Conditions rule' = r_Conditions rule.
Proof. apply validateRule_accepted. Qed.
End sound.

(** ** The pipeline *)

Lemma Forall2_compose {A B C} (P : A → B → Prop) (Q : B → C → Prop) (R : A → C → Prop) l k m :
  (∀ x y z, P x y → Q y z → R x z) → Forall2 P l k → Forall2 Q k m → Forall2 R l m.
Proof.
  intros HR HP. revert m. induction HP as [|x y l k Hxy _ IH]; intros m; inversion 1; subst; constructor; eauto.
Qed.

(** Only [throttle] is set, under either trigger and either action. *)
Definition normal_throttles (r : Rule) : Prop :=
  from_opt (λ t, nt_Debounce t = None) (tr_NATS (r_Trigger r)) ∧
  from_opt (λ t, ht_Debounce t = None) (tr_HTTP (r_Trigger r)) ∧
  from_opt (λ a, na_Debounce a = None) (a_NATS (r_Action r)) ∧
  from_opt (λ a, ha_Debounce a = None) (a_HTTP (r_Action r)).

Lemma mapE_ok {E A B} (f : nat → A → result E B) i l l' :
  mapE f i l = Ok l' → Forall2 (λ a b, ∃ i, f i a = Ok b) l l'.
Proof.
  revert i l'. induction l as [|a l IH]; intros i l'; cbn [mapE]; [by intros [= <-]|].
  rewrite bind_Ok. intros (b & Hb & Hrest). apply bind_Ok in Hrest as (bs & Hbs & [= <-]).
  constructor; [by exists i|by eapply IH].
Qed.

Lemma from_opt_fmap {A B} (P : B → Prop) (f : A → B) o : from_opt P (f <$> o) ↔ from_opt (λ a, P (f a)) o.
Proof. by destruct o. Qed.

Lemma opt_map_from {E A B} (f : A → result E B) (P : B → Prop) o o' :
  opt_map f o = Ok o' → (∀ a b, o = Some a → f a = Ok b → P b) → from_opt P o'.
Proof.
  intros Ho%opt_map_ok HP. destruct o as [a|]; [|by subst]. destruct Ho as (b & Hb & ->). by apply (HP a b).
Qed.

Lemma normalizeThrottle_normal r r' : normalizeThrottle r = Ok r' → normal_throttles r' ∧ r_Name r' = r_Name r.
Proof.
  unfold normalizeThrottle. intros Hn.
  repeat (apply bind_Ok in Hn as (? & ?H & Hn)). injection Hn as <-. split; [|done].
  split_and!; cbn; (eapply opt_map_from; [eassumption|]); intros a b _ Hb; apply bind_Ok in Hb as (? & _ & [= <-]); done.
Qed.

Lemma rule_map_normal g r : normal_throttles r → normal_throttles (rule_map g r).
Proof.
  unfold normal_throttles, rule_map, trigger_map, action_map. cbn. rewrite !from_opt_fmap.
  intros (? & ? & ? & ?). split_and!; by repeat case_match.
Qed.

Lemma expand_normal Getenv allowEnv r r' :
  expandEnvironmentVariables Getenv allowEnv r = Ok r' → normal_throttles r →
  normal_throttles r' ∧ r_Name r' = r_Name r.
Proof.
  intros He Hn. destruct allowEnv.
  - pose proof (expandEnvironmentVariables_spec Getenv true (expand_string Getenv) (λ _, True)
      (expandEnvVarsInString_allowed Getenv) (λ s E, conj (proj1 (no_env s Getenv E)) I) r) as Hs.
    rewrite He in Hs. destruct Hs as [_ ->]. split; [by apply rule_map_normal|done].
  - pose proof (expandEnvironmentVariables_spec Getenv false id (λ s, env_names s = [])
      (expandEnvVarsInString_refused Getenv) (λ s E, conj eq_refl (proj2 (no_env s id E))) r) as Hs.
    rewrite He in Hs. destruct Hs as [_ ->]. by rewrite rule_map_id.
Qed.

Section pipeline.
Context `{LoaderEnv} `{Env}.

Lemma validateRule_normal r r' : validateRule r = Ok r' → normal_throttles r → normal_throttles r'.
Proof.
  unfold validateRule, validateTrigger, validateAction. rewrite bind_Ok. intros (tr & Ht & Hrest).
  apply bind_Ok in Hrest as (ac & Ha & Hrest). rewrite !bind_unit in Hrest. destruct Hrest as (_ & _ & [= <-]).
  rewrite bind_unit in Ht. destruct Ht as [_ Ht]. apply bind_Ok in Ht as (ht & Hht & Ht).
  rewrite bind_unit, !bind_guard in Ht. destruct Ht as (_ & _ & _ & [= <-]).
  rewrite bind_unit in Ha. destruct Ha as [_ Ha]. apply bind_Ok in Ha as (ha & Hha & Ha).
  rewrite bind_unit, !bind_guard in Ha. destruct Ha as (_ & _ & _ & [= <-]).
  intros (Hn & Hh & Hna & Hha'). split_and!; cbn; try done.
  - eapply opt_map_from; [exact Hht|]. intros a b Ea Hb. rewrite Ea in Hh. cbn in Hh.
    unfold validate_http_trigger in Hb. rewrite !bind_unit in Hb. destruct Hb as (_ & _ & Hb).
    apply bind_Ok in Hb as (m & _ & Hb). rewrite !bind_unit in Hb. by destruct Hb as (_ & _ & [= <-]).
  - eapply opt_map_from; [exact Hha|]. intros a b Ea Hb. rewrite Ea in Hha'. cbn in Hha'.
    unfold validateHTTPAction in Hb. rewrite !bind_guard in Hb. destruct Hb as (_ & _ & _ & Hb).
    apply bind_Ok in Hb as (m & _ & Hb). rewrite bind_guard, !bind_unit in Hb. destruct Hb as (_ & _ & _ & _ & _ & Hb).
    apply bind_Ok in Hb as (re & _ & Hb). rewrite !bind_unit in Hb. by destruct Hb as (_ & _ & [= <-]).
Qed.

(** All calls of a rule can be evaluated, in every state. *)
Definition calls_evaluate (r : Rule) : Prop :=
  ∀ s call st, s ∈ walkStrings r → call ∈ random_calls s → is_ok (randomValue call st).1 = true.

Lemma validateRandomCalls_none r st : (validateRandomCalls r st).1 = None → calls_evaluate r.
Proof.
  intros Hn s call st' Hs Hc. eapply first_bad_call_none; [exact Hn|].
  apply list_elem_of_In, in_concat. exists (random_calls s). split; [|by apply list_elem_of_In].
  apply in_map, list_elem_of_In, Hs.
Qed.

Lemma validate_loop_sound i rules st rules' :
  (validate_loop i rules st).1 = Ok rules' → Forall normal_throttles rules →
  Forall2 (λ r r', accepted r' ∧ normal_throttles r' ∧ calls_evaluate r' ∧ r_Name r' = r_Name r) rules rules'.
Proof.
  revert i st rules'. induction rules as [|r rules IH]; intros i st rules'; cbn [validate_loop].
  { intros [= <-] _. constructor. }
  destruct (validateRule r) as [r1|] eqn:Ev; [|done]. unfold mbind at 1, M_bind.
  destruct (validateRandomCalls r1 st) as [[[call e]|] st1] eqn:Er; [done|].
  unfold mbind, M_bind. destruct (validate_loop (S i) rules st1) as [[rs|] st2] eqn:El; cbn; [|done].
  intros [= <-] [Hr Hrs]%Forall_cons. destruct (validateRule_accepted _ _ Ev) as (Ha & Hname & _).
  constructor; [|eapply (IH (S i) st1); [by rewrite El|done]].
  split_and!; [done|by eapply validateRule_normal|eapply validateRandomCalls_none; by rewrite Er|done].
Qed.

Lemma accepted_loadable r : accepted r → loadable r = true.
Proof.
  intros [_ _ _ Hh _ _ _ _ _ _ _ _]. unfold loadable. destruct (tr_HTTP (r_Trigger r)) as [t|]; [|done].
  destruct Hh as [Hp _ _ _ _]. unfold NewPathMatcher in Hp. destruct (ValidatePathPattern (ht_Path t)); [|done].
  by rewrite orb_true_r.
Qed.

Lemma ParseAndValidateYAML_accepted l data st rules :
  (ParseAndValidateYAML l data st).1 = Ok rules →
  ∃ parsed, yaml_Unmarshal data = Some parsed ∧
    Forall2 (λ r r', accepted r' ∧ normal_throttles r' ∧ calls_evaluate r' ∧ r_Name r' = r_Name r) parsed rules ∧
    ∀ now p, is_ok (LoadRules now p rules) = true.
Proof.
  unfold ParseAndValidateYAML. destruct (yaml_Unmarshal data) as [parsed|] eqn:Ey; [|done]. intros Hp.
  exists parsed. split; [done|].
  assert (Forall2 (λ r r', accepted r' ∧ normal_throttles r' ∧ calls_evaluate r' ∧ r_Name r' = r_Name r) parsed rules) as HF.
  { destruct parsed as [|r0 parsed0]; [injection Hp as <-; constructor|]. cbn [length Nat.eqb] in Hp.
    destruct (mapE _ 0 (r0 :: parsed0)) as [normal|] eqn:E1; [|done].
    destruct (mapE _ 0 normal) as [expanded|] eqn:E2; [|done].
    apply mapE_ok in E1, E2.
    assert (Forall2 (λ r n, normal_throttles n ∧ r_Name n = r_Name r) (r0 :: parsed0) normal) as F1.
    { eapply Forall2_impl; [exact E1|]. intros r n (i & Hn). cbn in Hn. apply map_err_Ok in Hn.
      by apply normalizeThrottle_normal. }
    assert (Forall2 (λ r n, normal_throttles n ∧ r_Name n = r_Name r) (r0 :: parsed0) expanded) as F2.
    { eapply Forall2_compose; [|exact F1|exact E2]. intros r n x [Hn Hname] (i & Hx). cbn in Hx.
      apply map_err_Ok in Hx. destruct (expand_normal _ _ _ _ Hx Hn) as [? Hx']. split; [done|congruence]. }
    assert (Forall normal_throttles expanded) as F3.
    { apply Forall_forall. intros x Hx. apply list_elem_of_lookup in Hx as (i & Hi).
      destruct (Forall2_lookup_r _ _ _ _ _ F2 Hi) as (r & _ & Hr & _). done. }
    pose proof (validate_loop_sound 0 expanded st rules Hp F3) as F4.
    eapply Forall2_compose; [|exact F2|exact F4]. intros r x r' [_ Hx] (? & ? & ? & Hr'). cbn.
    split_and!; try done. congruence. }
  split; [exact HF|]. intros now p. apply loadable_loads, forallb_True. intros r Hr.
  apply list_elem_of_lookup in Hr as (i & Hi). destruct (Forall2_lookup_r _ _ _ _ _ HF Hi) as (? & _ & Ha & _).
  by apply accepted_loadable.
Qed.

(** C28: A source that loads gives one rule for each rule it holds, in order and
    under the same names, and each can run: it is accepted, its throttles are
    under one name, its random calls can be evaluated whatever the state, and
    the whole set loads into any processor. *)
Theorem ParseAndValidateYAML_sound l data st rules :
  (ParseAndValidateYAML l data st).1 = Ok rules →
  ∃ parsed, yaml_Unmarshal data = Some parsed ∧
    Forall2 (λ r r', accepted r' ∧ normal_throttles r' ∧ calls_evaluate r' ∧ r_Name r' = r_Name r) parsed rules ∧
    ∀ now p, is_ok (LoadRules now p rules) = true.
Proof. apply ParseAndValidateYAML_accepted. Qed.
End pipeline.

(** ** Directories *)

(** A YAML file below a directory, none of the directories on the way being a
    test directory. *)
Inductive rule_source : fs → option string → Prop :=
| source_file name content : is_yaml name = true → rule_source (FsFile name content) content
| source_dir name entries entry content :
    HasSuffix name "_test" = false → entry ∈ entries → rule_source entry content →
    rule_source (FsDir name entries) content.

Section fs_induction.
Variable P : fs → Prop.
Hypothesis Hfile : ∀ name content, P (FsFile name content).
Hypothesis Hdir : ∀ name entries, Forall P entries → P (FsDir name entries).
Fixpoint fs_mut (f : fs) : P f :=
  match f with
  | FsFile name content => Hfile name content
  | FsDir name entries => Hdir name entries
      ((fix go (l : list fs) : Forall P l := match l with
        | [] => Forall_nil_2 P | x :: l' => Forall_cons_2 P x l' (fs_mut x) (go l') end) entries)
  end.
End fs_induction.

Lemma yaml_files_sources f dir content :
  (∃ path, (path, content) ∈ yaml_files dir f) ↔ rule_source f content.
Proof.
  revert dir. induction f as [name c|name entries IH] using fs_mut; intros dir; cbn [yaml_files].
  - destruct (is_yaml name) eqn:E.
    + split; [intros (p & [= -> ->]%list_elem_of_singleton); by constructor|].
      inversion 1; subst. eexists. by apply list_elem_of_singleton.
    + split; [intros (p & Hp); by apply not_elem_of_nil in Hp|]. inversion 1; congruence.
  - destruct (HasSuffix name "_test") eqn:E.
    + split; [intros (p & Hp); by apply not_elem_of_nil in Hp|]. inversion 1; congruence.
    + rewrite Forall_forall in IH. setoid_rewrite list_elem_of_In. setoid_rewrite in_concat. split.
      * intros (p & l & Hl & Hp). apply in_map_iff in Hl as (x & <- & Hx%list_elem_of_In).
        eapply source_dir; [done|exact Hx|]. apply (IH x Hx (dir ++ "/" ++ name)). exists p. by apply list_elem_of_In.
      * inversion 1 as [|? ? x ? ? Hx Hs]; subst. apply (IH x Hx (dir ++ "/" ++ name)) in Hs as (p & Hp%list_elem_of_In).
        exists p, (yaml_files (dir ++ "/" ++ name) x). split; [|done]. by apply in_map, list_elem_of_In.
Qed.

Section directory.
Context `{LoaderEnv} `{Env}.

(** A file that was read and loaded. *)
Definition file_loads (l : Loader) (f : string * option string) (rules : list Rule) : Prop :=
  ∃ data st, f.2 = Some data ∧ (ParseAndValidateYAML l data st).1 = Ok rules.

Lemma load_files_ok l files all st rules :
  (load_files l files all st).1 = Ok rules →
  ∃ rss, Forall2 (file_loads l) files rss ∧ rules = (all ++ concat rss)%list.
Proof.
  revert all st. induction files as [|f files IH]; intros all st; cbn [load_files].
  { intros [= <-]. exists []. by rewrite app_nil_r. }
  unfold mbind, M_bind. destruct (LoadFromFile l f st) as [[rs|e] st1] eqn:Ef; [|done].
  intros (rss & HF & ->)%IH. exists (rs :: rss). cbn. rewrite app_assoc. split; [|done]. constructor; [|done].
  unfold LoadFromFile in Ef. destruct f.2 as [data|] eqn:Ed; [|done]. exists data, st. split; [done|by rewrite Ef].
Qed.

(** A directory that loads gives the rules of its sources one after the other:
    every YAML file below it outside test directories was read and loaded, and
    nothing else was. *)
Theorem LoadFromDirectory_correct l root st rules :
  (LoadFromDirectory l root st).1 = Ok rules →
  ∃ dir files rss, root = Some dir ∧ Forall2 (file_loads l) files rss ∧ rules = concat rss ∧ files ≠ [] ∧
    ∀ content, (∃ path, (path, content) ∈ files) ↔ rule_source dir content.
Proof.
  unfold LoadFromDirectory. destruct root as [[name c|name entries]|]; [done| |done].
  destruct (length (yaml_files "" (FsDir name entries)) =? 0)%nat eqn:E; [done|].
  intros (rss & HF & ->)%load_files_ok. exists (FsDir name entries), (yaml_files "" (FsDir name entries)), rss.
  split_and!; [done|done|done| |apply yaml_files_sources].
  intros Hn. by rewrite Hn in E.
Qed.
End directory.

(** ** More properties *)

(** Exactly the valid condition trees are accepted: groups that combine with
    [and] or [or]; fields that name a variable in braces, a system field only if
    it is one; known operators; and array operators with valid conditions for
    their elements. *)
Theorem validateConditions_correct cs : validateConditions cs = Ok tt ↔ ok_conditions cs.
Proof. apply validateConditions_both. Qed.

(** The loader and the key-value context agree on fields: the loader accepts
    exactly the fields of the documented form, those are the fields whose bucket
    and key the context can split, and all a field accepted can still get wrong
    at run time is the path behind the colon. *)
Theorem validateKVField_agrees field :
  (validateKVFieldWithVariables field = Ok tt ↔ kv_field field) ∧
  (validateKVFieldWithVariables field = Ok tt ↔
    is_ok (parseKVFieldUncached field) = true ∨ ∃ e, parseKVFieldUncached field = Err (KVBadPath e)).
Proof.
  split; [apply validateKVField_ok|]. rewrite validateKVField_bool. unfold parseKVFieldUncached.
  destruct (HasPrefix field "@kv.") eqn:Hp; cbn [negb]; cycle 1.
  { split; [|naive_solver]. intros (r & -> & _). by rewrite HasPrefix_app in Hp. }
  apply HasPrefix_spec in Hp as [r ->].
  assert (∀ P : string → Prop, (∃ r', "@kv." ++ r = "@kv." ++ r' ∧ P r') ↔ P r) as ->.
  { intros P. split; [by intros (r' & [= <-] & ?)|by exists r]. }
  change 4%nat with (slen "@kv."). rewrite sdrop_app, Contains_char.
  destruct (has_char ":" r); cbn [negb].
  - destruct (Nat.ltb_spec 1 (count_char ":" r)); [split; [lia|naive_solver]|].
    destruct (Cut ":" r) as [[a path] f]. cbn [fst].
    rewrite <- (split_bucket_key_ok ("@kv." ++ r) a).
    destruct (split_bucket_key ("@kv." ++ r) a) as [[b k]|e] eqn:E; cbn; [|split; [naive_solver|]].
    + split; [intros _|done]. destruct (String.eqb path ""); [by left|].
      destruct (SplitPathRespectingBraces path); cbn; [by left|right; eauto].
    + intros [?|(e' & [= ->])]; [done|]. exfalso. revert E. unfold split_bucket_key. by repeat case_match.
  - rewrite <- (split_bucket_key_ok ("@kv." ++ r) r).
    destruct (split_bucket_key ("@kv." ++ r) r) as [[b k]|e] eqn:E; cbn; [naive_solver|]. split; [naive_solver|].
    intros [?|(e' & [= ->])]; [done|]. exfalso. revert E. unfold split_bucket_key. by repeat case_match.
Qed.

(** ** Witnesses *)

Definition demo_rule : Rule :=
  MkRule "hot" (MkTrigger (Some (MkNATSTrigger "sensors.*" None (Some (MkThrottle "${WINDOW}" "" "")) "" false "")) None None)
    (Some (MkConditions "and" [cond "{temperature}" "gt" (VStr "{@kv.config.limits:max}")] []))
    (MkAction (Some (MkNATSAction "alerts" "" "{@random.int(1,6)}" false false ∅ "" false "" "" None None None None))
      None None None) 0.

#[local] Instance demo_loader : LoaderEnv := {|
  yaml_Unmarshal := λ s, if String.eqb s "rules" then Some [demo_rule] else None;
  cron_Parse := λ s, negb (String.eqb s "");
  time_LoadLocation := λ s, String.eqb s "UTC";
  os_Getenv := λ s, if String.eqb s "WINDOW" then "5s" else "";
|}.

Definition demo_tree : fs :=
  FsDir "rules" [FsDir "old_test" [FsFile "a.yaml" (Some "broken")]; FsFile "b.YML" (Some "rules"); FsFile "c.txt" None].

Definition demo_loaded : list Rule :=
  match (@LoadFromDirectory demo_loader demo (NewLoader []) (Some demo_tree) demo_start).1 with Ok rules => rules | Err _ => [] end.

Lemma ParseAndValidateYAML_sound_witness :
  ∃ rules parsed, @yaml_Unmarshal demo_loader "rules" = Some parsed ∧
    Forall2 (λ r r', @accepted demo_loader r' ∧ normal_throttles r' ∧ @calls_evaluate demo r' ∧ r_Name r' = r_Name r) parsed rules ∧
    ∀ now p, is_ok (LoadRules now p rules) = true.
Proof.
  exists demo_loaded. apply (@ParseAndValidateYAML_sound demo_loader demo (NewLoader []) "rules" demo_start).
  vm_compute. reflexivity.
Defined.

Lemma LoadFromDirectory_correct_witness :
  length demo_loaded = 1%nat ∧
  ∃ dir files rss, Some demo_tree = Some dir ∧ Forall2 (@file_loads demo_loader demo (NewLoader [])) files rss ∧
    demo_loaded = concat rss ∧ files ≠ [] ∧ ∀ content, (∃ path, (path, content) ∈ files) ↔ rule_source dir content.
Proof.
  split; [vm_compute; reflexivity|].
  apply (@LoadFromDirectory_correct demo_loader demo (NewLoader []) (Some demo_tree) demo_start).
  vm_compute. reflexivity.
Defined.

Lemma validateRule_sound_witness :
  let rule := nth 0 demo_loaded demo_rule in
  ∃ r, @accepted demo_loader r ∧ r_Name r = r_Name rule ∧ r_Conditions r = r_Conditions rule.
Proof.
  eexists. apply (@validateRule_sound demo_loader (nth 0 demo_loaded demo_rule)). vm_compute. reflexivity.
Defined.
