(* ===== verification/Coalescer.v ===== *)
(** * Trailing throttles (internal/deferred/coalescer.go)

    The coalescer holds the last batch submitted for a key until the window the
    first one opened closes.  Its critical sections are functions; timers, the
    goroutines they run and the calls of the execution sites interleave as a
    step relation, each section being atomic under the mutex. *)

From S2P Require Import Prelude GoStrings GoFloat GoTime Value Types.
From Stdlib Require Import Relations.Relation_Operators.
Local Open Scope string_scope.

(** ** State and operations *)

(** An entry: the pending batch, and when its timer goes off. *)
Record entry := MkEntry { en_batch : DeferredBatch; en_deadline : Z }.

Record Coalescer := MkCoalescer { co_pending : gmap string entry; co_stopped : bool }.

Definition New : Coalescer := MkCoalescer ∅ false.

Inductive submit_result := Ignored | Dropped | Coalesced | Opened.

Definition Submit (c : Coalescer) (batch : DeferredBatch) (now : Z) : submit_result * Coalescer :=
  if (length (db_Actions batch) =? 0)%nat then (Ignored, c)
  else if co_stopped c then (Dropped, c)
  else match co_pending c !! db_Key batch with
  | Some e =>
      (Coalesced,
       MkCoalescer (<[db_Key batch := MkEntry batch (en_deadline e)]> (co_pending c)) (co_stopped c))
  | None =>
      (Opened,
       MkCoalescer (<[db_Key batch := MkEntry batch (now + db_Window batch)]> (co_pending c)) (co_stopped c))
  end.

(** The critical section of [fire]: the batch to execute, if the entry is still
    there and nobody stopped the coalescer. *)
Definition fire (c : Coalescer) (key : string) : option DeferredBatch * Coalescer :=
  match co_pending c !! key with
  | Some e =>
      if co_stopped c then (None, c)
      else (Some (en_batch e), MkCoalescer (delete key (co_pending c)) (co_stopped c))
  | None => (None, c)
  end.

(** The critical section of [Stop]: the batches to flush. *)
Definition Stop (c : Coalescer) : list DeferredBatch * Coalescer :=
  if co_stopped c then ([], c)
  else (map (λ kv, en_batch kv.2) (map_to_list (co_pending c)), MkCoalescer ∅ true).

Definition Pending (c : Coalescer) : nat := size (co_pending c).

(** [execute] runs every action, whatever the failures before it: the numbers
    of actions emitted and failed. *)
Fixpoint execute_loop (exec : Action → bool) (actions : list Action) (emitted failed : nat) : nat * nat :=
  match actions with
  | [] => (emitted, failed)
  | a :: rest => if exec a then execute_loop exec rest (S emitted) failed else execute_loop exec rest emitted (S failed)
  end.
Definition execute (exec : Action → bool) (batch : DeferredBatch) : nat * nat :=
  execute_loop exec (db_Actions batch) 0 0.

(** ** The system *)

Inductive event :=
| EvOpen (batch : DeferredBatch) (t : Z)        (* accepted, opens a window *)
| EvReplace (batch : DeferredBatch)             (* accepted, replaces the pending batch *)
| EvRefuse (batch : DeferredBatch)              (* after Stop *)
| EvEmit (batch : DeferredBatch) (t : Z)        (* executed, the window having closed *)
| EvFlush (batch : DeferredBatch)               (* executed by Stop *)
| EvDrop (batch : DeferredBatch).               (* dropped by Stop at its deadline *)

(** Armed timers are keys with the time they go off; the log grows at its head. *)
Record system := MkSystem {
  sy_c : Coalescer; sy_timers : list (string * Z); sy_now : Z; sy_log : list event;
}.

Definition initial : system := MkSystem New [] 0 [].

Inductive step : system → system → Prop :=
| step_time c timers now now' log :
    (now ≤ now')%Z → step (MkSystem c timers now log) (MkSystem c timers now' log)
| step_submit c timers now log batch r c' :
    Submit c batch now = (r, c') →
    step (MkSystem c timers now log)
      (MkSystem c'
        (match r with Opened => (db_Key batch, now + db_Window batch)%Z :: timers | _ => timers end) now
        (match r with
         | Ignored => log | Dropped => EvRefuse batch :: log
         | Coalesced => EvReplace batch :: log | Opened => EvOpen batch now :: log end))
| step_fire c pre key due post now log b c' :
    (due ≤ now)%Z → fire c key = (b, c') →
    step (MkSystem c (pre ++ (key, due) :: post) now log)
      (MkSystem c' (pre ++ post) now (match b with Some batch => EvEmit batch now :: log | None => log end))
| step_stop c timers timers' now log batches flushed dropped c' :
    Stop c = (batches, c') → batches ≡ₚ (flushed ++ dropped)%list → timers' `sublist_of` timers →
    step (MkSystem c timers now log)
      (MkSystem c' timers' now (map EvDrop dropped ++ map EvFlush flushed ++ log)).

Definition reachable (s : system) : Prop := rtc step initial s.

(** ** Specification *)

(** What the log says is pending for a key: the batch accepted last since the
    last time one left. *)
Fixpoint held (key : string) (log : list event) : option DeferredBatch :=
  match log with
  | [] => None
  | e :: log' =>
      match e with
      | EvOpen b _ | EvReplace b => if String.eqb (db_Key b) key then Some b else held key log'
      | EvEmit b _ | EvFlush b | EvDrop b => if String.eqb (db_Key b) key then None else held key log'
      | EvRefuse _ => held key log'
      end
  end.

(** When the window open for a key closes. *)
Fixpoint closes (key : string) (log : list event) : option Z :=
  match log with
  | [] => None
  | e :: log' =>
      match e with
      | EvOpen b t => if String.eqb (db_Key b) key then Some (t + db_Window b)%Z else closes key log'
      | EvEmit b _ | EvFlush b | EvDrop b => if String.eqb (db_Key b) key then None else closes key log'
      | EvReplace _ | EvRefuse _ => closes key log'
      end
  end.

(** Every event is right after those before it: a window opens only where none
    is open, a batch replaces a pending one, and what leaves is the batch
    accepted last, not before its window closes. *)
Fixpoint log_ok (log : list event) : Prop :=
  match log with
  | [] => True
  | e :: log' => log_ok log' ∧
      match e with
      | EvOpen b _ => held (db_Key b) log' = None
      | EvReplace b => held (db_Key b) log' ≠ None
      | EvEmit b t => held (db_Key b) log' = Some b ∧ ∃ due, closes (db_Key b) log' = Some due ∧ (due ≤ t)%Z
      | EvFlush b | EvDrop b => held (db_Key b) log' = Some b
      | EvRefuse _ => True
      end
  end.

(** ** Lemmas *)

(** The keys of pending batches, the armed timers and the log agree. *)
Record consistent (s : system) : Prop := {
  cs_log : log_ok (sy_log s);
  cs_held : ∀ k, held k (sy_log s) = en_batch <$> co_pending (sy_c s) !! k;
  cs_closes : ∀ k, closes k (sy_log s) = en_deadline <$> co_pending (sy_c s) !! k;
  cs_key : ∀ k e, co_pending (sy_c s) !! k = Some e → db_Key (en_batch e) = k;
  cs_stopped : co_stopped (sy_c s) = true → co_pending (sy_c s) = ∅;
  cs_armed : co_stopped (sy_c s) = false →
    NoDup (map fst (sy_timers s)) ∧
    ∀ k d, (k, d) ∈ sy_timers s ↔ en_deadline <$> co_pending (sy_c s) !! k = Some d;
}.

Lemma held_leave k b log : held k (EvDrop b :: log) = held k (EvFlush b :: log).
Proof. done. Qed.

(** Batches of distinct keys leave the log one by one. *)
Lemma leave_all (mk : DeferredBatch → event) bs log :
  (mk = EvDrop ∨ mk = EvFlush) → NoDup (map db_Key bs) → log_ok log →
  (∀ b, b ∈ bs → held (db_Key b) log = Some b) →
  log_ok (map mk bs ++ log) ∧
  (∀ k, held k (map mk bs ++ log) = if bool_decide (k ∈ map db_Key bs) then None else held k log) ∧
  (∀ k, closes k (map mk bs ++ log) = if bool_decide (k ∈ map db_Key bs) then None else closes k log).
Proof.
  intros Hmk. induction bs as [|b bs IH]; intros Hnd Hlog Hh; [done|].
  cbn [map] in Hnd. apply NoDup_cons in Hnd as [Hb Hnd].
  destruct IH as (Hl & Hk & Hc); [done|done|set_solver|]. cbn [map app].
  assert (held (db_Key b) (map mk bs ++ log) = Some b) as Hbh.
  { rewrite Hk, bool_decide_eq_false_2 by done. apply Hh. set_solver. }
  assert (∀ k, (k ∈ db_Key b :: map db_Key bs ↔ db_Key b = k ∨ k ∈ map db_Key bs)) as Hel by set_solver.
  split_and!.
  - destruct Hmk as [->| ->]; done.
  - intros k. rewrite (bool_decide_ext _ _ (Hel k)).
    assert (held k (mk b :: map mk bs ++ log) =
      if String.eqb (db_Key b) k then None else held k (map mk bs ++ log)) as -> by by destruct Hmk as [->| ->].
    rewrite Hk. destruct (String.eqb_spec (db_Key b) k); repeat case_bool_decide; naive_solver.
  - intros k. rewrite (bool_decide_ext _ _ (Hel k)).
    assert (closes k (mk b :: map mk bs ++ log) =
      if String.eqb (db_Key b) k then None else closes k (map mk bs ++ log)) as -> by by destruct Hmk as [->| ->].
    rewrite Hc. destruct (String.eqb_spec (db_Key b) k); repeat case_bool_decide; naive_solver.
Qed.

Lemma initial_consistent : consistent initial.
Proof.
  split; cbn; try done.
  intros _. split; [constructor|]. intros k d. rewrite lookup_empty. set_solver.
Qed.

Lemma submit_consistent c timers now log batch r c' :
  consistent (MkSystem c timers now log) → Submit c batch now = (r, c') →
  consistent (MkSystem c'
        (match r with Opened => (db_Key batch, now + db_Window batch)%Z :: timers | _ => timers end) now
        (match r with
         | Ignored => log | Dropped => EvRefuse batch :: log
         | Coalesced => EvReplace batch :: log | Opened => EvOpen batch now :: log end)).
Proof.
  intros [Hlog Hh Hc Hk Hs Ha] HS. cbn in *. unfold Submit in HS.
  destruct (length (db_Actions batch) =? 0)%nat; [by simplify_eq|].
  destruct (co_stopped c) eqn:Hst; [by simplify_eq; split; cbn; rewrite ?Hst|].
  specialize (Ha eq_refl) as [Hnd Ha].
  destruct (co_pending c !! db_Key batch) as [e|] eqn:Hp; simplify_eq; split; cbn; try done.
  - by rewrite Hh, Hp.
  - intros k. destruct (String.eqb_spec (db_Key batch) k) as [<-|?].
    + by rewrite lookup_insert_eq.
    + by rewrite lookup_insert_ne.
  - intros k. destruct (decide (db_Key batch = k)) as [<-|?].
    + by rewrite lookup_insert_eq, Hc, Hp.
    + by rewrite lookup_insert_ne.
  - intros k e' [[<- <-]|[? ?]]%lookup_insert_Some; [done|eauto].
  - intros _. split; [done|]. intros k d. rewrite Ha. destruct (decide (db_Key batch = k)) as [<-|?].
    + by rewrite lookup_insert_eq, Hp.
    + by rewrite lookup_insert_ne.
  - by rewrite Hh, Hp.
  - intros k. destruct (String.eqb_spec (db_Key batch) k) as [<-|?].
    + by rewrite lookup_insert_eq.
    + by rewrite lookup_insert_ne.
  - intros k. destruct (String.eqb_spec (db_Key batch) k) as [<-|?].
    + by rewrite lookup_insert_eq.
    + by rewrite lookup_insert_ne.
  - intros k e' [[<- <-]|[? ?]]%lookup_insert_Some; [done|eauto].
  - intros _. split.
    + apply NoDup_cons. split; [|done]. intros ([k d] & Heq & Hin)%list_elem_of_fmap. cbn in Heq.
      apply Ha in Hin. by rewrite <- Heq, Hp in Hin.
    + intros k d. rewrite elem_of_cons, Ha. destruct (decide (db_Key batch = k)) as [<-|?].
      * rewrite lookup_insert_eq, Hp. cbn. naive_solver.
      * rewrite lookup_insert_ne by done. naive_solver.
Qed.

Lemma fire_consistent c pre key due post now log b c' :
  consistent (MkSystem c (pre ++ (key, due) :: post) now log) → (due ≤ now)%Z → fire c key = (b, c') →
  consistent (MkSystem c' (pre ++ post) now
    (match b with Some batch => EvEmit batch now :: log | None => log end)).
Proof.
  intros [Hlog Hh Hc Hk Hs Ha] Hdue HF. cbn in *. unfold fire in HF.
  destruct (co_stopped c) eqn:Hst.
  { rewrite (Hs eq_refl), lookup_empty in HF. simplify_eq. by split; cbn; rewrite ?Hst. }
  specialize (Ha eq_refl) as [Hnd Ha].
  assert (en_deadline <$> co_pending c !! key = Some due) as Hd by (apply Ha; set_solver).
  destruct (co_pending c !! key) as [e|] eqn:Hp; simplify_eq/=.
  pose proof (Hk _ _ Hp) as <-.
  rewrite map_app in Hnd. cbn in Hnd. apply NoDup_app in Hnd as (Hn1 & Hn2 & Hn3).
  apply NoDup_cons in Hn3 as [Hn3 Hn4].
  split; cbn; try done.
  - split; [done|]. split; [by rewrite Hh, Hp|]. exists (en_deadline e). by rewrite Hc, Hp.
  - intros k. destruct (String.eqb_spec (db_Key (en_batch e)) k) as [<-|?].
    + by rewrite lookup_delete_eq.
    + by rewrite lookup_delete_ne.
  - intros k. destruct (String.eqb_spec (db_Key (en_batch e)) k) as [<-|?].
    + by rewrite lookup_delete_eq.
    + by rewrite lookup_delete_ne.
  - intros k e' [? ?]%lookup_delete_Some. eauto.
  - intros _. rewrite map_app. split.
    + apply NoDup_app. split_and!; [done| |done]. intros x Hx Hx'. apply (Hn2 x Hx). set_solver.
    + intros k d. destruct (decide (db_Key (en_batch e) = k)) as [<-|Hne].
      * rewrite lookup_delete_eq. split; [|done]. intros [H|H]%elem_of_app; exfalso.
        -- apply (Hn2 (db_Key (en_batch e))); [by apply (list_elem_of_fmap_2 fst) in H|set_solver].
        -- by apply Hn3, (list_elem_of_fmap_2 fst _ _ H).
      * rewrite lookup_delete_ne by done. rewrite <- Ha. set_solver.
Qed.

(** The batches [Stop] takes are the pending ones, each under its own key. *)
Lemma stop_keys (m : gmap string entry) :
  (∀ k e, m !! k = Some e → db_Key (en_batch e) = k) →
  map db_Key (map (λ kv : string * entry, en_batch kv.2) (map_to_list m)) = (map_to_list m).*1.
Proof.
  intros Hk. rewrite map_map. apply map_ext_in. intros [k e] Hin.
  apply (list_elem_of_In _ (k, e)), elem_of_map_to_list in Hin. by apply Hk.
Qed.

Lemma stop_consistent c timers timers' now log batches flushed dropped c' :
  consistent (MkSystem c timers now log) →
  Stop c = (batches, c') → batches ≡ₚ (flushed ++ dropped)%list → timers' `sublist_of` timers →
  consistent (MkSystem c' timers' now (map EvDrop dropped ++ map EvFlush flushed ++ log)).
Proof.
  intros [Hlog Hh Hc Hk Hs Ha] HS Hperm _. cbn in *. unfold Stop in HS.
  destruct (co_stopped c) eqn:Hst; simplify_eq.
  { symmetry in Hperm. apply Permutation_nil_r in Hperm. apply app_eq_nil in Hperm as [-> ->].
    split; cbn; rewrite ?Hst; auto; done. }
  assert (NoDup (map db_Key (flushed ++ dropped))) as Hnd.
  { rewrite <- Hperm, stop_keys by done. apply NoDup_fst_map_to_list. }
  assert (∀ b, b ∈ (flushed ++ dropped)%list → held (db_Key b) log = Some b) as Hheld.
  { intros b Hb. rewrite <- Hperm in Hb. apply list_elem_of_fmap in Hb as ([k e] & -> & Hin).
    apply elem_of_map_to_list in Hin. cbn. by rewrite (Hk _ _ Hin), Hh, Hin. }
  assert (∀ k e, co_pending c !! k = Some e → k ∈ map db_Key (flushed ++ dropped)) as Hall.
  { intros k e Hp. rewrite <- Hperm, stop_keys by done.
    apply list_elem_of_fmap. exists (k, e). split; [done|]. by apply elem_of_map_to_list. }
  rewrite map_app in Hnd, Hall. apply NoDup_app in Hnd as (Hnf & Hdis & Hndr).
  destruct (leave_all EvFlush flushed log) as (Hl1 & Hk1 & Hc1); [by right|done|done|set_solver|].
  destruct (leave_all EvDrop dropped (map EvFlush flushed ++ log)) as (Hl2 & Hk2 & Hc2); [by left|done|done| |].
  { intros b Hb. rewrite Hk1, bool_decide_eq_false_2; [apply Hheld; set_solver|].
    intros Hin. apply (Hdis _ Hin). by apply list_elem_of_fmap_2. }
  split; cbn; try done.
  - intros k. rewrite Hk2, Hk1, Hh, lookup_empty. repeat case_bool_decide; try done.
    destruct (co_pending c !! k) eqn:Hp; [|done]. apply Hall in Hp. set_solver.
  - intros k. rewrite Hc2, Hc1, Hc, lookup_empty. repeat case_bool_decide; try done.
    destruct (co_pending c !! k) eqn:Hp; [|done]. apply Hall in Hp. set_solver.
Qed.

Lemma reachable_consistent s : reachable s → consistent s.
Proof.
  intros Hr. unfold reachable in Hr. apply (rtc_ind_r consistent _ initial_consistent) in Hr; [done|].
  clear. intros s s' _ Hstep IH. destruct Hstep as [c timers now now' log Hle| | |].
  - destruct IH. by split.
  - eapply submit_consistent; eauto.
  - eapply fire_consistent; eauto.
  - eapply stop_consistent; eauto.
Qed.

(** What the executor gets from one batch. *)
Lemma execute_loop_counts exec actions e f :
  execute_loop exec actions e f =
  (e + length (List.filter exec actions), f + length (List.filter (λ a, negb (exec a)) actions))%nat.
Proof.
  revert e f. induction actions as [|a l IH]; intros e f; cbn [execute_loop]; [cbn; f_equal; lia|].
  cbn [List.filter]. destruct (exec a); cbn; rewrite IH; f_equal; lia.
Qed.

(** ** Properties *)

(** C11: In every interleaving of submissions, timers and shutdown the log is
    right: a window opens only for a key that has none, a later batch replaces
    the pending one, what is executed is exactly the batch accepted last for
    its key and not before the window the first one opened has closed, nothing
    is executed twice, and what the coalescer holds is what the log says is
    still owed. *)
Theorem coalescer_log s :
  reachable s →
  log_ok (sy_log s) ∧ ∀ k, held k (sy_log s) = en_batch <$> co_pending (sy_c s) !! k.
Proof. intros Hr%reachable_consistent. destruct Hr. done. Qed.

(** A pending batch is never stuck: its timer is armed for the deadline its
    window's first batch set, a later batch for the key does not move that
    deadline, and once the deadline has passed the timer's callback executes
    exactly the pending batch and closes the window. *)
Theorem coalescer_fires s k e now' :
  reachable s → co_stopped (sy_c s) = false → co_pending (sy_c s) !! k = Some e →
  (sy_now s ≤ now')%Z → (en_deadline e ≤ now')%Z →
  (∃ s', rtc step s s' ∧ sy_log s' = EvEmit (en_batch e) now' :: sy_log s ∧
    co_pending (sy_c s') = delete k (co_pending (sy_c s))) ∧
  ∀ batch t, db_Key batch = k → length (db_Actions batch) ≠ 0%nat →
    co_pending (Submit (sy_c s) batch t).2 !! k = Some (MkEntry batch (en_deadline e)).
Proof.
  intros Hr Hst Hp Hnow Hdue. pose proof (reachable_consistent _ Hr) as Hcs.
  destruct s as [c timers now log]. cbn in *. split.
  - destruct (cs_armed _ Hcs Hst) as [_ Ha]. cbn in Ha.
    assert ((k, en_deadline e) ∈ timers) as Hin by (apply Ha; by rewrite Hp).
    apply list_elem_of_split in Hin as (pre & post & ->).
    eexists. split.
    + eapply rtc_l; [by apply step_time|]. apply rtc_once. apply step_fire; [exact Hdue|].
      unfold fire. rewrite Hp, Hst. reflexivity.
    + done.
  - intros batch t <- Hlen. unfold Submit. apply Nat.eqb_neq in Hlen. rewrite Hlen, Hst, Hp. cbn.
    by rewrite lookup_insert_eq.
Qed.

Lemma stopped_step s s' :
  consistent s → co_stopped (sy_c s) = true → step s s' →
  co_stopped (sy_c s') = true ∧ ∃ refused, sy_log s' = (map EvRefuse refused ++ sy_log s)%list.
Proof.
  intros Hcs Hst Hstep. pose proof (cs_stopped _ Hcs Hst) as Hp.
  destruct Hstep as [c timers now now' log Hle|c timers now log batch r c' HS
    |c pre key due post now log b c' Hdue HF|c timers timers' now log bs fl dr c' HS Hperm _]; cbn in *.
  - split; [done|]. by exists [].
  - unfold Submit in HS. rewrite Hst in HS. destruct (_ =? _)%nat; simplify_eq.
    + split; [done|]. by exists [].
    + split; [done|]. by exists [batch].
  - unfold fire in HF. rewrite Hp, lookup_empty in HF. simplify_eq. split; [done|]. by exists [].
  - unfold Stop in HS. rewrite Hst in HS. simplify_eq.
    symmetry in Hperm. apply Permutation_nil_r in Hperm. apply app_eq_nil in Hperm as [-> ->].
    split; [done|]. by exists [].
Qed.

(** [Stop] hands over exactly the pending batches, one per key, and closes the
    coalescer for good: nothing is pending afterwards and, whatever the timers
    still running and the submissions racing it do, no batch is executed any
    more: all that can happen is that a submission is refused. *)
Theorem Stop_correct s s' :
  reachable s →
  (Stop (sy_c s)).1 ≡ₚ (if co_stopped (sy_c s) then [] else (map_to_list (co_pending (sy_c s))).*2 ≫= λ e, [en_batch e]) ∧
  Pending (Stop (sy_c s)).2 = 0%nat ∧ co_stopped (Stop (sy_c s)).2 = true ∧
  (co_stopped (sy_c s) = true → rtc step s s' →
   Pending (sy_c s') = 0%nat ∧ ∃ refused, sy_log s' = (map EvRefuse refused ++ sy_log s)%list).
Proof.
  intros Hr. pose proof (reachable_consistent _ Hr) as Hcs. unfold Stop, Pending.
  split_and!.
  - destruct (co_stopped (sy_c s)); [done|]. cbn [fst].
    induction (map_to_list _) as [|[k e] l IH]; [done|]. cbn. by f_equiv.
  - destruct (co_stopped (sy_c s)) eqn:Hst; cbn; [|apply map_size_empty].
    rewrite (cs_stopped _ Hcs Hst). apply map_size_empty.
  - by destruct (co_stopped (sy_c s)) eqn:Hst.
  - intros Hst Hrtc.
    assert (reachable s' ∧ co_stopped (sy_c s') = true ∧
      ∃ refused, sy_log s' = (map EvRefuse refused ++ sy_log s)%list) as (Hr' & Hst' & H).
    { apply (rtc_ind_r (λ s', reachable s' ∧ co_stopped (sy_c s') = true ∧
        ∃ refused, sy_log s' = (map EvRefuse refused ++ sy_log s)%list) s) in Hrtc; [done| |].
      - split_and!; [done..|]. by exists [].
      - intros y z _ Hyz (Hry & Hsy & l & Hl).
        destruct (stopped_step y z) as (Hsz & l' & Hl'); [by apply reachable_consistent|done..|].
        split_and!; [by eapply rtc_r|done|]. exists (l' ++ l)%list. rewrite Hl', Hl, map_app. by rewrite app_assoc. }
    split; [|done]. rewrite (cs_stopped _ (reachable_consistent _ Hr') Hst'). apply map_size_empty.
Qed.

(** ** Witnesses *)

Definition demo_action : Action := MkAction None None None None.
Definition demo_batch (key : string) (n : nat) : DeferredBatch := MkDeferredBatch key 5 (repeat demo_action (S n)).

(** Two batches of one key, three time units apart, and one of another key. *)
Definition demo_busy : system :=
  MkSystem
    (MkCoalescer {[ "a" := MkEntry (demo_batch "a" 1) 5; "b" := MkEntry (demo_batch "b" 2) 8 ]} false)
    [("b", 8%Z); ("a", 5%Z)] 3
    [EvOpen (demo_batch "b" 2) 3; EvReplace (demo_batch "a" 1); EvOpen (demo_batch "a" 0) 0].

Lemma demo_busy_reachable : reachable demo_busy.
Proof.
  unfold reachable, initial.
  eapply rtc_l; [apply (step_submit _ _ _ _ (demo_batch "a" 0)); vm_compute; reflexivity|].
  eapply rtc_l; [apply (step_time _ _ 0 3); lia|].
  eapply rtc_l; [apply (step_submit _ _ _ _ (demo_batch "a" 1)); vm_compute; reflexivity|].
  eapply rtc_l; [apply (step_submit _ _ _ _ (demo_batch "b" 2)); vm_compute; reflexivity|].
  apply rtc_refl.
Qed.

(** Both batches flushed by a shutdown, one of them too late. *)
Definition demo_stopped : system :=
  MkSystem (MkCoalescer ∅ true) [] 3
    (EvDrop (demo_batch "b" 2) :: EvFlush (demo_batch "a" 1) :: sy_log demo_busy).

Lemma demo_stopped_reachable : reachable demo_stopped.
Proof.
  eapply rtc_r; [apply demo_busy_reachable|].
  unfold demo_busy, demo_stopped. cbn [sy_log].
  apply (step_stop _ _ [] _ _ [demo_batch "a" 1; demo_batch "b" 2] [demo_batch "a" 1] [demo_batch "b" 2]);
    [vm_compute; reflexivity|reflexivity|apply sublist_nil_l].
Qed.

Lemma coalescer_log_witness :
  log_ok (sy_log demo_stopped) ∧
  ∀ k, held k (sy_log demo_stopped) = en_batch <$> co_pending (sy_c demo_stopped) !! k.
Proof. apply (coalescer_log demo_stopped demo_stopped_reachable). Defined.

Lemma coalescer_fires_witness :
  (∃ s', rtc step demo_busy s' ∧ sy_log s' = EvEmit (demo_batch "a" 1) 6 :: sy_log demo_busy ∧
    co_pending (sy_c s') = delete "a" (co_pending (sy_c demo_busy))) ∧
  ∀ batch t, db_Key batch = "a" → length (db_Actions batch) ≠ 0%nat →
    co_pending (Submit (sy_c demo_busy) batch t).2 !! "a" = Some (MkEntry batch 5).
Proof.
  apply (coalescer_fires demo_busy "a" (MkEntry (demo_batch "a" 1) 5) 6);
    [apply demo_busy_reachable|reflexivity|vm_compute; reflexivity|cbn; lia|cbn; lia].
Defined.

Lemma Stop_correct_witness :
  (Stop (sy_c demo_busy)).1 ≡ₚ [demo_batch "a" 1; demo_batch "b" 2] ∧
  Pending (sy_c demo_stopped) = 0%nat ∧
  ∃ refused, sy_log demo_stopped = (map EvRefuse refused ++ sy_log demo_stopped)%list.
Proof.
  split; [apply (Stop_correct demo_busy demo_busy demo_busy_reachable)|].
  apply (Stop_correct demo_stopped demo_stopped demo_stopped_reachable); [reflexivity|apply rtc_refl].
Defined.
