(* ===== verification/StreamResolver.v ===== *)
(** * Streams and subjects (internal/broker/stream_resolver.go, action_streams.go)

    Which JetStream stream a subject is consumed from: the filters of the
    streams discovered, how a filter matches, how several matches are ranked, and
    the checks of rules against them.  [Discover] and [Refresh] read the stream
    configurations from the server; the list they get is an argument. *)

From S2P Require Import Prelude GoStrings GoFloat GoTime Value Types Pattern.
Local Open Scope string_scope.
#[local] Arguments String.append !_ _ /.

(** ** Data *)

(** [jetstream.StorageType], and the fields of [jetstream.StreamConfig] the
    resolver reads: [Mirror] and [Sources] are their filter subjects. *)
Inductive StorageType := FileStorage | MemoryStorage.
Record StreamConfig := MkStreamConfig {
  cfg_Name : string; cfg_Subjects : list string; cfg_Storage : StorageType;
  cfg_Mirror : option string; cfg_Sources : list string;
}.

Record StreamInfo := MkStreamInfo {
  si_Name : string; si_Subjects : list string; si_MirrorFilter : string;
  si_SourceFilters : list string; si_Storage : StorageType; si_IsMirror : bool; si_IsSource : bool;
}.

Record streamMatch := MkStreamMatch {
  sm_streamName : string; sm_filter : string; sm_specificity : Z; sm_storage : StorageType;
  sm_isMirror : bool; sm_isSource : bool; sm_isSystem : bool;
}.

Record StreamResolver := MkStreamResolver { sr_streams : list StreamInfo; sr_discovered : bool }.

(** An entry of the list of filters an error message shows. *)
Inductive available :=
| PrimaryFilter (filter stream : string) (storage : StorageType)
| MirrorFilter (filter stream : string) (storage : StorageType)
| SourceFilter (filter stream : string) (storage : StorageType).

Inductive resolver_error :=
| NotDiscovered
| NoStreams
| ListError
| ErrNoStreamFound (subject : string) (filters : list available)
| CannotMap (subjects : list string) (filters : list available)
| NoStreamForTrigger (subject : string).

Definition storage_eqb (a b : StorageType) : bool :=
  match a, b with FileStorage, FileStorage | MemoryStorage, MemoryStorage => true | _, _ => false end.

(** ** Discovery *)

Definition NewStreamResolver : StreamResolver := MkStreamResolver [] false.

Definition default_filter (filter : string) : string := if String.eqb filter "" then ">" else filter.

Definition stream_info (cfg : StreamConfig) : StreamInfo :=
  MkStreamInfo (cfg_Name cfg)
    (if (0 <? length (cfg_Subjects cfg))%nat then cfg_Subjects cfg else [])
    (match cfg_Mirror cfg with Some filter => default_filter filter | None => "" end)
    (map default_filter (cfg_Sources cfg))
    (cfg_Storage cfg)
    (match cfg_Mirror cfg with Some _ => true | None => false end)
    (0 <? length (cfg_Sources cfg))%nat.

(** The streams the lister hands over, unless it stopped with an error. *)
Definition listStreams (lister : list StreamConfig * bool) : result resolver_error (list StreamInfo) :=
  if lister.2 then Err ListError else Ok (map stream_info lister.1).

Definition Discover (sr : StreamResolver) (lister : list StreamConfig * bool)
    : result resolver_error unit * StreamResolver :=
  match listStreams lister with
  | Err e => (Err e, sr)
  | Ok newStreams =>
      if (length newStreams =? 0)%nat then (Err NoStreams, sr)
      else (Ok tt, MkStreamResolver newStreams true)
  end.

Definition Refresh (sr : StreamResolver) (lister : list StreamConfig * bool)
    : result resolver_error unit * StreamResolver :=
  match listStreams lister with
  | Err e => (Err e, sr)
  | Ok newStreams => (Ok tt, MkStreamResolver newStreams true)
  end.

(** ** Matching a subject against a filter *)

(** The two loops that compare tokens by position. *)
Fixpoint tokens_match (patternTokens subjectTokens : list string) : bool :=
  match patternTokens, subjectTokens with
  | p :: ps, s :: ss => if String.eqb p "*" then tokens_match ps ss
                        else if negb (String.eqb p s) then false else tokens_match ps ss
  | _, _ => true
  end.

(** The position of the first [>]. *)
Fixpoint greedy_index (patternTokens : list string) : option nat :=
  match patternTokens with
  | [] => None
  | t :: ts => if String.eqb t ">" then Some 0%nat else S <$> greedy_index ts
  end.

Definition matchPattern (subject pattern : string) : bool :=
  let subjectTokens := Split "." subject in
  let patternTokens := Split "." pattern in
  match greedy_index patternTokens with
  | Some i =>
      if (length subjectTokens <? i)%nat then false
      else tokens_match (take i patternTokens) (take i subjectTokens)
  | None =>
      if negb (length subjectTokens =? length patternTokens)%nat then false
      else tokens_match patternTokens subjectTokens
  end.

Definition ends_greedy (tokens : list string) : bool :=
  match last tokens with Some t => String.eqb t ">" | None => false end.

Fixpoint prefix_covers (filterPrefix subjectPrefix : list string) : bool :=
  match filterPrefix, subjectPrefix with
  | f :: fs, s :: ss => if negb (String.eqb f "*") && negb (String.eqb f s) then false else prefix_covers fs ss
  | _, _ => true
  end.

Fixpoint tokens_cover (filterTokens subjectTokens : list string) : bool :=
  match filterTokens, subjectTokens with
  | f :: fs, s :: ss =>
      if String.eqb f "*" then tokens_cover fs ss
      else if String.eqb s "*" then false
      else if negb (String.eqb f s) then false else tokens_cover fs ss
  | _, _ => true
  end.

Definition patternCoveredBy (subjectPattern filterPattern : string) : bool :=
  if String.eqb filterPattern ">" then true
  else
    let subjectTokens := Split "." subjectPattern in
    let filterTokens := Split "." filterPattern in
    if ends_greedy filterTokens then
      let filterPrefix := removelast filterTokens in
      let subjectPrefix := if ends_greedy subjectTokens then removelast subjectTokens else subjectTokens in
      if (length subjectPrefix <? length filterPrefix)%nat then false
      else prefix_covers filterPrefix subjectPrefix
    else if ends_greedy subjectTokens then false
    else if negb (length subjectTokens =? length filterTokens)%nat then false
    else tokens_cover filterTokens subjectTokens.

Definition has_wildcard (s : string) : bool := Contains s "*" || Contains s ">".

Definition subjectMatches (subject filter : string) : bool :=
  if String.eqb subject filter then true
  else if has_wildcard filter then matchPattern subject filter
  else if has_wildcard subject then patternCoveredBy subject filter
  else false.

(** ** Ranking *)

Fixpoint score_tokens (score : Z) (tokens : list string) : Z :=
  match tokens with
  | [] => score
  | token :: rest =>
      score_tokens (score + (if String.eqb token ">" then 1 else if String.eqb token "*" then 10 else 100)) rest
  end.

Definition calculateSpecificity (filter : string) : Z :=
  if negb (Contains filter "*") && negb (Contains filter ">")
  then 1000 + Z.of_nat (length (Split "." filter)) * 10
  else score_tokens 0 (Split "." filter).

Definition isSystemStream (name : string) : bool := HasPrefix name "$" || HasPrefix name "KV_".

(** The function [sort.Slice] is called with. *)
Definition less (a b : streamMatch) : bool :=
  if negb (sm_specificity a =? sm_specificity b)%Z then (sm_specificity b <? sm_specificity a)%Z
  else if negb (storage_eqb (sm_storage a) (sm_storage b)) then storage_eqb (sm_storage a) MemoryStorage
  else
    let aIsPrimary := negb (sm_isMirror a) && negb (sm_isSource a) in
    let bIsPrimary := negb (sm_isMirror b) && negb (sm_isSource b) in
    if negb (Bool.eqb aIsPrimary bIsPrimary) then aIsPrimary
    else if negb (Bool.eqb (sm_isSystem a) (sm_isSystem b)) then negb (sm_isSystem a)
    else false.

(** A strict weak order, what [sort.Slice] asks of the function. *)
Record strict_weak {A} (lt : A → A → bool) : Prop := {
  sw_irrefl : ∀ a, lt a a = false;
  sw_trans : ∀ a b c, lt a b = true → lt b c = true → lt a c = true;
  sw_incomparable : ∀ a b c, lt a b = false → lt b c = false → lt a c = false;
}.

(** [sort.Slice], which is not stable: some permutation of the slice in which
    no element is less than one before it. *)
Class SortSlice := {
  sort_Slice : ∀ {A}, (A → A → bool) → list A → list A;
  sort_Slice_perm : ∀ {A} (lt : A → A → bool) l, sort_Slice lt l ≡ₚ l;
  sort_Slice_sorted : ∀ {A} (lt : A → A → bool) l, strict_weak lt →
    StronglySorted (λ a b, lt b a = false) (sort_Slice lt l);
}.

(** ** Selection *)

Definition mk_match (stream : StreamInfo) (isMirror isSource : bool) (filter : string) : streamMatch :=
  MkStreamMatch (si_Name stream) filter (calculateSpecificity filter) (si_Storage stream)
    isMirror isSource (isSystemStream (si_Name stream)).

(** The matches one stream contributes, in the order they are collected. *)
Definition stream_matches (subject : string) (stream : StreamInfo) : list streamMatch :=
  (map (mk_match stream false false) (List.filter (subjectMatches subject) (si_Subjects stream)) ++
  (if si_IsMirror stream && negb (String.eqb (si_MirrorFilter stream) "")
   then if subjectMatches subject (si_MirrorFilter stream)
        then [mk_match stream true false (si_MirrorFilter stream)] else []
   else []) ++
  (if si_IsSource stream
   then map (mk_match stream false true) (List.filter (subjectMatches subject) (si_SourceFilters stream))
   else []))%list.

Definition collect_matches (subject : string) (streams : list StreamInfo) : list streamMatch :=
  concat (map (stream_matches subject) streams).

Definition stream_filters (stream : StreamInfo) : list available :=
  (map (λ f, PrimaryFilter f (si_Name stream) (si_Storage stream)) (si_Subjects stream) ++
  (if negb (String.eqb (si_MirrorFilter stream) "")
   then [MirrorFilter (si_MirrorFilter stream) (si_Name stream) (si_Storage stream)] else []) ++
  map (λ f, SourceFilter f (si_Name stream) (si_Storage stream)) (si_SourceFilters stream))%list.

Definition getAllSubjectFilters (sr : StreamResolver) : list available :=
  concat (map stream_filters (sr_streams sr)).

Section selection.
Context `{SortSlice}.

Definition FindStreamForSubject (sr : StreamResolver) (subject : string) : result resolver_error string :=
  if negb (sr_discovered sr) then Err NotDiscovered
  else
    match collect_matches subject (sr_streams sr) with
    | [] => Err (ErrNoStreamFound subject (getAllSubjectFilters sr))
    | [m] => Ok (sm_streamName m)
    | matches =>
        match sort_Slice less matches with
        | bestMatch :: _ => Ok (sm_streamName bestMatch)
        | [] => (* sorting loses nothing *) Err (ErrNoStreamFound subject (getAllSubjectFilters sr))
        end
    end.

Definition unmapped (sr : StreamResolver) (subject : string) : bool :=
  negb (is_ok (FindStreamForSubject sr subject)).

Definition ValidateSubjects (sr : StreamResolver) (subjects : list string) : result resolver_error unit :=
  if negb (sr_discovered sr) then Err NotDiscovered
  else
    let unmappedSubjects := List.filter (unmapped sr) subjects in
    if (0 <? length unmappedSubjects)%nat then Err (CannotMap unmappedSubjects (getAllSubjectFilters sr))
    else Ok tt.

Definition validate_rule (sr : StreamResolver) (r : Rule) : list resolver_error :=
  match tr_NATS (r_Trigger r) with
  | Some trigger =>
      if IsCore trigger then []
      else if unmapped sr (nt_Subject trigger) then [NoStreamForTrigger (nt_Subject trigger)] else []
  | None => []
  end.

Definition ValidateRulesHaveStreams (sr : StreamResolver) (rules : list Rule) : list resolver_error :=
  if negb (sr_discovered sr) then [NotDiscovered] else concat (map (validate_rule sr) rules).

Definition UnstreamedSubjects (sr : StreamResolver) (subjects : list string) : list string :=
  if negb (sr_discovered sr) || (length (sr_streams sr) =? 0)%nat then []
  else List.filter (unmapped sr) subjects.
End selection.

(** ** The subjects rules publish to over JetStream *)

Definition isCore (globalMode actionMode : string) : bool :=
  if String.eqb actionMode "" then String.eqb globalMode ModeCore else String.eqb actionMode ModeCore.

(** [add]: the subjects collected so far, which are also those in [seen]. *)
Definition add_subject (subjects : list string) (subject : string) : list string :=
  if String.eqb subject "" || Contains subject "{" then subjects
  else if existsb (String.eqb subject) subjects then subjects
  else (subjects ++ [subject])%list.

Definition add_rule (globalMode : string) (subjects : list string) (r : Rule) : list string :=
  let subjects :=
    match a_NATS (r_Action r) with
    | Some action =>
        if negb (na_Request action) && negb (isCore globalMode (na_Mode action))
        then add_subject subjects (na_Subject action) else subjects
    | None => subjects
    end in
  match a_HTTP (r_Action r) with
  | Some action =>
      match ha_PublishResponse action with
      | Some spec => if negb (isCore globalMode "") then add_subject subjects (pr_Subject spec) else subjects
      | None => subjects
      end
  | None => subjects
  end.

(** A nil rule is skipped. *)
Definition add_entry (globalMode : string) (subjects : list string) (r : option Rule) : list string :=
  match r with Some r => add_rule globalMode subjects r | None => subjects end.

Definition jetStreamActionSubjects (rules : list (option Rule)) (globalMode : string) : list string :=
  foldl (add_entry globalMode) [] rules.

Definition maxWarnedSubjects : nat := 20.

(** What the warning shows: how many subjects have no stream, and the first of
    them; nothing when every subject has one. *)
Definition WarnUnstreamedActionSubjects `{SortSlice} (sr : option StreamResolver)
    (rules : list (option Rule)) (globalMode : string) : option (nat * list string) :=
  match sr with
  | None => None
  | Some sr =>
      let unstreamed := UnstreamedSubjects sr (jetStreamActionSubjects rules globalMode) in
      if (length unstreamed =? 0)%nat then None
      else Some (length unstreamed,
        if (maxWarnedSubjects <? length unstreamed)%nat then take maxWarnedSubjects unstreamed else unstreamed)
  end.

(** ** Specification *)

(** A stream captures a subject through one of its filters. *)
Inductive captures (subject : string) (stream : StreamInfo) : streamMatch → Prop :=
| captures_primary filter :
    filter ∈ si_Subjects stream → subjectMatches subject filter = true →
    captures subject stream (mk_match stream false false filter)
| captures_mirror :
    si_IsMirror stream = true → si_MirrorFilter stream ≠ "" →
    subjectMatches subject (si_MirrorFilter stream) = true →
    captures subject stream (mk_match stream true false (si_MirrorFilter stream))
| captures_source filter :
    si_IsSource stream = true → filter ∈ si_SourceFilters stream → subjectMatches subject filter = true →
    captures subject stream (mk_match stream false true filter).

Definition captured (sr : StreamResolver) (subject : string) : Prop :=
  ∃ stream m, stream ∈ sr_streams sr ∧ captures subject stream m.

(** The documented priorities: a more specific filter, then memory rather than
    file storage, then a primary stream rather than a mirror or sourced one, then
    a stream that is not the system's. *)
Definition is_primary (m : streamMatch) : Prop := sm_isMirror m = false ∧ sm_isSource m = false.
Definition outranks (a b : streamMatch) : Prop :=
  (sm_specificity b < sm_specificity a)%Z ∨
  sm_specificity a = sm_specificity b ∧
  (sm_storage a = MemoryStorage ∧ sm_storage b = FileStorage ∨
   sm_storage a = sm_storage b ∧
   (is_primary a ∧ ¬ is_primary b ∨
    (is_primary a ↔ is_primary b) ∧ sm_isSystem a = false ∧ sm_isSystem b = true)).

(** ** Lemmas *)

Lemma less_outranks a b : less a b = true ↔ outranks a b.
Proof.
  unfold less, outranks, is_primary. destruct (Z.eqb_spec (sm_specificity a) (sm_specificity b)) as [->|Hne]; cbn.
  - destruct (sm_storage a), (sm_storage b), (sm_isMirror a), (sm_isMirror b), (sm_isSource a),
      (sm_isSource b), (sm_isSystem a), (sm_isSystem b); cbn; rewrite ?orb_false_r;
      (split; [intros|intros [?|(_ & [(? & ?)|(? & [([? ?] & ?)|(? & ? & ?)])])]]);
      try done; try lia; naive_solver.
  - rewrite Z.ltb_lt. naive_solver lia.
Qed.

Lemma stream_matches_spec subject stream m :
  m ∈ stream_matches subject stream ↔ captures subject stream m.
Proof.
  unfold stream_matches. rewrite !elem_of_app. split.
  - intros [(f & -> & Hf)%list_elem_of_fmap|[Hm|Hm]].
    + apply elem_of_filterb in Hf as [? ?]. by constructor.
    + destruct (si_IsMirror stream) eqn:E; [|by apply not_elem_of_nil in Hm].
      destruct (String.eqb_spec (si_MirrorFilter stream) ""); cbn in Hm; [by apply not_elem_of_nil in Hm|].
      destruct (subjectMatches _ _) eqn:E'; [|by apply not_elem_of_nil in Hm].
      apply list_elem_of_singleton in Hm as ->. by constructor.
    + destruct (si_IsSource stream) eqn:E; [|by apply not_elem_of_nil in Hm].
      apply list_elem_of_fmap in Hm as (f & -> & [? ?]%elem_of_filterb). by constructor.
  - intros [f Hf Hs|E Hne Hs|f E Hf Hs].
    + left. apply list_elem_of_fmap. exists f. by rewrite elem_of_filterb.
    + right; left. apply String.eqb_neq in Hne. rewrite E, Hne, Hs. set_solver.
    + right; right. rewrite E. apply list_elem_of_fmap. exists f. by rewrite elem_of_filterb.
Qed.

Lemma collect_matches_spec subject streams m :
  m ∈ collect_matches subject streams ↔ ∃ stream, stream ∈ streams ∧ captures subject stream m.
Proof.
  unfold collect_matches. rewrite list_elem_of_In, in_concat. split.
  - intros (l & Hl & Hm). apply in_map_iff in Hl as (st & <- & Hst).
    exists st. by rewrite <- stream_matches_spec, !list_elem_of_In.
  - intros (st & Hst & Hm). exists (stream_matches subject st).
    rewrite <- !list_elem_of_In, stream_matches_spec. split; [|done].
    apply list_elem_of_fmap. by exists st.
Qed.

(** The ranking is the order of a score that compares specificity first. *)
Definition rank (m : streamMatch) : Z :=
  sm_specificity m * 8 + (if storage_eqb (sm_storage m) MemoryStorage then 4 else 0)
  + (if negb (sm_isMirror m) && negb (sm_isSource m) then 2 else 0) + (if sm_isSystem m then 0 else 1).

Lemma less_rank a b : less a b = (rank b <? rank a)%Z.
Proof.
  unfold less, rank. destruct a as [n f s st mi so sy], b as [n' f' s' st' mi' so' sy']; cbn.
  destruct (Z.eqb_spec s s') as [->|Hne]; cbn.
  - destruct st, st', mi, mi', so, so', sy, sy'; cbn; symmetry; (apply Z.ltb_lt || apply Z.ltb_ge); lia.
  - destruct (Z.ltb_spec s' s); symmetry; (apply Z.ltb_lt || apply Z.ltb_ge);
      repeat case_match; lia.
Qed.

Lemma less_strict_weak : strict_weak less.
Proof. split; intros *; rewrite !less_rank, ?Z.ltb_lt, ?Z.ltb_ge; lia. Qed.

Section find.
Context `{SortSlice}.

Lemma FindStream_cases sr subject :
  sr_discovered sr = true →
  (collect_matches subject (sr_streams sr) = [] ∧
   FindStreamForSubject sr subject = Err (ErrNoStreamFound subject (getAllSubjectFilters sr))) ∨
  ∃ m, m ∈ collect_matches subject (sr_streams sr) ∧ FindStreamForSubject sr subject = Ok (sm_streamName m) ∧
    ∀ m', m' ∈ collect_matches subject (sr_streams sr) → less m' m = false.
Proof.
  intros Hd. unfold FindStreamForSubject. rewrite Hd. cbn [negb].
  destruct (collect_matches subject (sr_streams sr)) as [|m [|m2 l]] eqn:E; [by left| |]; right.
  - exists m. split_and!; [set_solver|done|]. intros m' ->%list_elem_of_singleton. apply less_strict_weak.
  - pose proof (sort_Slice_perm less (m :: m2 :: l)) as Hp.
    pose proof (sort_Slice_sorted less (m :: m2 :: l) less_strict_weak) as Hs.
    destruct (sort_Slice less (m :: m2 :: l)) as [|b r] eqn:Es.
    { apply Permutation_nil_l in Hp. done. }
    exists b. split_and!; [rewrite <- Hp; set_solver|done|].
    intros m'. rewrite <- Hp, elem_of_cons. apply StronglySorted_inv in Hs as [_ Hs].
    intros [->|Hm]; [apply less_strict_weak|]. rewrite Forall_forall in Hs. by apply Hs.
Qed.

Lemma unmapped_spec sr subject :
  sr_discovered sr = true → unmapped sr subject = false ↔ captured sr subject.
Proof.
  intros Hd. unfold unmapped, captured. rewrite negb_false_iff.
  destruct (FindStream_cases sr subject Hd) as [[Hn ->]|(m & Hm & -> & _)]; cbn.
  - split; [done|]. intros (st & m & Hst & Hm).
    assert (m ∈ collect_matches subject (sr_streams sr)) as Hin by (apply collect_matches_spec; eauto).
    rewrite Hn in Hin. by apply not_elem_of_nil in Hin.
  - split; [|done]. apply collect_matches_spec in Hm as (st & ? & ?). eauto.
Qed.

(** C18: Once streams are discovered a subject is resolved exactly when one of them
    captures it, the stream returned is one that does, and no filter of any
    stream that captures the subject outranks the one it was returned for.  The
    sort need not be stable for that.  Before discovery every lookup fails. *)
Theorem FindStreamForSubject_correct sr subject :
  (FindStreamForSubject sr subject = Err NotDiscovered ↔ sr_discovered sr = false) ∧
  (sr_discovered sr = true → (is_ok (FindStreamForSubject sr subject) = true ↔ captured sr subject)) ∧
  ∀ name, FindStreamForSubject sr subject = Ok name →
    ∃ stream m, stream ∈ sr_streams sr ∧ captures subject stream m ∧ name = si_Name stream ∧
      ∀ stream' m', stream' ∈ sr_streams sr → captures subject stream' m' →
        ¬ outranks m' m.
Proof.
  destruct (sr_discovered sr) eqn:Hd; cycle 1.
  { unfold FindStreamForSubject. rewrite Hd. cbn. done. }
  split_and!.
  - destruct (FindStream_cases sr subject Hd) as [[_ ->]|(m & _ & -> & _)]; done.
  - intros _. rewrite <- (unmapped_spec sr subject Hd). unfold unmapped. by rewrite negb_false_iff.
  - intros name. destruct (FindStream_cases sr subject Hd) as [[_ ->]|(m & Hm & -> & Hb)]; [done|].
    intros [= <-]. apply collect_matches_spec in Hm as (st & Hst & Hm). exists st, m.
    split_and!; [done|done|by destruct Hm|]. intros st' m' Hst' Hm'.
    rewrite <- less_outranks, Hb; [done|]. apply collect_matches_spec; eauto.
Qed.

(** The validations agree with the lookup: [ValidateSubjects] accepts exactly
    when every subject is captured, [ValidateRulesHaveStreams] reports exactly
    the triggers on JetStream that no stream captures, and [UnstreamedSubjects]
    keeps, in order, the subjects no stream captures, and nothing at all as long
    as no stream is known. *)
Theorem validations_correct sr subjects rules :
  sr_discovered sr = true →
  (ValidateSubjects sr subjects = Ok tt ↔ ∀ subject, subject ∈ subjects → captured sr subject) ∧
  (∀ e, e ∈ ValidateRulesHaveStreams sr rules ↔
    ∃ r t, r ∈ rules ∧ tr_NATS (r_Trigger r) = Some t ∧ IsCore t = false ∧
      ¬ captured sr (nt_Subject t) ∧ e = NoStreamForTrigger (nt_Subject t)) ∧
  (sr_streams sr ≠ [] → UnstreamedSubjects sr subjects `sublist_of` subjects ∧
    ∀ subject, subject ∈ UnstreamedSubjects sr subjects ↔ subject ∈ subjects ∧ ¬ captured sr subject) ∧
  (sr_streams sr = [] → UnstreamedSubjects sr subjects = []).
Proof.
  intros Hd. pose proof (λ s, unmapped_spec sr s Hd) as Hu.
  assert (∀ s, unmapped sr s = true ↔ ¬ captured sr s) as Hu'.
  { intros s. rewrite <- Hu. by destruct (unmapped sr s). }
  split_and!.
  - unfold ValidateSubjects. rewrite Hd. cbn [negb].
    destruct (List.filter (unmapped sr) subjects) as [|s l] eqn:E; cbn.
    + split; [|done]. intros _ s Hs. apply Hu, not_true_iff_false. intros Hm.
      assert (s ∈ List.filter (unmapped sr) subjects) as Hin by by apply elem_of_filterb.
      rewrite E in Hin. by apply not_elem_of_nil in Hin.
    + split; [done|]. intros Hall.
      assert (s ∈ List.filter (unmapped sr) subjects) as [Hm Hs]%elem_of_filterb by (rewrite E; set_solver).
      apply Hu' in Hm. naive_solver.
  - intros e. unfold ValidateRulesHaveStreams. rewrite Hd. cbn [negb].
    rewrite list_elem_of_In, in_concat. unfold validate_rule. split.
    + intros (l & (r & <- & Hr)%in_map_iff & He). destruct (tr_NATS (r_Trigger r)) as [t|] eqn:Ht; [|done].
      destruct (IsCore t) eqn:Hc; [done|]. destruct (unmapped sr (nt_Subject t)) eqn:Hm; [|done].
      destruct He as [<-|[]]. exists r, t. rewrite list_elem_of_In, <- Hu'. done.
    + intros (r & t & Hr%list_elem_of_In & Ht & Hc & Hn%Hu' & ->).
      eexists. split; [apply in_map_iff; by exists r|]. rewrite Ht, Hc, Hn. by left.
  - intros Hne. unfold UnstreamedSubjects. rewrite Hd.
    destruct (sr_streams sr) as [|st l] eqn:E; [done|]. cbn. split.
    + rewrite <- E in *. clear. induction subjects as [|s l' IH]; cbn; [done|].
      destruct (unmapped sr s); by constructor.
    + intros s. rewrite elem_of_filterb, Hu'. tauto.
  - intros Hs. unfold UnstreamedSubjects. rewrite Hs, orb_comm. done.
Qed.
End find.

(** ** Filters and patterns *)

Lemma tokens_match_tmatch p s :
  ">" ∉ p → "" ∉ s → length s = length p → tokens_match p s = tmatch p s.
Proof.
  revert s; induction p as [|t p IH]; intros [|x s] Hg Hs Hl; try done.
  cbn [tokens_match tmatch]. cbn [length] in Hl.
  assert (t ≠ ">" ∧ x ≠ "") as [->%String.eqb_neq ->%String.eqb_neq] by set_solver.
  rewrite <- IH by (set_solver || lia). rewrite (String.eqb_sym x t).
  by destruct (String.eqb t "*"), (String.eqb t x).
Qed.

Lemma greedy_index_last p :
  (∀ i, p !! i = Some ">" → S i = length p) →
  (greedy_index p = None ∧ ">" ∉ p) ∨
  ∃ q, p = (q ++ [">"])%list ∧ ">" ∉ q ∧ greedy_index p = Some (length q).
Proof.
  induction p as [|t p IH]; intros Hg; [left; set_solver|]. cbn [greedy_index].
  destruct (String.eqb_spec t ">") as [->|Ht].
  - right. exists []. specialize (Hg 0%nat eq_refl). destruct p; [|done]. set_solver.
  - destruct IH as [[-> Hn]|(q & -> & Hn & ->)].
    + intros i Hi. specialize (Hg (S i) Hi). cbn in Hg. lia.
    + left. set_solver.
    + right. exists (t :: q). set_solver.
Qed.

Lemma tmatch_greedy q s :
  ">" ∉ q → tmatch (q ++ [">"]) s = (length q <=? length s)%nat && tmatch q (take (length q) s).
Proof.
  revert s; induction q as [|t q IH]; intros [|x s] Hq; try done.
  - cbn. assert (t ≠ ">") as ->%String.eqb_neq by set_solver. done.
  - cbn [length take app tmatch Nat.leb]. assert (t ≠ ">") as ->%String.eqb_neq by set_solver.
    rewrite IH by set_solver.
    by destruct (String.eqb t "*"), (String.eqb x ""), (String.eqb x t), (length q <=? length s)%nat.
Qed.

Lemma tmatch_length_eq p s : ">" ∉ p → tmatch p s = true → length s = length p.
Proof.
  intros Hp Hm. apply tmatch_length in Hm. destruct (existsb _ p) eqn:E; [|done].
  apply existsb_True in E as (x & Hx & ->%String.eqb_eq). done.
Qed.

Lemma matchPattern_tmatch subject pattern :
  valid_tokens (Split "." pattern) → "" ∉ Split "." subject →
  matchPattern subject pattern = tmatch (Split "." pattern) (Split "." subject).
Proof.
  intros [_ Hg _] Hs. unfold matchPattern. generalize dependent (Split "." pattern). intros p Hg.
  generalize dependent (Split "." subject). intros s Hs.
  destruct (greedy_index_last p Hg) as [[-> Hn]|(q & -> & Hn & ->)].
  - destruct (Nat.eqb_spec (length s) (length p)); cbn [negb]; [by apply tokens_match_tmatch|].
    destruct (tmatch p s) eqn:E; [|done]. by apply tmatch_length_eq in E.
  - rewrite tmatch_greedy, take_app_length by done.
    destruct (Nat.ltb_spec (length s) (length q)), (Nat.leb_spec (length q) (length s)); try lia.
    apply tokens_match_tmatch; [done| |rewrite length_take; lia].
    intros Hin. apply Hs. eapply elem_of_take in Hin as (i & Hi & _). by eapply list_elem_of_lookup_2.
Qed.

(** The stream resolver and the rule engine agree on patterns: for every pattern
    the engine accepts and every subject without empty tokens, a stream filter
    of that form captures the subject exactly when a rule trigger of that form
    matches it. *)
Theorem matchPattern_agrees pattern pm subject :
  NewPatternMatcher pattern = Ok pm → "" ∉ Split "." subject →
  matchPattern subject pattern = Match pm subject.
Proof.
  intros [Hv ->]%NewPatternMatcher_Ok Hs. rewrite Match_spec by done. by apply matchPattern_tmatch.
Qed.

(** ** Specificity *)

Lemma score_tokens_app score p q : score_tokens score (p ++ q) = score_tokens (score_tokens score p) q.
Proof. revert score; induction p as [|t p IH]; intros score; cbn; [done|]. by rewrite IH. Qed.

Lemma score_tokens_max score p : (score_tokens score p ≤ score + 100 * Z.of_nat (length p))%Z.
Proof.
  revert score; induction p as [|t p IH]; intros score; cbn [score_tokens length]; [lia|].
  specialize (IH (score + (if String.eqb t ">" then 1 else if String.eqb t "*" then 10 else 100))%Z).
  repeat case_match; lia.
Qed.

(** A [*] costs ninety points. *)
Lemma score_tokens_single score p :
  "*" ∈ p → (score_tokens score p ≤ score + 100 * Z.of_nat (length p) - 90)%Z.
Proof.
  intros (q & r & ->)%list_elem_of_split. rewrite score_tokens_app, length_app. cbn [score_tokens length].
  cbn. pose proof (score_tokens_max score q). pose proof (score_tokens_max (score_tokens score q + 10) r). lia.
Qed.

Lemma tokens_match_literal p s :
  "*" ∉ p → length s = length p → tokens_match p s = true → s = p.
Proof.
  revert s; induction p as [|t p IH]; intros [|x s] Hp Hl; cbn [tokens_match]; try done.
  assert (t ≠ "*") as ->%String.eqb_neq by set_solver.
  destruct (String.eqb_spec t x) as [->|]; cbn; [|done]. cbn in Hl.
  intros Hm. f_equal. apply IH; [set_solver|lia|done].
Qed.

(** A filter without wildcards is the most specific as long as subjects are
    short: among the filters that capture a literal subject of at most eleven
    tokens, the subject itself scores higher than every other one. *)
Theorem exact_filter_preferred subject filter :
  has_wildcard subject = false → (length (Split "." subject) ≤ 11)%nat →
  valid_tokens (Split "." filter) → filter ≠ subject → subjectMatches subject filter = true →
  (calculateSpecificity filter < calculateSpecificity subject)%Z.
Proof.
  intros Hw Hlen Hv Hne. unfold subjectMatches. rewrite Hw.
  apply not_eq_sym, String.eqb_neq in Hne as Hne'. rewrite Hne'. destruct (has_wildcard filter) eqn:Hf; [|done].
  unfold calculateSpecificity. rewrite <- !negb_orb.
  change (Contains filter "*" || Contains filter ">") with (has_wildcard filter).
  change (Contains subject "*" || Contains subject ">") with (has_wildcard subject).
  rewrite Hf, Hw. cbn [negb]. unfold matchPattern.
  destruct (greedy_index_last (Split "." filter) (vt_greedy_last _ Hv)) as [[-> Hn]|(q & -> & Hn & ->)].
  - destruct (Nat.eqb_spec (length (Split "." subject)) (length (Split "." filter))) as [Hl|]; [|done].
    cbn [negb]. intros Hm. destruct (decide ("*" ∈ Split "." filter)) as [Hin|Hin].
    + pose proof (score_tokens_single 0 _ Hin). lia.
    + apply tokens_match_literal in Hm; [|done|done]. by apply Split_inj in Hm.
  - destruct (Nat.ltb_spec (length (Split "." subject)) (length q)); [done|]. intros _.
    rewrite score_tokens_app. pose proof (score_tokens_max 0 q). cbn [score_tokens]. cbn. lia.
Qed.

(** At twelve tokens a wildcard filter wins over the exact one. *)
Lemma long_wildcard_outranks_exact :
  let subject := "a.b.c.d.e.f.g.h.i.j.k.l" in
  subjectMatches subject (subject ++ ".>") = true ∧
  (calculateSpecificity subject < calculateSpecificity (subject ++ ".>"))%Z.
Proof. vm_compute. done. Qed.

(** The score the comment gives for this filter is 310. *)
Lemma specificity_of_single_wildcard : calculateSpecificity "sensors.temperature.*" = 210%Z.
Proof. reflexivity. Qed.

(** A wildcard filter is compared as a pattern even with a subject that is one,
    so [patternCoveredBy], which says no here, is never asked. *)
Lemma wildcard_filter_captures_greedy :
  subjectMatches "sensors.>" "sensors.*" = true ∧ patternCoveredBy "sensors.>" "sensors.*" = false.
Proof. vm_compute. done. Qed.

(** ** Action subjects *)

(** The static subject a rule publishes to over JetStream. *)
Inductive publishes (globalMode : string) (r : Rule) : string → Prop :=
| publishes_nats a :
    a_NATS (r_Action r) = Some a → na_Request a = false → isCore globalMode (na_Mode a) = false →
    publishes globalMode r (na_Subject a)
| publishes_response a spec :
    a_HTTP (r_Action r) = Some a → ha_PublishResponse a = Some spec → globalMode ≠ ModeCore →
    publishes globalMode r (pr_Subject spec).

Definition static_subject (s : string) : Prop := s ≠ "" ∧ Contains s "{" = false.

Lemma add_subject_spec l s x :
  NoDup l → NoDup (add_subject l s) ∧ (x ∈ add_subject l s ↔ x ∈ l ∨ (x = s ∧ static_subject s)).
Proof.
  intros Hl. unfold add_subject, static_subject. destruct (String.eqb_spec s "") as [->|Hs]; cbn; [naive_solver|].
  destruct (Contains s "{"); cbn; [naive_solver|].
  destruct (existsb (String.eqb s) l) eqn:E.
  - apply existsb_True in E as (y & Hy & <-%String.eqb_eq). naive_solver.
  - assert (s ∉ l) as Hn.
    { intros Hin. pose proof (proj1 (existsb_False _ _) E s Hin) as H. by rewrite String.eqb_refl in H. }
    split; [|set_solver]. apply NoDup_app. split_and!; [done| |apply NoDup_singleton]. set_solver.
Qed.

Lemma add_rule_spec globalMode l r x :
  NoDup l →
  NoDup (add_rule globalMode l r) ∧
  (x ∈ add_rule globalMode l r ↔ x ∈ l ∨ (publishes globalMode r x ∧ static_subject x)).
Proof.
  intros Hl. unfold add_rule.
  set (l1 := match a_NATS (r_Action r) with Some _ => _ | None => l end).
  assert (NoDup l1 ∧ ∀ y, y ∈ l1 ↔ y ∈ l ∨ ((∃ a, a_NATS (r_Action r) = Some a ∧ na_Request a = false ∧
      isCore globalMode (na_Mode a) = false ∧ y = na_Subject a) ∧ static_subject y)) as [Hl1 H1].
  { subst l1. destruct (a_NATS (r_Action r)) as [a|]; [|naive_solver].
    destruct (na_Request a) eqn:E1, (isCore globalMode (na_Mode a)) eqn:E2; cbn;
      try (split; [done|]; intros y; split; [by left|intros [?|((b & [= <-] & ? & ? & _) & _)]; congruence]).
    split; [by apply (add_subject_spec l _ "")|]. intros y. rewrite (proj2 (add_subject_spec l _ y Hl)). naive_solver. }
  assert (isCore globalMode "" = String.eqb globalMode ModeCore) as Hc by done.
  assert (∀ y, publishes globalMode r y ↔
    (∃ a, a_NATS (r_Action r) = Some a ∧ na_Request a = false ∧ isCore globalMode (na_Mode a) = false ∧ y = na_Subject a) ∨
    (∃ a spec, a_HTTP (r_Action r) = Some a ∧ ha_PublishResponse a = Some spec ∧ globalMode ≠ ModeCore ∧ y = pr_Subject spec))
    as Hp.
  { intros y. split; [destruct 1; naive_solver|]. intros [(?&?&?&?&->)|(?&?&?&?&?&->)]; econstructor; eauto. }
  rewrite Hp. clear Hp.
  destruct (a_HTTP (r_Action r)) as [a|]; [|split; [done|]; rewrite H1; naive_solver].
  destruct (ha_PublishResponse a) as [spec|] eqn:Es; [|split; [done|]; rewrite H1; naive_solver].
  rewrite Hc. destruct (String.eqb_spec globalMode ModeCore); cbn; [split; [done|]; rewrite H1; naive_solver|].
  destruct (add_subject_spec l1 (pr_Subject spec) x Hl1) as [? ->]. rewrite H1. naive_solver.
Qed.

(** The subjects checked against the streams are exactly the static subjects
    the rules publish over JetStream, each once: those of NATS actions that are
    not requests and whose own mode, or else the global one, is not core, and
    those HTTP responses are published to when the global mode is not core;
    empty and templated subjects are left out. *)
Theorem jetStreamActionSubjects_correct rules globalMode :
  NoDup (jetStreamActionSubjects rules globalMode) ∧
  ∀ s, s ∈ jetStreamActionSubjects rules globalMode ↔
    static_subject s ∧ ∃ r, Some r ∈ rules ∧ publishes globalMode r s.
Proof.
  unfold jetStreamActionSubjects.
  assert (∀ l, NoDup l → NoDup (foldl (add_entry globalMode) l rules) ∧
    ∀ s, s ∈ foldl (add_entry globalMode) l rules ↔
      s ∈ l ∨ (static_subject s ∧ ∃ r, Some r ∈ rules ∧ publishes globalMode r s)) as H.
  { induction rules as [|[r|] rules IH]; intros l Hl; cbn [foldl].
    - split; [done|]. set_solver.
    - cbn [add_entry]. destruct (IH (add_rule globalMode l r)) as [Hnd Hin]; [by apply (add_rule_spec _ _ _ "")|].
      split; [done|]. intros s. rewrite Hin, (proj2 (add_rule_spec _ _ _ s Hl)). set_solver.
    - destruct (IH l Hl) as [Hnd Hin]. split; [done|]. intros s. cbn [add_entry]. rewrite Hin. set_solver. }
  destruct (H [] (NoDup_nil_2)) as [Hnd Hin]. split; [done|]. intros s. rewrite Hin. set_solver.
Qed.

(** ** Witnesses *)

(** Merge sort is such a sort. *)
Lemma strict_weak_total {A} (lt : A → A → bool) : strict_weak lt → Total (λ a b, lt b a = false).
Proof.
  intros [Hi Ht _] a b. destruct (lt b a) eqn:E; [|by left]. right.
  apply not_true_iff_false. intros E'. pose proof (Ht a b a E' E). pose proof (Hi a). congruence.
Qed.

#[export] Instance lt_dec {A} (lt : A → A → bool) : RelDecision (λ a b, lt b a = false).
Proof. intros a b. apply _. Defined.

#[export, refine] Instance merge_SortSlice : SortSlice := {|
  sort_Slice A lt l := merge_sort (λ a b, lt b a = false) l;
|}.
Proof.
  - intros A lt l. apply merge_sort_Permutation.
  - intros A lt l Hlt. apply Sorted_StronglySorted.
    + intros a b c Hab Hbc. by apply (sw_incomparable _ Hlt c b a).
    + apply Sorted_merge_sort. by apply strict_weak_total.
Defined.

Definition demo_resolver : StreamResolver :=
  (Discover NewStreamResolver
    ([MkStreamConfig "ALL" [">"] FileStorage None [];
      MkStreamConfig "SENSORS" ["sensors.*"] FileStorage None [];
      MkStreamConfig "FAST" [] MemoryStorage (Some "sensors.*") [];
      MkStreamConfig "KV_x" [] FileStorage None ["sensors.>"; ""]], false)).2.

Lemma FindStreamForSubject_correct_witness :
  FindStreamForSubject demo_resolver "sensors.a" = Ok "FAST" ∧
  ∃ stream m, stream ∈ sr_streams demo_resolver ∧ captures "sensors.a" stream m ∧ "FAST" = si_Name stream ∧
    ∀ stream' m', stream' ∈ sr_streams demo_resolver → captures "sensors.a" stream' m' → ¬ outranks m' m.
Proof.
  split; [vm_compute; reflexivity|].
  apply (FindStreamForSubject_correct demo_resolver "sensors.a"). vm_compute. reflexivity.
Defined.

Lemma validations_correct_witness :
  (ValidateSubjects demo_resolver ["a.b"; "sensors.x"] = Ok tt ↔
   ∀ subject, subject ∈ ["a.b"; "sensors.x"] → captured demo_resolver subject) ∧
  ValidateSubjects demo_resolver ["a.b"; "sensors.x"] = Ok tt.
Proof.
  split; [|vm_compute; reflexivity].
  apply (validations_correct demo_resolver ["a.b"; "sensors.x"] []). reflexivity.
Defined.

Lemma matchPattern_agrees_witness :
  ∃ pm, NewPatternMatcher "sensors.*.>" = Ok pm ∧
    matchPattern "sensors.a.b.c" "sensors.*.>" = Match pm "sensors.a.b.c".
Proof.
  eexists. split; [reflexivity|]. apply matchPattern_agrees; [reflexivity|].
  by destruct (decide ("" ∈ Split "." "sensors.a.b.c")) as [H|H]; [vm_compute in H; set_solver|].
Defined.

Lemma exact_filter_preferred_witness :
  (calculateSpecificity "a.b.c.>" < calculateSpecificity "a.b.c.d.e.f.g.h.i.j.k")%Z.
Proof.
  apply exact_filter_preferred; [reflexivity|cbn; lia| |discriminate|reflexivity].
  apply (validate_tokens_Ok _ tt). reflexivity.
Defined.
