(* ===== verification/Net.v ===== *)
(** * The network around the sites that carry out actions

    Contexts, timers, random jitter, the HTTP client's transport and the NATS
    connection are parameters ([Net]); a monad threads their world and logs what
    left the process.  Errors are trees, as [fmt.Errorf("%w")] and [errors.Join]
    build them, searched as [errors.As] does. *)

From S2P Require Import Prelude GoStrings GoTime Types.
Local Open Scope string_scope.

(** ** Messages *)

(** [http.Request] and [http.Response]; a header has one value, set by [Set].
    The body of a response is what reading it gives before an error. *)
Record http_request := MkRequest {
  rq_Method : string; rq_URL : string; rq_Header : gmap string string; rq_Body : string;
}.
Record http_response := MkResponse { rs_StatusCode : Z; rs_Body : string }.

(** [nats.Msg], and what becomes of a message published to JetStream. *)
Record nats_msg := MkMsg { nm_Subject : string; nm_Reply : string; nm_Header : gmap string string; nm_Data : string }.
Inductive pub_ack := AckOk | AckNoResponders | AckErr | AckTimeout.

(** What a NATS request comes to: a reply, or one of the errors told apart. *)
Inductive bridge_reply := BrReply (msg : nats_msg) | BrNoResponders | BrTimeout | BrFailed.

(** What is done to a message received from JetStream. *)
Inductive settlement := Acked | Naked | Termed.

(** ** The environment *)

Class Net := {
  NWorld : Type;
  (** [context.Context]: [context.Background()], [context.WithTimeout] at the
      present time, and whether [ctx.Err()] is not nil *)
  GoContext : Type;
  context_Background : GoContext;
  context_WithTimeout : GoContext → Z → NWorld → GoContext;
  ctx_Done : GoContext → NWorld → bool;
  (** a [select] on [ctx.Done()] and [time.After(d)]: true when the first wins *)
  select_After : GoContext → Z → NWorld → bool * NWorld;
  (** [time.Now()] in nanoseconds, [rand.Intn(n)] *)
  net_Now : NWorld → Z;
  rand_Intn : Z → NWorld → Z * NWorld;
  (** [url.Parse] succeeds *)
  url_Parse : string → bool;
  (** the order in which [range] visits the entries of a map *)
  range_order : ∀ {A : Type}, list A → NWorld → list A * NWorld;
  range_order_perm : ∀ {A : Type} (l : list A) w, (range_order l w).1 ≡ₚ l;
  (** [client.Do]: [None] is any error *)
  client_Do : GoContext → http_request → NWorld → option http_response * NWorld;
  (** [nats.Conn.PublishMsg]/[Publish], and [RespondMsg]: success *)
  conn_Publish : nats_msg → NWorld → bool * NWorld;
  (** [nats.Conn.RequestMsgWithContext] *)
  conn_Request : GoContext → nats_msg → NWorld → bridge_reply * NWorld;
  (** [js.PublishMsgAsync]: success, and then the fate of the message *)
  js_PublishMsgAsync : nats_msg → NWorld → bool * NWorld;
  js_Ack : GoContext → nats_msg → NWorld → pub_ack * NWorld;
  (** [Ack], [Nak], [Term] on a received message: success *)
  msg_Settle : settlement → NWorld → bool * NWorld;
  (** [QueueSubscribe] on the subject and queue group, [Subscribe] when that is
      empty: success *)
  conn_Subscribe : string → string → NWorld → bool * NWorld;
  (** [CreateOrUpdateConsumer] with this durable name and filter on a stream;
      [Stream] and then [Consumer]; [Consumer.Messages]: success *)
  js_CreateConsumer : string → string → string → NWorld → bool * NWorld;
  js_Consumer : string → string → NWorld → bool * NWorld;
  consumer_Messages : string → string → NWorld → bool * NWorld;
}.

(** What left the process, oldest first. *)
Inductive net_event :=
| EvRequest (req : http_request) (resp : option http_response)
| EvPublish (mode : string) (msg : nats_msg) (ok : bool)
| EvRespond (msg : nats_msg) (ok : bool)
| EvBridge (msg : nats_msg) (reply : bridge_reply)
| EvInbound (route method : string) (status : Z)      (* a request counted by the gateway's metric *)
| EvWait (d : Z)
| EvSettle (s : settlement)
| EvStore (key token : string) (ok : bool)             (* a token put into its bucket *)
| EvSubscribe (subject queue : string) (ok : bool)
| EvUnsubscribe (subject : string)
| EvConsumer (stream name filter : string) (ok : bool)
| EvStart (subject : string)
| EvStop (subject : string).

(** ** The monad *)

Section monad.
Context `{Net}.

Record NSt := MkNSt { n_world : NWorld; n_log : list net_event }.

Definition NM (A : Type) : Type := NSt → A * NSt.

#[export] Instance NM_ret : MRet NM := λ A a st, (a, st).
#[export] Instance NM_bind : MBind NM := λ A B f m st, let '(a, st') := m st in f a st'.

Definition getN : NM NWorld := λ st, (n_world st, st).
Definition with_world {A} (f : NWorld → A * NWorld) : NM A := λ st,
  let '(a, w) := f (n_world st) in (a, MkNSt w (n_log st)).
Definition emit_event (e : net_event) : NM unit := λ st, (tt, MkNSt (n_world st) (n_log st ++ [e])%list).

(** ** Traces

    [yields m P]: whatever the state, [m] appends events to the log, and they
    and its result satisfy [P]. *)

Definition yields {A} (m : NM A) (P : A → list net_event → Prop) : Prop :=
  ∀ st, ∃ evs, n_log (m st).2 = (n_log st ++ evs)%list ∧ P (m st).1 evs.

Lemma yields_ret {A} (a : A) P : P a [] → yields (mret a) P.
Proof. intros Hp st. exists []. by rewrite app_nil_r. Qed.

Lemma yields_bind {A B} (m : NM A) (f : A → NM B) P Q :
  yields m P → (∀ a evs, P a evs → yields (f a) (λ b evs', Q b (evs ++ evs')%list)) → yields (m ≫= f) Q.
Proof.
  intros Hm Hf st. destruct (Hm st) as (evs & Hl & Hp). unfold mbind, NM_bind.
  destruct (m st) as [a st']. cbn in Hl, Hp. destruct (Hf a evs Hp st') as (evs' & Hl' & Hq).
  exists (evs ++ evs')%list. by rewrite Hl', Hl, app_assoc.
Qed.

Lemma yields_weaken {A} (m : NM A) (P Q : A → list net_event → Prop) :
  yields m P → (∀ a evs, P a evs → Q a evs) → yields m Q.
Proof. intros Hm HPQ st. destruct (Hm st) as (evs & ? & ?). eauto. Qed.

Lemma yields_conj {A} (m : NM A) (P Q : A → list net_event → Prop) :
  yields m P → yields m Q → yields m (λ a evs, P a evs ∧ Q a evs).
Proof.
  intros HP HQ st. destruct (HP st) as (evs & Hl & ?), (HQ st) as (evs' & Hl' & ?).
  exists evs. split; [done|]. rewrite Hl in Hl'. by apply app_inv_head in Hl' as <-.
Qed.

Lemma yields_world {A} (f : NWorld → A * NWorld) (P : A → Prop) :
  (∀ w, P (f w).1) → yields (with_world f) (λ a evs, P a ∧ evs = []).
Proof.
  intros Hp st. exists []. unfold with_world. specialize (Hp (n_world st)).
  destruct (f (n_world st)). cbn in *. by rewrite app_nil_r.
Qed.

Lemma yields_get : yields getN (λ _ evs, evs = []).
Proof. intros st. exists []. by rewrite app_nil_r. Qed.

Lemma yields_emit e : yields (emit_event e) (λ _ evs, evs = [e]).
Proof. intros st. by exists [e]. Qed.

(** [runs w m P]: the same from a world, for what also depends on it and on the
    world it leaves. *)
Definition runs {A} (w : NWorld) (m : NM A) (P : A → list net_event → NWorld → Prop) : Prop :=
  ∀ st, n_world st = w → ∃ evs, n_log (m st).2 = (n_log st ++ evs)%list ∧ P (m st).1 evs (n_world (m st).2).

Lemma runs_ret {A} w (a : A) (P : A → list net_event → NWorld → Prop) : P a [] w → runs w (mret a) P.
Proof. intros Hp st <-. exists []. by rewrite app_nil_r. Qed.

Lemma runs_bind {A B} w (m : NM A) (f : A → NM B) P Q :
  runs w m P → (∀ a evs w', P a evs w' → runs w' (f a) (λ b evs' w'', Q b (evs ++ evs')%list w'')) →
  runs w (m ≫= f) Q.
Proof.
  intros Hm Hf st Hw. destruct (Hm st Hw) as (evs & Hl & Hp). unfold mbind, NM_bind.
  destruct (m st) as [a st']. cbn in Hl, Hp. destruct (Hf _ _ _ Hp st' eq_refl) as (evs' & Hl' & Hq).
  exists (evs ++ evs')%list. by rewrite Hl', Hl, app_assoc.
Qed.

Lemma runs_weaken {A} w (m : NM A) (P Q : A → list net_event → NWorld → Prop) :
  runs w m P → (∀ a evs w', P a evs w' → Q a evs w') → runs w m Q.
Proof. intros Hm HPQ st Hw. destruct (Hm st Hw) as (evs & ? & ?). eauto. Qed.

Lemma runs_world {A} w (f : NWorld → A * NWorld) a w' (P : A → list net_event → NWorld → Prop) :
  f w = (a, w') → P a [] w' → runs w (with_world f) P.
Proof. intros Hf Hp st <-. exists []. unfold with_world. rewrite Hf. cbn. by rewrite app_nil_r. Qed.

Lemma runs_get w (P : NWorld → list net_event → NWorld → Prop) : P w [] w → runs w getN P.
Proof. intros Hp st <-. exists []. by rewrite app_nil_r. Qed.

Lemma runs_emit w e (P : unit → list net_event → NWorld → Prop) : P tt [e] w → runs w (emit_event e) P.
Proof. intros Hp st <-. by exists [e]. Qed.

Lemma runs_yields {A} (m : NM A) (P : NWorld → A → list net_event → NWorld → Prop) (Q : A → list net_event → Prop) :
  (∀ w, runs w m (P w)) → (∀ w a evs w', P w a evs w' → Q a evs) → yields m Q.
Proof. intros Hm HPQ st. destruct (Hm (n_world st) st eq_refl) as (evs & ? & ?). eauto. Qed.
End monad.

Arguments NSt : clear implicits.
Arguments NSt {_}.

(** ** Errors *)

Inductive leaf :=
| NoError                               (* an absent error, wrapped all the same *)
| ContextDone
| InvalidMethod (method : string) | InvalidURL (url : string)
| TransportFailed
| SendFailed | AckFailed | NoStream (subject : string) | AckTimedOut
| CorePublishFailed
| EngineFailed.

Inductive wrapping :=
| RequestFailed | CreateFailed | AttemptsFailed (attempts : Z) | CancelledRetry
| PublishAttemptsFailed (attempts : Z) (mode : string) | PublishCancelled
| ProcessingFailed | NATSActionFailed | HTTPActionFailed.

Inductive error :=
| Leaf (l : leaf)
| StatusError (code : Z)
| Wrap (w : wrapping) (e : error)
| TerminalError (e : error)
| Joined (es : list error).

(** [errors.As]: the first error of the tree, depth first, that [p] accepts. *)
Fixpoint errors_As {A} (p : error → option A) (e : error) : option A :=
  match p e with
  | Some a => Some a
  | None =>
      match e with
      | Leaf _ | StatusError _ => None
      | Wrap _ e' | TerminalError e' => errors_As p e'
      | Joined es =>
          (fix go (l : list error) := match l with
           | [] => None
           | e' :: l' => match errors_As p e' with Some a => Some a | None => go l' end
           end) es
      end
  end.

Definition as_status (e : error) : option Z := match e with StatusError c => Some c | _ => None end.
Definition as_terminal (e : error) : option error := match e with TerminalError e' => Some e' | _ => None end.

(** An error that no action of a site marks terminal. *)
Fixpoint plain (e : error) : Prop :=
  match e with Leaf _ | StatusError _ => True | Wrap _ e' => plain e' | TerminalError _ | Joined _ => False end.

Lemma plain_not_terminal e : plain e → errors_As as_terminal e = None.
Proof. by induction e. Qed.

(** Events of carrying out an action: requests, publications and waits. *)
Definition quiet (ev : net_event) : Prop :=
  match ev with EvRequest _ _ | EvPublish _ _ _ | EvWait _ => True | _ => False end.

Lemma errors_As_wrap {A} (p : error → option A) w e :
  p (Wrap w e) = None → errors_As p (Wrap w e) = errors_As p e.
Proof. intros Hp. cbn [errors_As]. by rewrite Hp. Qed.

Lemma errors_As_joined {A} (p : error → option A) es :
  p (Joined es) = None →
  (errors_As p (Joined es) = None ↔ ∀ e, e ∈ es → errors_As p e = None).
Proof.
  intros Hp. cbn [errors_As]. rewrite Hp. clear Hp.
  induction es as [|e es IH]; [split; [set_solver|done]|].
  destruct (errors_As p e) eqn:E.
  - split; [done|]. intros Hall. rewrite <- E. apply Hall. set_solver.
  - rewrite IH. set_solver.
Qed.

(** ** A concrete network

    The requests are answered by a list of replies, everything else succeeds,
    a wait takes its time and contexts end at a deadline. *)

Record script := MkScript { sp_now : Z; sp_replies : list (option http_response) }.

Definition demo_net : Net := {|
  NWorld := script;
  GoContext := option Z;
  context_Background := None;
  context_WithTimeout := λ ctx d w,
    let t := (sp_now w + d)%Z in Some (match ctx with Some t' => Z.min t t' | None => t end);
  ctx_Done := λ ctx w, match ctx with Some t => (t <=? sp_now w)%Z | None => false end;
  select_After := λ ctx d w,
    let t := (sp_now w + Z.max 0 d)%Z in
    match ctx with
    | Some t' => if (t' <? t)%Z then (true, MkScript t' (sp_replies w)) else (false, MkScript t (sp_replies w))
    | None => (false, MkScript t (sp_replies w))
    end;
  net_Now := sp_now;
  rand_Intn := λ n w, (0%Z, w);
  url_Parse := λ u, negb (HasPrefix u ":");
  range_order := λ A l w, (l, w);
  range_order_perm := λ A l w, Permutation_refl _;
  client_Do := λ _ _ w,
    match sp_replies w with
    | r :: l => (r, MkScript (sp_now w) l)
    | [] => (None, w)
    end;
  conn_Publish := λ _ w, (true, w);
  conn_Request := λ _ msg w, (BrReply msg, w);
  js_PublishMsgAsync := λ _ w, (true, w);
  js_Ack := λ _ _ w, (AckOk, w);
  msg_Settle := λ _ w, (true, w);
  conn_Subscribe := λ _ _ w, (true, w);
  js_CreateConsumer := λ _ _ _ w, (true, w);
  js_Consumer := λ _ _ w, (true, w);
  consumer_Messages := λ _ _ w, (true, w);
|}.

Definition demo_net_start (replies : list (option http_response)) : @NSt demo_net :=
  @MkNSt demo_net (MkScript 0 replies : @NWorld demo_net) [].
