(* ===== verification/Watch.v ===== *)
(** * Watchers that heal themselves (internal/broker/rule_kv_manager.go, nats.go)

    The rules' bucket and the cached buckets are watched by the same loop:
    updates are taken until the channel closes, and then, unless the context is
    done, the watcher is created again after a growing delay.  What an update
    does is a parameter. *)

From S2P Require Import Prelude GoTime.
Local Open Scope Z_scope.

Definition kvWatchRetryBaseDelay : Z := 500 * Millisecond.
Definition kvWatchRetryMaxDelay : Z := 30 * Second.
Definition nextKVWatchBackoff (d : Z) : Z :=
  let d := wrap64 (d * 2) in if kvWatchRetryMaxDelay <? d then kvWatchRetryMaxDelay else d.

(** ** What the loop meets *)

(** A watcher: what its channel gives, [None] being the end of the initial
    values, and whether the context is done when it gives no more. *)
Record session (E : Type) := MkSession { se_updates : list (option E); se_cancelled : bool }.
Arguments MkSession {E}.
Arguments se_updates {E}.
Arguments se_cancelled {E}.

(** An attempt to create a watcher again: the context ends during the wait, the
    creation fails, it succeeds but the context has ended, or it succeeds. *)
Inductive attempt (E : Type) := CancelledWaiting | OpenFails | OpenedTooLate | Opened (s : session E).
Arguments CancelledWaiting {E}.
Arguments OpenFails {E}.
Arguments OpenedTooLate {E}.
Arguments Opened {E}.

(** What the loop does besides the updates. *)
Inductive watch_event := Waited (d : Z) | Discarded.

(** Where it is when nothing more happens: waiting for the next attempt, or gone. *)
Inductive watch_end := Retrying (backoff : Z) | Exited.

Section watch.
Context {S E : Type} (handle : S → E → S).

(** [consumeUpdates]: the state, whether the initial values are complete. *)
Fixpoint consume_updates (st : S) (ready : bool) (updates : list (option E)) : S * bool :=
  match updates with
  | [] => (st, ready)
  | None :: rest => consume_updates st true rest
  | Some e :: rest => consume_updates (handle st e) ready rest
  end.

(** [runWatch], from the close of a watcher on. *)
Fixpoint reestablish (st : S) (ready : bool) (backoff : Z) (attempts : list (attempt E))
    : S * bool * list watch_event * watch_end :=
  match attempts with
  | [] => (st, ready, [], Retrying backoff)
  | CancelledWaiting :: _ => (st, ready, [], Exited)
  | OpenFails :: rest =>
      let '(st, ready, evs, fin) := reestablish st ready (nextKVWatchBackoff backoff) rest in
      (st, ready, Waited backoff :: evs, fin)
  | OpenedTooLate :: _ => (st, ready, [Waited backoff; Discarded], Exited)
  | Opened s :: rest =>
      let '(st, ready) := consume_updates st ready (se_updates s) in
      if se_cancelled s then (st, ready, [Waited backoff], Exited)
      else
        let '(st, ready, evs, fin) := reestablish st ready kvWatchRetryBaseDelay rest in
        (st, ready, Waited backoff :: evs, fin)
  end.

Definition runWatch (st : S) (first : session E) (attempts : list (attempt E)) : S * bool * list watch_event * watch_end :=
  let '(st, ready) := consume_updates st false (se_updates first) in
  if se_cancelled first then (st, ready, [], Exited)
  else reestablish st ready kvWatchRetryBaseDelay attempts.

(** ** Specification *)

(** The updates a run sees. *)
Fixpoint delivered (attempts : list (attempt E)) : list (option E) :=
  match attempts with
  | [] | CancelledWaiting :: _ | OpenedTooLate :: _ => []
  | OpenFails :: rest => delivered rest
  | Opened s :: rest => (se_updates s ++ if se_cancelled s then [] else delivered rest)%list
  end.
Definition all_delivered (first : session E) (attempts : list (attempt E)) : list (option E) :=
  (se_updates first ++ if se_cancelled first then [] else delivered attempts)%list.

(** The waits before the attempts: after [n] failures in a row, the base delay
    doubled [n] times, at most the maximum. *)
Definition wait_after (n : nat) : Z := Z.min (kvWatchRetryBaseDelay * 2 ^ Z.of_nat n) kvWatchRetryMaxDelay.
Fixpoint waits_of (failures : nat) (attempts : list (attempt E)) : list Z :=
  match attempts with
  | [] | CancelledWaiting :: _ => []
  | OpenFails :: rest => wait_after failures :: waits_of (Datatypes.S failures) rest
  | OpenedTooLate :: _ => [wait_after failures]
  | Opened s :: rest => wait_after failures :: if se_cancelled s then [] else waits_of 0 rest
  end.
Definition waited (evs : list watch_event) : list Z :=
  omap (λ ev, match ev with Waited d => Some d | Discarded => None end) evs.

(** The loop ends only with its context. *)
Definition ends (a : attempt E) : bool :=
  match a with CancelledWaiting | OpenedTooLate => true | OpenFails => false | Opened s => se_cancelled s end.

(** ** Lemmas *)

Lemma nextKVWatchBackoff_bounded d : 0 < d ≤ kvWatchRetryMaxDelay →
  nextKVWatchBackoff d = Z.min (2 * d) kvWatchRetryMaxDelay.
Proof.
  intros Hd. unfold nextKVWatchBackoff. rewrite wrap64_id; [case_match eqn:Hc; lia|].
  apply in_int64_spec. unfold kvWatchRetryMaxDelay, int64_min, int64_max, Second in *. lia.
Qed.

Lemma wait_after_bounds n : kvWatchRetryBaseDelay ≤ wait_after n ≤ kvWatchRetryMaxDelay.
Proof.
  unfold wait_after. assert (0 < 2 ^ Z.of_nat n) by (apply Z.pow_pos_nonneg; lia).
  unfold kvWatchRetryBaseDelay, kvWatchRetryMaxDelay, Millisecond, Second in *. nia.
Qed.

Lemma wait_after_next n : nextKVWatchBackoff (wait_after n) = wait_after (Datatypes.S n).
Proof.
  pose proof (wait_after_bounds n) as Hb. rewrite nextKVWatchBackoff_bounded.
  2: { unfold kvWatchRetryBaseDelay, Millisecond in *. lia. }
  unfold wait_after. rewrite Nat2Z.inj_succ, Z.pow_succ_r by lia.
  unfold kvWatchRetryBaseDelay, kvWatchRetryMaxDelay, Millisecond, Second in *. lia.
Qed.

Definition is_sentinel (u : option E) : bool := match u with None => true | Some _ => false end.

Lemma consume_updates_spec st ready updates :
  consume_updates st ready updates = (foldl handle st (omap id updates), ready || existsb is_sentinel updates).
Proof.
  revert st ready. induction updates as [|[e|] rest IH]; intros st ready; cbn [consume_updates].
  - cbn. by rewrite orb_false_r.
  - by rewrite IH.
  - rewrite IH. cbn. by rewrite orb_true_r.
Qed.

Lemma reestablish_spec st ready n attempts :
  let '(st', ready', evs, fin) := reestablish st ready (wait_after n) attempts in
  st' = foldl handle st (omap id (delivered attempts)) ∧
  ready' = ready || existsb is_sentinel (delivered attempts) ∧
  waited evs = waits_of n attempts ∧
  (fin = Exited ↔ existsb ends attempts = true).
Proof.
  revert st ready n. induction attempts as [|a rest IH]; intros st ready n; cbn [reestablish].
  { cbn. by rewrite orb_false_r. }
  destruct a as [| | |s]; cbn [delivered waits_of existsb ends orb].
  - cbn. by rewrite orb_false_r.
  - rewrite wait_after_next. specialize (IH st ready (Datatypes.S n)).
    destruct (reestablish _ _ _ rest) as [[[st' ready'] evs] fin]. destruct IH as (-> & -> & Hw & Hf).
    split_and!; [done|done|unfold waited; cbn; by f_equal|done].
  - cbn. by rewrite orb_false_r.
  - rewrite consume_updates_spec. destruct (se_cancelled s); cbn [orb].
    { by rewrite app_nil_r. }
    specialize (IH (foldl handle st (omap id (se_updates s))) (ready || existsb is_sentinel (se_updates s)) 0%nat).
    change (wait_after 0) with kvWatchRetryBaseDelay in IH.
    destruct (reestablish _ _ _ rest) as [[[st' ready'] evs] fin]. destruct IH as (-> & -> & Hw & Hf).
    rewrite omap_app, foldl_app, existsb_app, orb_assoc. split_and!; [done|done|unfold waited; cbn; by f_equal|done].
Qed.

Lemma runWatch_spec st first attempts :
  let '(st', ready, evs, fin) := runWatch st first attempts in
  st' = foldl handle st (omap id (all_delivered first attempts)) ∧
  ready = existsb is_sentinel (all_delivered first attempts) ∧
  waited evs = (if se_cancelled first then [] else waits_of 0 attempts) ∧
  Forall (λ d, kvWatchRetryBaseDelay ≤ d ≤ kvWatchRetryMaxDelay) (waited evs) ∧
  (fin = Exited ↔ se_cancelled first = true ∨ existsb ends attempts = true).
Proof.
  unfold runWatch, all_delivered. rewrite consume_updates_spec. cbn [orb].
  destruct (se_cancelled first).
  { rewrite app_nil_r. split_and!; [done..|constructor|]. naive_solver. }
  pose proof (reestablish_spec (foldl handle st (omap id (se_updates first))) (existsb is_sentinel (se_updates first)) 0 attempts) as Hr.
  change (wait_after 0) with kvWatchRetryBaseDelay in Hr.
  destruct (reestablish _ _ _ attempts) as [[[st' ready'] evs] fin]. destruct Hr as (-> & -> & Hw & Hf).
  rewrite omap_app, foldl_app, existsb_app. split_and!; [done|done|done| |naive_solver].
  rewrite Hw. clear. generalize 0%nat. induction attempts as [|[| | |s] rest IH]; intros n; cbn [waits_of];
    repeat constructor; try apply wait_after_bounds; [apply IH|]. destruct (se_cancelled s); [constructor|apply IH].
Qed.

(** ** Properties *)

(** C25: Whatever becomes of its watchers, the loop applies every update they
    delivered, each once and in order; it reports the initial values complete
    when some watcher said so; before each attempt it waits at least the base
    delay, doubled with every failure in a row up to the maximum, and the base
    delay again after a success, so it never spins; and it ends exactly when
    its context does. *)
Theorem runWatch_correct st first attempts :
  let '(st', ready, evs, fin) := runWatch st first attempts in
  st' = foldl handle st (omap id (all_delivered first attempts)) ∧
  ready = existsb is_sentinel (all_delivered first attempts) ∧
  waited evs = (if se_cancelled first then [] else waits_of 0 attempts) ∧
  Forall (λ d, kvWatchRetryBaseDelay ≤ d ≤ kvWatchRetryMaxDelay) (waited evs) ∧
  (fin = Exited ↔ se_cancelled first = true ∨ existsb ends attempts = true).
Proof. apply runWatch_spec. Qed.
End watch.
