(* ===== verification/HttpClient.v ===== *)
(** * Outbound HTTP actions (internal/httpclient/httpclient.go)

    One request, and the loop that repeats it with a growing delay.  The
    response of a successful request may be published; who publishes is an
    interface, with the law its clients use. *)

From S2P Require Import Prelude GoStrings GoTime Value Types Net.
Local Open Scope string_scope.
Local Open Scope Z_scope.

Definition MaxResponseSize : Z := 1024 * 1024.
Definition retryInitialDelay : Z := 1 * Second.
Definition retryMaxDelay : Z := 30 * Second.
Definition retryMaxJitter : Z := 100 * Millisecond.

(** [StatusError.Permanent] *)
Definition Permanent (code : Z) : bool :=
  if (code =? 408) || (code =? 429) then false else (400 <=? code) && (code <? 500).

(** The wait before the attempt after [attempt]; [1<<n] is an [int64], and so
    is the product. *)
Definition shift_left_1 (n : Z) : Z := wrap64 (Z.shiftl 1 n).
Definition backoff (initialDelay maxDelay attempt : Z) : Z :=
  let delay := wrap64 (initialDelay * shift_left_1 (attempt - 1)) in
  if maxDelay <? delay then maxDelay else delay.

(** [io.LimitReader] *)
Fixpoint limit_read (n : Z) (s : string) : string :=
  match s with
  | String c t => if n <=? 0 then "" else String c (limit_read (n - 1) t)
  | "" => ""
  end.

(** [http.NewRequest]: the method is a token, [GET] when empty. *)
Definition request_method (m : string) : string := if String.eqb m "" then "GET" else m.

(** [req.Header.Set] in the order of the headers, and the default type. *)
Definition Set_header (h : gmap string string) (kv : string * string) : gmap string string :=
  <[CanonicalMIMEHeaderKey kv.1 := kv.2]> h.
Definition set_headers (headers : list (string * string)) : gmap string string := foldl Set_header ∅ headers.
Definition contentType : string := "Content-Type".
Definition default_content_type (h : gmap string string) : gmap string string :=
  if String.eqb (default "" (h !! contentType)) "" then <[contentType := "application/json"]> h else h.

Section executor.
Context `{Net}.

(** [ResponsePublisher]: all it emits is attempts to publish one message, and it
    succeeds only when one of them did. *)
Definition attempts_to_publish (subject body : string) (r : result error unit) (evs : list net_event) : Prop :=
  Forall (λ e, match e with
    | EvWait _ => True
    | EvPublish _ m _ => nm_Subject m = subject ∧ nm_Data m = body ∧ nm_Reply m = ""
    | _ => False
    end) evs ∧
  (r = Ok tt → ∃ mode m, EvPublish mode m true ∈ evs).

Class ResponsePublisher := {
  rp_Publish : GoContext → NATSAction → NM (result error unit);
  rp_publishes : ∀ ctx a, na_Passthrough a = true →
    yields (rp_Publish ctx a) (attempts_to_publish (na_Subject a) (na_RawPayload a));
}.

(** [Executor]: its client is the network's. *)
Record Executor := MkExecutor { ex_publisher : option ResponsePublisher }.

Definition response_action (spec : PublishResponseSpec) (responseBody : string) : NATSAction :=
  MkNATSAction (pr_Subject spec) "" "" true false ∅ responseBody false "" "" None None None None.

Definition publish_response (e : Executor) (ctx : GoContext) (action : HTTPAction) (responseBody : string) : NM unit :=
  match ha_PublishResponse action, ex_publisher e with
  | Some spec, Some p => _ ← @rp_Publish p ctx (response_action spec responseBody); mret tt
  | _, _ => mret tt
  end.

(** [http.NewRequestWithContext] and the headers. *)
Definition new_request (action : HTTPAction) : NM (result error http_request) :=
  let body := if ha_Passthrough action then ha_RawPayload action else ha_Payload action in
  let m := request_method (ha_Method action) in
  if negb (sforall header_byte m) then mret (Err (Wrap CreateFailed (Leaf (InvalidMethod m))))
  else if negb (url_Parse (ha_URL action)) then mret (Err (Wrap CreateFailed (Leaf (InvalidURL (ha_URL action)))))
  else
    headers ← with_world (range_order (map_to_list (ha_Headers action)));
    mret (Ok (MkRequest m (ha_URL action) (default_content_type (set_headers headers)) body)).

Definition makeHTTPRequest (e : Executor) (ctx : GoContext) (action : HTTPAction) : NM (result error unit) :=
  r ← new_request action;
  match r with
  | Err err => mret (Err err)
  | Ok req =>
      resp ← with_world (client_Do ctx req);
      _ ← emit_event (EvRequest req resp);
      match resp with
      | None => mret (Err (Wrap RequestFailed (Leaf TransportFailed)))
      | Some resp =>
          let responseBody := limit_read MaxResponseSize (rs_Body resp) in
          if (200 <=? rs_StatusCode resp) && (rs_StatusCode resp <? 300) then
            _ ← publish_response e ctx action responseBody; mret (Ok tt)
          else mret (Err (StatusError (rs_StatusCode resp)))
      end
  end.

(** The retry policy of an action: attempts, and the bounds of the delay. *)
Definition max_attempts (action : HTTPAction) : Z :=
  match ha_Retry action with
  | Some r => if 0 <? rc_MaxAttempts r then rc_MaxAttempts r else 1
  | None => 1
  end.
Definition initial_delay (action : HTTPAction) : Z :=
  default retryInitialDelay (r ← ha_Retry action; ParseDuration (rc_InitialDelay r)).
Definition max_delay (action : HTTPAction) : Z :=
  default retryMaxDelay (r ← ha_Retry action; ParseDuration (rc_MaxDelay r)).

(** The loop: [left] attempts are left, counting this one. *)
Fixpoint retry_loop (e : Executor) (ctx : GoContext) (action : HTTPAction) (maxAttempts : Z)
    (left : nat) (attempt : Z) (lastErr : error) : NM (result error unit) :=
  match left with
  | O => mret (Err (Wrap (AttemptsFailed attempt) lastErr))
  | S left' =>
      r ← makeHTTPRequest e ctx action;
      match r with
      | Ok _ => mret (Ok tt)
      | Err err =>
          if (attempt =? maxAttempts)
             || match errors_As as_status err with Some code => Permanent code | None => false end
          then mret (Err (Wrap (AttemptsFailed attempt) err))
          else
            jitter ← with_world (rand_Intn (retryMaxJitter / Millisecond));
            let delay := wrap64 (backoff (initial_delay action) (max_delay action) attempt
                                 + jitter * Millisecond) in
            _ ← emit_event (EvWait delay);
            cancelled ← with_world (select_After ctx delay);
            if (cancelled : bool) then mret (Err (Wrap CancelledRetry (Leaf ContextDone)))
            else retry_loop e ctx action maxAttempts left' (attempt + 1) err
      end
  end.

Definition ExecuteHTTPAction (e : Executor) (ctx : GoContext) (action : HTTPAction) : NM (result error unit) :=
  retry_loop e ctx action (max_attempts action) (Z.to_nat (max_attempts action)) 1 (Leaf NoError).
End executor.

(** ** Specification *)

(** What a request built from an action is. *)
Record describes (action : HTTPAction) (req : http_request) : Prop := {
  de_method : rq_Method req = request_method (ha_Method action);
  de_url : rq_URL req = ha_URL action;
  de_body : rq_Body req = if ha_Passthrough action then ha_RawPayload action else ha_Payload action;
  de_sent : ∀ k v, ha_Headers action !! k = Some v → is_Some (rq_Header req !! CanonicalMIMEHeaderKey k);
  de_from : ∀ k v, rq_Header req !! k = Some v →
    (k = contentType ∧ v = "application/json") ∨
    ∃ k', ha_Headers action !! k' = Some v ∧ CanonicalMIMEHeaderKey k' = k;
  de_type : ∃ v, rq_Header req !! contentType = Some v ∧ v ≠ "";
}.

Definition succeeded (resp : option http_response) : bool :=
  match resp with Some r => (200 <=? rs_StatusCode r) && (rs_StatusCode r <? 300) | None => false end.
Definition refused (resp : option http_response) : bool :=
  match resp with Some r => Permanent (rs_StatusCode r) | None => false end.

Definition exchanges (evs : list net_event) : list (http_request * option http_response) :=
  omap (λ e, match e with EvRequest req resp => Some (req, resp) | _ => None end) evs.
Definition publications (evs : list net_event) : list nats_msg :=
  omap (λ e, match e with EvPublish _ m _ => Some m | _ => None end) evs.

(** An error that a repetition of the same action would meet again. *)
Definition is_permanent_error (err : error) : bool :=
  match errors_As as_status err with Some code => Permanent code | None => false end.

Section specification.
Context `{Net}.

Definition request_ok (action : HTTPAction) : bool :=
  sforall header_byte (request_method (ha_Method action)) && url_Parse (ha_URL action).

(** What may be published after the last reply. *)
Definition published_ok (e : Executor) (action : HTTPAction) (resp : option http_response) (evs : list net_event) : Prop :=
  ∀ m, m ∈ publications evs → ∃ spec rs, ha_PublishResponse action = Some spec ∧ ex_publisher e ≠ None ∧
    resp = Some rs ∧ succeeded resp = true ∧
    nm_Subject m = pr_Subject spec ∧ nm_Data m = limit_read MaxResponseSize (rs_Body rs).

(** A run of an action: the requests and replies, the last of them [resp]. *)
Definition run_ok (e : Executor) (action : HTTPAction) (attempts : nat) (r : result error unit) (evs : list net_event) : Prop :=
  ∃ before resp, (exchanges evs).*2 = (before ++ [resp])%list ∧
    (length before < attempts)%nat ∧
    Forall (λ x, describes action x.1) (exchanges evs) ∧
    Forall (λ x, succeeded x = false ∧ refused x = false) before ∧
    (r = Ok tt ↔ succeeded resp = true) ∧
    (∀ err, r = Err err → is_permanent_error err = refused resp) ∧
    ((S (length before) < attempts)%nat → succeeded resp = false → refused resp = false →
       r = Err (Wrap CancelledRetry (Leaf ContextDone))) ∧
    published_ok e action resp evs.
End specification.

(** ** Lemmas *)

Lemma exchanges_app evs evs' : exchanges (evs ++ evs') = (exchanges evs ++ exchanges evs')%list.
Proof. apply omap_app. Qed.
Lemma publications_app evs evs' : publications (evs ++ evs') = (publications evs ++ publications evs')%list.
Proof. apply omap_app. Qed.

Lemma set_headers_from headers h k v :
  foldl Set_header h headers !! k = Some v →
  h !! k = Some v ∨ ∃ k', (k', v) ∈ headers ∧ CanonicalMIMEHeaderKey k' = k.
Proof.
  revert h. induction headers as [|[k0 v0] l IH]; intros h; cbn [foldl]; [by left|].
  intros [Hh|(k' & ? & ?)]%IH; [|right; set_solver]. unfold Set_header in Hh. cbn in Hh.
  apply lookup_insert_Some in Hh as [[<- <-]|[_ ?]]; [right; set_solver|by left].
Qed.

Lemma set_headers_sent headers h k :
  (is_Some (h !! k) ∨ ∃ k' v, (k', v) ∈ headers ∧ CanonicalMIMEHeaderKey k' = k) →
  is_Some (foldl Set_header h headers !! k).
Proof.
  revert h. induction headers as [|[k0 v0] l IH]; intros h; cbn [foldl].
  { intros [?|(? & ? & ?%not_elem_of_nil & _)]; done. }
  intros Hk. apply IH. unfold Set_header. cbn [fst snd]. destruct (decide (CanonicalMIMEHeaderKey k0 = k)) as [->|Hne].
  - left. by rewrite lookup_insert_eq.
  - rewrite lookup_insert_ne by done. destruct Hk as [?|(k' & v & [[= -> ->]|?]%elem_of_cons & ?)]; [by left|done|].
    right. eauto.
Qed.

Section lemmas.
Context `{Net}.
Implicit Types (action : HTTPAction) (e : Executor).

Lemma new_request_spec action :
  yields (new_request action) (λ r evs, evs = [] ∧
    if request_ok action then ∃ req, r = Ok req ∧ describes action req
    else ∃ l, r = Err (Wrap CreateFailed (Leaf l))).
Proof.
  unfold new_request, request_ok. destruct (sforall _ _); cbn [negb andb]; [|apply yields_ret; eauto].
  destruct (url_Parse _); cbn [negb]; [|apply yields_ret; eauto].
  eapply yields_bind; [apply (yields_world _ (λ l, l ≡ₚ map_to_list (ha_Headers action))), range_order_perm|].
  intros headers evs [Hp ->]. apply yields_ret. cbn [app]. split; [done|]. eexists. split; [done|].
  assert (∀ k v, (k, v) ∈ headers ↔ ha_Headers action !! k = Some v) as Hin.
  { intros k v. by rewrite Hp, elem_of_map_to_list. }
  unfold set_headers. split; cbn; try done; unfold default_content_type.
  - intros k v Hk. case_match; rewrite ?lookup_insert_is_Some'; [right|];
      apply set_headers_sent; right; exists k, v; by rewrite Hin.
  - intros k v Hk. destruct (String.eqb _ "") in Hk.
    1: apply lookup_insert_Some in Hk as [[<- <-]|[_ Hk]]; [by left|].
    all: apply set_headers_from in Hk as [Hk|(k' & ?%Hin & ?)]; [by rewrite lookup_empty in Hk|right; eauto].
  - destruct (String.eqb_spec (default "" (foldl Set_header ∅ headers !! contentType)) "")
      as [_|Hne]; [exists "application/json"; by rewrite lookup_insert_eq|].
    destruct (_ !! contentType) as [v|]; [by exists v|done].
Qed.

Lemma publish_response_spec e ctx action body :
  yields (publish_response e ctx action body) (λ _ evs, exchanges evs = [] ∧
    ∀ m, m ∈ publications evs → ∃ spec, ha_PublishResponse action = Some spec ∧ ex_publisher e ≠ None ∧
      nm_Subject m = pr_Subject spec ∧ nm_Data m = body).
Proof.
  unfold publish_response.
  destruct (ha_PublishResponse action) as [spec|]; [|apply yields_ret; set_solver].
  destruct (ex_publisher e) as [p|]; [|apply yields_ret; set_solver].
  eapply yields_bind; [by apply rp_publishes|]. intros r evs [Hevs _]. apply yields_ret. rewrite app_nil_r.
  cbn in Hevs. clear r. induction Hevs as [|ev evs Hev _ [IHx IHp]]; [cbn; split; [done|set_solver]|].
  destruct ev; try done; cbn.
  split; [done|]. intros m [->|?]%elem_of_cons; [|by apply IHp]. destruct Hev as (? & ? & ?). by exists spec.
Qed.

(** One request: what is sent, what the reply makes of it, and what follows. *)
Lemma makeHTTPRequest_spec e ctx action : request_ok action = true →
  yields (makeHTTPRequest e ctx action) (λ r evs, ∃ req resp, exchanges evs = [(req, resp)] ∧
    describes action req ∧ published_ok e action resp evs ∧
    match r with
    | Ok _ => succeeded resp = true
    | Err err => succeeded resp = false ∧ is_permanent_error err = refused resp
    end).
Proof.
  intros Hok. unfold makeHTTPRequest. eapply yields_bind; [apply new_request_spec|].
  rewrite Hok. intros ? ? [-> (req & -> & Hd)].
  eapply yields_bind; [apply (yields_world _ (λ _, True)); done|]. intros resp ? [_ ->].
  eapply yields_bind; [apply yields_emit|]. intros [] ? ->. cbn [app].
  destruct resp as [rs|].
  2: { apply yields_ret. exists req, None. split_and!; try done. intros m. cbn. set_solver. }
  destruct ((200 <=? rs_StatusCode rs) && (rs_StatusCode rs <? 300)) eqn:Hs.
  - eapply yields_bind; [apply publish_response_spec|]. intros [] evs [Hx Hp]. apply yields_ret.
    rewrite app_nil_r. exists req, (Some rs). change (exchanges (?ev :: ?l)) with ([(req, Some rs)] ++ exchanges l)%list. rewrite Hx. split_and!; try done.
    intros m Hm. destruct (Hp m Hm) as (spec & ? & ? & ? & ?). exists spec, rs. done.
  - apply yields_ret. exists req, (Some rs). cbn. split_and!; try done. intros m. set_solver.
Qed.

(** A failed attempt and what the rest of the loop does. *)
Lemma run_ok_more e action attempts r evs evs' req resp :
  exchanges evs = [(req, resp)] → describes action req → publications evs = [] →
  succeeded resp = false → refused resp = false →
  run_ok e action attempts r evs' → run_ok e action (S attempts) r (evs ++ evs').
Proof.
  intros Hx Hd Hp Hs Hr (before & last & Hl & Hlen & Hall & Hb & Hok & Herr & Hstop & Hpub).
  exists (resp :: before), last. rewrite exchanges_app, fmap_app, Hx, Hl. cbn. split_and!; try done.
  - lia.
  - by constructor.
  - by constructor.
  - intros ?. apply Hstop. lia.
  - intros m. rewrite publications_app, Hp. apply Hpub.
Qed.

(** The attempt that ends the loop. *)
Lemma run_ok_last e action attempts r evs req resp :
  exchanges evs = [(req, resp)] → describes action req → published_ok e action resp evs →
  (0 < attempts)%nat → (r = Ok tt ↔ succeeded resp = true) →
  (∀ err, r = Err err → is_permanent_error err = refused resp) →
  ((1 < attempts)%nat → succeeded resp = false → refused resp = false → r = Err (Wrap CancelledRetry (Leaf ContextDone))) →
  run_ok e action attempts r evs.
Proof. 
  intros Hx Hd Hp Ha Hok Herr Hstop. exists [], resp. rewrite Hx.
  split_and!; try done. by apply Forall_singleton.
Qed.

Lemma published_silent e action resp evs :
  published_ok e action resp evs → succeeded resp = false → publications evs = [].
Proof.
  intros Hp Hs. destruct (publications evs) as [|m l] eqn:E; [done|].
  destruct (Hp m) as (? & ? & ? & ? & ? & ? & _); [rewrite E; set_solver|congruence].
Qed.

Lemma retry_loop_spec e ctx action maxAttempts left attempt lastErr :
  request_ok action = true → attempt + Z.of_nat left = maxAttempts →
  yields (retry_loop e ctx action maxAttempts (S left) attempt lastErr) (run_ok e action (S left)).
Proof.
  intros Hok. revert attempt lastErr. induction left as [|left IH]; intros attempt lastErr Ha;
    cbn [retry_loop]; (eapply yields_bind; [by apply makeHTTPRequest_spec|]);
    intros r evs (req & resp & Hx & Hd & Hp & Hr);
    (destruct r as [[]|err]; [apply yields_ret; rewrite app_nil_r; eapply run_ok_last; (done || lia || by rewrite ?Hr)|]);
    destruct Hr as [Hs Hr]; fold (is_permanent_error err); rewrite Hr.
  { rewrite (proj2 (Z.eqb_eq attempt maxAttempts)) by lia. apply yields_ret. rewrite app_nil_r.
    eapply run_ok_last; [done..|lia|by rewrite Hs| |lia]. by intros ? [= <-]. }
  rewrite (proj2 (Z.eqb_neq attempt maxAttempts)) by lia. cbn [orb].
  destruct (refused resp) eqn:Href.
  { apply yields_ret. rewrite app_nil_r.
    eapply run_ok_last; [done..|lia|by rewrite Hs| |by rewrite Href]. intros ? [= <-]. by rewrite Href. }
  eapply yields_bind; [by apply (yields_world _ (λ _, True))|]. intros jitter ? [_ ->].
  eapply yields_bind; [apply yields_emit|]. intros [] ? ->.
  eapply yields_bind; [by apply (yields_world _ (λ _, True))|]. intros cancelled ? [_ ->]. cbn [app].
  pose proof (published_silent _ _ _ _ Hp Hs) as Hpub.
  destruct cancelled.
  - apply yields_ret. eapply run_ok_last.
    5: by rewrite Hs. 5: (intros ? [= <-]; by rewrite Href). 4: lia. 4: done.
    + rewrite exchanges_app, Hx. done.
    + done.
    + intros m. rewrite publications_app, Hpub. set_solver.
  - eapply yields_weaken; [apply (IH (attempt + 1) err); lia|]. intros r evs' Hrun.
    rewrite cons_middle, app_assoc. eapply run_ok_more; try done.
    + rewrite exchanges_app, Hx. done.
    + rewrite publications_app, Hpub. done.
Qed.
Lemma attempts_to_publish_quiet subject body r evs : attempts_to_publish subject body r evs → Forall quiet evs.
Proof. intros [Hf _]. eapply Forall_impl; [done|]. by intros []. Qed.

Lemma makeHTTPRequest_plain e ctx action :
  yields (makeHTTPRequest e ctx action) (λ r evs, Forall quiet evs ∧ ∀ err, r = Err err → plain err).
Proof.
  unfold makeHTTPRequest. eapply yields_bind; [apply new_request_spec|]. intros r evs [-> Hr].
  destruct r as [req|err].
  2: { apply yields_ret. split; [done|]. intros ? [= <-].
       destruct (request_ok action); [by destruct Hr as (? & ? & _)|by destruct Hr as (l & [= ->])]. }
  eapply yields_bind; [by apply (yields_world _ (λ _, True))|]. intros resp ? [_ ->].
  eapply yields_bind; [apply yields_emit|]. intros [] ? ->. cbn [app].
  assert (∀ r, (∀ err, r = Err err → plain err) →
    Forall quiet [EvRequest req resp] ∧ ∀ err, r = @Err error unit err → plain err) as Hone.
  { intros ? ?. split; [by apply Forall_singleton|done]. }
  destruct resp as [rs|]; [|apply yields_ret, Hone; by intros ? [= <-]].
  destruct (_ && _); [|apply yields_ret, Hone; by intros ? [= <-]].
  eapply (yields_bind _ _ (λ _ evs, Forall quiet evs)).
  - unfold publish_response. destruct (ha_PublishResponse action); [|by apply yields_ret].
    destruct (ex_publisher e); [|by apply yields_ret].
    eapply yields_bind; [by apply rp_publishes|]. intros ? evs ?%attempts_to_publish_quiet. apply yields_ret.
    by rewrite app_nil_r.
  - intros [] evs Hq. apply yields_ret. rewrite app_nil_r. split; [by constructor|done].
Qed.

(** Actions never emit more than requests, publications and waits, and their
    errors are not marked terminal. *)
Lemma ExecuteHTTPAction_plain e ctx action :
  yields (ExecuteHTTPAction e ctx action) (λ r evs, Forall quiet evs ∧ ∀ err, r = Err err → plain err).
Proof.
  unfold ExecuteHTTPAction. assert (plain (Leaf NoError)) as Hp by done. revert Hp.
  generalize (max_attempts action) (Z.to_nat (max_attempts action)) 1 (Leaf NoError). intros maxA left.
  induction left as [|left IH]; intros attempt lastErr Hp; cbn [retry_loop].
  { apply yields_ret. split; [done|]. by intros ? [= <-]. }
  eapply yields_bind; [apply makeHTTPRequest_plain|]. intros r evs [Hq Hr].
  destruct r as [[]|err]; [apply yields_ret; by rewrite app_nil_r|]. specialize (Hr err eq_refl).
  destruct (_ || _); [apply yields_ret; rewrite app_nil_r; split; [done|by intros ? [= <-]]|].
  eapply yields_bind; [by apply (yields_world _ (λ _, True))|]. intros jitter ? [_ ->].
  eapply yields_bind; [apply yields_emit|]. intros [] ? ->.
  eapply yields_bind; [by apply (yields_world _ (λ _, True))|]. intros [] ? [_ ->]; cbn [app].
  - apply yields_ret. split; [|by intros ? [= <-]]. by apply Forall_app_2, Forall_singleton.
  - eapply yields_weaken; [by apply IH|]. intros ? ? [? ?]. split; [|done]. apply Forall_app_2; [done|by constructor].
Qed.
Lemma ExecuteHTTPAction_spec (e : Executor) ctx action :
  yields (ExecuteHTTPAction e ctx action) (λ r evs,
    if request_ok action then run_ok e action (Z.to_nat (max_attempts action)) r evs
    else r ≠ Ok tt ∧ Forall (λ ev, ∃ d, ev = EvWait d) evs).
Proof.
  unfold ExecuteHTTPAction.
  assert (∃ n, Z.to_nat (max_attempts action) = S n ∧ 1 + Z.of_nat n = max_attempts action) as (n & -> & Hn).
  { exists (Z.to_nat (max_attempts action - 1)). unfold max_attempts.
    repeat case_match; rewrite ?Z.ltb_lt in *; lia. }
  destruct (request_ok action) eqn:Hok; [by apply retry_loop_spec|].
  clear Hn. generalize (max_attempts action) (S n) 1 (Leaf NoError). clear n. intros maxA left.
  induction left as [|left IH]; intros attempt lastErr; [by apply yields_ret|]. cbn [retry_loop].
  eapply (yields_bind _ _ (λ r evs, evs = [] ∧ ∃ l, r = Err (Wrap CreateFailed (Leaf l)))).
  { unfold makeHTTPRequest. eapply yields_bind; [apply new_request_spec|]. rewrite Hok.
    intros r evs [-> (l & ->)]. apply yields_ret. eauto. }
  intros r evs [-> (l & ->)]. cbn [errors_As as_status app]. rewrite orb_false_r.
  case_match; [by apply yields_ret|].
  eapply yields_bind; [by apply (yields_world _ (λ _, True))|]. intros jitter ? [_ ->].
  eapply yields_bind; [apply yields_emit|]. intros [] ? ->.
  eapply yields_bind; [by apply (yields_world _ (λ _, True))|]. intros [] ? [_ ->]; cbn [app].
  - apply yields_ret. split; [done|]. apply Forall_singleton. eauto.
  - eapply yields_weaken; [apply IH|]. intros r evs [? ?]. split; [done|]. constructor; eauto.
Qed.
End lemmas.

(** ** Properties *)

Section properties.
Context `{Net}.

(** C13: An HTTP action that makes a request at all makes at least one and at most
    the attempts of its retry policy (one by default), each request being what
    the action says; nothing is sent again after a success or after a refusal
    that would repeat itself; the call succeeds exactly when the last reply was
    a 2xx, its error is permanent exactly when that reply was a permanent
    refusal, and it stops short of its attempts only then or when its context
    ended; the body of a response is published only after a 2xx and only where
    the action says.  An action whose method or URL is no request fails, and
    nothing leaves but waits. *)
Theorem ExecuteHTTPAction_correct (e : Executor) ctx action :
  yields (ExecuteHTTPAction e ctx action) (λ r evs,
    if request_ok action then run_ok e action (Z.to_nat (max_attempts action)) r evs
    else r ≠ Ok tt ∧ Forall (λ ev, ∃ d, ev = EvWait d) evs).
Proof. apply ExecuteHTTPAction_spec. Qed.

Lemma wrap64_mul_0 n : wrap64 (0 * n) = 0.
Proof. by rewrite Z.mul_0_l. Qed.

(** As long as the doubled delay fits in a duration, the wait before the next
    attempt is that delay, at most the maximum: it never shrinks as attempts
    follow each other. *)
Theorem backoff_correct initialDelay maxDelay attempt :
  0 ≤ initialDelay → 1 ≤ attempt → in_int64 (initialDelay * 2 ^ (attempt - 1)) = true →
  backoff initialDelay maxDelay attempt = Z.min (initialDelay * 2 ^ (attempt - 1)) maxDelay.
Proof.
  intros Hi Ha Hin. unfold backoff, shift_left_1. rewrite Z.shiftl_mul_pow2, Z.mul_1_l by lia.
  assert (wrap64 (initialDelay * wrap64 (2 ^ (attempt - 1))) = initialDelay * 2 ^ (attempt - 1)) as ->.
  { destruct (decide (initialDelay = 0)) as [->|Hne]; [by rewrite wrap64_mul_0|].
    rewrite (wrap64_id (2 ^ _)); [by apply wrap64_id|].
    apply in_int64_spec. apply in_int64_spec in Hin. unfold int64_min, int64_max in *.
    pose proof (Z.pow_nonneg 2 (attempt - 1)). nia. }
  destruct (Z.ltb_spec maxDelay (initialDelay * 2 ^ (attempt - 1))); lia.
Qed.

(** From the thirty-fifth attempt on the doubled default delay no longer fits:
    it is negative, below the maximum, and the next attempt follows at once. *)
Lemma backoff_overflows : backoff retryInitialDelay retryMaxDelay 35 < 0.
Proof. reflexivity. Qed.
Lemma backoff_vanishes : backoff retryInitialDelay retryMaxDelay 60 = 0.
Proof. reflexivity. Qed.
End properties.

Lemma backoff_correct_witness :
  in_int64 (Second * 2 ^ (3 - 1)) = true ∧ backoff Second (30 * Second) 3 = 4 * Second.
Proof. split; [reflexivity|]. rewrite backoff_correct; [reflexivity|done..]. Defined.

(** ** Examples *)

Definition demo_action : HTTPAction :=
  MkHTTPAction "http://api/x" "POST" "{}" false false {[ "x-key" := "k" ]} ""
    (Some (MkRetryConfig 3 "1s" "")) None "" None None None None.
Definition reply (code : Z) : option http_response := Some (MkResponse code "ok").
Definition demo_run (replies : list (option http_response)) : result error unit * list net_event :=
  let r := @ExecuteHTTPAction demo_net (@MkExecutor demo_net None) None demo_action (demo_net_start replies) in
  (r.1, @n_log demo_net r.2).
Definition shape (evs : list net_event) : list (option Z + Z) :=
  map (λ ev, match ev with EvRequest _ resp => inl (rs_StatusCode <$> resp) | EvWait d => inr d | _ => inr 0 end) evs.

Example retries_until_success :
  let r := demo_run [reply 503; None; reply 200] in
  (r.1, shape r.2) = (Ok tt, [inl (Some 503); inr Second; inl None; inr (2 * Second); inl (Some 200)]).
Proof. vm_compute. reflexivity. Qed.

Example not_found_is_final :
  let r := demo_run [reply 404; reply 200] in
  (r.1, shape r.2) = (Err (Wrap (AttemptsFailed 1) (StatusError 404)), [inl (Some 404)]).
Proof. vm_compute. reflexivity. Qed.

Example attempts_run_out :
  (demo_run [reply 500; reply 429; reply 502; reply 200]).1 = Err (Wrap (AttemptsFailed 3) (StatusError 502)).
Proof. vm_compute. reflexivity. Qed.
