(* ===== verification/Publisher.v ===== *)
(** * Publishing NATS actions (internal/broker/publisher.go, nats.go)

    The transport of an action, one attempt on either, and the loop that repeats
    it with a growing delay.  The broker's publisher implements the interface
    the HTTP client publishes responses with. *)

From S2P Require Import Prelude GoStrings GoTime Value Types Net HttpClient.
Local Open Scope string_scope.
Local Open Scope Z_scope.

Definition maxRetryJitter : Z := 25 * Millisecond.

Record PublishConfig := MkPublishConfig {
  pc_Mode : string; pc_MaxRetries : Z; pc_RetryBaseDelay : Z; pc_AckTimeout : Z;
}.

Definition effectivePublishMode (action : NATSAction) (globalMode : string) : string :=
  if negb (String.eqb (na_Mode action) "") then na_Mode action else globalMode.

(** [nats.Header.Set] keeps a name as it is. *)
Definition newActionMsg (action : NATSAction) : nats_msg :=
  MkMsg (na_Subject action) "" (na_Headers action)
    (if na_Passthrough action then na_RawPayload action else na_Payload action).

Section publisher.
Context `{Net}.

Record ActionPublisher := MkActionPublisher { ap_cfg : PublishConfig }.

Definition publishCore (action : NATSAction) : NM (result error unit) :=
  let msg := newActionMsg action in
  ok ← with_world (conn_Publish msg);
  _ ← emit_event (EvPublish ModeCore msg ok);
  mret (if (ok : bool) then Ok tt else Err (Leaf CorePublishFailed)).

Definition publishJetStream (ap : ActionPublisher) (ctx : GoContext) (action : NATSAction) : NM (result error unit) :=
  let msg := newActionMsg action in
  sent ← with_world (js_PublishMsgAsync msg);
  if negb sent then _ ← emit_event (EvPublish ModeJetStream msg false); mret (Err (Leaf SendFailed))
  else
    w ← getN;
    let pubCtx := context_WithTimeout ctx (pc_AckTimeout (ap_cfg ap)) w in
    ack ← with_world (js_Ack pubCtx msg);
    _ ← emit_event (EvPublish ModeJetStream msg (match ack with AckOk => true | _ => false end));
    mret match ack with
      | AckOk => Ok tt
      | AckNoResponders => Err (Leaf (NoStream (na_Subject action)))
      | AckErr => Err (Leaf AckFailed)
      | AckTimeout => Err (Leaf AckTimedOut)
      end.

Definition publish_once (ap : ActionPublisher) (ctx : GoContext) (action : NATSAction) : NM (result error unit) :=
  if String.eqb (effectivePublishMode action (pc_Mode (ap_cfg ap))) ModeCore
  then publishCore action else publishJetStream ap ctx action.

(** The loop, with [left] attempts left. *)
Fixpoint publish_loop (ap : ActionPublisher) (ctx : GoContext) (action : NATSAction)
    (left : nat) (attempt : Z) (lastErr : error) : NM (result error unit) :=
  let maxRetries := pc_MaxRetries (ap_cfg ap) in
  let failed err := Err (Wrap (PublishAttemptsFailed maxRetries
                                 (effectivePublishMode action (pc_Mode (ap_cfg ap)))) err) in
  match left with
  | O => mret (failed lastErr)
  | S left' =>
      w ← getN;
      if ctx_Done ctx w then mret (Err (Wrap PublishCancelled (Leaf ContextDone)))
      else
        r ← publish_once ap ctx action;
        match r with
        | Ok _ => mret (Ok tt)
        | Err err =>
            if attempt =? maxRetries - 1 then mret (failed err)
            else
              jitter ← with_world (rand_Intn (maxRetryJitter / Millisecond));
              let delay := wrap64 (pc_RetryBaseDelay (ap_cfg ap) * shift_left_1 attempt) in
              let wait := wrap64 (delay + jitter * Millisecond) in
              _ ← emit_event (EvWait wait);
              cancelled ← with_world (select_After ctx wait);
              if (cancelled : bool) then mret (Err (Wrap CancelledRetry (Leaf ContextDone)))
              else publish_loop ap ctx action left' (attempt + 1) err
        end
  end.

Definition PublishWithRetry (ap : ActionPublisher) (ctx : GoContext) (action : NATSAction) : NM (result error unit) :=
  publish_loop ap ctx action (Z.to_nat (pc_MaxRetries (ap_cfg ap))) 0 (Leaf NoError).

(** ** Specification *)

(** The transport of an action: its own mode, or the configured one when it has
    none; what is not core is JetStream. *)
Definition transport_of (ap : ActionPublisher) (action : NATSAction) : string :=
  if bool_decide (na_Mode action = ModeCore ∨ na_Mode action = "" ∧ pc_Mode (ap_cfg ap) = ModeCore)
  then ModeCore else ModeJetStream.

Definition is_wait (ev : net_event) : Prop := match ev with EvWait _ => True | _ => False end.

(** A run: failed attempts, then a successful one or an error, with waits in
    between; an error before the last attempt is the end of the context. *)
Inductive publish_run (mode : string) (msg : nats_msg) : nat → result error unit → list net_event → Prop :=
| run_exhausted w l : publish_run mode msg 0 (Err (Wrap w (Leaf l))) []
| run_cancelled left w : publish_run mode msg (S left) (Err (Wrap w (Leaf ContextDone))) []
| run_published left : publish_run mode msg (S left) (Ok tt) [EvPublish mode msg true]
| run_failed left r waits evs :
    Forall is_wait waits → publish_run mode msg left r evs →
    publish_run mode msg (S left) r (EvPublish mode msg false :: waits ++ evs)
| run_failed_cancelled left w waits :
    Forall is_wait waits →
    publish_run mode msg (S left) (Err (Wrap w (Leaf ContextDone))) (EvPublish mode msg false :: waits).

Definition attempts_of (evs : list net_event) : list (string * nats_msg * bool) :=
  omap (λ ev, match ev with EvPublish mode m ok => Some (mode, m, ok) | _ => None end) evs.

(** The error of a run, and that of a run its context cut short. *)
Definition leaf_error (err : error) : Prop := ∃ w l, err = Wrap w (Leaf l).
Definition cut_short (err : error) : Prop := ∃ w, err = Wrap w (Leaf ContextDone).

(** ** Lemmas *)

Lemma transport_of_effective ap action : transport_of ap action =
  if String.eqb (effectivePublishMode action (pc_Mode (ap_cfg ap))) ModeCore then ModeCore else ModeJetStream.
Proof.
  unfold transport_of, effectivePublishMode. destruct (String.eqb_spec (na_Mode action) "") as [->|Hm]; cbn [negb].
  - destruct (String.eqb_spec (pc_Mode (ap_cfg ap)) ModeCore); [rewrite bool_decide_true|rewrite bool_decide_false]; naive_solver.
  - destruct (String.eqb_spec (na_Mode action) ModeCore); [rewrite bool_decide_true|rewrite bool_decide_false]; naive_solver.
Qed.

Lemma publish_once_spec ap ctx action :
  yields (publish_once ap ctx action) (λ r evs,
    match r with
    | Ok _ => evs = [EvPublish (transport_of ap action) (newActionMsg action) true]
    | Err err => evs = [EvPublish (transport_of ap action) (newActionMsg action) false] ∧ ∃ l, err = Leaf l
    end).
Proof.
  rewrite transport_of_effective. unfold publish_once. destruct (String.eqb _ ModeCore).
  - unfold publishCore. eapply yields_bind; [by apply (yields_world _ (λ _, True))|]. intros ok ? [_ ->].
    eapply yields_bind; [apply yields_emit|]. intros [] ? ->. apply yields_ret. destruct ok; eauto.
  - unfold publishJetStream. eapply yields_bind; [by apply (yields_world _ (λ _, True))|]. intros sent ? [_ ->].
    destruct sent; cbn [negb].
    + eapply yields_bind; [apply yields_get|]. intros w ? ->.
      eapply yields_bind; [by apply (yields_world _ (λ _, True))|]. intros ack ? [_ ->].
      eapply yields_bind; [apply yields_emit|]. intros [] ? ->. apply yields_ret. destruct ack; eauto.
    + eapply yields_bind; [apply yields_emit|]. intros [] ? ->. apply yields_ret. eauto.
Qed.

Lemma publish_loop_spec ap ctx action left attempt lastErr :
  attempt + Z.of_nat left = pc_MaxRetries (ap_cfg ap) →
  yields (publish_loop ap ctx action left attempt (Leaf lastErr))
    (publish_run (transport_of ap action) (newActionMsg action) left).
Proof.
  revert attempt lastErr. induction left as [|left IH]; intros attempt lastErr Ha; cbn [publish_loop].
  { apply yields_ret. constructor. }
  eapply yields_bind; [apply yields_get|]. intros w ? ->. cbn [app].
  destruct (ctx_Done ctx w); [apply yields_ret; constructor|].
  eapply yields_bind; [apply publish_once_spec|]. intros [[]|err] evs Hr; [subst evs; apply yields_ret; constructor|].
  destruct Hr as [-> (l & ->)]. destruct (Z.eqb_spec attempt (pc_MaxRetries (ap_cfg ap) - 1)) as [Hlast|Hmore].
  - assert (left = 0%nat) as -> by lia. apply yields_ret.
    apply (run_failed _ _ _ _ [] []); constructor.
  - eapply yields_bind; [by apply (yields_world _ (λ _, True))|]. intros jitter ? [_ ->].
    eapply yields_bind; [apply yields_emit|]. intros [] ? ->.
    eapply yields_bind; [by apply (yields_world _ (λ _, True))|]. intros [] ? [_ ->]; cbn [app].
    + apply yields_ret. apply run_failed_cancelled. by repeat constructor.
    + eapply yields_weaken; [apply (IH (attempt + 1) l); lia|]. intros r evs Hr.
      apply (run_failed _ _ _ _ [_] evs); [by repeat constructor|done].
Qed.

Lemma attempts_of_waits waits : Forall is_wait waits → attempts_of waits = [].
Proof. induction 1 as [|[] l Hw _ IH]; done. Qed.

Lemma attempts_of_app evs evs' : attempts_of (evs ++ evs') = (attempts_of evs ++ attempts_of evs')%list.
Proof. apply omap_app. Qed.

(** What a run amounts to. *)
Lemma publish_run_attempts mode msg left r evs : publish_run mode msg left r evs →
  ∃ n, attempts_of evs = (replicate n (mode, msg, false) ++
         match r with Ok _ => [(mode, msg, true)] | Err _ => [] end)%list ∧
    (length (attempts_of evs) ≤ left)%nat ∧
    (∀ err, r = Err err → leaf_error err ∧ (n = left ∨ cut_short err)) ∧
    Forall (λ ev, is_wait ev ∨ ∃ ok, ev = EvPublish mode msg ok) evs.
Proof.
  assert (∀ waits, Forall is_wait waits →
    Forall (λ ev, is_wait ev ∨ ∃ ok, ev = EvPublish mode msg ok) waits) as Hw.
  { intros waits Hf. eapply Forall_impl; [done|]. by left. }
  induction 1 as [w l|left w|left|left r waits evs Hwaits _ (n & Hn & Hlen & He & Hf)|left w waits Hwaits].
  - exists 0%nat. split_and!; [done|cbn; lia| |done]. intros ? [= <-]. split; [by exists w, l|by left].
  - exists 0%nat. split_and!; [done|cbn; lia| |done]. intros ? [= <-]. split; [by eexists _, _|]. right. by exists w.
  - exists 0%nat. split_and!; [done|cbn; lia|done|]. apply Forall_singleton. eauto.
  - exists (S n).
    assert (attempts_of (EvPublish mode msg false :: waits ++ evs) = (mode, msg, false) :: attempts_of evs) as ->.
    { change (attempts_of (EvPublish mode msg false :: waits ++ evs))
        with ((mode, msg, false) :: attempts_of (waits ++ evs)).
      by rewrite attempts_of_app, attempts_of_waits. }
    split_and!; [by rewrite Hn|cbn; lia| |].
    + intros err Herr. destruct (He err Herr) as [? [->|?]]; auto.
    + constructor; [eauto|]. apply Forall_app. auto.
  - exists 1%nat. assert (attempts_of (EvPublish mode msg false :: waits) = [(mode, msg, false)]) as ->.
    { change (attempts_of (EvPublish mode msg false :: waits)) with ((mode, msg, false) :: attempts_of waits).
      by rewrite attempts_of_waits. }
    split_and!; [done|cbn; lia| |].
    + intros ? [= <-]. split; [by eexists _, _|]. right. by exists w.
    + constructor; [eauto|]. auto.
Qed.

Lemma PublishWithRetry_run ap ctx action :
  yields (PublishWithRetry ap ctx action)
    (publish_run (transport_of ap action) (newActionMsg action) (Z.to_nat (pc_MaxRetries (ap_cfg ap)))).
Proof.
  unfold PublishWithRetry. destruct (Z.le_gt_cases 0 (pc_MaxRetries (ap_cfg ap))).
  - apply publish_loop_spec. lia.
  - replace (Z.to_nat _) with 0%nat by lia. apply yields_ret. constructor.
Qed.

(** ** Properties *)

(** C21: Publishing an action makes at most the configured attempts, all of the same
    message on the same transport, the action's own or the configured one; it
    stops at the first attempt that succeeds and reports success exactly then,
    and fails after the last attempt or when its context ends; nothing else
    leaves but waits.  Its errors are never permanent. *)
Theorem PublishWithRetry_correct ap ctx action :
  yields (PublishWithRetry ap ctx action) (λ r evs, ∃ n,
    let mode := transport_of ap action in
    let msg := newActionMsg action in
    attempts_of evs = (replicate n (mode, msg, false) ++
      match r with Ok _ => [(mode, msg, true)] | Err _ => [] end)%list ∧
    Z.of_nat (length (attempts_of evs)) ≤ Z.max 0 (pc_MaxRetries (ap_cfg ap)) ∧
    (∀ err, r = Err err → is_permanent_error err = false ∧
       (Z.of_nat n = Z.max 0 (pc_MaxRetries (ap_cfg ap)) ∨ cut_short err)) ∧
    Forall (λ ev, is_wait ev ∨ ∃ ok, ev = EvPublish mode msg ok) evs).
Proof.
  eapply yields_weaken; [apply PublishWithRetry_run|].
  intros r evs (n & Hn & Hlen & He & Hf)%publish_run_attempts. exists n. split_and!; [done|lia| |done].
  intros err Herr. destruct (He err Herr) as [(w & l & ->) Hor].
  split; [done|]. destruct Hor as [->|?]; [left; lia|by right].
Qed.

(** [NATSBroker.Publish], as the HTTP client's publisher. *)
#[export] Instance NATSBroker_publisher (ap : ActionPublisher) : ResponsePublisher.
Proof.
  refine {| rp_Publish := PublishWithRetry ap |}. intros ctx a Hp.
  eapply yields_weaken; [apply PublishWithRetry_run|].
  intros r evs (n & Hn & _ & _ & Hf)%publish_run_attempts. split.
  - eapply Forall_impl; [done|]. intros [] [?|(ok0 & Hok)]; try done. injection Hok as -> -> ->.
    unfold newActionMsg. by rewrite Hp.
  - intros ->. exists (transport_of ap a), (newActionMsg a).
    assert ((transport_of ap a, newActionMsg a, true) ∈ attempts_of evs) as Hin by (rewrite Hn; set_solver).
    apply list_elem_of_omap in Hin as ([] & Hin & Heq); try done. by injection Heq as -> -> ->.
Defined.
End publisher.

(** ** Examples *)

Definition demo_publisher : ActionPublisher := MkActionPublisher (MkPublishConfig ModeJetStream 3 (50 * Millisecond) Second).
Definition demo_nats : NATSAction :=
  MkNATSAction "alerts" "" "hot" false false ∅ "" false "" "" None None None None.

Example publish_succeeds :
  (@PublishWithRetry demo_net demo_publisher None demo_nats (demo_net_start [])).1 = Ok tt.
Proof. reflexivity. Qed.
