(* ===== verification/Site.v ===== *)
(** * A site that carries out actions

    What the JetStream and the core subscriptions share: the state of a site
    (the engine, its coalescer and the network), the interface of whoever
    executes HTTP actions, the headers of a received message. *)

From S2P Require Import Prelude GoStrings GoFloat GoTime Value Types Env Processor Coalescer Net HttpClient Publisher.
Local Open Scope string_scope.

Section site.
Context `{Env} `{Net}.

(** ** State *)

Record Site := MkSite { si_engine : Processor * St; si_coalescer : Coalescer; si_net : NSt }.

Definition SM (A : Type) : Type := Site → A * Site.
#[export] Instance SM_ret : MRet SM := λ A a s, (a, s).
#[export] Instance SM_bind : MBind SM := λ A B f m s, let '(a, s') := m s in f a s'.

Definition on_engine {A} (m : PM A) : SM A := λ s,
  let '(a, e) := m (si_engine s) in (a, MkSite e (si_coalescer s) (si_net s)).
Definition on_net {A} (m : NM A) : SM A := λ s,
  let '(a, n) := m (si_net s) in (a, MkSite (si_engine s) (si_coalescer s) n).

(** [coalescer.Submit], at the present time. *)
Definition submit (batch : DeferredBatch) : SM unit := λ s,
  (tt, MkSite (si_engine s)
        (Coalescer.Submit (si_coalescer s) batch (net_Now (n_world (si_net s)))).2 (si_net s)).
Fixpoint submit_all (batches : list DeferredBatch) : SM unit :=
  match batches with
  | [] => mret tt
  | b :: rest => _ ← submit b; submit_all rest
  end.

(** The coalescer after all the batches of an outcome. *)
Definition submitted (c : Coalescer) (batches : list DeferredBatch) (now : Z) : Coalescer :=
  foldl (λ c b, (Coalescer.Submit c b now).2) c batches.

Lemma submit_all_spec batches s :
  submit_all batches s =
    (tt, MkSite (si_engine s) (submitted (si_coalescer s) batches (net_Now (n_world (si_net s)))) (si_net s)).
Proof.
  revert s. induction batches as [|b rest IH]; intros [e c n]; [done|].
  cbn [submit_all]. unfold mbind, SM_bind. cbn [submit]. rewrite IH. done.
Qed.

(** ** Messages *)

(** The headers of a received message: canonical names, the first value. *)
Definition inbound_headers (headers : list (string * list string)) : gmap string string :=
  foldl (λ h kv, match kv.2 with v :: _ => <[CanonicalMIMEHeaderKey kv.1 := v]> h | [] => h end) ∅ headers.

(** ** Who executes HTTP actions *)

(** [HTTPActionExecutor]: what a run may emit is the executor's own matter, as
    long as it is requests, publications and waits. *)
Class HTTPActionExecutor := {
  hx_Execute : GoContext → HTTPAction → NM (result error unit);
  hx_runs : HTTPAction → result error unit → list net_event → Prop;
  hx_executes : ∀ ctx a, yields (hx_Execute ctx a) (hx_runs a);
  hx_plain : ∀ a r evs, hx_runs a r evs → Forall quiet evs ∧ ∀ err, r = Err err → plain err;
}.

#[export] Instance Executor_HTTPActionExecutor (e : Executor) : HTTPActionExecutor.
Proof.
  refine {|
    hx_Execute := ExecuteHTTPAction e;
    hx_runs a r evs := (if request_ok a then run_ok e a (Z.to_nat (max_attempts a)) r evs
                        else r ≠ Ok tt ∧ Forall (λ ev, ∃ d, ev = EvWait d) evs) ∧
                       Forall quiet evs ∧ ∀ err, r = Err err → plain err;
  |}.
  - intros ctx a. apply yields_conj; [apply ExecuteHTTPAction_spec|apply ExecuteHTTPAction_plain].
  - by intros a r evs [_ ?].
Defined.

(** ** What carrying out one action leaves *)

(** [action_run pub exec a r evs]: [a] was tried with result [r] and events
    [evs]; an HTTP action without an executor and a respond action are passed over. *)
Definition action_run (ap : ActionPublisher) (exec : option HTTPActionExecutor) (a : Action)
    (r : result error unit) (evs : list net_event) : Prop :=
  match a_NATS a, a_HTTP a, exec with
  | Some n, _, _ => ∃ r',
      publish_run (transport_of ap n) (newActionMsg n) (Z.to_nat (pc_MaxRetries (ap_cfg ap))) r' evs ∧
      r = map_err (Wrap NATSActionFailed) r'
  | None, Some h, Some x => ∃ r', @hx_runs x h r' evs ∧ r = map_err (Wrap HTTPActionFailed) r'
  | _, _, _ => r = Ok tt ∧ evs = []
  end.

Lemma action_run_plain ap exec a r evs : action_run ap exec a r evs →
  Forall quiet evs ∧ ∀ err, r = Err err → plain err.
Proof.
  unfold action_run. destruct (a_NATS a) as [n|].
  { intros (r' & (k & _ & _ & He & Hf)%publish_run_attempts & ->). split.
    - eapply Forall_impl; [done|]. intros ev [?|(ok & ->)]; [by destruct ev|done].
    - destruct r' as [|err']; [done|]. cbn. intros ? [= <-].
      by destruct (He err' eq_refl) as [(w & l & ->) _]. }
  destruct (a_HTTP a) as [h|]; [|by intros [-> ->]]. destruct exec as [x|]; [|by intros [-> ->]].
  intros (r' & [Hq Hp]%hx_plain & ->). split; [done|]. destruct r' as [|err']; [done|].
  cbn. intros ? [= <-]. exact (Hp err' eq_refl).
Qed.

(** All the actions of a message, in order, each with what it left. *)
Inductive actions_run (ap : ActionPublisher) (exec : option HTTPActionExecutor) :
    list Action → list (result error unit) → list net_event → Prop :=
| actions_run_nil : actions_run ap exec [] [] []
| actions_run_cons a r evs actions rs evs' :
    action_run ap exec a r evs → actions_run ap exec actions rs evs' →
    actions_run ap exec (a :: actions) (r :: rs) (evs ++ evs').

Lemma actions_run_length ap exec actions rs evs :
  actions_run ap exec actions rs evs → length rs = length actions.
Proof. induction 1; cbn; lia. Qed.

Lemma actions_run_plain ap exec actions rs evs : actions_run ap exec actions rs evs →
  Forall quiet evs ∧ ∀ err, Err err ∈ rs → plain err.
Proof.
  induction 1 as [|a r evs actions rs evs' Ha _ [IHq IHp]]; [set_solver|].
  apply action_run_plain in Ha as [Hq Hp]. split; [by apply Forall_app|].
  intros err [Herr|?]%elem_of_cons; auto.
Qed.
End site.

Arguments Site : clear implicits.
Arguments Site {_ _}.
