(* ===== verification/Subscription.v ===== *)
(** * JetStream subscriptions (internal/broker/subscription.go)

    What becomes of a message pulled from a consumer, and the table of
    subscriptions with their iterators. *)

From S2P Require Import Prelude GoStrings GoFloat GoTime Value Types Context Env Demo Processor Coalescer.
From S2P Require Import Net HttpClient Publisher Site.
Local Open Scope string_scope.

(** [jetstream.Msg]; the headers in the order [range] visits them. *)
Record jetstream_msg := MkJetstreamMsg {
  jm_Subject : string; jm_Data : string; jm_Headers : list (string * list string);
}.

(** A subscription: with an iterator from [startSubscription] until it stops. *)
Record Subscription := MkSubscription {
  sub_Subject : string; sub_ConsumerName : string; sub_StreamName : string; sub_Workers : Z;
  sub_iterator : bool;
}.

Inductive subscription_error := ConsumerUnavailable (stream consumer : string) | IteratorFailed (subject : string) | NoSubscriptions.

(** [isPermanent] *)
Definition isPermanent (err : error) : bool := is_permanent_error err.

Section subscriptions.
Context `{Env} `{Net}.

Record SubscriptionManager := MkSubscriptionManager {
  sm_publisher : ActionPublisher;
  sm_httpExecutor : option HTTPActionExecutor;
  sm_AckWaitTimeout : Z;
  sm_subscriptions : gmap string Subscription;
}.

(** ** Messages *)

Definition executeAction (sm : SubscriptionManager) (ctx : GoContext) (action : Action) : NM (result error unit) :=
  match a_NATS action, a_HTTP action with
  | Some n, _ =>
      r ← PublishWithRetry (sm_publisher sm) ctx n;
      mret (map_err (Wrap NATSActionFailed) r)
  | None, Some h =>
      match sm_httpExecutor sm with
      | None => mret (Ok tt)
      | Some x => r ← @hx_Execute _ x ctx h; mret (map_err (Wrap HTTPActionFailed) r)
      end
  | None, None => mret (Ok tt)
  end.

(** The loop over the immediate actions: the errors, and whether one of them
    may go away on redelivery. *)
Fixpoint run_actions (sm : SubscriptionManager) (ctx : GoContext) (actions : list Action)
    (errs : list error) (retryable : bool) : NM (list error * bool) :=
  match actions with
  | [] => mret (errs, retryable)
  | a :: rest =>
      r ← executeAction sm ctx a;
      match r with
      | Ok _ => run_actions sm ctx rest errs retryable
      | Err err => run_actions sm ctx rest (errs ++ [err])%list (retryable || negb (isPermanent err))
      end
  end.

Definition message_outcome (errs : list error) (retryable : bool) : result error unit :=
  if (length errs =? 0)%nat then Ok tt
  else if negb retryable then Err (TerminalError (Joined errs)) else Err (Joined errs).

Definition processMessage (sm : SubscriptionManager) (ctx : GoContext) (msg : jetstream_msg) (triggerSubject : string)
    : SM (result error unit) :=
  let headers := inbound_headers (jm_Headers msg) in
  outcome ← on_engine (ProcessForSubscription triggerSubject (jm_Subject msg) (jm_Data msg)
                         (map_to_list headers) (Some JetStreamRuleFilter));
  match outcome with
  | Err _ => mret (M:=SM) (Err (Wrap ProcessingFailed (Leaf EngineFailed)))
  | Ok outcome =>
      _ ← submit_all (o_Deferred outcome);
      w ← on_net getN;
      let actionCtx := if (0 <? sm_AckWaitTimeout sm)%Z
        then context_WithTimeout ctx (sm_AckWaitTimeout sm) w else ctx in
      r ← on_net (run_actions sm actionCtx (o_Immediate outcome) [] false);
      let '(errs, retryable) := r : list error * bool in
      mret (M:=SM) (message_outcome errs retryable)
  end.

Definition settle (s : settlement) : NM unit :=
  ok ← with_world (msg_Settle s); emit_event (EvSettle s).

(** [processMessageWithRecovery]; nothing in the model panics. *)
Definition processMessageWithRecovery (sm : SubscriptionManager) (ctx : GoContext) (msg : jetstream_msg)
    (subject : string) : SM unit :=
  r ← processMessage sm ctx msg subject;
  match r with
  | Ok _ => on_net (settle Acked)
  | Err err =>
      match errors_As as_terminal err with
      | None => on_net (settle Naked)
      | Some _ => on_net (settle Termed)
      end
  end.

(** ** Workers *)

Definition errorBackoffDelay : Z := 100 * Millisecond.

(** A turn of a worker's loop: whether its context is done, what the iterator's
    [Next] gives, and whether the context is done when that is an error. *)
Inductive next_result := NextMsg (msg : jetstream_msg) | NextClosed | NextFailed.
Record worker_turn := MkTurn { wt_Done : bool; wt_Next : next_result; wt_DoneAfter : bool }.

Fixpoint messageWorker (sm : SubscriptionManager) (ctx : GoContext) (subject : string) (turns : list worker_turn) : SM unit :=
  match turns with
  | [] => mret (M:=SM) tt
  | t :: rest =>
      if wt_Done t then mret (M:=SM) tt
      else match wt_Next t with
           | NextMsg msg => _ ← processMessageWithRecovery sm ctx msg subject; messageWorker sm ctx subject rest
           | NextClosed => mret (M:=SM) tt
           | NextFailed =>
               if wt_DoneAfter t then mret (M:=SM) tt
               else _ ← on_net (emit_event (EvWait errorBackoffDelay)); messageWorker sm ctx subject rest
           end
  end.

(** ** The table of subscriptions *)

Definition with_subscriptions (sm : SubscriptionManager) (subs : gmap string Subscription) : SubscriptionManager :=
  MkSubscriptionManager (sm_publisher sm) (sm_httpExecutor sm) (sm_AckWaitTimeout sm) subs.

Definition SetHTTPExecutor (sm : SubscriptionManager) (exec : option HTTPActionExecutor) : SubscriptionManager :=
  MkSubscriptionManager (sm_publisher sm) exec (sm_AckWaitTimeout sm) (sm_subscriptions sm).

Definition started (sub : Subscription) : Subscription :=
  MkSubscription (sub_Subject sub) (sub_ConsumerName sub) (sub_StreamName sub) (sub_Workers sub) true.

Definition AddSubscription (sm : SubscriptionManager) (streamName consumerName subject : string) (workers : Z)
    : NM (result subscription_error unit * SubscriptionManager) :=
  ok ← with_world (js_Consumer streamName consumerName);
  if negb ok then mret (Err (ConsumerUnavailable streamName consumerName), sm)
  else mret (Ok tt, with_subscriptions sm
              (<[subject := MkSubscription subject consumerName streamName workers false]> (sm_subscriptions sm))).

(** The iterator and the workers of one subscription. *)
Definition startSubscription (sub : Subscription) : NM (result subscription_error Subscription) :=
  ok ← with_world (consumer_Messages (sub_StreamName sub) (sub_ConsumerName sub));
  if negb ok then mret (Err (IteratorFailed (sub_Subject sub)))
  else _ ← emit_event (EvStart (sub_Subject sub)); mret (Ok (started sub)).

Definition AddAndStartSubscription (sm : SubscriptionManager) (streamName consumerName subject : string) (workers : Z)
    : NM (result subscription_error unit * SubscriptionManager) :=
  match sm_subscriptions sm !! subject with
  | Some _ => mret (Ok tt, sm)
  | None =>
      added ← AddSubscription sm streamName consumerName subject workers;
      match added : result subscription_error unit * SubscriptionManager with
      | (Err e, sm) => mret (Err e, sm)
      | (Ok _, sm) =>
          match sm_subscriptions sm !! subject with
          | None => mret (Ok tt, sm)
          | Some sub =>
              r ← startSubscription sub;
              mret match r : result subscription_error Subscription with
                   | Err e => (Err e, sm)
                   | Ok sub => (Ok tt, with_subscriptions sm (<[subject := sub]> (sm_subscriptions sm)))
                   end
          end
      end
  end.

Definition RemoveSubscription (sm : SubscriptionManager) (subject : string) : NM SubscriptionManager :=
  match sm_subscriptions sm !! subject with
  | None => mret sm
  | Some sub =>
      _ ← (if sub_iterator sub then emit_event (EvStop (sub_Subject sub)) else mret tt);
      mret (with_subscriptions sm (delete subject (sm_subscriptions sm)))
  end.

(** [Start]: in the order of the map, up to the first failure. *)
Fixpoint start_all (sm : SubscriptionManager) (subs : list (string * Subscription))
    : NM (result subscription_error unit * SubscriptionManager) :=
  match subs with
  | [] => mret (Ok tt, sm)
  | (subject, sub) :: rest =>
      r ← startSubscription sub;
      match r : result subscription_error Subscription with
      | Err e => mret (Err e, sm)
      | Ok sub => start_all (with_subscriptions sm (<[subject := sub]> (sm_subscriptions sm))) rest
      end
  end.

Definition Start (sm : SubscriptionManager) : NM (result subscription_error unit * SubscriptionManager) :=
  if (size (sm_subscriptions sm) =? 0)%nat then mret (Err NoSubscriptions, sm)
  else subs ← with_world (range_order (map_to_list (sm_subscriptions sm))); start_all sm subs.

(** The steps of [Stop] before the coalescer is flushed: every iterator stops,
    the table stays as it is. *)
Fixpoint stop_all (subs : list (string * Subscription)) : NM unit :=
  match subs with
  | [] => mret tt
  | (_, sub) :: rest =>
      _ ← (if sub_iterator sub then emit_event (EvStop (sub_Subject sub)) else mret tt); stop_all rest
  end.

Definition StopSubscriptions (sm : SubscriptionManager) : SM (list DeferredBatch) := λ s,
  let '(_, n) := (subs ← with_world (range_order (map_to_list (sm_subscriptions sm))); stop_all subs) (si_net s) in
  let '(batches, c) := Coalescer.Stop (si_coalescer s) in
  (batches, MkSite (si_engine s) c n).

Definition SubscriptionCount (sm : SubscriptionManager) : nat := size (sm_subscriptions sm).
End subscriptions.

Arguments SubscriptionManager : clear implicits.
Arguments SubscriptionManager {_}.

(** ** Specification *)

Definition failures (rs : list (result error unit)) : list error :=
  omap (λ r, match r with Ok _ => None | Err e => Some e end) rs.
Definition retryable_failure (r : result error unit) : bool :=
  match r with Ok _ => false | Err e => negb (isPermanent e) end.

(** What the results of its actions make of a message. *)
Definition verdict (rs : list (result error unit)) : settlement :=
  if forallb is_ok rs then Acked else if existsb retryable_failure rs then Naked else Termed.

(** ** Lemmas *)

Lemma failures_nil rs : failures rs = [] ↔ forallb is_ok rs = true.
Proof. induction rs as [|[[]|e] rs IH]; cbn; [done|exact IH|done]. Qed.

Section lemmas.
Context `{Env} `{Net}.

Lemma executeAction_run sm ctx a :
  yields (executeAction sm ctx a) (action_run (sm_publisher sm) (sm_httpExecutor sm) a).
Proof.
  unfold executeAction, action_run. destruct (a_NATS a) as [n|].
  { eapply yields_bind; [apply PublishWithRetry_run|]. intros r evs Hr. apply yields_ret.
    rewrite app_nil_r. eauto. }
  destruct (a_HTTP a) as [h|]; [|by apply yields_ret].
  destruct (sm_httpExecutor sm) as [x|]; [|by apply yields_ret].
  eapply yields_bind; [apply hx_executes|]. intros r evs Hr. apply yields_ret. rewrite app_nil_r. eauto.
Qed.

Lemma run_actions_spec sm ctx actions errs retryable :
  yields (run_actions sm ctx actions errs retryable) (λ out evs, ∃ rs,
    actions_run (sm_publisher sm) (sm_httpExecutor sm) actions rs evs ∧
    out = ((errs ++ failures rs)%list, retryable || existsb retryable_failure rs)).
Proof.
  revert errs retryable. induction actions as [|a rest IH]; intros errs retryable; cbn [run_actions].
  { apply yields_ret. exists []. cbn. rewrite app_nil_r, orb_false_r. split; [constructor|done]. }
  eapply yields_bind; [apply executeAction_run|]. intros r evs Hr. destruct r as [[]|err].
  - eapply yields_weaken; [apply IH|]. intros out evs' (rs & Hrs & ->). exists (Ok tt :: rs).
    split; [by constructor|done].
  - eapply yields_weaken; [apply IH|]. intros out evs' (rs & Hrs & ->). exists (Err err :: rs).
    split; [by constructor|]. cbn. by rewrite <- app_assoc, <- orb_assoc.
Qed.

Lemma outcome_verdict rs : (∀ err, Err err ∈ rs → plain err) →
  match message_outcome (failures rs) (existsb retryable_failure rs) with
  | Ok _ => Acked
  | Err err => match errors_As as_terminal err with None => Naked | Some _ => Termed end
  end = verdict rs.
Proof.
  intros Hp. unfold message_outcome, verdict.
  destruct (forallb is_ok rs) eqn:Hok; [by apply failures_nil in Hok as ->|].
  destruct (failures rs) as [|e l] eqn:Hf; [by apply failures_nil in Hf; congruence|]. cbn [length Nat.eqb].
  destruct (existsb retryable_failure rs); cbn [negb]; [|done].
  replace (errors_As as_terminal (Joined (e :: l))) with (@None error); [done|]. symmetry.
  apply errors_As_joined; [done|]. intros err Herr. apply plain_not_terminal, Hp.
  rewrite <- Hf in Herr. apply list_elem_of_omap in Herr as ([|] & Hin & [= ->]). done.
Qed.

Lemma settle_spec how : yields (settle how) (λ _ evs, evs = [EvSettle how]).
Proof.
  unfold settle. eapply yields_bind; [by apply (yields_world _ (λ _, True))|]. intros ok ? [_ ->].
  apply yields_emit.
Qed.

Lemma on_net_spec {A} (m : NM A) P s : yields m P → ∃ evs,
  n_log (si_net (on_net m s).2) = (n_log (si_net s) ++ evs)%list ∧ P (on_net m s).1 evs ∧
  si_engine (on_net m s).2 = si_engine s ∧ si_coalescer (on_net m s).2 = si_coalescer s.
Proof.
  intros Hm. destruct (Hm (si_net s)) as (evs & ? & ?). exists evs. unfold on_net.
  by destruct (m (si_net s)).
Qed.
End lemmas.

(** ** Properties *)

Section properties.
Context `{Env} `{Net}.

Lemma message_settled_spec sm ctx msg subject (s : Site) :
  let engine := ProcessForSubscription subject (jm_Subject msg) (jm_Data msg)
      (map_to_list (inbound_headers (jm_Headers msg))) (Some JetStreamRuleFilter) (si_engine s) in
  let s' := (processMessageWithRecovery sm ctx msg subject s).2 in
  si_engine s' = engine.2 ∧ ∃ evs how,
    n_log (si_net s') = (n_log (si_net s) ++ evs ++ [EvSettle how])%list ∧ Forall quiet evs ∧
    match engine.1 with
    | Err _ => evs = [] ∧ how = Naked ∧ si_coalescer s' = si_coalescer s
    | Ok outcome => ∃ rs,
        actions_run (sm_publisher sm) (sm_httpExecutor sm) (o_Immediate outcome) rs evs ∧
        how = verdict rs ∧
        si_coalescer s' = submitted (si_coalescer s) (o_Deferred outcome) (net_Now (n_world (si_net s)))
    end.
Proof.
  intros engine s'. subst s' engine. unfold processMessageWithRecovery, processMessage, mbind, SM_bind, on_engine.
  destruct (ProcessForSubscription _ _ _ _ _ (si_engine s)) as [[outcome|e] eng]; cbn [fst snd].
  2: { cbn [mret SM_ret errors_As as_terminal].
       destruct (on_net_spec _ _ (MkSite eng (si_coalescer s) (si_net s)) (settle_spec Naked)) as (evs & Hl & -> & He & Hc).
       split; [done|]. exists [], Naked. by rewrite Hl. }
  rewrite submit_all_spec. cbn [si_engine si_coalescer si_net on_net getN n_world].
  set (c := submitted _ _ _). set (ctx' := if (0 <? sm_AckWaitTimeout sm)%Z then _ else _).
  destruct (on_net_spec _ _ (MkSite eng c (si_net s)) (run_actions_spec sm ctx' (o_Immediate outcome) [] false))
    as (evs & Hl & (rs & Hrs & Hout) & He & Hc). cbn [si_net] in Hl.
  destruct (on_net (run_actions _ _ _ _ _) _) as [out s1] eqn:E.
  cbn in Hout, Hl, He, Hc. subst out. cbn [mret SM_ret].
  assert (∀ r : result error unit, match r with
      | Ok _ => on_net (settle Acked)
      | Err err => match errors_As as_terminal err with None => on_net (settle Naked) | Some _ => on_net (settle Termed) end
      end = on_net (settle match r with
      | Ok _ => Acked
      | Err err => match errors_As as_terminal err with None => Naked | Some _ => Termed end
      end)) as -> by (intros []; [done|by case_match]).
  destruct (actions_run_plain _ _ _ _ _ Hrs) as [Hq Hp]. rewrite (outcome_verdict rs Hp).
  destruct (on_net_spec _ _ s1 (settle_spec (verdict rs))) as (evs' & Hl' & -> & He' & Hc').
  rewrite He', He, Hc', Hc, Hl', Hl. split; [done|]. exists evs, (verdict rs).
  split_and!; [by rewrite app_assoc|done|]. exists rs. done.
Qed.

(** C8: A message pulled from a consumer is settled exactly once, at the end.  When
    the engine fails on it, it is sent back.  Otherwise every deferred batch is
    submitted, every immediate action is tried in order whatever becomes of the
    others, and the message is acknowledged when all of them succeed, sent back
    when one of the failures may go away, and terminated when they are all
    permanent. *)
Theorem message_settled sm ctx msg subject (s : Site) :
  let engine := ProcessForSubscription subject (jm_Subject msg) (jm_Data msg)
      (map_to_list (inbound_headers (jm_Headers msg))) (Some JetStreamRuleFilter) (si_engine s) in
  let s' := (processMessageWithRecovery sm ctx msg subject s).2 in
  si_engine s' = engine.2 ∧ ∃ evs how,
    n_log (si_net s') = (n_log (si_net s) ++ evs ++ [EvSettle how])%list ∧ Forall quiet evs ∧
    match engine.1 with
    | Err _ => evs = [] ∧ how = Naked ∧ si_coalescer s' = si_coalescer s
    | Ok outcome => ∃ rs,
        actions_run (sm_publisher sm) (sm_httpExecutor sm) (o_Immediate outcome) rs evs ∧
        how = verdict rs ∧
        si_coalescer s' = submitted (si_coalescer s) (o_Deferred outcome) (net_Now (n_world (si_net s)))
    end.
Proof. apply message_settled_spec. Qed.


(** The messages a worker takes, up to the end of its context or its iterator. *)
Fixpoint taken (turns : list worker_turn) : list jetstream_msg :=
  match turns with
  | [] => []
  | t :: rest =>
      if wt_Done t then []
      else match wt_Next t with
           | NextMsg msg => msg :: taken rest
           | NextClosed => []
           | NextFailed => if wt_DoneAfter t then [] else taken rest
           end
  end.

Definition is_settle (ev : net_event) : bool := match ev with EvSettle _ => true | _ => false end.

Lemma quiet_unsettled evs : Forall quiet evs → List.filter is_settle evs = [].
Proof. by induction 1 as [|[] l Hq _ IH]. Qed.

(** Whatever comes of them, a worker settles every message it takes, once. *)
Lemma messageWorker_settles sm ctx subject turns (s : Site) : ∃ evs,
  n_log (si_net (messageWorker sm ctx subject turns s).2) = (n_log (si_net s) ++ evs)%list ∧
  length (List.filter is_settle evs) = length (taken turns).
Proof.
  revert s. induction turns as [|t rest IH]; intros s; cbn [messageWorker taken]; [exists []; by rewrite app_nil_r|].
  destruct (wt_Done t); [exists []; by rewrite app_nil_r|].
  destruct (wt_Next t) as [msg| |]; [|exists []; by rewrite app_nil_r|].
  - destruct (message_settled_spec sm ctx msg subject s) as (_ & evs & how & Hl & Hq & _).
    unfold mbind, SM_bind. destruct (processMessageWithRecovery _ _ _ _ s) as [[] s'] eqn:E. cbn [snd] in Hl.
    destruct (IH s') as (evs' & Hl' & Hn). exists (evs ++ [EvSettle how] ++ evs')%list. split.
    + by rewrite Hl', Hl, <- !app_assoc.
    + rewrite !List.filter_app, (quiet_unsettled evs Hq). cbn. by rewrite Hn.
  - destruct (wt_DoneAfter t); [exists []; by rewrite app_nil_r|].
    unfold mbind, SM_bind. cbn [on_net emit_event].
    match goal with |- context [messageWorker _ _ _ _ ?s'] => destruct (IH s') as (evs' & Hl' & Hn) end.
    exists (EvWait errorBackoffDelay :: evs')%list. split; [|done]. rewrite Hl'. cbn. by rewrite <- app_assoc.
Qed.

Lemma AddAndStartSubscription_spec (sm : SubscriptionManager) stream consumer subject workers :
  yields (AddAndStartSubscription sm stream consumer subject workers) (λ out evs,
    (∀ k, k ≠ subject → sm_subscriptions out.2 !! k = sm_subscriptions sm !! k) ∧
    match sm_subscriptions sm !! subject with
    | Some _ => out = (Ok tt, sm) ∧ evs = []
    | None => match out.1 with
        | Ok _ => sm_subscriptions out.2 !! subject = Some (MkSubscription subject consumer stream workers true) ∧
                  evs = [EvStart subject]
        | Err (ConsumerUnavailable _ _) => sm_subscriptions out.2 !! subject = None ∧ evs = []
        | Err _ => sm_subscriptions out.2 !! subject = Some (MkSubscription subject consumer stream workers false) ∧
                   evs = []
        end
    end).
Proof.
  unfold AddAndStartSubscription. destruct (sm_subscriptions sm !! subject) as [sub|] eqn:Hs; [by apply yields_ret|].
  unfold AddSubscription.
  eapply (yields_bind _ _ (λ out evs, evs = [] ∧
    (out = (Err (ConsumerUnavailable stream consumer), sm) ∨
     out = (Ok tt, with_subscriptions sm
              (<[subject := MkSubscription subject consumer stream workers false]> (sm_subscriptions sm)))))).
  { eapply yields_bind; [by apply (yields_world _ (λ _, True))|]. intros [] ? [_ ->]; apply yields_ret; auto. }
  intros out evs [-> [->| ->]]; [by apply yields_ret|]. cbn [with_subscriptions sm_subscriptions].
  rewrite lookup_insert_eq. unfold startSubscription. cbn [sub_StreamName sub_ConsumerName sub_Subject].
  eapply (yields_bind _ _ (λ r evs, (r = Err (IteratorFailed subject) ∧ evs = []) ∨
    (r = Ok (MkSubscription subject consumer stream workers true) ∧ evs = [EvStart subject]))).
  { eapply yields_bind; [by apply (yields_world _ (λ _, True))|]. intros [] ? [_ ->]; cbn [negb].
    - eapply yields_bind; [apply yields_emit|]. intros [] ? ->. apply yields_ret. auto.
    - apply yields_ret. auto. }
  intros r evs [[-> ->]|[-> ->]]; apply yields_ret; cbn [fst snd with_subscriptions sm_subscriptions app].
  - split; [|by rewrite lookup_insert_eq]. intros k Hk. by rewrite lookup_insert_ne.
  - split; [|by rewrite lookup_insert_eq]. intros k Hk. by rewrite !lookup_insert_ne.
Qed.

(** A subscription that was not there is there afterwards when the call
    succeeds, with its iterator running over the consumer it names; nothing
    else changes in the table, and a subscription that was there is left alone. *)
Theorem AddAndStartSubscription_correct (sm : SubscriptionManager) stream consumer subject workers :
  yields (AddAndStartSubscription sm stream consumer subject workers) (λ out evs,
    (∀ k, k ≠ subject → sm_subscriptions out.2 !! k = sm_subscriptions sm !! k) ∧
    match sm_subscriptions sm !! subject with
    | Some _ => out = (Ok tt, sm) ∧ evs = []
    | None => match out.1 with
        | Ok _ => sm_subscriptions out.2 !! subject = Some (MkSubscription subject consumer stream workers true) ∧
                  evs = [EvStart subject]
        | Err (ConsumerUnavailable _ _) => sm_subscriptions out.2 !! subject = None ∧ evs = []
        | Err _ => sm_subscriptions out.2 !! subject = Some (MkSubscription subject consumer stream workers false) ∧
                   evs = []
        end
    end).
Proof. apply AddAndStartSubscription_spec. Qed.

(** A subscription whose iterator could not be created stays in the table
    without one, so the next call for its subject succeeds and starts nothing. *)
Lemma failed_start_is_skipped (sm : SubscriptionManager) stream consumer subject workers sub st :
  sm_subscriptions sm !! subject = Some sub → sub_iterator sub = false →
  AddAndStartSubscription sm stream consumer subject workers st = ((Ok tt, sm), st).
Proof. intros Hs _. unfold AddAndStartSubscription. by rewrite Hs. Qed.
End properties.

(** ** Examples *)

Example permanent_failures_terminate :
  verdict [Ok tt; Err (Wrap HTTPActionFailed (Wrap (AttemptsFailed 1) (StatusError 404)))] = Termed.
Proof. reflexivity. Qed.
Example one_retryable_failure_sends_back :
  verdict [Err (StatusError 404); Err (StatusError 503)] = Naked.
Proof. reflexivity. Qed.
