(* ===== verification/Responder.v ===== *)
(** * Core subscriptions (internal/broker/responder.go)

    The responder serves the rules of core transport: its subscriptions follow
    the rules, and its handler evaluates them, answers the request and carries
    out the other actions. *)

From S2P Require Import Prelude GoStrings GoFloat GoTime Value Types Context Env Demo Processor Coalescer.
From S2P Require Import Net HttpClient Publisher Site.
Local Open Scope string_scope.

Definition coreActionTimeout : Z := 30 * Second.

(** [nats.Msg] as received. *)
Record core_msg := MkCoreMsg {
  cm_Subject : string; cm_Reply : string; cm_Data : string; cm_Headers : list (string * list string);
}.

Record core_subscription := MkCoreSubscription { cs_Subject : string; cs_Queue : string }.

(** The rules a responder serves, with the subject and the queue of each. *)
Definition core_trigger (r : Rule) : option (string * string) :=
  match tr_NATS (r_Trigger r) with
  | Some t => if IsCore t then Some (nt_Subject t, nt_Queue t) else None
  | None => None
  end.

(** [Rebuild]'s collection: every subject once, with the queue of its first
    rule, in the order of the rules. *)
Definition collect_core (acc : gmap string string * list string) (r : Rule) : gmap string string * list string :=
  match core_trigger r with
  | None => acc
  | Some (subject, queue) =>
      let '(queues, order) := acc in
      match queues !! subject with
      | None => (<[subject := queue]> queues, (order ++ [subject])%list)
      | Some _ => acc
      end
  end.

Section responder.
Context `{Env} `{Net}.

Record Responder := MkResponder {
  re_publisher : ActionPublisher;
  re_httpExecutor : option HTTPActionExecutor;
  re_subs : list core_subscription;
  re_closed : bool;
}.

Definition NewResponder (ap : ActionPublisher) (exec : option HTTPActionExecutor) : Responder :=
  MkResponder ap exec [] false.

Definition with_subs (re : Responder) (subs : list core_subscription) (closed : bool) : Responder :=
  MkResponder (re_publisher re) (re_httpExecutor re) subs closed.

(** ** Subscriptions *)

Fixpoint unsubscribeAll (subs : list core_subscription) : NM unit :=
  match subs with
  | [] => mret tt
  | s :: rest => _ ← emit_event (EvUnsubscribe (cs_Subject s)); unsubscribeAll rest
  end.

(** One subscription per subject; a failure is passed over. *)
Fixpoint subscribe_all (queues : gmap string string) (order : list string) (subs : list core_subscription)
    : NM (list core_subscription) :=
  match order with
  | [] => mret subs
  | subject :: rest =>
      let queue := default "" (queues !! subject) in
      ok ← with_world (conn_Subscribe subject queue);
      _ ← emit_event (EvSubscribe subject queue ok);
      subscribe_all queues rest (if (ok : bool) then (subs ++ [MkCoreSubscription subject queue])%list else subs)
  end.

Definition Rebuild (re : Responder) (rules : list Rule) : NM Responder :=
  if re_closed re then mret re
  else
    _ ← unsubscribeAll (re_subs re);
    let '(queues, order) := foldl collect_core (∅, []) rules in
    subs ← subscribe_all queues order [];
    mret (with_subs re subs false).

(** [Close]: the batches left for the flush, which runs outside the lock. *)
Definition Close (re : Responder) : SM (list DeferredBatch * Responder) := λ s,
  let '(_, n) := unsubscribeAll (re_subs re) (si_net s) in
  let '(batches, c) := Coalescer.Stop (si_coalescer s) in
  ((batches, with_subs re [] true), MkSite (si_engine s) c n).

(** ** Messages *)

Definition reply_msg (msg : core_msg) (ra : RespondAction) : nats_msg :=
  MkMsg (cm_Reply msg) "" (ra_Headers ra) (if ra_Passthrough ra then ra_RawPayload ra else ra_Payload ra).

Definition respond (msg : core_msg) (ra : RespondAction) : NM unit :=
  let reply := reply_msg msg ra in
  ok ← with_world (conn_Publish reply); emit_event (EvRespond reply ok).

(** The loop over the immediate actions. *)
Fixpoint core_actions (re : Responder) (ctx : GoContext) (msg : core_msg) (actions : list Action) (responded : bool)
    : NM unit :=
  match actions with
  | [] => mret tt
  | a :: rest =>
      match a_Respond a, a_NATS a, a_HTTP a with
      | Some ra, _, _ =>
          if String.eqb (cm_Reply msg) "" then core_actions re ctx msg rest responded
          else if responded then core_actions re ctx msg rest responded
          else _ ← respond msg ra; core_actions re ctx msg rest true
      | None, Some n, _ =>
          _ ← PublishWithRetry (re_publisher re) ctx n; core_actions re ctx msg rest responded
      | None, None, Some h =>
          match re_httpExecutor re with
          | None => core_actions re ctx msg rest responded
          | Some x => _ ← @hx_Execute _ x ctx h; core_actions re ctx msg rest responded
          end
      | None, None, None => core_actions re ctx msg rest responded
      end
  end.

(** [makeHandler]; nothing in the model panics. *)
Definition makeHandler (re : Responder) (triggerSubject : string) (msg : core_msg) : SM unit :=
  let headers := inbound_headers (cm_Headers msg) in
  outcome ← on_engine (ProcessForSubscription triggerSubject (cm_Subject msg) (cm_Data msg)
                         (map_to_list headers) (Some CoreRuleFilter));
  match outcome with
  | Err _ => mret (M:=SM) tt
  | Ok outcome =>
      _ ← submit_all (o_Deferred outcome);
      w ← on_net getN;
      let ctx := context_WithTimeout context_Background coreActionTimeout w in
      on_net (core_actions re ctx msg (o_Immediate outcome) false)
  end.

(** [executeSideEffect], for the batches of the coalescer. *)
Definition executeSideEffect (re : Responder) (ctx : GoContext) (action : Action) : NM (result error unit) :=
  match a_NATS action, a_HTTP action with
  | Some n, _ =>
      r ← PublishWithRetry (re_publisher re) ctx n;
      mret (map_err (Wrap NATSActionFailed) r)
  | None, Some h =>
      match re_httpExecutor re with
      | None => mret (Ok tt)
      | Some x => r ← @hx_Execute _ x ctx h; mret (map_err (Wrap HTTPActionFailed) r)
      end
  | None, None => mret (Ok tt)
  end.
End responder.

Arguments Responder : clear implicits.
Arguments Responder {_}.

(** ** Specification *)

(** The queue group of a subject: that of its first rule. *)
Definition queue_of (rules : list Rule) (subject : string) : option string :=
  snd <$> List.find (λ t, String.eqb t.1 subject) (omap core_trigger rules).

(** The replies a run sent. *)
Definition replies (evs : list net_event) : list nats_msg :=
  omap (λ ev, match ev with EvRespond m _ => Some m | _ => None end) evs.

Definition first_respond (actions : list Action) : option RespondAction := head (omap a_Respond actions).

(** ** Lemmas *)

Lemma queue_of_snoc rules r s : queue_of (rules ++ [r]) s =
  match queue_of rules s with
  | Some q => Some q
  | None => match core_trigger r with Some (s', q) => if String.eqb s' s then Some q else None | None => None end
  end.
Proof.
  unfold queue_of. rewrite omap_app. cbn [omap list_omap]. induction (omap core_trigger rules) as [|[s' q] l IH]; cbn.
  - destruct (core_trigger r) as [[s' q]|]; cbn; [by destruct (String.eqb s' s)|done].
  - destruct (String.eqb s' s); [done|apply IH].
Qed.

Lemma collect_core_spec rules :
  let '(queues, order) := foldl collect_core (∅, []) rules in
  NoDup order ∧ (∀ s, s ∈ order ↔ is_Some (queues !! s)) ∧ ∀ s, queues !! s = queue_of rules s.
Proof.
  induction rules as [|r rules IH] using rev_ind.
  { cbn. split_and!; [apply NoDup_nil_2| |done]. intros s. rewrite lookup_empty, elem_of_nil.
    split; [done|by intros [? ?]]. }
  rewrite foldl_app. cbn [foldl]. destruct (foldl collect_core (∅, []) rules) as [queues order].
  destruct IH as (Hnd & Hin & Hq). unfold collect_core.
  pose proof (queue_of_snoc rules r) as Hsnoc. setoid_rewrite <- Hq in Hsnoc.
  destruct (core_trigger r) as [[s q]|]; [|split_and!; [done|done|intros s; rewrite Hsnoc; by destruct (queues !! s)]].
  destruct (queues !! s) as [q'|] eqn:Hs; split_and!.
  - done.
  - done.
  - intros s'. rewrite Hsnoc. destruct (queues !! s') eqn:Hs'; [done|]. destruct (String.eqb_spec s s'); [congruence|done].
  - apply NoDup_app. split_and!; [done| |apply NoDup_singleton].
    intros s' Hs' ->%list_elem_of_singleton. apply Hin in Hs' as [? ?]. congruence.
  - intros s'. rewrite elem_of_app, Hin, list_elem_of_singleton.
    destruct (decide (s' = s)) as [->|Hne]; [rewrite lookup_insert_eq; naive_solver|].
    rewrite lookup_insert_ne by done. naive_solver.
  - intros s'. rewrite Hsnoc. destruct (String.eqb_spec s s') as [<-|Hne]; [by rewrite lookup_insert_eq, Hs|].
    rewrite lookup_insert_ne by done. by destruct (queues !! s').
Qed.

Section lemmas.
Context `{Env} `{Net}.

Lemma unsubscribeAll_spec subs :
  yields (unsubscribeAll subs) (λ _ evs, evs = map (λ s, EvUnsubscribe (cs_Subject s)) subs).
Proof.
  induction subs as [|s rest IH]; [by apply yields_ret|]. cbn [unsubscribeAll].
  eapply yields_bind; [apply yields_emit|]. intros [] ? ->.
  eapply yields_weaken; [apply IH|]. by intros [] ? ->.
Qed.

Lemma subscribe_all_spec queues order subs :
  yields (subscribe_all queues order subs) (λ out evs, ∃ oks : list bool,
    length oks = length order ∧
    evs = zip_with (λ s ok, EvSubscribe s (default "" (queues !! s)) ok) order oks ∧
    out = (subs ++ omap (λ x : string * bool,
             if x.2 then Some (MkCoreSubscription x.1 (default "" (queues !! x.1))) else None) (zip order oks))%list).
Proof.
  revert subs. induction order as [|s rest IH]; intros subs; cbn [subscribe_all].
  { apply yields_ret. exists []. by rewrite app_nil_r. }
  eapply yields_bind; [by apply (yields_world _ (λ _, True))|]. intros ok ? [_ ->].
  eapply yields_bind; [apply yields_emit|]. intros [] ? ->.
  eapply yields_weaken; [apply IH|]. intros out evs (oks & Hlen & -> & ->). exists (ok :: oks).
  split_and!; [cbn; lia|done|]. destruct ok; cbn; [by rewrite <- app_assoc|done].
Qed.

(** What the actions of a message leave, respond actions aside. *)
Definition silent_run (re : Responder) (a : Action) (evs : list net_event) : Prop :=
  ∃ r, action_run (re_publisher re) (re_httpExecutor re) (MkAction (a_NATS a) (a_HTTP a) None None) r evs.

Lemma replies_quiet evs : Forall quiet evs → replies evs = [].
Proof. induction 1 as [|[] l Hq _ IH]; done. Qed.
Lemma replies_app evs evs' : replies (evs ++ evs') = (replies evs ++ replies evs')%list.
Proof. apply omap_app. Qed.

(** What one action of a message leaves. *)
Definition core_action_run (re : Responder) (msg : core_msg) (a : Action) (evs : list net_event) : Prop :=
  match a_Respond a with
  | Some ra => evs = [] ∨ ∃ ok, evs = [EvRespond (reply_msg msg ra) ok]
  | None => silent_run re a evs
  end.

Lemma silent_run_quiet re a evs : silent_run re a evs → Forall quiet evs.
Proof. by intros (r & [? _]%action_run_plain). Qed.

Lemma core_actions_spec re ctx msg actions responded :
  yields (core_actions re ctx msg actions responded) (λ _ evs,
    replies evs = (if String.eqb (cm_Reply msg) "" || responded then []
                   else match first_respond actions with Some ra => [reply_msg msg ra] | None => [] end) ∧
    ∃ evss, evs = concat evss ∧ Forall2 (core_action_run re msg) actions evss).
Proof.
  revert responded. induction actions as [|a rest IH]; intros responded; cbn [core_actions].
  { apply yields_ret. split; [by destruct (_ || _)|]. exists []. by split; [|constructor]. }
  assert (∀ evs, silent_run re a evs → a_Respond a = None → ∀ (m : NM unit), m = core_actions re ctx msg rest responded →
    yields m (λ _ evs', replies (evs ++ evs') = (if String.eqb (cm_Reply msg) "" || responded then []
        else match first_respond (a :: rest) with Some ra => [reply_msg msg ra] | None => [] end) ∧
      ∃ evss, (evs ++ evs')%list = concat evss ∧ Forall2 (core_action_run re msg) (a :: rest) evss)) as Hsilent.
  { intros evs Hs Ha m ->. eapply yields_weaken; [apply IH|]. intros [] evs' (Hr & evss & -> & Hall).
    rewrite replies_app, (replies_quiet evs) by (by eapply silent_run_quiet). split.
    - cbn [app]. rewrite Hr. unfold first_respond. cbn. by rewrite Ha.
    - exists (evs :: evss). split; [done|]. constructor; [unfold core_action_run; by rewrite Ha|done]. }
  destruct (a_Respond a) as [ra|] eqn:Ha; [|destruct (a_NATS a) as [n|] eqn:Hn; [|destruct (a_HTTP a) as [h|] eqn:Hh]].
  - clear Hsilent. assert (first_respond (a :: rest) = Some ra) as -> by (unfold first_respond; cbn; by rewrite Ha).
    destruct (String.eqb (cm_Reply msg) "") eqn:Hr; cbn [orb]; [|destruct responded].
    + eapply yields_weaken; [apply IH|]. intros [] evs (Hre & evss & -> & Hall). split; [done|].
      exists ([] :: evss). split; [done|]. constructor; [|done]. unfold core_action_run. rewrite Ha. by left.
    + eapply yields_weaken; [apply IH|]. intros [] evs (Hre & evss & -> & Hall). split; [done|].
      exists ([] :: evss). split; [done|]. constructor; [|done]. unfold core_action_run. rewrite Ha. by left.
    + unfold respond. eapply (yields_bind _ _ (λ _ evs, ∃ ok, evs = [EvRespond (reply_msg msg ra) ok])).
      { eapply yields_bind; [by apply (yields_world _ (λ _, True))|]. intros ok ? [_ ->].
        eapply yields_weaken; [apply yields_emit|]. intros [] ? ->. by exists ok. }
      intros [] ? (ok & ->). eapply yields_weaken; [apply IH|]. intros [] evs (Hre & evss & -> & Hall). split.
      * rewrite replies_app, Hre, orb_true_r. done.
      * exists ([EvRespond (reply_msg msg ra) ok] :: evss). split; [done|]. constructor; [|done].
        unfold core_action_run. rewrite Ha. eauto.
  - eapply yields_bind; [apply PublishWithRetry_run|]. intros r evs Hrun. apply Hsilent; [|done|done].
    exists (map_err (Wrap NATSActionFailed) r). unfold action_run. cbn. rewrite Hn. eauto.
  - destruct (re_httpExecutor re) as [x|] eqn:Hx.
    + eapply yields_bind; [apply hx_executes|]. intros r evs Hrun. apply Hsilent; [|done|done].
      exists (map_err (Wrap HTTPActionFailed) r). unfold action_run. cbn. rewrite Hn, Hh, Hx. eauto.
    + apply (Hsilent []); [|done|done]. exists (Ok tt). unfold action_run. cbn. by rewrite Hn, Hh, Hx.
  - apply (Hsilent []); [|done|done]. exists (Ok tt). unfold action_run. cbn. by rewrite Hn, Hh.
Qed.
End lemmas.

(** ** Properties *)

Section properties.
Context `{Env} `{Net}.

Lemma Rebuild_spec (re : Responder) rules :
  yields (Rebuild re rules) (λ re' evs,
    if re_closed re then re' = re ∧ evs = []
    else re_closed re' = false ∧ NoDup (map cs_Subject (re_subs re')) ∧
      (∀ s q, MkCoreSubscription s q ∈ re_subs re' → queue_of rules s = Some q) ∧
      (∀ s q, queue_of rules s = Some q →
         MkCoreSubscription s q ∈ re_subs re' ∨ EvSubscribe s q false ∈ evs) ∧
      ∃ evs', evs = (map (λ s, EvUnsubscribe (cs_Subject s)) (re_subs re) ++ evs')%list).
Proof.
  unfold Rebuild. destruct (re_closed re); [by apply yields_ret|].
  eapply yields_bind; [apply unsubscribeAll_spec|]. intros [] ? ->.
  pose proof (collect_core_spec rules) as Hc. destruct (foldl collect_core (∅, []) rules) as [queues order].
  destruct Hc as (Hnd & Hin & Hq).
  eapply yields_bind; [apply subscribe_all_spec|]. intros subs evs (oks & Hlen & -> & ->).
  apply yields_ret. rewrite app_nil_r. cbn [with_subs re_closed re_subs app].
  assert (∀ s q, MkCoreSubscription s q ∈ omap (λ x : string * bool,
             if x.2 then Some (MkCoreSubscription x.1 (default "" (queues !! x.1))) else None) (zip order oks) ↔
    (s, true) ∈ zip order oks ∧ q = default "" (queues !! s)) as Hel.
  { intros s q. rewrite list_elem_of_omap. split; [|intros [? ->]; by exists (s, true)].
    intros ([s' []] & ? & [= <- <-]). done. }
  split_and!; [done| | | |eauto].
  - clear Hel Hin. revert oks Hlen. induction Hnd as [|s order Hs _ IH]; intros oks Hlen; [apply NoDup_nil_2|].
    destruct oks as [|[] oks]; [done| |apply IH; by injection Hlen]. cbn [zip zip_with]. cbn. constructor.
    + intros (x & Hx & ([s' []] & Hz & [= <-])%list_elem_of_omap)%list_elem_of_fmap. cbn in Hx. subst s'.
      apply elem_of_zip_l in Hz. done.
    + apply IH. by injection Hlen.
  - intros s q [Hz ->]%Hel. apply elem_of_zip_l, Hin in Hz as [q Hz]. by rewrite <- Hq, Hz.
  - intros s q Hsq. rewrite <- Hq in Hsq. assert (s ∈ order) as [i Hi]%list_elem_of_lookup by (apply Hin; eauto).
    destruct (lookup_lt_is_Some_2 oks i) as [ok Hok]; [rewrite Hlen; by eapply lookup_lt_Some|].
    destruct ok; [left|right].
    + apply Hel. rewrite Hsq. split; [|done]. apply list_elem_of_lookup. exists i.
      rewrite lookup_zip_with, Hi. cbn. by rewrite Hok.
    + apply elem_of_app. right. apply list_elem_of_lookup. exists i. rewrite lookup_zip_with, Hi. cbn.
      by rewrite Hok, Hsq.
Qed.

(** After a rebuild the old subscriptions are gone and there is one for every
    subject of a core rule, with the queue of the subject's first rule, unless
    the server refused it; no subject has two.  A closed responder stays as it
    is. *)
Theorem Rebuild_correct (re : Responder) rules :
  yields (Rebuild re rules) (λ re' evs,
    if re_closed re then re' = re ∧ evs = []
    else re_closed re' = false ∧ NoDup (map cs_Subject (re_subs re')) ∧
      (∀ s q, MkCoreSubscription s q ∈ re_subs re' → queue_of rules s = Some q) ∧
      (∀ s q, queue_of rules s = Some q →
         MkCoreSubscription s q ∈ re_subs re' ∨ EvSubscribe s q false ∈ evs) ∧
      ∃ evs', evs = (map (λ s, EvUnsubscribe (cs_Subject s)) (re_subs re) ++ evs')%list).
Proof. apply Rebuild_spec. Qed.

Lemma makeHandler_spec (re : Responder) subject (msg : core_msg) (s : Site) :
  let engine := ProcessForSubscription subject (cm_Subject msg) (cm_Data msg)
      (map_to_list (inbound_headers (cm_Headers msg))) (Some CoreRuleFilter) (si_engine s) in
  let s' := (makeHandler re subject msg s).2 in
  si_engine s' = engine.2 ∧ ∃ evs, n_log (si_net s') = (n_log (si_net s) ++ evs)%list ∧
    match engine.1 with
    | Err _ => evs = [] ∧ si_coalescer s' = si_coalescer s
    | Ok outcome =>
        si_coalescer s' = submitted (si_coalescer s) (o_Deferred outcome) (net_Now (n_world (si_net s))) ∧
        replies evs = (if String.eqb (cm_Reply msg) "" then []
                       else match first_respond (o_Immediate outcome) with
                            | Some ra => [reply_msg msg ra] | None => [] end) ∧
        ∃ evss, evs = concat evss ∧ Forall2 (core_action_run re msg) (o_Immediate outcome) evss
    end.
Proof.
  intros engine s'. subst s' engine. unfold makeHandler, mbind, SM_bind, on_engine.
  destruct (ProcessForSubscription _ _ _ _ _ (si_engine s)) as [[outcome|e] eng]; cbn [fst snd].
  2: { split; [done|]. exists []. by rewrite app_nil_r. }
  rewrite submit_all_spec. cbn [si_engine si_coalescer si_net on_net getN n_world].
  unfold on_net. set (ctx := context_WithTimeout _ _ _).
  destruct (core_actions_spec re ctx msg (o_Immediate outcome) false (si_net s)) as (evs & Hl & Hr & Hall).
  cbn [si_net si_engine si_coalescer]. destruct (core_actions _ _ _ _ _ _) as [[] n]. cbn in *.
  rewrite orb_false_r in Hr. split; [done|]. exists evs. done.
Qed.

(** C22: A message of a core subscription: the engine evaluates the core rules,
    every deferred batch is submitted, every other action is tried in order,
    and the request is answered at most once, by the first respond action, when
    it says where to reply; without an outcome nothing leaves. *)
Theorem request_answered (re : Responder) subject (msg : core_msg) (s : Site) :
  let engine := ProcessForSubscription subject (cm_Subject msg) (cm_Data msg)
      (map_to_list (inbound_headers (cm_Headers msg))) (Some CoreRuleFilter) (si_engine s) in
  let s' := (makeHandler re subject msg s).2 in
  si_engine s' = engine.2 ∧ ∃ evs, n_log (si_net s') = (n_log (si_net s) ++ evs)%list ∧
    match engine.1 with
    | Err _ => evs = [] ∧ si_coalescer s' = si_coalescer s
    | Ok outcome =>
        si_coalescer s' = submitted (si_coalescer s) (o_Deferred outcome) (net_Now (n_world (si_net s))) ∧
        replies evs = (if String.eqb (cm_Reply msg) "" then []
                       else match first_respond (o_Immediate outcome) with
                            | Some ra => [reply_msg msg ra] | None => [] end) ∧
        ∃ evss, evs = concat evss ∧ Forall2 (core_action_run re msg) (o_Immediate outcome) evss
    end.
Proof. apply makeHandler_spec. Qed.
End properties.
