(* ===== verification/Gateway.v ===== *)
(** * The inbound gateway (internal/gateway/server.go)

    One handler for every path: the route, the body, the signature, and then
    either an answer computed at once or a place in the work queue, that workers
    drain.  The queue, its closing and the workers are steps of a transition
    system; the rule set may change between two of them. *)

From S2P Require Import Prelude GoStrings GoFloat GoTime Value Types Context Env Demo PathMatcher Index Hmac Processor Coalescer.
From S2P Require Import Net HttpClient Publisher Site.
Local Open Scope string_scope.

Definition DefaultInboundWorkerCount : Z := 10.
Definition DefaultInboundQueueSize : Z := 100.
Definition MaxInboundBodySize : Z := 10 * 1024 * 1024.
Definition DefaultRequestTimeout : Z := 5 * Second.

(** A one-field JSON document. *)
Definition status_json (status : string) : string :=
  let q := String "034" "" in "{" ++ q ++ "status" ++ q ++ ":" ++ q ++ status ++ q ++ "}".
Definition responseAccepted : string := status_json "accepted".
Definition responseHealthy : string := status_json "healthy".

(** ** Requests and replies *)

(** [http.Request], as the handler reads it: the headers and the parsed query in
    the order [range] visits them; the bytes that reading the body gives, and
    whether an error follows them rather than the end. *)
Record in_request (C : Type) := MkInRequest {
  ir_Path : string; ir_Method : string;
  ir_Header : list (string * list string); ir_Query : list (string * list string);
  ir_Body : string; ir_Broken : bool;
  ir_Context : C;
}.
Arguments MkInRequest {C}.
Arguments ir_Path {C}.
Arguments ir_Method {C}.
Arguments ir_Header {C}.
Arguments ir_Query {C}.
Arguments ir_Body {C}.
Arguments ir_Broken {C}.
Arguments ir_Context {C}.

(** What was written to the [http.ResponseWriter]. *)
Record http_reply := MkReply { ry_Status : Z; ry_Header : gmap string string; ry_Body : string }.

(** [http.Error] on a writer without headers. *)
Definition http_Error (msg : string) (status : Z) : http_reply :=
  MkReply status (<["X-Content-Type-Options" := "nosniff"]> {[ contentType := "text/plain; charset=utf-8" ]})
    (msg ++ String "010" "").

Definition json_reply (body : string) : http_reply := MkReply 200 {[ contentType := "application/json" ]} body.
Definition healthHandler : http_reply := json_reply responseHealthy.

(** [WriteHeader] and then [Write]: an informational status is not the last one,
    the body follows with 200; 101, 204 and 304 have none. *)
Definition final_status (status : Z) : Z :=
  if ((100 <=? status) && (status <=? 199) && negb (status =? 101))%Z then 200%Z else status.
Definition bodyAllowed (status : Z) : bool := negb ((status =? 101) || (status =? 204) || (status =? 304))%Z.
Definition written (status : Z) (headers : gmap string string) (body : string) : http_reply :=
  let status := final_status status in
  MkReply status headers (if bodyAllowed status then body else "").

(** The body within the limit: [io.ReadAll(io.LimitReader(...))]. *)
Definition read_body {C} (r : in_request C) : option string :=
  if (ir_Broken r && (Z.of_nat (slen (ir_Body r)) <? MaxInboundBodySize)%Z)%bool then None
  else Some (limit_read MaxInboundBodySize (ir_Body r)).

(** The first value of every name; names as they are. *)
Definition inbound_query (query : list (string * list string)) : QueryParams :=
  foldl (λ q kv, match kv.2 with v :: _ => <[kv.1 := v]> q | [] => q end) ∅ query.

Record routeInfo := MkRouteInfo { rt_path : string; rt_route : string; rt_method : string }.
Definition unknown_route : string := "_unknown_".

Record webhookJob := MkWebhookJob {
  wj_path : string; wj_method : string; wj_body : string; wj_headers : gmap string string; wj_query : QueryParams;
}.

Section gateway.
Context `{Env} `{Crypto} `{Net}.

(** [NATSPublisher]: what a run may emit is the publisher's own matter, as long
    as it is publications and waits. *)
Class NATSPublisher := {
  np_PublishWithRetry : GoContext → NATSAction → NM (result error unit);
  np_runs : NATSAction → result error unit → list net_event → Prop;
  np_publishes : ∀ ctx a, yields (np_PublishWithRetry ctx a) (np_runs a);
  np_quiet : ∀ a r evs, np_runs a r evs → Forall quiet evs;
}.

Record InboundServer := MkInboundServer {
  is_publisher : NATSPublisher;
  is_workers : Z;
  is_queueSize : Z;
}.

Definition NewInboundServer (publisher : NATSPublisher) (workerCount queueSize : Z) : InboundServer :=
  MkInboundServer publisher
    (if (workerCount <=? 0)%Z then DefaultInboundWorkerCount else workerCount)
    (if (queueSize <=? 0)%Z then DefaultInboundQueueSize else queueSize).

Definition publishToNATS (s : InboundServer) (ctx : GoContext) (action : NATSAction) : NM (result error unit) :=
  @np_PublishWithRetry (is_publisher s) ctx action.

Definition gateway_executeDeferred (s : InboundServer) (ctx : GoContext) (action : Action) : NM (result error unit) :=
  match a_NATS action with
  | None => mret (Ok tt)
  | Some n => r ← publishToNATS s ctx n; mret (map_err (Wrap NATSActionFailed) r)
  end.

(** [recordSync] and the other counts of a request. *)
Definition record (rt : routeInfo) (status : Z) : NM unit :=
  emit_event (EvInbound (rt_route rt) (rt_method rt) status).

(** ** Queued webhooks *)

Fixpoint webhook_actions (s : InboundServer) (ctx : GoContext) (actions : list Action) : NM unit :=
  match actions with
  | [] => mret tt
  | a :: rest =>
      match a_NATS a with
      | Some n => _ ← publishToNATS s ctx n; webhook_actions s ctx rest
      | None => webhook_actions s ctx rest
      end
  end.

Definition processWebhook (s : InboundServer) (ctx : GoContext) (job : webhookJob) : SM unit :=
  outcome ← on_engine (ProcessHTTP (wj_path job) (wj_method job) (wj_body job)
                         (map_to_list (wj_headers job)) (wj_query job));
  match outcome with
  | Err _ => mret (M:=SM) tt
  | Ok outcome =>
      _ ← submit_all (o_Deferred outcome);
      on_net (webhook_actions s ctx (o_Immediate outcome))
  end.

(** ** Synchronous routes *)

Definition writeSyncError (rt : routeInfo) (status : Z) (msg : string) : NM (option http_reply) :=
  _ ← record rt status; mret (Some (http_Error msg status)).

Definition respond_status (ra : RespondAction) : Z := if (ra_StatusCode ra =? 0)%Z then 200%Z else ra_StatusCode ra.

Definition writeRespond (rt : routeInfo) (ra : RespondAction) : NM (option http_reply) :=
  headers ← with_world (range_order (map_to_list (ra_Headers ra)));
  _ ← record rt (respond_status ra);
  mret (Some (written (respond_status ra) (default_content_type (set_headers headers))
                (if ra_Passthrough ra then ra_RawPayload ra else ra_Payload ra))).

Definition bridge_timeout (action : NATSAction) : Z :=
  if String.eqb (na_Timeout action) "" then DefaultRequestTimeout
  else default DefaultRequestTimeout (ParseDuration (na_Timeout action)).

Definition bridge_content_type (reply : nats_msg) : string :=
  let ct := default "" (nm_Header reply !! contentType) in
  if String.eqb ct "" then "application/json" else ct.

(** [None] when the client is gone: nothing is written. *)
Definition bridgeRequest (parent : GoContext) (rt : routeInfo) (action : NATSAction) : NM (option http_reply) :=
  let msg := newActionMsg action in
  w ← getN;
  let ctx := context_WithTimeout parent (bridge_timeout action) w in
  reply ← with_world (conn_Request ctx msg);
  _ ← emit_event (EvBridge msg reply);
  match reply with
  | BrReply reply =>
      _ ← record rt 200;
      mret (Some (MkReply 200 {[ contentType := bridge_content_type reply ]} (nm_Data reply)))
  | BrNoResponders => writeSyncError rt 503 "Service Unavailable: no NATS responder"
  | BrTimeout | BrFailed =>
      w ← getN;
      if ctx_Done parent w then _ ← record rt 499; mret None
      else match reply with
           | BrTimeout => writeSyncError rt 504 "Gateway Timeout: NATS request timed out"
           | _ => writeSyncError rt 502 "Bad Gateway: NATS request failed"
           end
  end.

(** The loop over the immediate actions: [answer] is what the first respond or
    request action wrote, once there was one. *)
Fixpoint sync_actions (s : InboundServer) (parent : GoContext) (rt : routeInfo) (actions : list Action)
    (answer : option (option http_reply)) : NM (option (option http_reply)) :=
  match actions with
  | [] => mret answer
  | a :: rest =>
      match a_Respond a, a_NATS a with
      | Some ra, _ =>
          match answer with
          | Some _ => sync_actions s parent rt rest answer
          | None => reply ← writeRespond rt ra; sync_actions s parent rt rest (Some reply)
          end
      | None, Some n =>
          if na_Request n then
            match answer with
            | Some _ => sync_actions s parent rt rest answer
            | None => reply ← bridgeRequest parent rt n; sync_actions s parent rt rest (Some reply)
            end
          else _ ← publishToNATS s parent n; sync_actions s parent rt rest answer
      | None, None => sync_actions s parent rt rest answer
      end
  end.

Definition sync_answer (s : InboundServer) (parent : GoContext) (rt : routeInfo) (actions : list Action)
    : NM (option http_reply) :=
  answer ← sync_actions s parent rt actions None;
  match answer with
  | Some reply => mret reply
  | None => writeSyncError rt 404 "Not Found"
  end.

Definition handleSync (s : InboundServer) (parent : GoContext) (rt : routeInfo) (body : string)
    (headers : gmap string string) (query : QueryParams) : SM (option http_reply) :=
  outcome ← on_engine (ProcessHTTP (rt_path rt) (rt_method rt) body (map_to_list headers) query);
  match outcome with
  | Err _ => on_net (writeSyncError rt 500 "Internal Server Error")
  | Ok outcome =>
      _ ← submit_all (o_Deferred outcome);
      on_net (sync_answer s parent rt (o_Immediate outcome))
  end.

(** ** The handler and the queue *)

Record Gateway := MkGateway { gw_site : Site; gw_queue : list webhookJob; gw_closed : bool }.

(** What the handler comes to; a send on the closed queue panics. *)
Inductive inbound_result := Replied (reply : http_reply) | Abandoned | Panicked.

Definition GM (A : Type) : Type := Gateway → A * Gateway.
#[export] Instance GM_ret : MRet GM := λ A a g, (a, g).
#[export] Instance GM_bind : MBind GM := λ A B f m g, let '(a, g') := m g in f a g'.
Definition on_site {A} (m : SM A) : GM A := λ g,
  let '(a, s) := m (gw_site g) in (a, MkGateway s (gw_queue g) (gw_closed g)).

Definition refuse (rt : routeInfo) (status : Z) (msg : string) : GM inbound_result :=
  _ ← on_site (on_net (record rt status)); mret (M:=GM) (Replied (http_Error msg status)).

Definition queue_full_msg (s : InboundServer) : string :=
  "Service Unavailable: webhook queue full (capacity " ++ Itoa (is_queueSize s)
  ++ "). Increase http.server.inboundQueueSize in config.".

Definition enqueue (s : InboundServer) (rt : routeInfo) (job : webhookJob) : GM inbound_result := λ g,
  if gw_closed g then (Panicked, g)
  else if (Z.of_nat (length (gw_queue g)) <? is_queueSize s)%Z then
    (_ ← on_site (on_net (record rt 200)); mret (M:=GM) (Replied (json_reply responseAccepted)))
      (MkGateway (gw_site g) (gw_queue g ++ [job])%list (gw_closed g))
  else refuse rt 503 (queue_full_msg s) g.

Definition processor_of : SM Processor := on_engine getP.

Definition webhookHandler (s : InboundServer) (r : in_request GoContext) : GM inbound_result :=
  let path := ir_Path r in
  p ← on_site processor_of;
  match MatchHTTPPath p path with
  | None => refuse (MkRouteInfo path unknown_route (ir_Method r)) 404 "Not Found"
  | Some matchedRoute =>
      let rt := MkRouteInfo path matchedRoute (ir_Method r) in
      match read_body r with
      | None => refuse rt 400 "Bad Request"
      | Some body =>
          let headers := inbound_headers (ir_Header r) in
          let query := inbound_query (ir_Query r) in
          check ← on_site (on_engine (lift (CheckHTTPHMAC p path (ir_Method r) body headers)));
          let '(required, ok) := check : bool * bool in
          if (required && negb ok)%bool then refuse rt 401 "Unauthorized"
          else if HasSyncHTTPPath p path (ir_Method r) then
            reply ← on_site (handleSync s (ir_Context r) rt body headers query);
            mret (M:=GM) match reply with Some reply => Replied reply | None => Abandoned end
          else enqueue s rt (MkWebhookJob path (ir_Method r) body headers query)
      end
  end.

(** A worker takes the oldest webhook. *)
Definition worker (s : InboundServer) : GM unit := λ g,
  match gw_queue g with
  | [] => (tt, g)
  | job :: rest => on_site (processWebhook s context_Background job) (MkGateway (gw_site g) rest (gw_closed g))
  end.

(** [Stop]: the queue is closed once the listener is shut down, and flushed
    when the workers are done, or when the grace period ends. *)
Definition close_queue (g : Gateway) : Gateway := MkGateway (gw_site g) (gw_queue g) true.
Definition flush (g : Gateway) : list DeferredBatch * Gateway :=
  let '(batches, c) := Coalescer.Stop (si_coalescer (gw_site g)) in
  (batches, MkGateway (MkSite (si_engine (gw_site g)) c (si_net (gw_site g))) (gw_queue g) (gw_closed g)).

(** Requests, the work of the workers, the shutdown, and changes of the rule
    set, in any order.  A request may still be in the handler when the queue is
    closed, if the listener did not shut down in time. *)
Inductive gateway_event :=
| Request (r : in_request GoContext) | Work | StopServer | SwapRules (set : KVRuleSet).

Definition swap_rules (set : KVRuleSet) (g : Gateway) : Gateway :=
  let '(p, st) := si_engine (gw_site g) in
  MkGateway (MkSite (ReplaceKVRuleSet p set, st) (si_coalescer (gw_site g)) (si_net (gw_site g)))
    (gw_queue g) (gw_closed g).

Definition gateway_step (s : InboundServer) (ev : gateway_event) (g : Gateway) : Gateway :=
  match ev with
  | Request r => (webhookHandler s r g).2
  | Work => (worker s g).2
  | StopServer => close_queue g
  | SwapRules set => swap_rules set g
  end.
Definition gateway_run (s : InboundServer) (evs : list gateway_event) (g : Gateway) : Gateway :=
  foldl (λ g ev, gateway_step s ev g) g evs.
End gateway.

Arguments InboundServer : clear implicits.
Arguments InboundServer {_}.
Arguments Gateway : clear implicits.
Arguments Gateway {_ _}.

(** ** Specification *)

(** What the HTTP metric counts, and the other events of an answer. *)
Definition counts (evs : list net_event) : list (string * string * Z) :=
  omap (λ ev, match ev with EvInbound route method status => Some (route, method, status) | _ => None end) evs.
Definition is_answer (ev : net_event) : bool :=
  match ev with EvBridge _ _ | EvInbound _ _ _ => true | _ => false end.

(** The action that answers a synchronous request, and those that are published
    besides. *)
Fixpoint first_answer (actions : list Action) : option (RespondAction + NATSAction) :=
  match actions with
  | [] => None
  | a :: rest =>
      match a_Respond a, a_NATS a with
      | Some ra, _ => Some (inl ra)
      | None, Some n => if na_Request n then Some (inr n) else first_answer rest
      | None, None => first_answer rest
      end
  end.
Definition side_publish (a : Action) : option NATSAction :=
  match a_Respond a, a_NATS a with
  | None, Some n => if na_Request n then None else Some n
  | _, _ => None
  end.
(** What a worker publishes of an outcome. *)
Definition webhook_publish (a : Action) : option NATSAction := a_NATS a.

Section specification.
Context `{Env} `{Crypto} `{Net}.

(** The publications of actions, in order. *)
Definition published (s : InboundServer) (actions : list NATSAction) (evs : list net_event) : Prop :=
  ∃ evss, evs = concat evss ∧ Forall2 (λ n evs, ∃ r, @np_runs _ (is_publisher s) n r evs) actions evss.

(** The actions before the one that answers. *)
Fixpoint before_answer (actions : list Action) : list Action :=
  match actions with
  | [] => []
  | a :: rest => match first_answer [a] with Some _ => [] | None => a :: before_answer rest end
  end.

(** What NATS replies to a request action, within its own timeout and no longer
    than the client waits. *)
Definition asked (parent : GoContext) (n : NATSAction) (w : NWorld) : bridge_reply * NWorld :=
  conn_Request (context_WithTimeout parent (bridge_timeout n) w) (newActionMsg n) w.

(** The answer of the chosen action in a world, and its events: one bridge request
    at most, one count.  [ctx_Done parent] tells that the client is gone. *)
Inductive answer_run (parent : GoContext) (rt : routeInfo) (w : NWorld) :
    option (RespondAction + NATSAction) → option http_reply → list net_event → Prop :=
| answer_none :
    answer_run parent rt w None (Some (http_Error "Not Found" 404)) [EvInbound (rt_route rt) (rt_method rt) 404]
| answer_respond ra :
    answer_run parent rt w (Some (inl ra))
      (Some (written (respond_status ra)
               (default_content_type (set_headers (range_order (map_to_list (ra_Headers ra)) w).1))
               (if ra_Passthrough ra then ra_RawPayload ra else ra_Payload ra)))
      [EvInbound (rt_route rt) (rt_method rt) (respond_status ra)]
| answer_bridged n reply w' :
    asked parent n w = (BrReply reply, w') →
    answer_run parent rt w (Some (inr n)) (Some (MkReply 200 {[ contentType := bridge_content_type reply ]} (nm_Data reply)))
      [EvBridge (newActionMsg n) (BrReply reply); EvInbound (rt_route rt) (rt_method rt) 200]
| answer_unserved n w' :
    asked parent n w = (BrNoResponders, w') →
    answer_run parent rt w (Some (inr n)) (Some (http_Error "Service Unavailable: no NATS responder" 503))
      [EvBridge (newActionMsg n) BrNoResponders; EvInbound (rt_route rt) (rt_method rt) 503]
| answer_timeout n w' :
    asked parent n w = (BrTimeout, w') → ctx_Done parent w' = false →
    answer_run parent rt w (Some (inr n)) (Some (http_Error "Gateway Timeout: NATS request timed out" 504))
      [EvBridge (newActionMsg n) BrTimeout; EvInbound (rt_route rt) (rt_method rt) 504]
| answer_failed n w' :
    asked parent n w = (BrFailed, w') → ctx_Done parent w' = false →
    answer_run parent rt w (Some (inr n)) (Some (http_Error "Bad Gateway: NATS request failed" 502))
      [EvBridge (newActionMsg n) BrFailed; EvInbound (rt_route rt) (rt_method rt) 502]
| answer_abandoned n reply w' :
    asked parent n w = (reply, w') → ctx_Done parent w' = true → reply = BrTimeout ∨ reply = BrFailed →
    answer_run parent rt w (Some (inr n)) None
      [EvBridge (newActionMsg n) reply; EvInbound (rt_route rt) (rt_method rt) 499].

(** A synchronous run from [st]: the answer, in the world that the publications
    before it left, and what is published besides. *)
Definition sync_run (s : InboundServer) (parent : GoContext) (rt : routeInfo) (actions : list Action) (st : NSt)
    (reply : option http_reply) (evs : list net_event) : Prop :=
  answer_run parent rt (n_world (webhook_actions s parent (before_answer actions) st).2) (first_answer actions) reply
    (List.filter is_answer evs) ∧
  published s (omap side_publish actions) (List.filter (λ ev, negb (is_answer ev)) evs).

Definition job_of_request (r : in_request GoContext) (body : string) : webhookJob :=
  MkWebhookJob (ir_Path r) (ir_Method r) body (inbound_headers (ir_Header r)) (inbound_query (ir_Query r)).

(** The webhooks a run accepted, and those its workers took, in order. *)
Fixpoint history (s : InboundServer) (evs : list gateway_event) (g : Gateway) : list webhookJob * list webhookJob :=
  match evs with
  | [] => ([], [])
  | ev :: rest =>
      let g' := gateway_step s ev g in
      let '(accepted, done) := history s rest g' in
      match ev with
      | Request _ => ((drop (length (gw_queue g)) (gw_queue g') ++ accepted)%list, done)
      | Work => (accepted, (take 1 (gw_queue g) ++ done)%list)
      | StopServer | SwapRules _ => (accepted, done)
      end
  end.
End specification.

(** ** Lemmas *)

Lemma counts_app evs evs' : counts (evs ++ evs') = (counts evs ++ counts evs')%list.
Proof. apply omap_app. Qed.

Lemma filter_answer_quiet evs : Forall quiet evs →
  List.filter is_answer evs = [] ∧ List.filter (λ ev, negb (is_answer ev)) evs = evs.
Proof. induction 1 as [|[] l Hq _ [IH1 IH2]]; try done; cbn; by rewrite IH1, IH2. Qed.

Section lemmas.
Context `{Env} `{Crypto} `{Net}.

Lemma published_nil s : published s [] [].
Proof. exists []. by split; [|constructor]. Qed.

Lemma published_cons s n r evs actions evs' :
  @np_runs _ (is_publisher s) n r evs → published s actions evs' → published s (n :: actions) (evs ++ evs').
Proof. intros Hr (evss & -> & Hall). exists (evs :: evss). split; [done|]. constructor; eauto. Qed.

(** [yields] from one state, for what depends on the world. *)
Definition yields_from {A} (st : NSt) (m : NM A) (P : A → list net_event → Prop) : Prop :=
  ∃ evs, n_log (m st).2 = (n_log st ++ evs)%list ∧ P (m st).1 evs.

Lemma yields_from_bind {A B} st (m : NM A) (f : A → NM B) P Q :
  yields_from st m P →
  (∀ a evs st', m st = (a, st') → P a evs → yields_from st' (f a) (λ b evs', Q b (evs ++ evs')%list)) →
  yields_from st (m ≫= f) Q.
Proof.
  intros (evs & Hl & Hp) Hf. unfold yields_from, mbind, NM_bind. destruct (m st) as [a st'].
  destruct (Hf a evs st' eq_refl Hp) as (evs' & Hl' & Hq). cbn in *. exists (evs ++ evs')%list.
  by rewrite Hl', Hl, app_assoc.
Qed.

Lemma yields_from_weaken {A} st (m : NM A) (P Q : A → list net_event → Prop) :
  yields_from st m P → (∀ a evs, P a evs → Q a evs) → yields_from st m Q.
Proof. intros (evs & ? & ?) HPQ. exists evs. eauto. Qed.

Lemma yields_at {A} st (m : NM A) (P : A → list net_event → Prop) : yields m P → yields_from st m P.
Proof. intros Hm. apply Hm. Qed.

Lemma record_spec rt status : yields (record rt status) (λ _ evs, evs = [EvInbound (rt_route rt) (rt_method rt) status]).
Proof. apply yields_emit. Qed.

Lemma writeSyncError_spec rt status msg : yields (writeSyncError rt status msg) (λ out evs,
  out = Some (http_Error msg status) ∧ evs = [EvInbound (rt_route rt) (rt_method rt) status]).
Proof. eapply yields_bind; [apply record_spec|]. intros [] ? ->. by apply yields_ret. Qed.

Lemma writeRespond_spec parent rt ra st :
  yields_from st (writeRespond rt ra) (answer_run parent rt (n_world st) (Some (inl ra))).
Proof.
  eapply yields_from_bind; [apply yields_at, (yields_world _ (λ _, True)); done|]. intros headers ? st' E [_ ->].
  eapply yields_from_bind; [apply yields_at, record_spec|]. intros [] ? st'' _ ->. apply yields_at, yields_ret. cbn.
  unfold with_world in E. destruct (range_order _ (n_world st)) as [l w] eqn:El. injection E as <- <-.
  pose proof (answer_respond parent rt (n_world st) ra) as Hr. by rewrite El in Hr.
Qed.

Lemma bridgeRequest_spec parent rt n st :
  yields_from st (bridgeRequest parent rt n) (answer_run parent rt (n_world st) (Some (inr n))).
Proof.
  unfold bridgeRequest. eapply yields_from_bind; [apply yields_at, yields_get|]. intros w ? st1 [= <- <-] ->.
  eapply yields_from_bind; [by apply yields_at, (yields_world _ (λ _, True))|]. intros out ? st2 E [_ ->].
  unfold with_world in E. fold (asked parent n (n_world st)) in E.
  destruct (asked parent n (n_world st)) as [out' w'] eqn:Ea. injection E as <- <-.
  eapply yields_from_bind; [apply yields_at, yields_emit|]. intros [] ? st3 [= <-] ->.
  destruct out' as [reply| | |].
  - eapply yields_from_bind; [apply yields_at, record_spec|]. intros [] ? ? _ ->. apply yields_at, yields_ret. by eapply answer_bridged.
  - eapply yields_at, yields_weaken; [apply writeSyncError_spec|]. intros ? ? [-> ->]. by eapply answer_unserved.
  - eapply yields_from_bind; [apply yields_at, yields_get|]. intros w ? ? [= <- <-] ->. destruct (ctx_Done parent w') eqn:Ed.
    + eapply yields_from_bind; [apply yields_at, record_spec|]. intros [] ? ? _ ->. apply yields_at, yields_ret. eapply answer_abandoned; eauto.
    + eapply yields_at, yields_weaken; [apply writeSyncError_spec|]. intros ? ? [-> ->]. by eapply answer_timeout.
  - eapply yields_from_bind; [apply yields_at, yields_get|]. intros w ? ? [= <- <-] ->. destruct (ctx_Done parent w') eqn:Ed.
    + eapply yields_from_bind; [apply yields_at, record_spec|]. intros [] ? ? _ ->. apply yields_at, yields_ret. eapply answer_abandoned; eauto.
    + eapply yields_at, yields_weaken; [apply writeSyncError_spec|]. intros ? ? [-> ->]. by eapply answer_failed.
Qed.

Lemma answer_run_filter parent rt w c reply evs : answer_run parent rt w (Some c) reply evs →
  List.filter is_answer evs = evs ∧ List.filter (λ ev, negb (is_answer ev)) evs = [].
Proof. by inversion 1. Qed.

(** The loop once there is an answer. *)
Lemma sync_actions_answered s parent rt actions reply :
  yields (sync_actions s parent rt actions (Some reply)) (λ out evs, out = Some reply ∧
    List.filter is_answer evs = [] ∧
    published s (omap side_publish actions) (List.filter (λ ev, negb (is_answer ev)) evs)).
Proof.
  induction actions as [|a rest IH]; cbn [sync_actions]; [apply yields_ret; by split_and!; [| |apply published_nil]|].
  unfold side_publish at 1. cbn [omap list_omap].
  destruct (a_Respond a); [done|]. destruct (a_NATS a) as [n|]; [|done]. destruct (na_Request n); [done|].
  eapply yields_bind; [apply np_publishes|]. intros r evs Hr.
  destruct (filter_answer_quiet evs (np_quiet _ _ _ Hr)) as [Ha Hn].
  eapply yields_weaken; [apply IH|]. intros out evs' (-> & Hf & Hp).
  rewrite !List.filter_app, Ha, Hn, Hf. split_and!; [done..|by eapply published_cons].
Qed.

(** The loop from its beginning. *)
Lemma sync_actions_spec s parent rt actions st :
  yields_from st (sync_actions s parent rt actions None) (λ out evs,
    published s (omap side_publish actions) (List.filter (λ ev, negb (is_answer ev)) evs) ∧
    match first_answer actions with
    | None => out = None ∧ List.filter is_answer evs = []
    | Some c => ∃ reply, out = Some reply ∧
        answer_run parent rt (n_world (webhook_actions s parent (before_answer actions) st).2) (Some c) reply
          (List.filter is_answer evs)
    end).
Proof.
  revert st. induction actions as [|a rest IH]; intros st; cbn [sync_actions].
  { apply yields_at, yields_ret. split; [apply published_nil|done]. }
  assert (∀ (m : NM (option http_reply)) c, first_answer [a] = Some c → side_publish a = None →
    yields_from st m (answer_run parent rt (n_world st) (Some c)) →
    yields_from st (reply ← m; sync_actions s parent rt rest (Some reply)) (λ out evs,
      published s (omap side_publish rest) (List.filter (λ ev, negb (is_answer ev)) evs) ∧
      ∃ reply, out = Some reply ∧ answer_run parent rt (n_world st) (Some c) reply (List.filter is_answer evs))) as Hans.
  { intros m c _ _ Hm. eapply yields_from_bind; [exact Hm|]. intros reply evs st' _ Hrun.
    destruct (answer_run_filter _ _ _ _ _ _ Hrun) as [Ha Hn].
    eapply yields_at, yields_weaken; [apply sync_actions_answered|]. intros out evs' (-> & Hf & Hp).
    rewrite !List.filter_app, Ha, Hn, Hf, app_nil_r. cbn. eauto. }
  cbn [omap list_omap]. cbn [before_answer first_answer] in *. unfold side_publish at 1.
  destruct (a_Respond a) as [ra|] eqn:Er; [|destruct (a_NATS a) as [n|] eqn:En; [destruct (na_Request n) eqn:Eq|]].
  - apply (Hans _ (inl ra)); [done|by unfold side_publish; rewrite Er|]. apply writeRespond_spec.
  - apply (Hans _ (inr n)); [done|by unfold side_publish; rewrite Er, En, Eq|]. apply bridgeRequest_spec.
  - clear Hans. eapply yields_from_bind; [apply yields_at, np_publishes|]. intros r evs st' E Hr.
    destruct (filter_answer_quiet evs (np_quiet _ _ _ Hr)) as [Ha Hn].
    eapply yields_from_weaken; [apply IH|]. intros out evs' [Hp Hm].
    rewrite !List.filter_app, Ha, Hn. cbn [app webhook_actions]. rewrite En.
    unfold mbind at 1. unfold NM_bind at 1. unfold publishToNATS in E |- * at 1. rewrite E. split; [by eapply published_cons|done].
  - clear Hans. cbn [webhook_actions]. rewrite En. apply IH.
Qed.

Lemma sync_answer_spec s parent rt actions st :
  yields_from st (sync_answer s parent rt actions) (sync_run s parent rt actions st).
Proof.
  eapply yields_from_bind; [apply sync_actions_spec|]. intros answer evs st' _ [Hp Hm]. unfold sync_run.
  destruct (first_answer actions) as [c|] eqn:Hc.
  - destruct Hm as (reply & -> & Hrun). apply yields_at, yields_ret. by rewrite app_nil_r.
  - destruct Hm as [-> Hf]. eapply yields_at, yields_weaken; [apply writeSyncError_spec|]. intros ? ? [-> ->].
    rewrite !List.filter_app, Hf. cbn. rewrite app_nil_r. split; [constructor|done].
Qed.

Lemma webhook_actions_spec s ctx actions :
  yields (webhook_actions s ctx actions) (λ _ evs, published s (omap webhook_publish actions) evs).
Proof.
  induction actions as [|a rest IH]; cbn [webhook_actions]; [apply yields_ret, published_nil|].
  unfold webhook_publish. cbn [omap list_omap]. destruct (a_NATS a) as [n|]; [|done].
  eapply yields_bind; [apply np_publishes|]. intros r evs Hr.
  eapply yields_weaken; [apply IH|]. intros [] evs' Hp. by eapply published_cons.
Qed.

Lemma published_quiet s actions evs : published s actions evs → Forall quiet evs.
Proof.
  intros (evss & -> & Hall). induction Hall as [|n evs actions evss (r & Hr) _ IH]; [constructor|].
  apply Forall_app. split; [by eapply np_quiet|done].
Qed.
End lemmas.

Section handler.
Context `{Env} `{Crypto} `{Net}.

Lemma counts_filter evs : counts evs = counts (List.filter is_answer evs).
Proof.
  induction evs as [|ev l IH]; [done|]. change (ev :: l) with ([ev] ++ l)%list.
  rewrite List.filter_app, !counts_app, IH. by destruct ev.
Qed.

Lemma answer_run_counts parent rt w c reply evs : answer_run parent rt w c reply evs →
  ∃ status, counts evs = [(rt_route rt, rt_method rt, status)].
Proof. inversion 1; cbn; eauto. Qed.

Lemma match_in_declared exact patterns path route :
  match_in exact patterns path = Some route → route ∈ declared_paths exact patterns.
Proof.
  unfold match_in, declared_paths. rewrite elem_of_union, elem_of_list_to_set. intros Hm.
  assert (((λ pr, http_path (hp_Rule pr)) <$> List.find (λ pr, MatchPath (hp_Matcher pr) path) patterns) = Some route →
    route ∈ map (λ pr, http_path (hp_Rule pr)) patterns) as Hfind.
  { destruct (List.find _ patterns) as [pr|] eqn:Ef; [|done]. intros [= <-]. apply List.find_some in Ef as [Hin _].
    by apply list_elem_of_In, in_map_iff; exists pr. }
  destruct (exact !! path) as [l|] eqn:El; cbn [default id] in Hm; [|by right; apply Hfind].
  destruct (0 <? length l)%nat; [|by right; apply Hfind]. injection Hm as <-. left. apply elem_of_dom. eauto.
Qed.

Lemma MatchHTTPPath_declared p path route : MatchHTTPPath p path = Some route → route ∈ HTTPPaths p.
Proof.
  unfold MatchHTTPPath, HTTPPaths. rewrite elem_of_union.
  destruct (match_in (p_httpExactPaths p) _ path) as [route'|] eqn:Hf.
  - intros [= <-]. left. by eapply match_in_declared.
  - destruct (p_kvRuleSet p); [|done]. intros ?%match_in_declared. by right.
Qed.

(** A synchronous request, whatever the engine makes of it. *)
Lemma handleSync_spec s parent rt body headers query (st : Site) :
  let engine := ProcessHTTP (rt_path rt) (rt_method rt) body (map_to_list headers) query (si_engine st) in
  let out := handleSync s parent rt body headers query st in
  si_engine out.2 = engine.2 ∧ ∃ evs, n_log (si_net out.2) = (n_log (si_net st) ++ evs)%list ∧
    match engine.1 with
    | Err _ =>
        out.1 = Some (http_Error "Internal Server Error" 500) ∧ si_coalescer out.2 = si_coalescer st ∧
        evs = [EvInbound (rt_route rt) (rt_method rt) 500]
    | Ok outcome =>
        si_coalescer out.2 = submitted (si_coalescer st) (o_Deferred outcome) (net_Now (n_world (si_net st))) ∧
        sync_run s parent rt (o_Immediate outcome) (si_net st) out.1 evs
    end.
Proof.
  cbv zeta. unfold handleSync, mbind, SM_bind, on_engine. destruct (ProcessHTTP _ _ _ _ _ (si_engine st)) as [[outcome|e] eng].
  - rewrite submit_all_spec. unfold on_net. cbn [si_net si_engine si_coalescer].
    destruct (sync_answer_spec s parent rt (o_Immediate outcome) (si_net st)) as (evs & Hl & Hrun).
    destruct (sync_answer _ _ _ _ _) as [reply n]. cbn in *. eauto.
  - unfold on_net. cbn [si_net si_engine si_coalescer].
    destruct (writeSyncError_spec rt 500 "Internal Server Error" (si_net st)) as (evs & Hl & Ho & ->).
    destruct (writeSyncError _ _ _ _) as [reply n]. cbn in *. eauto 6.
Qed.

Lemma sync_counts s parent rt actions st reply evs : sync_run s parent rt actions st reply evs →
  ∃ status, counts evs = [(rt_route rt, rt_method rt, status)].
Proof. intros [Ha _]. rewrite counts_filter. by eapply answer_run_counts. Qed.

(** Refusals leave the count and nothing else. *)
Lemma refuse_spec rt status msg g :
  refuse rt status msg g = (Replied (http_Error msg status),
    MkGateway (MkSite (si_engine (gw_site g)) (si_coalescer (gw_site g))
      (MkNSt (n_world (si_net (gw_site g)))
         (n_log (si_net (gw_site g)) ++ [EvInbound (rt_route rt) (rt_method rt) status])%list))
      (gw_queue g) (gw_closed g)).
Proof. done. Qed.

Lemma enqueue_spec s rt job g :
  let out := enqueue s rt job g in
  si_engine (gw_site out.2) = si_engine (gw_site g) ∧ si_coalescer (gw_site out.2) = si_coalescer (gw_site g) ∧
  gw_closed out.2 = gw_closed g ∧ ∃ evs, n_log (si_net (gw_site out.2)) = (n_log (si_net (gw_site g)) ++ evs)%list ∧
  if gw_closed g then out.1 = Panicked ∧ evs = [] ∧ gw_queue out.2 = gw_queue g
  else if (Z.of_nat (length (gw_queue g)) <? is_queueSize s)%Z then
    out.1 = Replied (json_reply responseAccepted) ∧ evs = [EvInbound (rt_route rt) (rt_method rt) 200] ∧
    gw_queue out.2 = (gw_queue g ++ [job])%list
  else out.1 = Replied (http_Error (queue_full_msg s) 503) ∧ evs = [EvInbound (rt_route rt) (rt_method rt) 503] ∧
    gw_queue out.2 = gw_queue g.
Proof.
  unfold enqueue. destruct (gw_closed g) eqn:Hc.
  { cbn. split_and!; try done. exists []. by rewrite app_nil_r. }
  destruct (_ <? _)%Z; cbn; rewrite ?Hc; split_and!; try done; eexists; split_and!; done.
Qed.

(** What a refused or a queued request leaves alone. *)
Definition untouched (g g' : Gateway) : Prop :=
  (si_engine (gw_site g')).1 = (si_engine (gw_site g)).1 ∧ si_coalescer (gw_site g') = si_coalescer (gw_site g).

(** Refused: answered with the status, counted under the route, and nothing else. *)
Definition refused (r : in_request GoContext) (route : string) (status : Z) (msg : string) (g : Gateway)
    (res : inbound_result) (g' : Gateway) (evs : list net_event) : Prop :=
  res = Replied (http_Error msg status) ∧ evs = [EvInbound route (ir_Method r) status] ∧
  untouched g g' ∧ gw_queue g' = gw_queue g.

(** Let in, the engine in the state the checks left: answered at once by
    [handleSync], or queued when there is room. *)
Definition let_in (s : InboundServer) (r : in_request GoContext) (route body : string) (st' : St) (g : Gateway)
    (res : inbound_result) (g' : Gateway) (evs : list net_event) : Prop :=
  let p := (si_engine (gw_site g)).1 in
  if HasSyncHTTPPath p (ir_Path r) (ir_Method r) then
    gw_queue g' = gw_queue g ∧
    ∃ reply, res = match reply with Some reply => Replied reply | None => Abandoned end ∧
      handleSync s (ir_Context r) (MkRouteInfo (ir_Path r) route (ir_Method r)) body (inbound_headers (ir_Header r))
        (inbound_query (ir_Query r)) (MkSite (p, st') (si_coalescer (gw_site g)) (si_net (gw_site g))) =
        (reply, gw_site g')
  else untouched g g' ∧
    if gw_closed g then res = Panicked ∧ evs = [] ∧ gw_queue g' = gw_queue g
    else if (Z.of_nat (length (gw_queue g)) <? is_queueSize s)%Z then
      res = Replied (json_reply responseAccepted) ∧ evs = [EvInbound route (ir_Method r) 200] ∧
      gw_queue g' = (gw_queue g ++ [job_of_request r body])%list
    else refused r route 503 (queue_full_msg s) g res g' evs.

Definition inbound_ok (s : InboundServer) (r : in_request GoContext) (g : Gateway)
    (res : inbound_result) (g' : Gateway) (evs : list net_event) : Prop :=
  let '(p, st) := si_engine (gw_site g) in
  match MatchHTTPPath p (ir_Path r) with
  | None => refused r unknown_route 404 "Not Found" g res g' evs
  | Some route =>
      match read_body r with
      | None => refused r route 400 "Bad Request" g res g' evs
      | Some body =>
          let signed := all_signed p body (inbound_headers (ir_Header r)) (signatures p (ir_Path r) (ir_Method r)) st in
          (∃ st', signed st' ∧ let_in s r route body st' g res g' evs) ∨
          (∀ st', ¬ signed st') ∧ refused r route 401 "Unauthorized" g res g' evs
      end
  end.

Definition counted (p : Processor) (method : string) (res : inbound_result) (evs : list net_event) : Prop :=
  res = Panicked ∧ evs = [] ∨
  ∃ route status, counts evs = [(route, method, status)] ∧
    (route = unknown_route ∧ status = 404%Z ∨ route ∈ HTTPPaths p).

Definition handled (s : InboundServer) (r : in_request GoContext) (g : Gateway) (out : inbound_result * Gateway) : Prop :=
  gw_closed out.2 = gw_closed g ∧ ∃ evs,
    n_log (si_net (gw_site out.2)) = (n_log (si_net (gw_site g)) ++ evs)%list ∧
    counted (si_engine (gw_site g)).1 (ir_Method r) out.1 evs ∧
    inbound_ok s r g out.1 out.2 evs.

(** What the refusals have in common; the engine's state may have moved on. *)
Lemma refuse_refused r p st st' co net queue closed route status msg :
  let g := MkGateway (MkSite (p, st) co net) queue closed in
  let out := refuse (MkRouteInfo (ir_Path r) route (ir_Method r)) status msg
      (MkGateway (MkSite (p, st') co net) queue closed) in
  gw_closed out.2 = closed ∧ ∃ evs, n_log (si_net (gw_site out.2)) = (n_log net ++ evs)%list ∧
    refused r route status msg g out.1 out.2 evs.
Proof. cbv zeta. rewrite refuse_spec. cbn. split; [done|]. eexists. split; [done|]. by split_and!. Qed.

Lemma refused_counted p r route status msg g res g' evs :
  (route = unknown_route ∧ status = 404%Z ∨ route ∈ HTTPPaths p) →
  refused r route status msg g res g' evs → counted p (ir_Method r) res evs.
Proof. intros Hr (-> & -> & _). right. by exists route, status. Qed.

(** A request let in: queued, or answered. *)
Lemma enqueue_let_in s r p st st' co net queue closed route body :
  HasSyncHTTPPath p (ir_Path r) (ir_Method r) = false →
  let g := MkGateway (MkSite (p, st) co net) queue closed in
  let out := enqueue s (MkRouteInfo (ir_Path r) route (ir_Method r)) (job_of_request r body)
       (MkGateway (MkSite (p, st') co net) queue closed) in
  gw_closed out.2 = closed ∧ ∃ evs, n_log (si_net (gw_site out.2)) = (n_log net ++ evs)%list ∧
    let_in s r route body st' g out.1 out.2 evs.
Proof.
  intros Hs. cbv zeta.
  destruct (enqueue_spec s (MkRouteInfo (ir_Path r) route (ir_Method r)) (job_of_request r body)
      (MkGateway (MkSite (p, st') co net) queue closed)) as (He & Hco & Hcl & evs & Hl & Hcase).
  destruct (enqueue _ _ _ _) as [res g']. cbn in He, Hco, Hcl, Hl, Hcase. split; [done|]. exists evs. split; [done|].
  unfold let_in, refused, untouched. cbn [gw_site si_engine si_coalescer fst snd gw_queue gw_closed].
  rewrite Hs, He, Hco. cbn [fst snd]. destruct closed; [naive_solver|]. destruct (_ <? _)%Z; naive_solver.
Qed.

Lemma sync_let_in s r p st st' co net queue closed route body :
  HasSyncHTTPPath p (ir_Path r) (ir_Method r) = true →
  let g := MkGateway (MkSite (p, st) co net) queue closed in
  let out := (reply ← on_site (handleSync s (ir_Context r) (MkRouteInfo (ir_Path r) route (ir_Method r)) body
                (inbound_headers (ir_Header r)) (inbound_query (ir_Query r)));
      mret (M:=GM) match reply with Some reply => Replied reply | None => Abandoned end)
       (MkGateway (MkSite (p, st') co net) queue closed) in
  gw_closed out.2 = closed ∧ ∃ evs, n_log (si_net (gw_site out.2)) = (n_log net ++ evs)%list ∧
    let_in s r route body st' g out.1 out.2 evs ∧ ∃ status, counts evs = [(route, ir_Method r, status)].
Proof.
  intros Hs. unfold mbind, GM_bind, on_site. cbn [gw_site].
  pose proof (handleSync_spec s (ir_Context r) (MkRouteInfo (ir_Path r) route (ir_Method r)) body
    (inbound_headers (ir_Header r)) (inbound_query (ir_Query r)) (MkSite (p, st') co net)) as (_ & evs & Hl & Hrun).
  destruct (handleSync _ _ _ _ _ _ _) as [reply site'] eqn:Eh. cbn in Hl, Hrun. split; [done|]. exists evs. split; [done|].
  split.
  - unfold let_in. cbn [gw_site si_engine si_coalescer si_net fst snd]. rewrite Hs. split; [done|]. exists reply. by rewrite Eh.
  - destruct (ProcessHTTP _ _ _ _ _ _) as [[outcome|] ?]; cbn in Hrun.
    + by destruct Hrun as [_ Hc%sync_counts].
    + destruct Hrun as (_ & _ & ->). by exists 500%Z.
Qed.

Lemma let_in_counted s r route body st' g res g' evs :
  HasSyncHTTPPath (si_engine (gw_site g)).1 (ir_Path r) (ir_Method r) = false →
  route ∈ HTTPPaths (si_engine (gw_site g)).1 → let_in s r route body st' g res g' evs →
  counted (si_engine (gw_site g)).1 (ir_Method r) res evs.
Proof.
  unfold let_in. intros -> Hr [_ Hl]. destruct (gw_closed g); [left; naive_solver|].
  destruct (_ <? _)%Z; [|eapply refused_counted; eauto]. destruct Hl as (_ & -> & _). right. exists route, 200%Z. auto.
Qed.

Lemma handled_intro s r g out evs :
  gw_closed out.2 = gw_closed g → n_log (si_net (gw_site out.2)) = (n_log (si_net (gw_site g)) ++ evs)%list →
  counted (si_engine (gw_site g)).1 (ir_Method r) out.1 evs → inbound_ok s r g out.1 out.2 evs →
  handled s r g out.
Proof. intros Hc Hl Hn Hok. split; [done|]. by exists evs. Qed.

Lemma webhookHandler_spec s r g : handled s r g (webhookHandler s r g).
Proof.
  destruct g as [[[p st] co net] queue closed]. unfold webhookHandler. unfold mbind at 1. unfold GM_bind at 1.
  cbn [on_site processor_of on_engine getP gw_site si_engine si_coalescer si_net gw_queue gw_closed fst snd].
  destruct (MatchHTTPPath p (ir_Path r)) as [route|] eqn:Hm; cycle 1.
  { destruct (refuse_refused r p st st co net queue closed unknown_route 404 "Not Found") as (Hc & evs & Hl & Hr).
    apply (handled_intro _ _ _ _ evs); [done..|eapply refused_counted; eauto|]. unfold inbound_ok. cbn. by rewrite Hm. }
  pose proof (MatchHTTPPath_declared _ _ _ Hm) as Hname.
  destruct (read_body r) as [body|] eqn:Hb; cycle 1.
  { destruct (refuse_refused r p st st co net queue closed route 400 "Bad Request") as (Hc & evs & Hl & Hr).
    apply (handled_intro _ _ _ _ evs); [done..|eapply refused_counted; eauto|]. unfold inbound_ok. cbn. by rewrite Hm, Hb. }
  unfold mbind at 1. unfold GM_bind at 1. unfold on_site at 1. unfold on_engine at 1. unfold lift.
  cbn [gw_site gw_queue gw_closed si_engine si_coalescer si_net snd fst].
  pose proof (CheckHTTPHMAC_gate p (ir_Path r) (ir_Method r) body (inbound_headers (ir_Header r)) st) as Hg.
  destruct (CheckHTTPHMAC _ _ _ _ _ _) as [[required ok] st']. destruct Hg as [_ Hg]. destruct ok; cycle 1.
  { destruct Hg as [-> Hn]. cbn [andb negb].
    destruct (refuse_refused r p st st' co net queue closed route 401 "Unauthorized") as (Hc & evs & Hl & Hr).
    apply (handled_intro _ _ _ _ evs); [done..|eapply refused_counted; eauto|]. unfold inbound_ok. cbn.
    rewrite Hm, Hb. by right. }
  rewrite andb_false_r. destruct (HasSyncHTTPPath p (ir_Path r) (ir_Method r)) eqn:Hs.
  - destruct (sync_let_in s r p st st' co net queue closed route body Hs) as (Hc & evs & Hl & Hr & status & Hcount).
    apply (handled_intro _ _ _ _ evs); [done..|right; exists route, status; auto|]. unfold inbound_ok. cbn.
    rewrite Hm, Hb. left. eauto.
  - destruct (enqueue_let_in s r p st st' co net queue closed route body Hs) as (Hc & evs & Hl & Hr).
    apply (handled_intro _ _ _ _ evs); [done..|by eapply let_in_counted|]. unfold inbound_ok. cbn.
    rewrite Hm, Hb. left. eauto.
Qed.
End handler.

(** ** Runs *)

Section runs.
Context `{Env} `{Crypto} `{Net}.

(** What a request does to the queue. *)
Lemma request_queue s r g : ∃ added,
  gw_queue (webhookHandler s r g).2 = (gw_queue g ++ added)%list ∧
  gw_closed (webhookHandler s r g).2 = gw_closed g ∧
  (gw_closed g = true → added = []) ∧
  (∀ job, job ∈ added → ∃ body, job = job_of_request r body) ∧
  (Z.of_nat (length (gw_queue g)) ≤ is_queueSize s →
   Z.of_nat (length (gw_queue (webhookHandler s r g).2)) ≤ is_queueSize s)%Z.
Proof.
  destruct (webhookHandler_spec s r g) as (Hc & evs & _ & _ & Hok).
  assert (gw_queue (webhookHandler s r g).2 = gw_queue g ∨ ∃ body,
    gw_queue (webhookHandler s r g).2 = (gw_queue g ++ [job_of_request r body])%list ∧ gw_closed g = false ∧
    (Z.of_nat (length (gw_queue g)) < is_queueSize s)%Z) as [Hq|(body & Hq & Hcl & Hlt)].
  { assert (∀ route status msg res g' evs, refused r route status msg g res g' evs → gw_queue g' = gw_queue g) as Href.
    { by intros ??????(_ & _ & _ & ?). }
    unfold inbound_ok in Hok. destruct (si_engine (gw_site g)) as [p st] eqn:Ee.
    destruct (MatchHTTPPath p (ir_Path r)) as [route|]; [|left; eauto]. destruct (read_body r) as [body|]; [|left; eauto].
    destruct Hok as [(st' & _ & Hin)|[_ Hr]]; [|left; eauto]. unfold let_in in Hin.
    destruct (HasSyncHTTPPath _ _ _); [left; tauto|]. destruct Hin as [_ Hin].
    destruct (gw_closed g); [left; tauto|]. destruct (Z.ltb_spec (Z.of_nat (length (gw_queue g))) (is_queueSize s)).
    - right. exists body. tauto.
    - left; eauto. }
  - exists []. rewrite Hq, app_nil_r. split_and!; [done..|set_solver|done].
  - exists [job_of_request r body]. rewrite Hq. split_and!; [done..|congruence| |].
    + intros job ->%list_elem_of_singleton. eauto.
    + intros _. rewrite length_app. cbn [length]. lia.
Qed.

Lemma on_site_queue {A} (m : SM A) g :
  gw_queue (on_site m g).2 = gw_queue g ∧ gw_closed (on_site m g).2 = gw_closed g.
Proof. unfold on_site. by destruct (m (gw_site g)). Qed.

Lemma worker_queue s g : gw_queue (worker s g).2 = drop 1 (gw_queue g) ∧ gw_closed (worker s g).2 = gw_closed g.
Proof.
  unfold worker. destruct (gw_queue g) as [|job rest] eqn:Hq; [cbn; by rewrite Hq|]. apply (on_site_queue _ (MkGateway _ _ _)).
Qed.

Lemma swap_queue set g : gw_queue (swap_rules set g) = gw_queue g ∧ gw_closed (swap_rules set g) = gw_closed g.
Proof. unfold swap_rules. by destruct (si_engine (gw_site g)). Qed.

Lemma history_spec s evs g : 
  let g' := gateway_run s evs g in
  (gw_queue g ++ (history s evs g).1 = (history s evs g).2 ++ gw_queue g')%list ∧
  (gw_closed g = true → (history s evs g).1 = []) ∧
  (∀ job, job ∈ (history s evs g).1 → ∃ r body, Request r ∈ evs ∧ job = job_of_request r body) ∧
  (Z.of_nat (length (gw_queue g)) ≤ is_queueSize s → Z.of_nat (length (gw_queue g')) ≤ is_queueSize s)%Z.
Proof.
  revert g. induction evs as [|ev evs IH]; intros g; cbn [gateway_run foldl history].
  { cbn. rewrite app_nil_r. split_and!; [done..|set_solver|done]. }
  specialize (IH (gateway_step s ev g)). unfold gateway_run in IH.
  destruct (history s evs (gateway_step s ev g)) as [acc done'] eqn:Hh. cbn [fst snd] in IH.
  destruct IH as (Heq & Hcl & Hjobs & Hlen). destruct ev as [r| | |set]; cbn [gateway_step fst snd] in *.
  - destruct (request_queue s r g) as (added & Hq & Hc & Hca & Hj & Hl). rewrite Hq, drop_app_length in *.
    rewrite <- Heq, app_assoc. split_and!; [done| | |auto].
    + intros Hg. rewrite (Hca Hg), Hcl; [done|]. by rewrite Hc.
    + intros job [Hin|Hin]%elem_of_app; [destruct (Hj job Hin) as [body ->]; exists r, body; split; [set_solver|done]|].
      destruct (Hjobs job Hin) as (r' & body & ? & ?). exists r', body. split; [set_solver|done].
  - destruct (worker_queue s g) as [Hq Hc]. rewrite Hq in *. rewrite <- app_assoc, <- Heq, app_assoc, take_drop.
    split_and!; [done| | |].
    + intros Hg. apply Hcl. by rewrite Hc.
    + intros job Hin. destruct (Hjobs job Hin) as (r' & body & ? & ?). exists r', body. split; [set_solver|done].
    + intros Hle. apply Hlen. rewrite length_drop. lia.
  - split_and!; [done|auto| |auto].
    intros job Hin. destruct (Hjobs job Hin) as (r' & body & ? & ?). exists r', body. split; [set_solver|done].
  - destruct (swap_queue set g) as [Hq Hc]. rewrite Hq in *. split_and!; [done| | |auto].
    + intros Hg. apply Hcl. by rewrite Hc.
    + intros job Hin. destruct (Hjobs job Hin) as (r' & body & ? & ?). exists r', body. split; [set_solver|done].
Qed.

Lemma history_app s evs evs' g :
  history s (evs ++ evs') g =
    (((history s evs g).1 ++ (history s evs' (gateway_run s evs g)).1)%list,
     ((history s evs g).2 ++ (history s evs' (gateway_run s evs g)).2)%list).
Proof.
  revert g. induction evs as [|ev evs IH]; intros g; cbn [app history gateway_run foldl].
  { by destruct (history s evs' g). }
  rewrite IH. unfold gateway_run. destruct (history s evs _) as [acc done']. cbn [fst snd].
  by destruct ev; cbn [fst snd]; rewrite <- ?app_assoc.
Qed.

(** As many takes as there are webhooks empty a queue. *)
Lemma drain s g :
  history s (replicate (length (gw_queue g)) Work) g = ([], gw_queue g).
Proof.
  remember (length (gw_queue g)) as n eqn:Hn. revert g Hn. induction n as [|n IH]; intros g Hn; cbn [replicate history].
  { by destruct (gw_queue g). }
  destruct (worker_queue s g) as [Hq _]. cbn [gateway_step].
  rewrite IH by (rewrite Hq, length_drop; lia). by rewrite Hq, take_drop.
Qed.
End runs.

(** ** Properties *)

Section properties.
Context `{Env} `{Crypto} `{Net}.

(** C10: A request is counted once, under the path of a rule or, when there is none
    for it, under the one label of unknown routes.  It is refused with 404 exactly
    when no rule has its path, with 400 exactly when there is a route and its body
    cannot be read, and with 401 exactly when, besides, the signatures that the
    rules of its path and method declare do not all pass at the time of the check;
    then nothing leaves, no window opens and nothing is queued.  Otherwise it is
    let in: answered at once by [handleSync] when one of the rules is synchronous
    (without a reply only if the client is gone, [sync_answered]), else queued
    when there is room and refused with 503 when there is none; a request that
    meets a queue already closed panics, without an answer. *)
Theorem webhook_gated (s : InboundServer) (r : in_request GoContext) (g : Gateway) :
  handled s r g (webhookHandler s r g).
Proof. apply webhookHandler_spec. Qed.

(** C24: A synchronous request is answered by the first action that can: a respond
    action by itself, or a request action by what NATS replies within its own
    timeout, asked after the actions before it are published: 200 with the reply,
    503 without a responder, and, for a client still there when the request comes
    back, 504 after the timeout and 502 after any other failure; for a client that is
    gone by then, nothing.  Without such an action it is 404, and 500 when the engine
    fails.  It is counted once; no second action answers or asks; every other
    NATS action is published, in order, and every deferred batch submitted. *)
Theorem sync_answered (s : InboundServer) parent rt body headers query (st : Site) :
  let engine := ProcessHTTP (rt_path rt) (rt_method rt) body (map_to_list headers) query (si_engine st) in
  let out := handleSync s parent rt body headers query st in
  si_engine out.2 = engine.2 ∧ ∃ evs, n_log (si_net out.2) = (n_log (si_net st) ++ evs)%list ∧
    match engine.1 with
    | Err _ =>
        out.1 = Some (http_Error "Internal Server Error" 500) ∧ si_coalescer out.2 = si_coalescer st ∧
        evs = [EvInbound (rt_route rt) (rt_method rt) 500]
    | Ok outcome =>
        si_coalescer out.2 = submitted (si_coalescer st) (o_Deferred outcome) (net_Now (n_world (si_net st))) ∧
        sync_run s parent rt (o_Immediate outcome) (si_net st) out.1 evs
    end.
Proof. apply handleSync_spec. Qed.

(** Whatever the order of requests, workers, rule changes and the shutdown: the
    webhooks the workers took are those that were accepted, each once and in
    the order of their acceptance, up to those still queued; the queue never
    holds more than its capacity; and after the shutdown the workers drain it,
    so every webhook accepted is processed. *)
Theorem accepted_webhooks_processed publisher workers size (site : Site) evs :
  let s := NewInboundServer publisher workers size in
  let g := MkGateway site [] false in
  let '(accepted, done) := history s evs g in
  let queue := gw_queue (gateway_run s evs g) in
  accepted = (done ++ queue)%list ∧
  (∀ job, job ∈ accepted → ∃ r body, Request r ∈ evs ∧ job = job_of_request r body) ∧
  (Z.of_nat (length queue) ≤ is_queueSize s)%Z ∧
  history s (evs ++ StopServer :: replicate (length queue) Work) g = (accepted, accepted).
Proof.
  cbv zeta. set (s := NewInboundServer publisher workers size). set (g := MkGateway site [] false).
  destruct (history_spec s evs g) as (Heq & _ & Hjobs & Hlen). rewrite history_app.
  destruct (history s evs g) as [accepted done']. cbn [fst snd g gw_queue app] in *. split_and!; [done|done| |].
  - apply Hlen. cbn. unfold DefaultInboundQueueSize. destruct (Z.leb_spec size 0); lia.
  - cbn [history gateway_step].
    change (gw_queue (gateway_run s evs g)) with (gw_queue (close_queue (gateway_run s evs g))).
    rewrite drain. cbn [fst snd close_queue gw_queue]. by rewrite app_nil_r, <- Heq.
Qed.

(** What a worker makes of a webhook: the engine evaluates the rules of its path
    and method, every deferred batch is submitted, and every NATS action is
    published, in order, whatever becomes of the others. *)
Theorem processWebhook_correct (s : InboundServer) ctx job (st : Site) :
  let engine := ProcessHTTP (wj_path job) (wj_method job) (wj_body job)
      (map_to_list (wj_headers job)) (wj_query job) (si_engine st) in
  let st' := (processWebhook s ctx job st).2 in
  si_engine st' = engine.2 ∧ ∃ evs, n_log (si_net st') = (n_log (si_net st) ++ evs)%list ∧
    match engine.1 with
    | Err _ => evs = [] ∧ si_coalescer st' = si_coalescer st
    | Ok outcome =>
        si_coalescer st' = submitted (si_coalescer st) (o_Deferred outcome) (net_Now (n_world (si_net st))) ∧
        published s (omap webhook_publish (o_Immediate outcome)) evs
    end.
Proof.
  cbv zeta. unfold processWebhook, mbind, SM_bind, on_engine.
  destruct (ProcessHTTP _ _ _ _ _ (si_engine st)) as [[outcome|e] eng].
  - rewrite submit_all_spec. unfold on_net. cbn [si_net si_engine si_coalescer].
    destruct (webhook_actions_spec s ctx (o_Immediate outcome) (si_net st)) as (evs & Hl & Hrun).
    destruct (webhook_actions _ _ _ _) as [[] n]. cbn in *. eauto.
  - cbn. split; [done|]. exists []. by rewrite app_nil_r.
Qed.
End properties.

(** The broker's publisher. *)
#[export] Instance ActionPublisher_publisher `{Net} (ap : ActionPublisher) : NATSPublisher.
Proof.
  refine {|
    np_PublishWithRetry := PublishWithRetry ap;
    np_runs a := publish_run (transport_of ap a) (newActionMsg a) (Z.to_nat (pc_MaxRetries (ap_cfg ap)));
  |}.
  - intros ctx a. apply PublishWithRetry_run.
  - intros a r evs (n & _ & _ & _ & Hf)%publish_run_attempts.
    eapply Forall_impl; [done|]. intros ev [?|(ok & ->)]; [by destruct ev|done].
Defined.

(** ** Examples *)

(** An informational status is never the one the client gets. *)
Lemma informational_status_is_lost status :
  (100 ≤ status ≤ 199)%Z → status ≠ 101%Z → ∀ headers body, written status headers body = MkReply 200 headers body.
Proof.
  intros Hr Hn headers body. unfold written, final_status.
  destruct (Z.leb_spec 100 status), (Z.leb_spec status 199), (Z.eqb_spec status 101); try lia. done.
Qed.

(** Labels by method are not bounded by the rules: an unknown route is counted
    under whatever method the client chose. *)
Lemma method_label_is_free `{Env} `{Crypto} `{Net} s r g :
  MatchHTTPPath (si_engine (gw_site g)).1 (ir_Path r) = None →
  n_log (si_net (gw_site (webhookHandler s r g).2)) =
    (n_log (si_net (gw_site g)) ++ [EvInbound unknown_route (ir_Method r) 404])%list.
Proof.
  destruct g as [[[p st] co net] queue closed]. cbn. intros Hm. unfold webhookHandler. unfold mbind, GM_bind at 1. cbn.
  by rewrite Hm.
Qed.

#[local] Instance gateway_crypto : Crypto := {| hmac_Sum h key msg := key ++ msg |}.
#[local] Existing Instances demo demo_net.

Definition hook_rule (hmac : option HMACConfig) : Rule :=
  MkRule "hook" (MkTrigger None (Some (MkHTTPTrigger "/hook" "POST" None None hmac)) None) None
    (MkAction (Some (MkNATSAction "hooks" "" "{}" false false ∅ "" false "" "" None None None None)) None None None) 0.
Definition hook_set (hmac : option HMACConfig) : KVRuleSet :=
  MkKVRuleSet ∅ (MkHTTPKVRuleSet {["/hook" := [hook_rule hmac]]} []) [].
Definition hook_hmac : HMACConfig := MkHMACConfig "" "X-Signature" "s3cret" "" "" "".

Definition hook_request : in_request (@GoContext demo_net) := MkInRequest "/hook" "POST" [] [] "30" false None.
Definition hook_server : InboundServer := NewInboundServer (ActionPublisher_publisher demo_publisher) 1 1.
Definition hook_gateway (hmac : option HMACConfig) : Gateway :=
  MkGateway (MkSite (ReplaceKVRuleSet (NewProcessor None None None (MkTime 0 0)) (hook_set hmac), demo_start)
               Coalescer.New (demo_net_start [])) [] false.

Definition sent (g : Gateway) : list string := map nm_Subject (publications (n_log (si_net (gw_site g)))).

(** An unsigned request is refused where the rule asks for a signature. *)
Lemma unsigned_is_refused :
  (webhookHandler hook_server hook_request (hook_gateway (Some hook_hmac))).1 = Replied (http_Error "Unauthorized" 401).
Proof. vm_compute. reflexivity. Qed.

(** The signature is checked when a webhook is accepted and not when it is
    processed: one accepted unsigned, while no rule asked for a signature, fires
    a rule that asks for one by the time a worker takes it. *)
Lemma gate_is_outrun :
  sent (gateway_run hook_server [Request hook_request; SwapRules (hook_set (Some hook_hmac)); Work] (hook_gateway None)) = ["hooks"].
Proof. vm_compute. reflexivity. Qed.

(** A request still in the handler when the queue is closed ends in a panic. *)
Lemma closed_queue_panics :
  (webhookHandler hook_server hook_request (gateway_step hook_server StopServer (hook_gateway None))).1 = Panicked.
Proof. vm_compute. reflexivity. Qed.
