(* ===== verification/Scheduler.v ===== *)
(** * Scheduled rules (internal/app/scheduler.go, scheduler_monitor.go)

    The jobs registered for schedule rules, their replacement when the rules of
    the key-value bucket change, what one fire of a rule does, and which dropped
    fires are worth a line in the log.  The cron engine is a parameter. *)

From S2P Require Import Prelude GoStrings GoFloat GoTime Value Types Context Env Demo Processor Coalescer.
From S2P Require Import Net HttpClient Publisher Site.
Local Open Scope string_scope.

Definition publishTimeout : Z := 10 * Second.
Definition kvScheduleTag : string := "kv-rule".

(** [gocron.Scheduler.NewJob] accepts a cron expression, with seconds allowed. *)
Class Cron := { gocron_CronJob : string → bool }.

(** A job: the expression it runs at, its rule, its tags.  Every job is in
    singleton mode. *)
Record job := MkJob { jb_Cron : string; jb_Name : string; jb_Rule : Rule; jb_Tags : list string }.

Definition job_expression (s : ScheduleTrigger) : string :=
  if negb (String.eqb (st_Timezone s) "") then "CRON_TZ=" ++ st_Timezone s ++ " " ++ st_Cron s else st_Cron s.

(** ** Jobs *)

Section jobs.
Context `{Cron}.

Inductive schedule_error := NoScheduleRules | RegisterFailed (cron : string).

(** The rule must have a schedule, as all that reach it have: on another one
    the code panics, and the model fails. *)
Definition registerScheduleRule (jobs : list job) (r : Rule) (tags : list string) : option (list job) :=
  match tr_Schedule (r_Trigger r) with
  | None => None
  | Some s =>
      if gocron_CronJob (job_expression s)
      then Some (jobs ++ [MkJob (job_expression s) (st_Cron s) r tags])%list else None
  end.

(** At start: the first rule that cannot be registered stops it. *)
Fixpoint register_all (jobs : list job) (rules : list Rule) (tags : list string) : result schedule_error (list job) :=
  match rules with
  | [] => Ok jobs
  | r :: rest =>
      match registerScheduleRule jobs r tags with
      | None => Err (RegisterFailed (match tr_Schedule (r_Trigger r) with Some s => st_Cron s | None => "" end))
      | Some jobs => register_all jobs rest tags
      end
  end.

Definition NewSchedulerApp (kvEnabled : bool) (scheduleRules : list Rule) : result schedule_error (list job) :=
  if ((length scheduleRules =? 0)%nat && negb kvEnabled)%bool then Err NoScheduleRules
  else register_all [] scheduleRules (if kvEnabled then [kvScheduleTag] else []).

Definition has_tag (tag : string) (j : job) : bool := existsb (String.eqb tag) (jb_Tags j).
Definition RemoveByTags (tag : string) (jobs : list job) : list job := List.filter (λ j, negb (has_tag tag j)) jobs.

(** A rule that cannot be registered is passed over. *)
Definition rebuildCronJobs (jobs : list job) (rules : list Rule) : list job :=
  foldl (λ jobs r, default jobs (registerScheduleRule jobs r [kvScheduleTag])) (RemoveByTags kvScheduleTag jobs) rules.
End jobs.

(** ** One fire *)

Section fire.
Context `{Env} `{Net}.

(** What carries out the actions: the broker's publisher and an HTTP executor. *)
Record SchedulerApp := MkSchedulerApp { sc_publisher : ActionPublisher; sc_httpExecutor : HTTPActionExecutor }.

Definition fire_nats (app : SchedulerApp) (a : Action) : NM unit :=
  match a_NATS a with
  | None => mret tt
  | Some n =>
      w ← getN;
      _ ← PublishWithRetry (sc_publisher app) (context_WithTimeout context_Background publishTimeout w) n;
      mret tt
  end.
Definition fire_http (app : SchedulerApp) (a : Action) : NM unit :=
  match a_HTTP a with
  | None => mret tt
  | Some h =>
      w ← getN;
      _ ← @hx_Execute _ (sc_httpExecutor app) (context_WithTimeout context_Background publishTimeout w) h;
      mret tt
  end.

(** Both branches are tried for an action that has both. *)
Fixpoint fire_actions (app : SchedulerApp) (actions : list Action) : NM unit :=
  match actions with
  | [] => mret tt
  | a :: rest => _ ← fire_nats app a; _ ← fire_http app a; fire_actions app rest
  end.

Definition executeScheduleRule (app : SchedulerApp) (r : Rule) : SM unit :=
  outcome ← on_engine (ProcessSchedule r);
  match outcome with
  | Err _ => mret (M:=SM) tt
  | Ok outcome =>
      if Empty outcome then mret (M:=SM) tt
      else _ ← submit_all (o_Deferred outcome); on_net (fire_actions app (o_Immediate outcome))
  end.

(** [executeDeferred], for the batches of the coalescer. *)
Definition executeDeferred (app : SchedulerApp) (ctx : GoContext) (action : Action) : NM (result error unit) :=
  match a_NATS action, a_HTTP action with
  | Some n, _ => r ← PublishWithRetry (sc_publisher app) ctx n; mret (map_err (Wrap NATSActionFailed) r)
  | None, Some h =>
      r ← @hx_Execute _ (sc_httpExecutor app) ctx h; mret (map_err (Wrap HTTPActionFailed) r)
  | None, None => mret (Ok tt)
  end.
End fire.

(** ** Dropped fires *)

Inductive job_status := JobSuccess | JobFail | SingletonRescheduled.

(** [IncrementJob]: the schedules already warned about, and whether this fire
    is warned about. *)
Definition IncrementJob (warned : gset string) (name : string) (status : job_status) : bool * gset string :=
  match status with
  | SingletonRescheduled => if decide (name ∈ warned) then (false, warned) else (true, {[ name ]} ∪ warned)
  | _ => (false, warned)
  end.

Fixpoint monitor_run (warned : gset string) (fires : list (string * job_status)) : list string :=
  match fires with
  | [] => []
  | (name, status) :: rest =>
      let '(warn, warned) := IncrementJob warned name status in
      if (warn : bool) then name :: monitor_run warned rest else monitor_run warned rest
  end.

(** ** Lemmas *)

Section lemmas.
Context `{Env} `{Net}.

Lemma fire_nats_run app a : yields (fire_nats app a) (λ _ evs,
  ∃ r, action_run (sc_publisher app) None (MkAction (a_NATS a) None None None) r evs).
Proof.
  unfold fire_nats, action_run. cbn. destruct (a_NATS a) as [n|]; [|apply yields_ret; eauto].
  eapply yields_bind; [apply yields_get|]. intros w ? ->.
  eapply yields_bind; [apply PublishWithRetry_run|]. intros r evs Hr. apply yields_ret. rewrite app_nil_r. cbn.
  eauto.
Qed.

Lemma fire_http_run app a : yields (fire_http app a) (λ _ evs,
  ∃ r, action_run (sc_publisher app) (Some (sc_httpExecutor app)) (MkAction None (a_HTTP a) None None) r evs).
Proof.
  unfold fire_http, action_run. cbn. destruct (a_HTTP a) as [h|]; [|apply yields_ret; eauto].
  eapply yields_bind; [apply yields_get|]. intros w ? ->.
  eapply yields_bind; [apply hx_executes|]. intros r evs Hr. apply yields_ret. rewrite app_nil_r. cbn.
  eauto.
Qed.

(** What the parts of one action leave, one after the other. *)
Definition fire_run (app : SchedulerApp) (a : Action) (evs : list net_event) : Prop := ∃ evs1 evs2,
  evs = (evs1 ++ evs2)%list ∧
  (∃ r, action_run (sc_publisher app) None (MkAction (a_NATS a) None None None) r evs1) ∧
  (∃ r, action_run (sc_publisher app) (Some (sc_httpExecutor app)) (MkAction None (a_HTTP a) None None) r evs2).

Lemma fire_actions_run app actions : yields (fire_actions app actions) (λ _ evs,
  ∃ evss, evs = concat evss ∧ Forall2 (fire_run app) actions evss).
Proof.
  induction actions as [|a rest IH]; cbn [fire_actions].
  { apply yields_ret. exists []. by split; [|constructor]. }
  eapply yields_bind; [apply fire_nats_run|]. intros [] evs1 H1.
  eapply yields_bind; [apply fire_http_run|]. intros [] evs2 H2.
  eapply yields_weaken; [apply IH|]. intros [] evs (evss & -> & Hall). exists ((evs1 ++ evs2)%list :: evss). split.
  - cbn. by rewrite app_assoc.
  - constructor; [|done]. by exists evs1, evs2.
Qed.
End lemmas.

(** The job of a rule, when the engine takes its expression. *)
Definition job_of `{Cron} (tags : list string) (r : Rule) : option job :=
  s ← tr_Schedule (r_Trigger r);
  if gocron_CronJob (job_expression s) then Some (MkJob (job_expression s) (st_Cron s) r tags) else None.

Lemma registerScheduleRule_job `{Cron} jobs r tags :
  registerScheduleRule jobs r tags = (λ j, (jobs ++ [j])%list) <$> job_of tags r.
Proof.
  unfold registerScheduleRule, job_of. destruct (tr_Schedule (r_Trigger r)) as [s|]; [|done]. cbn. by case_match.
Qed.

Lemma rebuild_fold `{Cron} jobs rules :
  foldl (λ jobs r, default jobs (registerScheduleRule jobs r [kvScheduleTag])) jobs rules =
  (jobs ++ omap (job_of [kvScheduleTag]) rules)%list.
Proof.
  revert jobs. induction rules as [|r rest IH]; intros jobs; cbn [foldl]; [by rewrite app_nil_r|].
  rewrite IH, registerScheduleRule_job. cbn. destruct (job_of [kvScheduleTag] r); cbn; [by rewrite <- app_assoc|done].
Qed.

Lemma register_all_ok `{Cron} jobs rules tags jobs' :
  register_all jobs rules tags = Ok jobs' →
  jobs' = (jobs ++ omap (job_of tags) rules)%list ∧ Forall (λ r, job_of tags r ≠ None) rules.
Proof.
  revert jobs. induction rules as [|r rest IH]; intros jobs; cbn [register_all].
  { intros [= <-]. rewrite app_nil_r. by split. }
  rewrite registerScheduleRule_job. destruct (job_of tags r) as [j|] eqn:E; cbn; [|done].
  intros [-> Hr]%IH. rewrite E, <- app_assoc. split; [done|]. by constructor; [rewrite E|].
Qed.

(** ** Properties *)

Lemma rebuildCronJobs_spec `{Cron} jobs rules :
  RemoveByTags kvScheduleTag (rebuildCronJobs jobs rules) = RemoveByTags kvScheduleTag jobs ∧
  List.filter (has_tag kvScheduleTag) (rebuildCronJobs jobs rules) = omap (job_of [kvScheduleTag]) rules ∧
  rebuildCronJobs (rebuildCronJobs jobs rules) rules = rebuildCronJobs jobs rules ∧
  (NewSchedulerApp true rules = Ok jobs → rebuildCronJobs jobs rules = jobs).
Proof.
  assert (∀ rules, Forall (λ j, has_tag kvScheduleTag j = true) (omap (job_of [kvScheduleTag]) rules)) as Htags.
  { intros rs. apply Forall_forall. intros j (r & _ & Hj)%list_elem_of_omap. unfold job_of in Hj.
    destruct (tr_Schedule (r_Trigger r)); [|done]. cbn in Hj. by case_match; simplify_eq. }
  assert (∀ rs, RemoveByTags kvScheduleTag (rebuildCronJobs jobs rs) = RemoveByTags kvScheduleTag jobs) as Hrem.
  { intros rs. unfold rebuildCronJobs. rewrite rebuild_fold. unfold RemoveByTags. rewrite List.filter_app.
    rewrite (filterb_all _ (List.filter _ jobs)).
    2: { apply forallb_True. by intros j [? _]%elem_of_filterb. }
    rewrite (filterb_none _ (omap _ _)); [by rewrite app_nil_r|]. apply forallb_True. intros j Hj.
    specialize (Htags rs). rewrite Forall_forall in Htags. by rewrite Htags. }
  split_and!; [apply Hrem| | |].
  - unfold rebuildCronJobs. rewrite rebuild_fold, List.filter_app. rewrite (filterb_none _ (RemoveByTags _ _)).
    2: { apply forallb_True. by intros j [? _]%elem_of_filterb. }
    apply filterb_all, forallb_True. intros j Hj. specialize (Htags rules). rewrite Forall_forall in Htags. auto.
  - unfold rebuildCronJobs at 1. rewrite Hrem. done.
  - unfold NewSchedulerApp. rewrite andb_false_r. intros [-> _]%register_all_ok.
    unfold rebuildCronJobs. rewrite rebuild_fold. cbn [app]. unfold RemoveByTags.
    rewrite filterb_none; [done|]. apply forallb_True. intros j Hj.
    specialize (Htags rules). rewrite Forall_forall in Htags. by rewrite Htags.
Qed.

(** A rebuild leaves the jobs of the files alone and replaces those of the
    bucket by one per rule the cron engine takes, in order; so the last bucket
    rule to go takes its job along, and rebuilding twice changes nothing.  The
    jobs a start with the bucket's rules registered are what a rebuild with them
    would leave: no rule runs twice, and none escapes the next rebuild. *)
Theorem rebuildCronJobs_correct `{Cron} jobs rules :
  RemoveByTags kvScheduleTag (rebuildCronJobs jobs rules) = RemoveByTags kvScheduleTag jobs ∧
  List.filter (has_tag kvScheduleTag) (rebuildCronJobs jobs rules) = omap (job_of [kvScheduleTag]) rules ∧
  rebuildCronJobs (rebuildCronJobs jobs rules) rules = rebuildCronJobs jobs rules ∧
  (NewSchedulerApp true rules = Ok jobs → rebuildCronJobs jobs rules = jobs).
Proof. apply rebuildCronJobs_spec. Qed.

Lemma executeScheduleRule_spec `{Env} `{Net} (app : SchedulerApp) r (s : Site) :
  let engine := ProcessSchedule r (si_engine s) in
  let s' := (executeScheduleRule app r s).2 in
  si_engine s' = engine.2 ∧ ∃ evs, n_log (si_net s') = (n_log (si_net s) ++ evs)%list ∧
    match engine.1 with
    | Err _ => evs = [] ∧ si_coalescer s' = si_coalescer s
    | Ok outcome =>
        si_coalescer s' = submitted (si_coalescer s) (o_Deferred outcome) (net_Now (n_world (si_net s))) ∧
        ∃ evss, evs = concat evss ∧ Forall2 (fire_run app) (o_Immediate outcome) evss
    end.
Proof.
  intros engine s'. subst s' engine. unfold executeScheduleRule, mbind, SM_bind, on_engine.
  destruct (ProcessSchedule r (si_engine s)) as [[outcome|e] eng]; cbn [fst snd].
  2: { split; [done|]. exists []. by rewrite app_nil_r. }
  destruct (Empty outcome) eqn:Hem.
  { unfold Empty in Hem. apply andb_true_iff in Hem as [Hi Hd].
    destruct outcome as [[|] [|]]; try done. split; [done|]. exists []. rewrite app_nil_r. split; [done|]. split; [done|].
    exists []. by split; [|constructor]. }
  rewrite submit_all_spec. unfold on_net.
  cbn [si_net si_engine si_coalescer]. destruct (fire_actions_run app (o_Immediate outcome) (si_net s)) as (evs & Hl & Hall).
  destruct (fire_actions _ _ _) as [[] n]. cbn in *. split; [done|]. exists evs. done.
Qed.

(** A fire of a schedule rule: the engine evaluates it, every deferred batch is
    submitted and every action is tried, in order, whatever becomes of the
    others; without an outcome nothing leaves. *)
Theorem executeScheduleRule_correct `{Env} `{Net} (app : SchedulerApp) r (s : Site) :
  let engine := ProcessSchedule r (si_engine s) in
  let s' := (executeScheduleRule app r s).2 in
  si_engine s' = engine.2 ∧ ∃ evs, n_log (si_net s') = (n_log (si_net s) ++ evs)%list ∧
    match engine.1 with
    | Err _ => evs = [] ∧ si_coalescer s' = si_coalescer s
    | Ok outcome =>
        si_coalescer s' = submitted (si_coalescer s) (o_Deferred outcome) (net_Now (n_world (si_net s))) ∧
        ∃ evss, evs = concat evss ∧ Forall2 (fire_run app) (o_Immediate outcome) evss
    end.
Proof. apply executeScheduleRule_spec. Qed.

(** However many fires are dropped, each schedule is warned about at most once,
    and it is exactly the schedules that dropped one. *)
Theorem monitor_correct fires :
  NoDup (monitor_run ∅ fires) ∧
  ∀ name, name ∈ monitor_run ∅ fires ↔ (name, SingletonRescheduled) ∈ fires.
Proof.
  assert (∀ warned, NoDup (monitor_run warned fires) ∧
    ∀ name, name ∈ monitor_run warned fires ↔ (name, SingletonRescheduled) ∈ fires ∧ name ∉ warned) as H.
  { induction fires as [|[name status] rest IH]; intros warned; [cbn; split; [apply NoDup_nil_2|set_solver]|].
    cbn [monitor_run]. destruct status; cbn [IncrementJob]; [destruct (IH warned) as [Hn Hin]; split; [done|set_solver]..|].
    case_decide as Hd; [destruct (IH warned) as [Hn Hin]; split; [done|set_solver]|].
    destruct (IH ({[ name ]} ∪ warned)) as [Hn Hin]. split; [constructor; [|done]; rewrite Hin; set_solver|].
    intros name'. rewrite elem_of_cons, Hin. destruct (decide (name' = name)) as [->|]; set_solver. }
  destruct (H ∅) as [Hn Hin]. split; [done|]. intros name. rewrite Hin. set_solver.
Qed.
