(* ===== verification/Router.v ===== *)
(** * What the router does with what reaches it (internal/broker, internal/gateway, internal/app)

    The sites together: consumers, core subscriptions, cron jobs and the workers
    of the gateway share one engine and one network, and each has a coalescer.
    Whatever came before, what an input makes leave is given by the meaning of
    the rules it triggers. *)

From S2P Require Import Prelude GoStrings GoFloat GoTime Value Types TimeContext Env Demo KVContext Context Template Index Processor Engine Coalescer.
From S2P Require Import Net HttpClient Publisher Site Subscription Responder Gateway Scheduler.
Local Open Scope string_scope.

Section router.
Context `{Env} `{Net}.
Variables (sm : SubscriptionManager) (re : Responder) (app : SchedulerApp) (srv : InboundServer).

(** ** The shared state *)

Record Router := MkRouter {
  ro_engine : Processor * St; ro_net : NSt;
  ro_stream : Coalescer; ro_core : Coalescer; ro_cron : Coalescer; ro_webhook : Coalescer;
}.

(** A message of a consumer and one of a core subscription, with the subject
    subscribed to; a fire of a cron job, by the position of its rule; a webhook
    a worker takes. *)
Inductive input :=
| FromStream (ctx : GoContext) (subscription : string) (msg : jetstream_msg)
| FromCore (subscription : string) (msg : core_msg)
| CronFires (position : nat)
| Webhook (job : webhookJob).

Definition handle (i : input) (r : Router) : Router :=
  let '(MkRouter engine net c1 c2 c3 c4) := r in
  match i with
  | FromStream ctx subscription msg =>
      let s := (processMessageWithRecovery sm ctx msg subscription (MkSite engine c1 net)).2 in
      MkRouter (si_engine s) (si_net s) (si_coalescer s) c2 c3 c4
  | FromCore subscription msg =>
      let s := (makeHandler re subscription msg (MkSite engine c2 net)).2 in
      MkRouter (si_engine s) (si_net s) c1 (si_coalescer s) c3 c4
  | CronFires position =>
      match ScheduleRules engine.1 !! position with
      | Some rule =>
          let s := (executeScheduleRule app rule (MkSite engine c3 net)).2 in
          MkRouter (si_engine s) (si_net s) c1 c2 (si_coalescer s) c4
      | None => r
      end
  | Webhook job =>
      let s := (processWebhook srv context_Background job (MkSite engine c4 net)).2 in
      MkRouter (si_engine s) (si_net s) c1 c2 c3 (si_coalescer s)
  end.

(** What happens: an input is handled, or something that leaves the engine alone
    takes place, as when the window of a batch ends. *)
Inductive event := Handled (i : input) | Elsewhere (net : NSt) (c1 c2 c3 c4 : Coalescer).
Definition happen (r : Router) (e : event) : Router :=
  match e with
  | Handled i => handle i r
  | Elsewhere net c1 c2 c3 c4 => MkRouter (ro_engine r) net c1 c2 c3 c4
  end.

(** ** Specification *)

Definition message_of (i : input) : message :=
  match i with
  | FromStream _ subscription msg =>
      Delivery subscription (jm_Subject msg) (jm_Data msg) (map_to_list (inbound_headers (jm_Headers msg))) JetStreamRuleFilter
  | FromCore subscription msg =>
      Delivery subscription (cm_Subject msg) (cm_Data msg) (map_to_list (inbound_headers (cm_Headers msg))) CoreRuleFilter
  | CronFires position => Fire position
  | Webhook job => HTTPRequest (wj_path job) (wj_method job) (wj_body job) (map_to_list (wj_headers job)) (wj_query job)
  end.

Definition coalescer_of (i : input) (r : Router) : Coalescer :=
  match i with FromStream _ _ _ => ro_stream r | FromCore _ _ => ro_core r | CronFires _ => ro_cron r | Webhook _ => ro_webhook r end.

(** The events of an input whose actions to run now are [actions]. *)
Definition carried_out (i : input) (actions : list Action) (evs : list net_event) : Prop :=
  match i with
  | FromStream _ _ _ => ∃ es rs, evs = (es ++ [EvSettle (verdict rs)])%list ∧ actions_run (sm_publisher sm) (sm_httpExecutor sm) actions rs es
  | FromCore _ msg =>
      replies evs = (if String.eqb (cm_Reply msg) "" then []
                     else match first_respond actions with Some ra => [reply_msg msg ra] | None => [] end) ∧
      ∃ evss, evs = concat evss ∧ Forall2 (core_action_run re msg) actions evss
  | CronFires _ => ∃ evss, evs = concat evss ∧ Forall2 (fire_run app) actions evss
  | Webhook _ => published srv (omap webhook_publish actions) evs
  end.
Definition turned_away (i : input) (evs : list net_event) : Prop :=
  match i with FromStream _ _ _ => evs = [EvSettle Naked] | _ => evs = [] end.

Definition input_means (i : input) (meaning : result context_error Outcome) (r r' : Router) : Prop :=
  ∃ evs, n_log (ro_net r') = (n_log (ro_net r) ++ evs)%list ∧
    match meaning with
    | Err _ => turned_away i evs ∧ coalescer_of i r' = coalescer_of i r
    | Ok outcome =>
        carried_out i (o_Immediate outcome) evs ∧
        coalescer_of i r' = submitted (coalescer_of i r) (o_Deferred outcome) (net_Now (n_world (ro_net r)))
    end.

(** ** Lemmas *)

(** An input asks the engine once, for its message, and carries out the answer. *)
Lemma handle_spec i r :
  let engine := process_message (message_of i) (ro_engine r) in
  ro_engine (handle i r) = engine.2 ∧ input_means i engine.1 r (handle i r).
Proof.
  destruct r as [engine net c1 c2 c3 c4]. destruct i as [ctx subscription msg|subscription msg|position|job]; cbn [handle message_of process_message ro_engine].
  - pose proof (message_settled_spec sm ctx msg subscription (MkSite engine c1 net)) as Hm. cbv zeta in Hm. cbn [si_engine si_coalescer si_net] in Hm.
    destruct (ProcessForSubscription _ _ _ _ _ engine) as [out e']. destruct (processMessageWithRecovery _ _ _ _ _) as [[] s']. cbn [fst snd] in *.
    destruct Hm as (-> & evs & how & Hl & _ & Hm). split; [done|]. eexists. split; [exact Hl|]. cbn [coalescer_of ro_stream ro_net].
    destruct out as [outcome|e]; [destruct Hm as (rs & Hr & -> & Hc); split; [by exists evs, rs|done]|]. by destruct Hm as (-> & -> & Hc).
  - pose proof (makeHandler_spec re subscription msg (MkSite engine c2 net)) as Hm. cbv zeta in Hm. cbn [si_engine si_coalescer si_net] in Hm.
    destruct (ProcessForSubscription _ _ _ _ _ engine) as [out e']. destruct (makeHandler _ _ _ _) as [[] s']. cbn [fst snd] in *.
    destruct Hm as (-> & evs & Hl & Hm). split; [done|]. exists evs. split; [exact Hl|]. cbn [coalescer_of ro_core ro_net]. destruct out; naive_solver.
  - unfold mbind, PM_bind, getP. cbn [fst]. destruct (ScheduleRules engine.1 !! position) as [rule|].
    + pose proof (executeScheduleRule_spec app rule (MkSite engine c3 net)) as Hm. cbv zeta in Hm. cbn [si_engine si_coalescer si_net] in Hm.
      destruct (ProcessSchedule rule engine) as [out e']. destruct (executeScheduleRule _ _ _) as [[] s']. cbn [fst snd] in *.
      destruct Hm as (-> & evs & Hl & Hm). split; [done|]. exists evs. split; [exact Hl|]. cbn [coalescer_of ro_cron ro_net]. destruct out; naive_solver.
    + split; [done|]. exists []. split; [by rewrite app_nil_r|]. split; [|done]. exists []. by split; [|constructor].
  - pose proof (processWebhook_correct srv context_Background job (MkSite engine c4 net)) as Hm. cbv zeta in Hm. cbn [si_engine si_coalescer si_net] in Hm.
    destruct (ProcessHTTP _ _ _ _ _ engine) as [out e']. destruct (processWebhook _ _ _ _) as [[] s']. cbn [fst snd] in *.
    destruct Hm as (-> & evs & Hl & Hm). split; [done|]. exists evs. split; [exact Hl|]. cbn [coalescer_of ro_webhook ro_net]. destruct out; naive_solver.
Qed.

(** Whatever happens, the engine serves the rules it was loaded with. *)
Lemma happenings_ready snapshot now rules p history r ix stats st :
  server_static snapshot → serves now rules p → Forall (λ r, plain_rule r = true ∧ fresh_rule r = true) rules →
  engine_ready snapshot p st → ro_engine r = (recount p ix stats, st) →
  ∃ ix' stats' st', ro_engine (foldl happen r history) = (recount p ix' stats', st') ∧ engine_ready snapshot p st'.
Proof.
  intros Hstat Hs Hr. revert r ix stats st. induction history as [|e history IH]; intros r ix stats st Hst Hro; [by exists ix, stats, st|].
  cbn [foldl]. destruct e as [i|net c1 c2 c3 c4]; cbn [happen]; [|by apply (IH _ ix stats st)].
  destruct (handle_spec i r) as [Hro' _].
  destruct (process_denotes snapshot Hstat now rules p (message_of i) ix stats st Hs Hr Hst) as (ix' & stats' & st' & Hp & Hst').
  rewrite Hro, Hp in Hro'. exact (IH _ ix' stats' st' Hst' Hro').
Qed.
End router.

(** ** Properties *)

(** C2: The router does what its rules mean, over a key-value store that does not
    change.  Load, without rules from a bucket, rules as a file gives them
    (nothing prepared, no padded operand), whose action templates call no
    function and nest no more than ten names, and whose throttles are trailing ones; let every read of the
    store give its snapshot and the caches agree with it at the start; and share
    the engine between the consumers, the core subscriptions, the cron jobs and
    the gateway's workers.  Let any inputs be handled, in any order, and the
    network and the coalescers change in any way between them; the rules are not
    reloaded, and no watcher writes the caches.  Then a message delivered, a core
    message, a fire or a webhook makes exactly the denotation of its rules leave: the
    actions to run now are carried out the way the site does, each deferred batch
    goes to the site's coalescer, the message is settled by the verdict on its actions or the request
    answered; an input that cannot be decoded changes nothing but sends a consumer's message back. *)
Theorem router_denotes `{Env} `{Net} (sm : SubscriptionManager) (re : Responder) (app : SchedulerApp) (srv : InboundServer)
    snapshot now p0 rules p st r history i :
  server_static snapshot → LoadRules now p0 rules = Ok p → p_kvRuleSet p0 = None →
  Forall (λ r, plain_rule r = true ∧ fresh_rule r = true) rules → engine_ready snapshot p0 st →
  ro_engine r = (p, st) →
  let r' := foldl (happen sm re app srv) r history in
  input_means sm re app srv i
    (denote_message snapshot p0 rules (CurrentContext (p_timeProvider p0) (ro_engine r').2).1 (message_of i))
    r' (handle sm re app srv i r').
Proof.
  intros Hstat Hl Hk Hr Hst Hro. destruct (LoadRules_serves now p0 rules p Hl Hk) as (Hs & Ekv & Esig & Emax & Etp).
  assert (engine_ready snapshot p st) as Hst0 by (intros kv Hkv; apply Hst; by rewrite <- Ekv).
  rewrite <- (recount_id p) in Hro.
  destruct (happenings_ready sm re app srv snapshot now rules p history r _ _ st Hstat Hs Hr Hst0 Hro) as (ix & stats & st1 & Hro1 & Hst1).
  cbv zeta. destruct (handle_spec sm re app srv i (foldl (happen sm re app srv) r history)) as [_ Hm]. rewrite Hro1 in *. cbn [snd].
  destruct (process_denotes snapshot Hstat now rules p (message_of i) ix stats st1 Hs Hr Hst1) as (? & ? & ? & Hp & _).
  rewrite Hp in Hm. cbn [fst] in Hm. unfold denote_message, denote_with in *. by rewrite Ekv, Esig, Emax, Etp in Hm.
Qed.

#[local] Existing Instances demo demo_net.
#[local] Notation router_engine := (match LoadRules (MkTime 0 0) engine_before engine_rules with Ok p => p | Err _ => engine_before end).
#[local] Notation router_start :=
  (MkRouter (router_engine, demo_start) (demo_net_start []) Coalescer.New Coalescer.New Coalescer.New Coalescer.New).
#[local] Notation router_consumers := (MkSubscriptionManager demo_publisher None 0 ∅).
#[local] Notation router_responder := (NewResponder demo_publisher None).
#[local] Notation router_cron := (MkSchedulerApp demo_publisher (@Executor_HTTPActionExecutor demo_net (@MkExecutor demo_net None))).
#[local] Notation router_gateway := (NewInboundServer (ActionPublisher_publisher demo_publisher) 1 1).
#[local] Notation router_happen := (happen router_consumers router_responder router_cron router_gateway).
#[local] Notation router_handle := (handle router_consumers router_responder router_cron router_gateway).
#[local] Notation router_history :=
  [Handled (Webhook (MkWebhookJob "/none" "GET" "30" ∅ ∅));
   Handled (FromCore "a.*" (MkCoreMsg "a.c" "" "sample" []));
   Elsewhere (demo_net_start []) Coalescer.New Coalescer.New Coalescer.New Coalescer.New;
   Handled (CronFires 0)].
#[local] Notation router_input := (FromStream (None : @GoContext demo_net) "a.>" (MkJetstreamMsg "a.b" "sample" [])).
#[local] Notation router_after := (foldl router_happen router_start router_history).

Lemma router_denotes_witness :
  @input_means demo demo_net router_consumers router_responder router_cron router_gateway router_input
    (denote_message demo_snapshot engine_before engine_rules
       (CurrentContext (p_timeProvider engine_before) (ro_engine router_after).2).1 (message_of router_input))
    router_after (router_handle router_input router_after) ∧
  length (n_log (ro_net (router_handle router_input router_after))) = 4%nat.
Proof.
  split; [|vm_compute; reflexivity].
  apply (@router_denotes demo demo_net router_consumers router_responder router_cron router_gateway
    demo_snapshot (MkTime 0 0) engine_before engine_rules router_engine demo_start router_start router_history router_input);
    [done|exact engine_loads|reflexivity|exact engine_rules_plain| |reflexivity].
  intros kv [= <-]. apply demo_coherent. done.
Defined.
