(* ===== verification/Broker.v ===== *)
(** * Consumers, subscriptions and cached buckets (internal/broker/nats.go)

    The durable consumers the broker creates for trigger subjects and their
    names, the subscriptions it starts on them, and the updates of a watched
    bucket in the local cache. *)

From S2P Require Import Prelude GoStrings GoFloat GoTime Value Types Env Demo KVContext Processor.
From S2P Require Import StreamResolver Net HttpClient Publisher Site Subscription.
Local Open Scope string_scope.
#[local] Arguments String.append !_ _ /.

(** ** Consumer names *)

(** [strings.ReplaceAll] of a one-byte string. *)
Fixpoint replace_char (c : ascii) (new s : string) : string :=
  match s with
  | "" => ""
  | String a t => if Ascii.eqb a c then new ++ replace_char c new t else String a (replace_char c new t)
  end.

Definition sanitize (subject : string) : string :=
  replace_char " " "-" (replace_char ">" "multi-wildcard" (replace_char "*" "wildcard" (replace_char "." "-" subject))).

Definition generateConsumerName (prefix subject : string) : string := prefix ++ "-" ++ sanitize subject.

(** ** Policies *)

Inductive DeliverPolicy := DeliverAll | DeliverNew | DeliverLast | DeliverByStartTime | DeliverByStartSequence.
Inductive ReplayPolicy := ReplayInstant | ReplayOriginal.

Definition parseDeliverPolicy (policy : string) : option DeliverPolicy :=
  if String.eqb policy "all" then Some DeliverAll
  else if String.eqb policy "new" then Some DeliverNew
  else if String.eqb policy "last" then Some DeliverLast
  else if String.eqb policy "by_start_time" then Some DeliverByStartTime
  else if String.eqb policy "by_start_sequence" then Some DeliverByStartSequence
  else None.

Definition parseReplayPolicy (policy : string) : option ReplayPolicy :=
  if String.eqb policy "instant" then Some ReplayInstant
  else if String.eqb policy "original" then Some ReplayOriginal
  else None.

(** ** State *)

Inductive broker_error :=
| NotInitialized
| NoStreamFor (subject : string) (e : resolver_error)
| BadDeliverPolicy (policy : string) | BadReplayPolicy (policy : string)
| ConsumerNotCreated (subject : string)
| CreateConsumerFailed (stream consumer : string)
| SubscriptionFailed (subject : string) (e : subscription_error).

Section broker.
Context `{Net} `{SortSlice}.

Record Broker := MkBroker {
  bk_consumers : gmap string string;
  bk_subscriptionMgr : option SubscriptionManager;
  bk_resolver : StreamResolver;
  bk_ConsumerPrefix : string;
  bk_DeliverPolicy : string;
  bk_ReplayPolicy : string;
  bk_WorkerCount : Z;
}.

Definition with_consumers (b : Broker) (consumers : gmap string string) : Broker :=
  MkBroker consumers (bk_subscriptionMgr b) (bk_resolver b) (bk_ConsumerPrefix b) (bk_DeliverPolicy b)
    (bk_ReplayPolicy b) (bk_WorkerCount b).
Definition with_manager (b : Broker) (sm : SubscriptionManager) : Broker :=
  MkBroker (bk_consumers b) (Some sm) (bk_resolver b) (bk_ConsumerPrefix b) (bk_DeliverPolicy b)
    (bk_ReplayPolicy b) (bk_WorkerCount b).
Definition with_resolver (b : Broker) (sr : StreamResolver) : Broker :=
  MkBroker (bk_consumers b) (bk_subscriptionMgr b) sr (bk_ConsumerPrefix b) (bk_DeliverPolicy b)
    (bk_ReplayPolicy b) (bk_WorkerCount b).

(** ** Operations *)

Definition ConsumerName (b : Broker) (subject : string) : string :=
  match bk_consumers b !! subject with
  | Some name => name
  | None => generateConsumerName (bk_ConsumerPrefix b) subject
  end.

Definition CreateConsumerForSubject (b : Broker) (subject : string) : NM (result broker_error unit * Broker) :=
  match bk_consumers b !! subject with
  | Some _ => mret (Ok tt, b)
  | None =>
      match FindStreamForSubject (bk_resolver b) subject with
      | Err e => mret (Err (NoStreamFor subject e), b)
      | Ok streamName =>
          let consumerName := generateConsumerName (bk_ConsumerPrefix b) subject in
          match parseDeliverPolicy (bk_DeliverPolicy b), parseReplayPolicy (bk_ReplayPolicy b) with
          | None, _ => mret (Err (BadDeliverPolicy (bk_DeliverPolicy b)), b)
          | Some _, None => mret (Err (BadReplayPolicy (bk_ReplayPolicy b)), b)
          | Some _, Some _ =>
              ok ← with_world (js_CreateConsumer streamName consumerName subject);
              _ ← emit_event (EvConsumer streamName consumerName subject ok);
              if negb ok then mret (Err (CreateConsumerFailed streamName consumerName), b)
              else mret (Ok tt, with_consumers b (<[subject := consumerName]> (bk_consumers b)))
          end
      end
  end.

Definition lift_sub (b : Broker) (subject : string) (out : result subscription_error unit * SubscriptionManager)
    : result broker_error unit * Broker :=
  (map_err (SubscriptionFailed subject) out.1, with_manager b out.2).

Definition broker_AddSubscription (b : Broker) (subject : string) : NM (result broker_error unit * Broker) :=
  match bk_subscriptionMgr b with
  | None => mret (Err NotInitialized, b)
  | Some sm =>
      match bk_consumers b !! subject with
      | None => mret (Err (ConsumerNotCreated subject), b)
      | Some consumerName =>
          match FindStreamForSubject (bk_resolver b) subject with
          | Err e => mret (Err (NoStreamFor subject e), b)
          | Ok streamName =>
              out ← AddSubscription sm streamName consumerName subject (bk_WorkerCount b);
              mret (lift_sub b subject out)
          end
      end
  end.

Definition broker_AddAndStartSubscription (b : Broker) (subject : string) : NM (result broker_error unit * Broker) :=
  match bk_subscriptionMgr b with
  | None => mret (Err NotInitialized, b)
  | Some sm =>
      created ← CreateConsumerForSubject b subject;
      match created : result broker_error unit * Broker with
      | (Err e, b) => mret (Err e, b)
      | (Ok _, b) =>
          let consumerName := default "" (bk_consumers b !! subject) in
          match FindStreamForSubject (bk_resolver b) subject with
          | Err e => mret (Err (NoStreamFor subject e), b)
          | Ok streamName =>
              out ← AddAndStartSubscription sm streamName consumerName subject (bk_WorkerCount b);
              mret (lift_sub b subject out)
          end
      end
  end.

Definition broker_RemoveSubscription (b : Broker) (subject : string) : NM Broker :=
  match bk_subscriptionMgr b with
  | None => mret b
  | Some sm => sm ← RemoveSubscription sm subject; mret (with_manager b sm)
  end.

Definition RefreshStreams (b : Broker) (lister : list StreamConfig * bool) : Broker :=
  with_resolver b (Refresh (bk_resolver b) lister).2.

(** The table of subscriptions. *)
Definition subs_of (b : Broker) : gmap string Subscription :=
  match bk_subscriptionMgr b with Some sm => sm_subscriptions sm | None => ∅ end.
End broker.

Arguments Broker : clear implicits.
Arguments Broker {_}.

(** ** A watched bucket *)

Section watch.
Context `{JSON}.

Inductive kv_operation := KeyValuePut | KeyValueDelete | KeyValuePurge.
Record kv_entry := MkEntry { ke_Key : string; ke_Value : string; ke_Operation : kv_operation }.

(** The value the cache keeps: decoded with exact numbers, the text itself when
    it is not JSON, nil when it is empty. *)
Definition parsed_entry (raw : string) : value :=
  if (0 <? slen raw)%nat then default (VStr raw) (json_decode raw) else VNil.

Definition handleKVUpdate (bucket : string) (c : LocalKVCache) (e : kv_entry) : LocalKVCache :=
  match ke_Operation e with
  | KeyValueDelete | KeyValuePurge => cache_Delete c bucket (ke_Key e)
  | KeyValuePut => cache_Set c bucket (ke_Key e) (parsed_entry (ke_Value e))
  end.

(** The value of a key after a sequence of updates of its bucket. *)
Fixpoint last_update (key : string) (updates : list kv_entry) (before : option value) : option value :=
  match updates with
  | [] => before
  | e :: rest =>
      last_update key rest
        (if String.eqb (ke_Key e) key then
           match ke_Operation e with KeyValuePut => Some (parsed_entry (ke_Value e)) | _ => None end
         else before)
  end.
End watch.

(** ** Specification *)

(** A token that keeps its name in a consumer's: a wildcard, or a literal
    without the bytes and the words the names are made with. *)
Definition legible_token (t : string) : Prop :=
  t = "*" ∨ t = ">" ∨
  (t ≠ "wildcard" ∧ t ≠ "multi" ∧ ∀ c, c ∈ ["-"; " "; "*"; ">"]%char → has_char c t = false).
Definition legible (subject : string) : Prop := Forall legible_token (Split "." subject).

(** The words of a consumer name that stand for a token. *)
Definition name_parts (t : string) : list string :=
  if String.eqb t "*" then ["wildcard"]
  else if String.eqb t ">" then ["multi"; "wildcard"] else [t].

(** ** Lemmas *)

Lemma replace_char_none c new s : has_char c s = false → replace_char c new s = s.
Proof.
  induction s as [|a t IH]; [done|]. cbn [has_char replace_char].
  intros [Ha Ht]%orb_false_iff. rewrite Ha. by rewrite IH.
Qed.

Lemma replace_char_app c new s t : replace_char c new (s ++ t) = replace_char c new s ++ replace_char c new t.
Proof.
  induction s as [|a s IH]; [done|]. cbn [replace_char String.append]. rewrite IH.
  destruct (Ascii.eqb a c); [by rewrite app_assoc_str|done].
Qed.

Lemma replace_char_Join c new sep l :
  replace_char c new (Join sep l) = Join (replace_char c new sep) (map (replace_char c new) l).
Proof.
  induction l as [|x [|y l] IH]; [done|done|].
  change (Join sep (x :: y :: l)) with (x ++ sep ++ Join sep (y :: l)).
  by rewrite !replace_char_app, IH.
Qed.

Lemma replace_char_split c new s : replace_char c new s = Join new (Split c s).
Proof.
  induction s as [|a t IH]; [done|]. cbn [replace_char Split].
  destruct (Split c t) as [|h r] eqn:Es; [by apply Split_ne in Es|].
  destruct (Ascii.eqb a c); rewrite IH; [done|]. by destruct r.
Qed.

Lemma Join_concat (f : string → list string) sep (l : list string) :
  (∀ x, f x ≠ []) → Join sep (map (λ x, Join sep (f x)) l) = Join sep (concat (map f l)).
Proof.
  intros Hf. assert (∀ a b : list string, a ≠ [] → b ≠ [] → Join sep (a ++ b) = Join sep a ++ sep ++ Join sep b) as Happ.
  { intros a b Ha Hb. induction a as [|x [|y a] IH]; [done|by destruct b|].
    change (x ++ sep ++ Join sep ((y :: a) ++ b) = (x ++ sep ++ Join sep (y :: a)) ++ sep ++ Join sep b).
    rewrite IH by done. by rewrite !app_assoc_str. }
  induction l as [|x [|y l] IH]; [done|cbn; by rewrite app_nil_r|].
  change (Join sep (f x) ++ sep ++ Join sep (map (λ x, Join sep (f x)) (y :: l)) =
          Join sep (f x ++ concat (map f (y :: l)))).
  rewrite IH, Happ; [done|done|]. cbn. intros [Hy _]%app_nil. by destruct (Hf y).
Qed.

Lemma sanitize_parts subject : legible subject →
  sanitize subject = Join "-" (concat (map name_parts (Split "." subject))).
Proof.
  intros Hl. unfold sanitize. rewrite (replace_char_split "."), !replace_char_Join, !map_map.
  change (Join _ ?l) with (Join "-" l). rewrite <- Join_concat.
  2: { intros x. unfold name_parts. by repeat case_match. }
  f_equal. apply map_ext_Forall. eapply Forall_impl; [exact Hl|]. intros t [->|[->|(Hw & Hm & Hc)]]; [done|done|].
  assert (String.eqb t "*" = false ∧ String.eqb t ">" = false) as [E1 E2].
  { split; apply String.eqb_neq; intros ->; [specialize (Hc "*"%char)|specialize (Hc ">"%char)];
      discriminate Hc; set_solver. }
  unfold name_parts. rewrite E1, E2. 
  by rewrite (replace_char_none "*"), (replace_char_none ">"), (replace_char_none " ") by (apply Hc; set_solver).
Qed.

Lemma name_parts_inj l l' : Forall legible_token l → Forall legible_token l' →
  concat (map name_parts l) = concat (map name_parts l') → l = l'.
Proof.
  assert (∀ t, legible_token t → name_parts t = ["wildcard"] ∧ t = "*" ∨
    name_parts t = ["multi"; "wildcard"] ∧ t = ">" ∨ name_parts t = [t] ∧ t ≠ "wildcard" ∧ t ≠ "multi") as Hp.
  { intros t Ht. unfold name_parts. destruct (String.eqb_spec t "*"); [by left|].
    destruct (String.eqb_spec t ">"); [by right; left|]. right. right.
    by destruct Ht as [?|[?|(? & ? & _)]]. }
  intros Hl. revert l'. induction Hl as [|x l Hx _ IH]; intros l' Hl'; destruct Hl' as [|y l' Hy Hl']; cbn [map concat].
  - done.
  - destruct (Hp y Hy) as [[-> _]|[[-> _]|[-> _]]]; done.
  - destruct (Hp x Hx) as [[-> _]|[[-> _]|[-> _]]]; done.
  - destruct (Hp x Hx) as [[-> ->]|[[-> ->]|(-> & ? & ?)]], (Hp y Hy) as [[-> ->]|[[-> ->]|(-> & ? & ?)]];
      cbn; intros Heq; simplify_eq; f_equal; by apply IH.
Qed.

Lemma append_inj_l p s t : p ++ s = p ++ t → s = t.
Proof. induction p as [|a p IH]; [done|]. cbn. intros [= ?]. auto. Qed.

(** ** Properties *)

(** Subjects of legible tokens have consumers of their own. *)
Theorem consumer_names_distinct prefix subject subject' :
  legible subject → legible subject' →
  generateConsumerName prefix subject = generateConsumerName prefix subject' → subject = subject'.
Proof.
  intros Hl Hl' Heq. unfold generateConsumerName in Heq. apply append_inj_l, append_inj_l in Heq.
  rewrite !sanitize_parts in Heq by done.
  assert (∀ s, legible s → Split "-" (Join "-" (concat (map name_parts (Split "." s)))) = concat (map name_parts (Split "." s))) as Hs.
  { intros s Hs. apply Split_Join.
    - destruct (Split "." s) as [|t l] eqn:E; [by apply Split_ne in E|]. cbn. unfold name_parts. by repeat case_match.
    - intros tok Htok. apply list_elem_of_In, in_concat in Htok as (p & Hp & Htok).
      apply in_map_iff in Hp as (t & <- & Ht). apply list_elem_of_In in Ht, Htok.
      unfold legible in Hs. rewrite Forall_forall in Hs. specialize (Hs t Ht). unfold name_parts in Htok.
      destruct (String.eqb_spec t "*"); [by apply list_elem_of_singleton in Htok as ->|].
      destruct (String.eqb_spec t ">"); [by apply elem_of_cons in Htok as [->|Htok%list_elem_of_singleton]; [|subst tok]|].
      apply list_elem_of_singleton in Htok as ->. destruct Hs as [?|[?|(_ & _ & Hc)]]; [done..|]. apply Hc. set_solver. }
  apply (Split_inj "."). apply name_parts_inj; [done|done|]. by rewrite <- (Hs subject), <- (Hs subject'), Heq.
Qed.

Lemma consumer_names_distinct_witness :
  let name s := generateConsumerName "rr" s in
  name "sensors.*" = "rr-sensors-wildcard" ∧ "sensors.*" = "sensors.*".
Proof.
  cbv zeta. split; [reflexivity|].
  assert (legible "sensors.*") as Hl.
  { constructor; [|constructor; [by left|constructor]]. right. right. split_and!; [done|done|].
    intros c Hc. cbn in Hc.
    rewrite !elem_of_cons in Hc. destruct Hc as [->|[->|[->|[->|Hc]]]]; [reflexivity..|].
    by rewrite elem_of_nil in Hc. }
  by apply (consumer_names_distinct "rr" "sensors.*" "sensors.*").
Defined.

(** Without that care two subjects share a durable consumer, and creating the
    second moves the filter of the first. *)
Lemma consumer_names_collide prefix :
  generateConsumerName prefix "orders.new" = generateConsumerName prefix "orders-new" ∧
  generateConsumerName prefix "orders.*" = generateConsumerName prefix "orders.wildcard" ∧
  generateConsumerName prefix "orders.>" = generateConsumerName prefix "orders.multi.*".
Proof. done. Qed.

Section properties.
Context `{Net} `{SortSlice}.

Lemma CreateConsumerForSubject_spec b subject :
  yields (CreateConsumerForSubject b subject) (λ out evs,
    bk_subscriptionMgr out.2 = bk_subscriptionMgr b ∧ bk_resolver out.2 = bk_resolver b ∧
    bk_WorkerCount out.2 = bk_WorkerCount b ∧ bk_ConsumerPrefix out.2 = bk_ConsumerPrefix b ∧
    (∀ k, k ≠ subject → bk_consumers out.2 !! k = bk_consumers b !! k) ∧
    (∀ name, bk_consumers b !! subject = Some name → bk_consumers out.2 !! subject = Some name) ∧
    match out.1 with
    | Ok _ => bk_consumers out.2 !! subject =
                Some (default (generateConsumerName (bk_ConsumerPrefix b) subject) (bk_consumers b !! subject))
    | Err e => out.2 = b ∧ bk_consumers b !! subject = None ∧ e ≠ NotInitialized
    end).
Proof.
  unfold CreateConsumerForSubject. destruct (bk_consumers b !! subject) as [name|] eqn:Hc; [by apply yields_ret; cbn; rewrite ?Hc|].
  destruct (FindStreamForSubject (bk_resolver b) subject) as [stream|e]; [|by apply yields_ret; cbn; rewrite ?Hc].
  destruct (parseDeliverPolicy (bk_DeliverPolicy b)); [|by apply yields_ret; cbn; rewrite ?Hc].
  destruct (parseReplayPolicy (bk_ReplayPolicy b)); [|by apply yields_ret; cbn; rewrite ?Hc].
  eapply yields_bind; [by apply (yields_world _ (λ _, True))|]. intros ok ? [_ ->].
  eapply yields_bind; [apply yields_emit|]. intros [] ? ->. destruct ok; [|by apply yields_ret; cbn; rewrite ?Hc].
  apply yields_ret. cbn. split_and!; try done; [|by rewrite lookup_insert_eq].
  intros k Hk. by rewrite lookup_insert_ne.
Qed.

(** Adding a subscription touches no other, keeps one that is there, and when it
    succeeds there is one. *)
Lemma broker_AddAndStartSubscription_spec b subject :
  yields (broker_AddAndStartSubscription b subject) (λ out evs,
    bk_resolver out.2 = bk_resolver b ∧
    (∀ k, k ≠ subject → subs_of out.2 !! k = subs_of b !! k) ∧
    (∀ sub, subs_of b !! subject = Some sub → subs_of out.2 !! subject = Some sub) ∧
    (is_ok out.1 = true → is_Some (subs_of out.2 !! subject) ∧
       (subs_of b !! subject = None → ∃ stream,
          FindStreamForSubject (bk_resolver b) subject = Ok stream ∧
          subs_of out.2 !! subject = Some (MkSubscription subject
            (default (generateConsumerName (bk_ConsumerPrefix b) subject) (bk_consumers b !! subject))
            stream (bk_WorkerCount b) true)))).
Proof.
  unfold broker_AddAndStartSubscription. destruct (bk_subscriptionMgr b) as [sm|] eqn:Hsm; [|by apply yields_ret].
  assert (subs_of b = sm_subscriptions sm) as Hb by (unfold subs_of; by rewrite Hsm).
  eapply yields_bind; [apply CreateConsumerForSubject_spec|]. intros [r b1] evs (Hm & Hr & Hw & _ & _ & _ & Hc).
  cbn [fst snd] in *. assert (subs_of b1 = sm_subscriptions sm) as Hb1 by (unfold subs_of; by rewrite Hm, Hsm).
  rewrite Hb. destruct r as [[]|e]; [|apply yields_ret; cbn; by rewrite Hb1]. rewrite Hr, Hc, Hw.
  destruct (FindStreamForSubject (bk_resolver b) subject) as [stream|e]; [|apply yields_ret; cbn; by rewrite Hb1].
  cbn [default id]. eapply yields_bind; [apply AddAndStartSubscription_spec|].
  intros [r sm'] evs' [Hk Hs]. apply yields_ret. cbn [fst snd lift_sub with_manager bk_resolver] in *.
  change (subs_of (with_manager b1 sm')) with (sm_subscriptions sm'). split_and!; [done|done| |].
  - intros sub Hsub. rewrite Hsub in Hs. destruct Hs as [[= -> ->] _]. done.
  - destruct (sm_subscriptions sm !! subject) as [sub|] eqn:Hsub.
    + destruct Hs as [[= -> ->] _]. intros _. rewrite Hsub. by split; [eexists|].
    + destruct r as [[]|[]]; [|done..]. destruct Hs as [-> _]. eauto.
Qed.

Lemma broker_RemoveSubscription_spec b subject :
  yields (broker_RemoveSubscription b subject) (λ b' evs,
    bk_resolver b' = bk_resolver b ∧ subs_of b' = delete subject (subs_of b)).
Proof.
  unfold broker_RemoveSubscription. destruct (bk_subscriptionMgr b) as [sm|] eqn:Hsm.
  2: { apply yields_ret. unfold subs_of. rewrite Hsm. by rewrite delete_empty. }
  eapply (yields_bind _ _ (λ sm' evs, sm_subscriptions sm' = delete subject (sm_subscriptions sm))).
  - unfold RemoveSubscription. destruct (sm_subscriptions sm !! subject) as [sub|] eqn:Hs.
    + eapply (yields_bind _ _ (λ _ _, True)); [|by intros; apply yields_ret].
      destruct (sub_iterator sub); [|by apply yields_ret]. eapply yields_weaken; [apply yields_emit|done].
    + apply yields_ret. by rewrite delete_id.
  - intros sm' evs Hd. apply yields_ret. split; [done|]. unfold subs_of. by rewrite Hsm.
Qed.
End properties.

(** The cache follows the bucket: after any sequence of updates a key has the
    value of its last put, exact numbers included, or none after a removal, and
    the keys of other buckets are as they were. *)
Theorem handleKVUpdate_mirrors `{JSON} bucket updates c bucket' key :
  cache_IsEnabled c = true →
  cache_Get (foldl (handleKVUpdate bucket) c updates) bucket' key =
    if String.eqb bucket' bucket then last_update key updates (cache_Get c bucket key)
    else cache_Get c bucket' key.
Proof.
  unfold cache_IsEnabled. revert c. induction updates as [|e rest IH]; intros c He; cbn [foldl last_update].
  { by destruct (String.eqb_spec bucket' bucket) as [->|]. }
  assert (lc_enabled (handleKVUpdate bucket c e) = true) as He'.
  { unfold handleKVUpdate, cache_Delete, cache_Set. destruct (ke_Operation e); rewrite He; cbn; try done; by destruct (lc_cache c !! bucket). }
  rewrite IH by done.
  assert (∀ b k, cache_Get (handleKVUpdate bucket c e) b k =
    if bool_decide (b = bucket ∧ k = ke_Key e) then
      match ke_Operation e with KeyValuePut => Some (parsed_entry (ke_Value e)) | _ => None end
    else cache_Get c b k) as Hget.
  { intros b k. unfold handleKVUpdate. by destruct (ke_Operation e); rewrite ?cache_Get_Set, ?cache_Get_Delete, He. }
  rewrite !Hget. destruct (String.eqb_spec bucket' bucket) as [->|Hne]; [|by rewrite bool_decide_false by naive_solver].
  f_equal. destruct (String.eqb_spec (ke_Key e) key) as [<-|Hk]; [by rewrite bool_decide_true|].
  by rewrite bool_decide_false by naive_solver.
Qed.

Lemma handleKVUpdate_mirrors_witness :
  @cache_Get (foldl (@handleKVUpdate demo_JSON "config") NewLocalKVCache
      [MkEntry "limits" "{'max':25}" KeyValuePut; MkEntry "mode" "fast" KeyValuePut; MkEntry "limits" "" KeyValueDelete])
    "config" "mode" = Some (VStr "fast").
Proof. by rewrite (@handleKVUpdate_mirrors demo_JSON). Defined.
