(* ===== verification/RuleManager.v ===== *)
(** * Rules of a watched bucket (internal/broker/rule_kv_manager.go)

    A put replaces the rules of a key, a delete removes them; each time the
    processor gets the rules of all keys, and the cron jobs, the core
    subscriptions and the JetStream subscriptions follow.  The rules a manager
    keeps and those of the processor's set are the same objects, so the numbers
    the processor gives are read back. *)

From S2P Require Import Prelude GoStrings GoFloat GoTime Value Types Env Demo PathMatcher Pattern Processor Loader.
From S2P Require Import StreamResolver Net Watch HttpClient Publisher Site Subscription Responder Scheduler Broker.
Local Open Scope string_scope.

(** ** The rule set of the processor *)

Definition hasScheduleRules (rules : list Rule) : bool :=
  existsb (λ r, match tr_Schedule (r_Trigger r) with Some _ => true | None => false end) rules.
Definition is_core_rule (r : Rule) : bool :=
  match tr_NATS (r_Trigger r) with Some t => IsCore t | None => false end.
Definition hasCoreRules (rules : list Rule) : bool := existsb is_core_rule rules.

(** The subjects that need a JetStream subscription. *)
Definition collectNATSTriggerSubjects (rules : list Rule) : gset string :=
  foldr (λ r subjects, match tr_NATS (r_Trigger r) with
    | Some t => if IsCore t then subjects else {[ nt_Subject t ]} ∪ subjects
    | None => subjects end) ∅ rules.

Definition empty_set : KVRuleSet := MkKVRuleSet ∅ (MkHTTPKVRuleSet ∅ []) [].

Definition append_rule (m : gmap string (list Rule)) (k : string) (r : Rule) : gmap string (list Rule) :=
  <[k := (default [] (m !! k) ++ [r])%list]> m.

(** One rule into the set, under each of its triggers. *)
Definition add_to_set (set : KVRuleSet) (r : Rule) : KVRuleSet :=
  let nats := match tr_NATS (r_Trigger r) with
    | Some t => append_rule (ks_NATS set) (nt_Subject t) r
    | None => ks_NATS set end in
  let http := match tr_HTTP (r_Trigger r) with
    | Some t =>
        let path := ht_Path t in
        if PathContainsWildcards path then
          match NewPathMatcher path with
          | Err _ => ks_HTTP set
          | Ok matcher => MkHTTPKVRuleSet (hk_Exact (ks_HTTP set))
                            (hk_Patterns (ks_HTTP set) ++ [MkHTTPPatternRule r matcher])%list
          end
        else MkHTTPKVRuleSet (append_rule (hk_Exact (ks_HTTP set)) path r) (hk_Patterns (ks_HTTP set))
    | None => ks_HTTP set end in
  let schedule := match tr_Schedule (r_Trigger r) with
    | Some _ => (ks_Schedule set ++ [r])%list
    | None => ks_Schedule set end in
  MkKVRuleSet nats http schedule.

(** ** Where a rule is in the set

    A rule that the loader accepts has one trigger, so it is in one list. *)
Inductive place := PNats (subject : string) | PExact (path : string) | PPattern | PSchedule | PNowhere.

#[export] Instance place_eq_dec : EqDecision place.
Proof. solve_decision. Defined.

Definition place_of (r : Rule) : place :=
  match tr_NATS (r_Trigger r), tr_HTTP (r_Trigger r), tr_Schedule (r_Trigger r) with
  | Some t, _, _ => PNats (nt_Subject t)
  | None, Some t, _ =>
      if PathContainsWildcards (ht_Path t) then if is_ok (NewPathMatcher (ht_Path t)) then PPattern else PNowhere
      else PExact (ht_Path t)
  | None, None, Some _ => PSchedule
  | None, None, None => PNowhere
  end.

Definition set_lists (set : KVRuleSet) (pl : place) : list Rule :=
  match pl with
  | PNats s => default [] (ks_NATS set !! s)
  | PExact p => default [] (hk_Exact (ks_HTTP set) !! p)
  | PPattern => map hp_Rule (hk_Patterns (ks_HTTP set))
  | PSchedule => ks_Schedule set
  | PNowhere => []
  end.

(** The rules as the set holds them now: each is the next one of its list. *)
Fixpoint read_back (lists : place → list Rule) (rules : list Rule) : list Rule :=
  match rules with
  | [] => []
  | r :: rest =>
      match lists (place_of r) with
      | [] => r :: read_back lists rest
      | x :: l => x :: read_back (λ pl, if decide (pl = place_of r) then l else lists pl) rest
      end
  end.

Fixpoint rechunk (order : list (string * list Rule)) (rules : list Rule) : list (string * list Rule) :=
  match order with
  | [] => []
  | (k, rs) :: rest => (k, take (length rs) rules) :: rechunk rest (drop (length rs) rules)
  end.

(** [pushRulesToProcessor], the keys being visited in [order]: the processor,
    the rules of the keys, the schedule rules and the core rules. *)
Definition pushRulesToProcessor (p : Processor) (order : list (string * list Rule))
    : Processor * gmap string (list Rule) * list Rule * list Rule :=
  let flat := concat (map snd order) in
  let p := ReplaceKVRuleSet p (foldl add_to_set empty_set flat) in
  let lists := match p_kvRuleSet p with Some set => set_lists set | None => λ _, [] end in
  let flat := read_back lists flat in
  (p, list_to_map (rechunk order flat),
   List.filter (λ r, match tr_Schedule (r_Trigger r) with Some _ => true | None => false end) flat,
   List.filter is_core_rule flat).

(** ** The manager and what follows it *)

Section manager.
Context `{Env} `{LoaderEnv} `{Cron} `{Net} `{SortSlice}.

Record Cluster := MkCluster {
  cl_loader : Loader;
  cl_currentRules : gmap string (list Rule);
  cl_processor : Processor;
  cl_st : St;
  cl_broker : Broker;
  cl_jobs : option (list job);             (* the scheduler, when it registered its callback *)
  cl_responder : option Responder;         (* the responder, likewise *)
  cl_net : NSt;
}.

Definition with_net {A} (m : NM A) (c : Cluster) : A * Cluster :=
  let '(a, n) := m (cl_net c) in
  (a, MkCluster (cl_loader c) (cl_currentRules c) (cl_processor c) (cl_st c) (cl_broker c) (cl_jobs c) (cl_responder c) n).
Definition set_broker (c : Cluster) (b : Broker) : Cluster :=
  MkCluster (cl_loader c) (cl_currentRules c) (cl_processor c) (cl_st c) b (cl_jobs c) (cl_responder c) (cl_net c).
Definition set_st (c : Cluster) (st : St) : Cluster :=
  MkCluster (cl_loader c) (cl_currentRules c) (cl_processor c) st (cl_broker c) (cl_jobs c) (cl_responder c) (cl_net c).
Definition set_rules (c : Cluster) (rules : gmap string (list Rule)) : Cluster :=
  MkCluster (cl_loader c) rules (cl_processor c) (cl_st c) (cl_broker c) (cl_jobs c) (cl_responder c) (cl_net c).

(** The new rules into the processor; the schedule rules and the core rules. *)
Definition push (c : Cluster) : Cluster * list Rule * list Rule :=
  let '(order, c) := with_net (with_world (range_order (map_to_list (cl_currentRules c)))) c in
  let '(p, rules, schedule, core) := pushRulesToProcessor (cl_processor c) order in
  (MkCluster (cl_loader c) rules p (cl_st c) (cl_broker c) (cl_jobs c) (cl_responder c) (cl_net c), schedule, core).

(** The callbacks, when they are wanted and registered. *)
Definition rebuild_schedule (wanted : bool) (schedule : list Rule) (c : Cluster) : Cluster :=
  match cl_jobs c with
  | Some jobs =>
      if wanted then MkCluster (cl_loader c) (cl_currentRules c) (cl_processor c) (cl_st c) (cl_broker c)
                       (Some (rebuildCronJobs jobs schedule)) (cl_responder c) (cl_net c)
      else c
  | None => c
  end.
Definition rebuild_core (wanted : bool) (core : list Rule) (c : Cluster) : Cluster :=
  match cl_responder c with
  | Some re =>
      if wanted then
        let '(re, c) := with_net (Rebuild re core) c in
        MkCluster (cl_loader c) (cl_currentRules c) (cl_processor c) (cl_st c) (cl_broker c) (cl_jobs c) (Some re) (cl_net c)
      else c
  | None => c
  end.

(** A subscription that cannot be started is only reported. *)
Fixpoint start_subjects (subjects : list string) (c : Cluster) : Cluster :=
  match subjects with
  | [] => c
  | s :: rest =>
      let '(out, c) := with_net (broker_AddAndStartSubscription (cl_broker c) s) c in
      start_subjects rest (set_broker c out.2)
  end.
Fixpoint remove_subjects (subjects : list string) (c : Cluster) : Cluster :=
  match subjects with
  | [] => c
  | s :: rest =>
      let '(b, c) := with_net (broker_RemoveSubscription (cl_broker c) s) c in
      remove_subjects rest (set_broker c b)
  end.

Definition in_range_order (subjects : gset string) (c : Cluster) : list string * Cluster :=
  with_net (with_world (range_order (elements subjects))) c.

(** [handleRulePut]; [lister] is what listing the streams gives. *)
Definition handleRulePut (lister : list StreamConfig * bool) (key val : string) (c : Cluster) : Cluster :=
  let '(parsed, st) := ParseAndValidateYAML (cl_loader c) val (cl_st c) in
  let c := set_st c st in
  match parsed with
  | Err _ => c
  | Ok rules =>
      let c := set_broker c (RefreshStreams (cl_broker c) lister) in
      if (0 <? length (ValidateRulesHaveStreams (bk_resolver (cl_broker c)) rules))%nat then c
      else
        let old := default [] (cl_currentRules c !! key) in
        let '(c, schedule, core) := push (set_rules c (<[key := rules]> (cl_currentRules c))) in
        let c := rebuild_schedule (hasScheduleRules old || hasScheduleRules rules) schedule c in
        let c := rebuild_core (hasCoreRules old || hasCoreRules rules) core c in
        let '(subjects, c) := in_range_order (collectNATSTriggerSubjects rules) c in
        start_subjects (List.filter (λ s, negb (bool_decide (s ∈ collectNATSTriggerSubjects old))) subjects) c
  end.

Definition still_needed (rules : gmap string (list Rule)) : gset string :=
  collectNATSTriggerSubjects (concat (map snd (map_to_list rules))).

Definition handleRuleDelete (key : string) (c : Cluster) : Cluster :=
  match cl_currentRules c !! key with
  | None => c
  | Some old =>
      let '(c, schedule, core) := push (set_rules c (delete key (cl_currentRules c))) in
      let needed := still_needed (cl_currentRules c) in
      let c := rebuild_schedule (hasScheduleRules old) schedule c in
      let c := rebuild_core (hasCoreRules old) core c in
      let '(subjects, c) := in_range_order (collectNATSTriggerSubjects old) c in
      remove_subjects (List.filter (λ s, negb (bool_decide (s ∈ needed))) subjects) c
  end.

(** [consumeUpdates], an update at a time. *)
Inductive rule_update := RulePut (lister : list StreamConfig * bool) (key val : string) | RuleDelete (key : string).

Definition consume (c : Cluster) (u : rule_update) : Cluster :=
  match u with
  | RulePut lister key val => handleRulePut lister key val c
  | RuleDelete key => handleRuleDelete key c
  end.
Definition consumeUpdates (c : Cluster) (updates : list rule_update) : Cluster := foldl consume c updates.

Definition CoreRules (c : Cluster) : list Rule :=
  List.filter is_core_rule (concat (map snd (map_to_list (cl_currentRules c)))).

(** The loop over the bucket's watchers. *)
Definition rule_watch (c : Cluster) (first : session rule_update) (attempts : list (attempt rule_update)) : Cluster :=
  (runWatch consume c first attempts).1.1.1.
End manager.

(** ** Starting to watch

    The first call opens or creates the bucket and the watcher; the others give
    its result again. *)
Inductive store_open := StoreFound | StoreNotFound | StoreFailed.
Inductive watch_error := OpenBucketFailed | CreateBucketFailed | CreateWatcherFailed.

Definition open_watch (autoProvision : bool) (store : store_open) (created watching : bool) : result watch_error unit :=
  let watch := if watching then Ok tt else Err CreateWatcherFailed in
  match store with
  | StoreFound => watch
  | StoreNotFound => if autoProvision then if created then watch else Err CreateBucketFailed else Err OpenBucketFailed
  | StoreFailed => Err OpenBucketFailed
  end.

Definition Watch (once : option (result watch_error unit)) (autoProvision : bool) (store : store_open)
    (created watching : bool) : result watch_error unit * option (result watch_error unit) :=
  match once with
  | Some err => (err, once)
  | None => let err := open_watch autoProvision store created watching in (err, Some err)
  end.

(** ** Specification *)

(** All the rules of all the keys. *)
Definition all_current (rules : gmap string (list Rule)) : list Rule := concat (map snd (map_to_list rules)).

Definition at_place (pl : place) (rules : list Rule) : list Rule :=
  List.filter (λ r, bool_decide (place_of r = pl)) rules.

(** A rule with one trigger, that has a place. *)
Definition single (r : Rule) : Prop :=
  (present (tr_NATS (r_Trigger r)) + present (tr_HTTP (r_Trigger r)) + present (tr_Schedule (r_Trigger r)) = 1)%nat ∧
  place_of r ≠ PNowhere.

(** The lists of the processor's set. *)
Definition kv_lists (p : Processor) (pl : place) : list Rule :=
  match p_kvRuleSet p with Some set => set_lists set pl | None => [] end.

(** The same rule with a number, the one it had if it had one. *)
Definition renumbered (r r' : Rule) : Prop :=
  r' = set_rule_index r (r_index r') ∧ (r_index r ≠ 0%Z → r' = r) ∧ r_index r' ≠ 0%Z.

(** ** Lemmas: the rule set *)

Lemma append_rule_lookup m k r k' :
  default [] (append_rule m k r !! k') = (default [] (m !! k') ++ if decide (k = k') then [r] else [])%list.
Proof.
  unfold append_rule. case_decide as E; [subst|]; [by rewrite lookup_insert_eq|].
  by rewrite lookup_insert_ne, app_nil_r.
Qed.

Lemma add_to_set_lists set r pl : single r → pl ≠ PNowhere →
  set_lists (add_to_set set r) pl = (set_lists set pl ++ if decide (place_of r = pl) then [r] else [])%list.
Proof.
  intros [Hone Hp] Hpl. unfold add_to_set, place_of in *.
  destruct (tr_NATS (r_Trigger r)) as [n|], (tr_HTTP (r_Trigger r)) as [h|], (tr_Schedule (r_Trigger r)) as [s|];
    cbn in Hone; try lia; cbn.
  - destruct pl; cbn; rewrite ?append_rule_lookup; try (rewrite decide_False by congruence; by rewrite app_nil_r); [|done].
    f_equal. repeat case_decide; naive_solver.
  - destruct (PathContainsWildcards (ht_Path h)); [destruct (NewPathMatcher (ht_Path h)) as [m|]; [|done]|]; cbn in *.
    + destruct pl; cbn; try (rewrite decide_False by congruence; by rewrite app_nil_r); [|done].
      by rewrite map_app.
    + destruct pl; cbn; rewrite ?append_rule_lookup; try (rewrite decide_False by congruence; by rewrite app_nil_r); [|done].
      f_equal. repeat case_decide; naive_solver.
  - destruct pl; cbn; try (rewrite decide_False by congruence; by rewrite app_nil_r); done.
Qed.

Lemma at_place_app pl l k : at_place pl (l ++ k) = (at_place pl l ++ at_place pl k)%list.
Proof. apply List.filter_app. Qed.

Lemma at_place_cons pl r l :
  at_place pl (r :: l) = if bool_decide (place_of r = pl) then r :: at_place pl l else at_place pl l.
Proof. done. Qed.

Lemma build_lists flat pl : Forall single flat → pl ≠ PNowhere →
  set_lists (foldl add_to_set empty_set flat) pl = at_place pl flat.
Proof.
  intros Hs Hpl. induction flat as [|r flat IH] using rev_ind; [by destruct pl|].
  apply Forall_app in Hs as [Hs [Hr _]%Forall_cons]. rewrite foldl_app, at_place_app. cbn [foldl].
  rewrite add_to_set_lists, IH by done. f_equal. cbn. by case_decide; case_bool_decide.
Qed.

(** *** Numbering *)

Lemma number_rule_renumbered seq r : (0 ≤ seq)%Z →
  let '(seq', r') := number_rule seq r in (0 ≤ seq')%Z ∧ renumbered r r'.
Proof.
  intros Hs. unfold number_rule. destruct (Z.eqb_spec (r_index r) 0) as [E|E].
  - split; [lia|]. split_and!; [done|done|cbn; lia].
  - split; [done|]. split_and!; [by destruct r|done|done].
Qed.

Lemma number_list_renumbered seq rules : (0 ≤ seq)%Z →
  let '(seq', rules') := number_list seq rules in (0 ≤ seq')%Z ∧ Forall2 renumbered rules rules'.
Proof.
  revert seq. induction rules as [|r rules IH]; intros seq Hs; [by split|]. cbn [number_list].
  pose proof (number_rule_renumbered seq r Hs) as Hr. destruct (number_rule seq r) as [seq1 r'].
  destruct Hr as [Hs1 Hr]. specialize (IH seq1 Hs1). destruct (number_list seq1 rules) as [seq2 rules'].
  destruct IH. split; [done|]. by constructor.
Qed.

Lemma number_entries_renumbered seq entries : (0 ≤ seq)%Z →
  let '(seq', entries') := number_entries seq entries in
  (0 ≤ seq')%Z ∧ Forall2 (λ e e', e'.1 = e.1 ∧ Forall2 renumbered e.2 e'.2) entries entries'.
Proof.
  revert seq. induction entries as [|[k rs] entries IH]; intros seq Hs; [by split|]. cbn [number_entries].
  pose proof (number_list_renumbered seq rs Hs) as Hr. destruct (number_list seq rs) as [seq1 rs'].
  destruct Hr as [Hs1 Hr]. specialize (IH seq1 Hs1). destruct (number_entries seq1 entries) as [seq2 entries'].
  destruct IH. split; [done|]. by constructor.
Qed.

(** A table rewritten entry by entry. *)
Lemma list_to_map_Forall2 (R : Rule → Rule → Prop) (m : gmap string (list Rule)) order order' k :
  order ≡ₚ map_to_list m → Forall2 (λ e e', e'.1 = e.1 ∧ Forall2 R e.2 e'.2) order order' →
  option_Forall2 (Forall2 R) (m !! k) ((list_to_map order' : gmap string (list Rule)) !! k).
Proof.
  intros Hperm Hall. assert (map fst order' = map fst order) as Hkeys.
  { clear Hperm. induction Hall as [|? ? ? ? [E _] _ IH]; [done|]. cbn. by rewrite E, IH. }
  assert (NoDup order'.*1) as Hnd.
  { change (NoDup (map fst order')). rewrite Hkeys. change (NoDup order.*1). rewrite Hperm. apply NoDup_fst_map_to_list. }
  destruct (m !! k) as [l|] eqn:E.
  - assert ((k, l) ∈ order) as [i Hi]%list_elem_of_lookup by by rewrite Hperm, elem_of_map_to_list.
    destruct (Forall2_lookup_l _ _ _ _ _ Hall Hi) as ([k' l'] & Hi' & Ek & Hl). cbn in *. subst k'.
    rewrite (elem_of_list_to_map_1 order' k l'); [by constructor|done|by eapply list_elem_of_lookup_2].
  - rewrite not_elem_of_list_to_map_1; [constructor|].
    change (k ∉ map fst order'). rewrite Hkeys. intros ([k' l] & -> & Hin)%list_elem_of_fmap.
    rewrite Hperm, elem_of_map_to_list in Hin. cbn in E. congruence.
Qed.

Lemma option_Forall2_default (R : Rule → Rule → Prop) o o' :
  option_Forall2 (Forall2 R) o o' → Forall2 R (default [] o) (default [] o').
Proof. by destruct 1. Qed.

Lemma number_map_renumbered seq m : (0 ≤ seq)%Z →
  (0 ≤ (number_map seq m).1)%Z ∧
  ∀ k, Forall2 renumbered (default [] (m !! k)) (default [] ((number_map seq m).2 !! k)).
Proof.
  intros Hs. unfold number_map. pose proof (number_entries_renumbered seq (map_to_list m) Hs) as He.
  destruct (number_entries seq (map_to_list m)) as [seq' entries]. destruct He as [Hs' Hf]. split; [done|].
  intros k. apply option_Forall2_default. by eapply list_to_map_Forall2.
Qed.

Lemma number_patterns_renumbered seq prs : (0 ≤ seq)%Z →
  (0 ≤ (number_patterns seq prs).1)%Z ∧
  Forall2 renumbered (map hp_Rule prs) (map hp_Rule (number_patterns seq prs).2).
Proof.
  intros Hs. destruct (number_patterns_list seq prs) as [-> ->].
  pose proof (number_list_renumbered seq (map hp_Rule prs) Hs) as H. by destruct (number_list _ _).
Qed.

Lemma replace_lists p set : (0 ≤ p_kvRuleSeq p)%Z →
  (0 ≤ p_kvRuleSeq (ReplaceKVRuleSet p set))%Z ∧
  ∀ pl, Forall2 renumbered (set_lists set pl) (kv_lists (ReplaceKVRuleSet p set) pl).
Proof.
  intros Hs. unfold ReplaceKVRuleSet.
  destruct (number_map_renumbered (p_kvRuleSeq p) (ks_NATS set) Hs) as [Hs1 H1].
  destruct (number_map (p_kvRuleSeq p) (ks_NATS set)) as [s1 nats]. cbn in Hs1.
  destruct (number_map_renumbered s1 (hk_Exact (ks_HTTP set)) Hs1) as [Hs2 H2].
  destruct (number_map s1 (hk_Exact (ks_HTTP set))) as [s2 exact]. cbn in Hs2.
  destruct (number_patterns_renumbered s2 (hk_Patterns (ks_HTTP set)) Hs2) as [Hs3 H3].
  destruct (number_patterns s2 _) as [s3 patterns]. cbn in Hs3.
  pose proof (number_list_renumbered s3 (ks_Schedule set) Hs3) as H4.
  destruct (number_list s3 _) as [s4 schedule]. destruct H4 as [Hs4 H4].
  split; [done|]. intros []; cbn; [apply H1|apply H2|apply H3|apply H4|constructor].
Qed.

(** *** Reading the rules back *)

Lemma renumbered_place r r' : renumbered r r' → place_of r' = place_of r.
Proof. intros [-> _]. done. Qed.

Lemma read_back_spec lists rules :
  Forall (λ r, place_of r ≠ PNowhere) rules →
  (∀ pl, pl ≠ PNowhere → Forall2 renumbered (at_place pl rules) (lists pl)) →
  Forall2 renumbered rules (read_back lists rules) ∧
  ∀ pl, pl ≠ PNowhere → at_place pl (read_back lists rules) = lists pl.
Proof.
  intros Hp. revert lists. induction Hp as [|r rules Hr Hp IH]; intros lists Hl; cbn [read_back].
  { split; [constructor|]. intros pl Hpl. specialize (Hl pl Hpl). by inversion Hl. }
  pose proof (Hl (place_of r) Hr) as Hhead. cbn in Hhead. rewrite bool_decide_true in Hhead by done.
  destruct (lists (place_of r)) as [|x l] eqn:El; [by inversion Hhead|].
  apply Forall2_cons in Hhead as [Hx Hrest].
  destruct (IH (λ pl, if decide (pl = place_of r) then l else lists pl)) as [Hf Hat].
  { intros pl Hpl. case_decide as E; [by subst|]. specialize (Hl pl Hpl). cbn in Hl.
    by rewrite bool_decide_false in Hl by congruence. }
  split; [by constructor|]. intros pl Hpl. rewrite at_place_cons, (renumbered_place r x Hx).
  specialize (Hat pl Hpl). case_bool_decide as E; [subst pl; rewrite Hat, decide_True by done; by rewrite El|].
  by rewrite Hat, decide_False by congruence.
Qed.

Lemma rechunk_spec (R : Rule → Rule → Prop) order flat :
  Forall2 R (concat (map snd order)) flat →
  Forall2 (λ e e', e'.1 = e.1 ∧ Forall2 R e.2 e'.2) order (rechunk order flat) ∧
  concat (map snd (rechunk order flat)) = flat.
Proof.
  revert flat. induction order as [|[k rs] order IH]; intros flat Hf; cbn in *.
  { inversion Hf. by split. }
  apply Forall2_app_inv_l in Hf as (l1 & l2 & H1 & H2 & ->).
  rewrite (Forall2_length _ _ _ H1), take_app_length, drop_app_length.
  destruct (IH l2 H2) as [? Hc]. cbn. rewrite Hc. split; [|done]. by constructor.
Qed.

Lemma filter_Permutation (p : Rule → bool) l k : l ≡ₚ k → List.filter p l ≡ₚ List.filter p k.
Proof.
  induction 1 as [|x l k _ IH|x y l|l k m _ IH1 _ IH2]; cbn; [done|destruct (p x); by rewrite ?IH| |by rewrite IH1].
  destruct (p x), (p y); try done. constructor.
Qed.

Definition is_schedule_rule (r : Rule) : bool :=
  match tr_Schedule (r_Trigger r) with Some _ => true | None => false end.

(** A push: every key keeps its rules up to their numbers, and the lists of the
    processor, the schedule rules and the core rules are those of all keys. *)
Lemma pushRules_spec p order rules :
  order ≡ₚ map_to_list rules → Forall single (all_current rules) → (0 ≤ p_kvRuleSeq p)%Z →
  let '(p', rules', schedule, core) := pushRulesToProcessor p order in
  (0 ≤ p_kvRuleSeq p')%Z ∧
  (∀ k, option_Forall2 (Forall2 renumbered) (rules !! k) (rules' !! k)) ∧
  (∀ pl, pl ≠ PNowhere → kv_lists p' pl ≡ₚ at_place pl (all_current rules')) ∧
  schedule ≡ₚ List.filter is_schedule_rule (all_current rules') ∧
  core ≡ₚ List.filter is_core_rule (all_current rules').
Proof.
  intros Hperm Hsingle Hseq. unfold pushRulesToProcessor.
  assert (Forall single (concat (map snd order))) as Hs.
  { rewrite Forall_forall in *. intros r Hr. apply Hsingle. unfold all_current.
    apply list_elem_of_In, in_concat in Hr as (l & Hl & Hr). apply list_elem_of_In, in_concat. exists l. split; [|done].
    apply in_map_iff in Hl as (e & <- & He). apply in_map_iff. exists e. split; [done|].
    apply list_elem_of_In. apply list_elem_of_In in He. by rewrite <- Hperm. }
  destruct (replace_lists p (foldl add_to_set empty_set (concat (map snd order))) Hseq) as [Hseq' Hlists].
  set (p' := ReplaceKVRuleSet _ _) in *.
  change (match p_kvRuleSet p' with Some set => set_lists set | None => λ _, [] end) with
    (match p_kvRuleSet p' with Some set => set_lists set | None => λ _ : place, @nil Rule end).
  assert (∀ pl, match p_kvRuleSet p' with Some set => set_lists set | None => λ _, [] end pl = kv_lists p' pl) as Hkv.
  { intros pl. unfold kv_lists. by destruct (p_kvRuleSet p'). }
  destruct (read_back_spec (match p_kvRuleSet p' with Some set => set_lists set | None => λ _, [] end)
    (concat (map snd order))) as [Hrb Hat].
  { eapply Forall_impl; [exact Hs|]. by intros r []. }
  { intros pl Hpl. rewrite Hkv, <- (build_lists _ pl Hs Hpl). apply Hlists. }
  set (flat := read_back _ _) in *. destruct (rechunk_spec _ _ _ Hrb) as [Hch Hcc].
  assert (all_current (list_to_map (rechunk order flat)) ≡ₚ flat) as Hall.
  { unfold all_current. rewrite <- Hcc at 2. rewrite map_to_list_to_map; [done|].
    assert ((rechunk order flat).*1 = order.*1) as ->.
    { clear -Hch. induction Hch as [|? ? ? ? [E _] _ IH]; [done|]. cbn. by rewrite E, IH. }
    rewrite Hperm. apply NoDup_fst_map_to_list. }
  split_and!; [done| | | |].
  - intros k. by eapply list_to_map_Forall2.
  - intros pl Hpl. rewrite <- Hkv, <- Hat by done. apply filter_Permutation. by rewrite Hall.
  - apply filter_Permutation. by rewrite Hall.
  - apply filter_Permutation. by rewrite Hall.
Qed.

(** ** Lemmas: the rules of all keys *)

Lemma elem_all_current m r : r ∈ all_current m ↔ ∃ k l, m !! k = Some l ∧ r ∈ l.
Proof.
  unfold all_current. rewrite list_elem_of_In, in_concat. split.
  - intros (l & ([k l'] & <- & Hin)%in_map_iff & Hr). apply list_elem_of_In in Hin, Hr.
    apply elem_of_map_to_list in Hin. eauto.
  - intros (k & l & Hm & Hr). exists l. split; [|by apply list_elem_of_In].
    apply in_map_iff. exists (k, l). split; [done|]. by apply list_elem_of_In, elem_of_map_to_list.
Qed.

Lemma all_current_split m k : all_current m ≡ₚ (default [] (m !! k) ++ all_current (delete k m))%list.
Proof.
  destruct (m !! k) as [l|] eqn:E; cbn; [|by rewrite delete_id].
  unfold all_current at 1. rewrite <- (map_to_list_delete _ _ _ E). done.
Qed.

Lemma job_of_filter `{Cron} tags rules : omap (job_of tags) (List.filter is_schedule_rule rules) = omap (job_of tags) rules.
Proof.
  induction rules as [|r rules IH]; [done|]. cbn [List.filter]. unfold is_schedule_rule at 1. cbn [omap list_omap].
  destruct (tr_Schedule (r_Trigger r)) eqn:E; cbn; rewrite IH; [done|]. unfold job_of at 2. by rewrite E.
Qed.

Lemma job_of_none `{Cron} tags rules : hasScheduleRules rules = false → omap (job_of tags) rules = [].
Proof.
  intros Hn. rewrite <- job_of_filter. replace (List.filter is_schedule_rule rules) with (@nil Rule); [done|].
  symmetry. apply filterb_none, forallb_True. intros r Hr. unfold hasScheduleRules in Hn.
  rewrite existsb_False in Hn. specialize (Hn r Hr). unfold is_schedule_rule. by destruct (tr_Schedule _).
Qed.

Lemma core_trigger_core r : is_core_rule r = true ↔ core_trigger r ≠ None.
Proof. unfold is_core_rule, core_trigger. destruct (tr_NATS (r_Trigger r)) as [t|]; [|done]. by destruct (IsCore t). Qed.

Lemma queue_of_Some rules s q : queue_of rules s = Some q → ∃ r, r ∈ rules ∧ core_trigger r = Some (s, q).
Proof.
  unfold queue_of. intros ([s' q'] & Hf & Hq)%fmap_Some. apply find_some in Hf as [Hin Hs].
  apply list_elem_of_In, list_elem_of_omap in Hin as (r & Hr & Ht). cbn in *. apply String.eqb_eq in Hs. subst. eauto.
Qed.

Lemma queue_of_is_Some rules r s q : r ∈ rules → core_trigger r = Some (s, q) → is_Some (queue_of rules s).
Proof.
  intros Hr Ht. unfold queue_of. rewrite fmap_is_Some.
  destruct (List.find _ (omap core_trigger rules)) eqn:E; [done|].
  assert (In (s, q) (omap core_trigger rules)) as Hin by (apply list_elem_of_In, list_elem_of_omap; eauto).
  by pose proof (find_none _ _ E _ Hin) as Hn; cbn in Hn; rewrite String.eqb_refl in Hn.
Qed.

Lemma renumbered_trigger r r' : renumbered r r' → r_Trigger r' = r_Trigger r.
Proof. intros [-> _]. done. Qed.

Lemma renumbered_existsb (f : Trigger → bool) rules rules' :
  Forall2 renumbered rules rules' → existsb (λ r, f (r_Trigger r)) rules' = existsb (λ r, f (r_Trigger r)) rules.
Proof. induction 1 as [|r r' l l' Hr _ IH]; [done|]. cbn. by rewrite IH, (renumbered_trigger _ _ Hr). Qed.

Lemma renumbered_id rules rules' :
  Forall2 renumbered rules rules' → Forall (λ r, r_index r ≠ 0%Z) rules → rules' = rules.
Proof.
  induction 1 as [|r r' l l' (_ & Hr & _) _ IH]; [done|]. intros [? ?]%Forall_cons. by rewrite Hr, IH.
Qed.

Lemma renumbered_single r r' : renumbered r r' → single r → single r'.
Proof. intros Hr [? ?]. split; [by rewrite (renumbered_trigger _ _ Hr)|by rewrite (renumbered_place _ _ Hr)]. Qed.

(** A table whose other keys are numbered already changes at one key only. *)
Lemma renumbered_delete key (m m' : gmap string (list Rule)) :
  (∀ k, option_Forall2 (Forall2 renumbered) (m !! k) (m' !! k)) →
  Forall (λ r, r_index r ≠ 0%Z) (all_current (delete key m)) → delete key m' = delete key m.
Proof.
  intros Hm Hn. apply map_eq. intros k. destruct (decide (k = key)) as [->|Hk]; [by rewrite !lookup_delete_eq|].
  rewrite !lookup_delete_ne by done. specialize (Hm k). destruct (m !! k) as [l|] eqn:E; inversion Hm as [? l' Hl|]; [|done].
  f_equal. eapply renumbered_id; [done|]. rewrite Forall_forall in *. intros r Hr. apply Hn, elem_all_current.
  exists k, l. by rewrite lookup_delete_ne.
Qed.

Lemma renumbered_all (m m' : gmap string (list Rule)) (P Q : Rule → Prop) :
  (∀ k, option_Forall2 (Forall2 renumbered) (m !! k) (m' !! k)) →
  (∀ r r', renumbered r r' → P r → Q r') → Forall P (all_current m) → Forall Q (all_current m').
Proof.
  intros Hm HPQ HP. rewrite Forall_forall in *. intros r' (k & l' & Hl' & Hr')%elem_all_current.
  specialize (Hm k). rewrite Hl' in Hm. inversion Hm as [l ? Hl Hml|]; subst.
  apply list_elem_of_lookup in Hr' as [i Hi]. destruct (Forall2_lookup_r _ _ _ _ _ Hl Hi) as (r & Hri & Hrr).
  apply (HPQ _ _ Hrr), HP, elem_all_current. exists k, l. split; [done|]. by eapply list_elem_of_lookup_2.
Qed.

(** ** Lemmas: the operations on a cluster *)

Section cluster.
Context `{Env} `{LoaderEnv} `{Cron} `{Net} `{SortSlice}.
Implicit Types c : Cluster.

(** What the work on subscriptions leaves alone: all but the broker's table and
    the network, whose log only grows. *)
Record frame c c' : Prop := {
  fr_loader : cl_loader c' = cl_loader c;
  fr_rules : cl_currentRules c' = cl_currentRules c;
  fr_processor : cl_processor c' = cl_processor c;
  fr_jobs : cl_jobs c' = cl_jobs c;
  fr_responder : cl_responder c' = cl_responder c;
  fr_log : ∃ evs, n_log (cl_net c') = (n_log (cl_net c) ++ evs)%list;
}.

Lemma frame_refl c : frame c c.
Proof. split; try done. exists []. by rewrite app_nil_r. Qed.

Lemma frame_trans c1 c2 c3 : frame c1 c2 → frame c2 c3 → frame c1 c3.
Proof.
  intros [? ? ? ? ? (e1 & E1)] [? ? ? ? ? (e2 & E2)]. split; try congruence.
  exists (e1 ++ e2)%list. by rewrite E2, E1, app_assoc.
Qed.

Lemma with_net_spec {A} (m : NM A) P c : yields m P → ∃ evs,
  P (with_net m c).1 evs ∧ frame c (with_net m c).2 ∧ cl_broker (with_net m c).2 = cl_broker c ∧
  n_log (cl_net (with_net m c).2) = (n_log (cl_net c) ++ evs)%list.
Proof.
  intros Hm. destruct (Hm (cl_net c)) as (evs & Hl & Hp). exists evs. unfold with_net.
  destruct (m (cl_net c)) as [a n]. cbn in *. split_and!; [done| |done|done]. split; try done. by exists evs.
Qed.

Lemma start_subjects_spec subjects c :
  frame c (start_subjects subjects c) ∧
  (∀ k sub, subs_of (cl_broker c) !! k = Some sub → subs_of (cl_broker (start_subjects subjects c)) !! k = Some sub) ∧
  (∀ k, k ∉ subjects → subs_of (cl_broker (start_subjects subjects c)) !! k = subs_of (cl_broker c) !! k).
Proof.
  revert c. induction subjects as [|s rest IH]; intros c; cbn [start_subjects]; [by split_and!; [apply frame_refl|..]|].
  destruct (with_net_spec _ _ c (broker_AddAndStartSubscription_spec (cl_broker c) s))
    as (evs & (_ & Hk & Hs & _) & Hf & _ & _).
  destruct (with_net _ c) as [out c1]. cbn [fst snd] in *.
  destruct (IH (set_broker c1 out.2)) as (Hf' & Hm & Ho). split_and!.
  - eapply frame_trans; [|exact Hf']. destruct Hf. by split.
  - intros k sub Hsub. apply Hm. cbn. destruct (decide (k = s)) as [->|Hne]; [auto|by rewrite Hk].
  - intros k [Hks Hkr]%not_elem_of_cons. rewrite Ho by done. by apply Hk.
Qed.

Lemma remove_subjects_spec subjects c :
  frame c (remove_subjects subjects c) ∧
  ∀ k, subs_of (cl_broker (remove_subjects subjects c)) !! k =
    if bool_decide (k ∈ subjects) then None else subs_of (cl_broker c) !! k.
Proof.
  revert c. induction subjects as [|s rest IH]; intros c; cbn [remove_subjects]; [split; [apply frame_refl|done]|].
  destruct (with_net_spec _ _ c (broker_RemoveSubscription_spec (cl_broker c) s)) as (evs & (_ & Hd) & Hf & _ & _).
  destruct (with_net _ c) as [b c1]. cbn [fst snd] in *.
  destruct (IH (set_broker c1 b)) as (Hf' & Hm). split.
  - eapply frame_trans; [|exact Hf']. destruct Hf. by split.
  - intros k. rewrite Hm. cbn. rewrite Hd.
    destruct (decide (k = s)) as [->|Hne].
    + rewrite lookup_delete_eq. by rewrite (bool_decide_true (s ∈ s :: rest)) by set_solver; case_bool_decide.
    + rewrite lookup_delete_ne by done. erewrite (bool_decide_ext (k ∈ rest)); [done|]. set_solver.
Qed.

Lemma in_range_order_spec subjects c :
  frame c (in_range_order subjects c).2 ∧ cl_broker (in_range_order subjects c).2 = cl_broker c ∧
  ∀ s, s ∈ (in_range_order subjects c).1 ↔ s ∈ subjects.
Proof.
  unfold in_range_order.
  destruct (with_net_spec _ _ c (yields_world (range_order (elements subjects)) (λ l, l ≡ₚ elements subjects)
    (range_order_perm _))) as (evs & [Hp _] & Hf & Hb & _).
  split_and!; [done|done|]. intros s. by rewrite Hp, elem_of_elements.
Qed.

(** A push changes the rules' numbers and the processor. *)
Lemma push_spec c : Forall single (all_current (cl_currentRules c)) → (0 ≤ p_kvRuleSeq (cl_processor c))%Z →
  let '(c', schedule, core) := push c in
  cl_broker c' = cl_broker c ∧ cl_jobs c' = cl_jobs c ∧ cl_responder c' = cl_responder c ∧
  cl_loader c' = cl_loader c ∧
  (∃ evs, n_log (cl_net c') = (n_log (cl_net c) ++ evs)%list) ∧
  (0 ≤ p_kvRuleSeq (cl_processor c'))%Z ∧
  (∀ k, option_Forall2 (Forall2 renumbered) (cl_currentRules c !! k) (cl_currentRules c' !! k)) ∧
  (∀ pl, pl ≠ PNowhere → kv_lists (cl_processor c') pl ≡ₚ at_place pl (all_current (cl_currentRules c'))) ∧
  schedule ≡ₚ List.filter is_schedule_rule (all_current (cl_currentRules c')) ∧
  core ≡ₚ List.filter is_core_rule (all_current (cl_currentRules c')).
Proof.
  intros Hs Hseq. unfold push.
  destruct (with_net_spec _ _ c (yields_world (range_order (map_to_list (cl_currentRules c)))
    (λ l, l ≡ₚ map_to_list (cl_currentRules c)) (range_order_perm _))) as (evs & [Hp _] & Hf & Hb & Hl).
  destruct (with_net _ c) as [order c1]. cbn [fst snd] in *. destruct Hf as [El Er Ep Ej Ere _].
  rewrite <- Ep in Hseq.
  pose proof (pushRules_spec (cl_processor c1) order (cl_currentRules c) Hp Hs Hseq) as Hpush.
  destruct (pushRulesToProcessor (cl_processor c1) order) as [[[p' rules'] schedule] core].
  destruct Hpush as (? & ? & ? & ? & ?). cbn. split_and!; eauto; congruence.
Qed.

(** ** The state a manager keeps *)

(** The processor's lists, the bucket's cron jobs and the core subscriptions
    are those of the rules of all keys; every rule has a number. *)
Record synced c : Prop := {
  in_seq : (0 ≤ p_kvRuleSeq (cl_processor c))%Z;
  in_single : Forall single (all_current (cl_currentRules c));
  in_numbered : Forall (λ r, r_index r ≠ 0%Z) (all_current (cl_currentRules c));
  in_lists : ∀ pl, pl ≠ PNowhere → kv_lists (cl_processor c) pl ≡ₚ at_place pl (all_current (cl_currentRules c));
  in_jobs : ∀ jobs, cl_jobs c = Some jobs →
    List.filter (has_tag kvScheduleTag) jobs ≡ₚ omap (job_of [kvScheduleTag]) (all_current (cl_currentRules c));
  in_core : ∀ re, cl_responder c = Some re → re_closed re = false → ∀ s,
    (s ∈ map cs_Subject (re_subs re) → ∃ r q, r ∈ all_current (cl_currentRules c) ∧ core_trigger r = Some (s, q)) ∧
    (∀ r q, r ∈ all_current (cl_currentRules c) → core_trigger r = Some (s, q) →
       s ∈ map cs_Subject (re_subs re) ∨ ∃ q', EvSubscribe s q' false ∈ n_log (cl_net c));
}.

Lemma synced_frame c c' : frame c c' → synced c → synced c'.
Proof.
  intros [El Er Ep Ej Ere (evs & Hl)] [? ? ? ? ? Hc]. split; rewrite ?Ep, ?Er, ?Ej; try done.
  rewrite Ere. intros re Hre Hcl s. destruct (Hc re Hre Hcl s) as [Hin Hout]. split; [done|].
  intros r q Hr Hq. destruct (Hout r q Hr Hq) as [?|(q' & ?)]; [by left|]. right. exists q'. rewrite Hl. set_solver.
Qed.

(** The part of [synced] that a push establishes and the callbacks keep. *)
Definition pushed c : Prop :=
  (0 ≤ p_kvRuleSeq (cl_processor c))%Z ∧ Forall single (all_current (cl_currentRules c)) ∧
  Forall (λ r, r_index r ≠ 0%Z) (all_current (cl_currentRules c)) ∧
  ∀ pl, pl ≠ PNowhere → kv_lists (cl_processor c) pl ≡ₚ at_place pl (all_current (cl_currentRules c)).

Definition jobs_ok (rules : list Rule) (jobs : option (list job)) : Prop :=
  ∀ js, jobs = Some js → List.filter (has_tag kvScheduleTag) js ≡ₚ omap (job_of [kvScheduleTag]) rules.
Definition core_ok (rules : list Rule) (re : option Responder) (log : list net_event) : Prop :=
  ∀ r, re = Some r → re_closed r = false → ∀ s,
    (s ∈ map cs_Subject (re_subs r) → ∃ r q, r ∈ rules ∧ core_trigger r = Some (s, q)) ∧
    (∀ r' q, r' ∈ rules → core_trigger r' = Some (s, q) →
       s ∈ map cs_Subject (re_subs r) ∨ ∃ q', EvSubscribe s q' false ∈ log).

Lemma synced_parts c : synced c ↔
  pushed c ∧ jobs_ok (all_current (cl_currentRules c)) (cl_jobs c) ∧
  core_ok (all_current (cl_currentRules c)) (cl_responder c) (n_log (cl_net c)).
Proof.
  split; [intros [? ? ? ? Hj Hc]; split_and!; [by split_and!|exact Hj|exact Hc]|].
  intros ((? & ? & ? & ?) & Hj & Hc). by split.
Qed.

Lemma synced_pushed c : synced c → pushed c.
Proof. by intros (? & _)%synced_parts. Qed.

(** A step of the manager keeps the rules in order, and each of the two that
    follow them when it was. *)
Record follows c c' : Prop := {
  fo_pushed : pushed c';
  fo_jobs : jobs_ok (all_current (cl_currentRules c)) (cl_jobs c) → jobs_ok (all_current (cl_currentRules c')) (cl_jobs c');
  fo_core : core_ok (all_current (cl_currentRules c)) (cl_responder c) (n_log (cl_net c)) →
    core_ok (all_current (cl_currentRules c')) (cl_responder c') (n_log (cl_net c'));
}.

Lemma follows_synced c c' : follows c c' → synced c → synced c'.
Proof. intros [Hp Hj Hc] (_ & ? & ?)%synced_parts. apply synced_parts. auto. Qed.

Lemma follows_trans c1 c2 c3 : follows c1 c2 → follows c2 c3 → follows c1 c3.
Proof. intros [] []. split; auto. Qed.

(** The rules of one key change: what the jobs and the subjects were made of
    changes with them. *)
Lemma rebuild_schedule_ok key (wanted : bool) schedule c (old : gmap string (list Rule)) :
  delete key (cl_currentRules c) = delete key old →
  schedule ≡ₚ List.filter is_schedule_rule (all_current (cl_currentRules c)) →
  wanted = hasScheduleRules (default [] (old !! key)) || hasScheduleRules (default [] (cl_currentRules c !! key)) →
  jobs_ok (all_current old) (cl_jobs c) →
  jobs_ok (all_current (cl_currentRules c)) (cl_jobs (rebuild_schedule wanted schedule c)).
Proof.
  intros Hd Hs Hw Hj jobs. unfold rebuild_schedule. destruct (cl_jobs c) as [js|] eqn:Ej; [|by rewrite Ej].
  destruct wanted; cbn.
  - intros [= <-]. destruct (rebuildCronJobs_spec js schedule) as (_ & -> & _). by rewrite Hs, job_of_filter.
  - rewrite Ej. intros [= <-]. rewrite (Hj js eq_refl). symmetry in Hw. apply orb_false_iff in Hw as [Ho Hn].
    rewrite (all_current_split old key), (all_current_split (cl_currentRules c) key), Hd, !omap_app.
    by rewrite !(job_of_none _ (default [] _)).
Qed.

Lemma core_ok_log rules re log evs : core_ok rules re log → core_ok rules re (log ++ evs).
Proof.
  intros Hc r Hre Hcl s. destruct (Hc r Hre Hcl s) as [Hin Hout]. split; [done|].
  intros r' q Hr Hq. destruct (Hout r' q Hr Hq) as [?|(q' & ?)]; [by left|]. right. exists q'. set_solver.
Qed.

Lemma frame_follows c c' : pushed c → frame c c' → follows c c'.
Proof.
  intros Hp [El Er Ep Ej Ere (evs & Hl)]. split; [|by rewrite Er, Ej|rewrite Er, Ere, Hl; apply core_ok_log].
  unfold pushed in *. by rewrite Er, Ep.
Qed.

Lemma hasCoreRules_false rules r s q : hasCoreRules rules = false → r ∈ rules → core_trigger r ≠ Some (s, q).
Proof.
  intros Hn Hr Ht. unfold hasCoreRules in Hn. rewrite existsb_False in Hn. specialize (Hn r Hr).
  assert (is_core_rule r = true) by (apply core_trigger_core; congruence). congruence.
Qed.

(** Core rules of one key change; if none did, none of the others did. *)
Lemma core_rules_kept key (new old : gmap string (list Rule)) r s q :
  delete key new = delete key old → hasCoreRules (default [] (old !! key)) = false →
  r ∈ all_current old → core_trigger r = Some (s, q) → r ∈ all_current new.
Proof.
  intros Hd Hn Hr Ht. rewrite (all_current_split old key), elem_of_app in Hr.
  rewrite (all_current_split new key), elem_of_app, Hd. destruct Hr as [Hr|?]; [|by right].
  by destruct (hasCoreRules_false _ _ _ _ Hn Hr Ht).
Qed.

Lemma rebuild_core_frame wanted core c :
  let c' := rebuild_core wanted core c in
  cl_loader c' = cl_loader c ∧ cl_currentRules c' = cl_currentRules c ∧ cl_processor c' = cl_processor c ∧
  cl_jobs c' = cl_jobs c ∧ cl_broker c' = cl_broker c ∧
  ∃ evs, n_log (cl_net c') = (n_log (cl_net c) ++ evs)%list.
Proof.
  assert (∃ evs, n_log (cl_net c) = (n_log (cl_net c) ++ evs)%list) by (exists []; by rewrite app_nil_r).
  unfold rebuild_core. destruct (cl_responder c) as [re|]; [|done]. destruct wanted; [|done].
  destruct (with_net_spec _ _ c (Rebuild_spec re core)) as (evs & _ & Hf & Hb & Hl).
  destruct (with_net (Rebuild re core) c) as [re' c']. cbn [fst snd] in *. destruct Hf. by split_and!.
Qed.

(** A wanted rebuild subscribes to the core rules it is given. *)
Lemma rebuild_core_wanted core c rules : core ≡ₚ List.filter is_core_rule rules →
  core_ok rules (cl_responder (rebuild_core true core c)) (n_log (cl_net (rebuild_core true core c))).
Proof.
  intros Hc. unfold rebuild_core. destruct (cl_responder c) as [re|] eqn:Hre; [|by rewrite Hre].
  destruct (with_net_spec _ _ c (Rebuild_spec re core)) as (evs & Hr & _ & _ & Hl).
  destruct (with_net (Rebuild re core) c) as [re' c']. cbn [fst snd] in *. cbn.
  intros re1 [= <-] Hcl s. destruct (re_closed re) eqn:Ecl.
  { destruct Hr as [-> _]. congruence. }
  destruct Hr as (_ & _ & Hsub & Hall & _). split.
  - intros ([s' q] & -> & Hin)%list_elem_of_fmap. apply Hsub, queue_of_Some in Hin as (r & Hin & Ht).
    exists r, q. split; [|done]. rewrite Hc in Hin. by apply elem_of_filterb in Hin as [_ ?].
  - intros r q Hr Ht. assert (r ∈ core) as Hrc.
    { rewrite Hc. apply elem_of_filterb. split; [|done]. apply core_trigger_core. congruence. }
    destruct (queue_of_is_Some _ _ _ _ Hrc Ht) as [q' Hq']. destruct (Hall s q' Hq') as [Hin|Hin].
    + left. apply list_elem_of_fmap. by exists (MkCoreSubscription s q').
    + right. exists q'. rewrite Hl. set_solver.
Qed.

Lemma rebuild_core_spec key (wanted : bool) core c (old : gmap string (list Rule)) log :
  delete key (cl_currentRules c) = delete key old →
  core ≡ₚ List.filter is_core_rule (all_current (cl_currentRules c)) →
  wanted = hasCoreRules (default [] (old !! key)) || hasCoreRules (default [] (cl_currentRules c !! key)) →
  (∃ evs, n_log (cl_net c) = (log ++ evs)%list) →
  let c' := rebuild_core wanted core c in
  cl_loader c' = cl_loader c ∧ cl_currentRules c' = cl_currentRules c ∧ cl_processor c' = cl_processor c ∧
  cl_jobs c' = cl_jobs c ∧ cl_broker c' = cl_broker c ∧
  (core_ok (all_current old) (cl_responder c) log → core_ok (all_current (cl_currentRules c)) (cl_responder c') (n_log (cl_net c'))).
Proof.
  intros Hd Hc Hw (evs0 & Hl0) c'. destruct (rebuild_core_frame wanted core c) as (? & ? & ? & ? & ? & _).
  split_and!; [done..|]. subst c'. destruct wanted.
  - intros _. by apply rebuild_core_wanted.
  - symmetry in Hw. apply orb_false_iff in Hw as [Ho Hn]. unfold rebuild_core.
    assert ((match cl_responder c with Some re => c | None => c end) = c) as -> by by destruct (cl_responder c).
    intros Hok re1 Hre1 Hcl s. destruct (Hok re1 Hre1 Hcl s) as [Hin Hout]. split.
    + intros (r & q & Hr & Ht)%Hin. exists r, q. split; [|done]. by eapply core_rules_kept.
    + intros r q Hr Ht. assert (r ∈ all_current old) as Hr' by by eapply core_rules_kept.
      destruct (Hout r q Hr' Ht) as [?|(q' & ?)]; [by left|]. right. exists q'. rewrite Hl0. set_solver.
Qed.

Lemma accepted_single r : accepted r → single r.
Proof.
  intros Ha. pose proof (ac_one_trigger _ Ha) as Hone. pose proof (ac_http _ Ha) as Hh. split; [done|].
  unfold place_of. destruct (tr_NATS (r_Trigger r)); [done|]. destruct (tr_HTTP (r_Trigger r)) as [t|].
  - destruct Hh as [Hp _ _ _ _]. rewrite Hp. by case_match.
  - destruct (tr_Schedule (r_Trigger r)); [done|]. cbn in Hone. lia.
Qed.

Lemma hasScheduleRules_renumbered rules rules' : Forall2 renumbered rules rules' →
  hasScheduleRules rules' = hasScheduleRules rules.
Proof. apply (renumbered_existsb (λ t, match tr_Schedule t with Some _ => true | None => false end)). Qed.
Lemma hasCoreRules_renumbered rules rules' : Forall2 renumbered rules rules' →
  hasCoreRules rules' = hasCoreRules rules.
Proof. apply (renumbered_existsb (λ t, match tr_NATS t with Some t => IsCore t | None => false end)). Qed.

(** A change of one key, then a push and the callbacks. *)
Lemma update_follows key (rules : gmap string (list Rule)) c :
  pushed c → delete key rules = delete key (cl_currentRules c) →
  Forall single (default [] (rules !! key)) →
  let '(c1, schedule, core) := push (set_rules c rules) in
  let c2 := rebuild_schedule (hasScheduleRules (default [] (cl_currentRules c !! key)) ||
                              hasScheduleRules (default [] (rules !! key))) schedule c1 in
  let c3 := rebuild_core (hasCoreRules (default [] (cl_currentRules c !! key)) ||
                          hasCoreRules (default [] (rules !! key))) core c2 in
  follows c c3 ∧ cl_broker c3 = cl_broker c ∧ cl_currentRules c3 = cl_currentRules c1 ∧
  delete key (cl_currentRules c1) = delete key (cl_currentRules c) ∧
  option_Forall2 (Forall2 renumbered) (rules !! key) (cl_currentRules c1 !! key).
Proof.
  intros (Hseq & Hsingle & Hnum & Hlists) Hd Hnew.
  assert (∀ P : Rule → Prop, Forall P (all_current (cl_currentRules c)) → Forall P (all_current (delete key rules))) as Hother.
  { intros P HP. rewrite Hd. rewrite Forall_forall in *. intros r (k & l & Hk & Hr)%elem_all_current.
    apply HP, elem_all_current. apply lookup_delete_Some in Hk as [_ ?]. eauto. }
  assert (Forall single (all_current rules)) as Hs.
  { rewrite Forall_forall. intros r. rewrite (all_current_split rules key), elem_of_app. intros [Hr|Hr].
    - rewrite Forall_forall in Hnew. auto.
    - specialize (Hother single Hsingle). rewrite Forall_forall in Hother. auto. }
  pose proof (push_spec (set_rules c rules) Hs Hseq) as Hpush.
  destruct (push (set_rules c rules)) as [[c1 schedule] core]. cbn [set_rules cl_currentRules cl_broker cl_jobs cl_responder cl_loader cl_net] in Hpush.
  destruct Hpush as (Hb & Hj & Hre & Hlo & Hlog & Hseq1 & Hren & Hlists1 & Hsch & Hco).
  assert (delete key (cl_currentRules c1) = delete key (cl_currentRules c)) as Hd1.
  { rewrite <- Hd. eapply renumbered_delete; [exact Hren|]. by apply Hother. }
  pose proof (option_Forall2_default _ _ _ (Hren key)) as Hkey.
  rewrite <- (hasScheduleRules_renumbered _ _ Hkey), <- (hasCoreRules_renumbered _ _ Hkey).
  set (w1 := _ || _). set (c2 := rebuild_schedule w1 schedule c1).
  assert (jobs_ok (all_current (cl_currentRules c)) (cl_jobs c) → jobs_ok (all_current (cl_currentRules c1)) (cl_jobs c2)) as Hjobs2.
  { intros Hjobs. eapply rebuild_schedule_ok; [exact Hd1|done|done|by rewrite Hj]. }
  assert (cl_currentRules c2 = cl_currentRules c1 ∧ cl_processor c2 = cl_processor c1 ∧ cl_responder c2 = cl_responder c1 ∧
          cl_broker c2 = cl_broker c1 ∧ cl_net c2 = cl_net c1) as (E1 & E2 & E3 & E4 & E5).
  { subst c2. unfold rebuild_schedule. repeat case_match; done. }
  rewrite <- E1 in Hd1, Hco. set (w2 := _ || hasCoreRules (default [] (cl_currentRules c1 !! key))).
  destruct (rebuild_core_spec key w2 core c2 (cl_currentRules c) (n_log (cl_net c)) Hd1 Hco)
    as (F1 & F2 & F3 & F4 & F5 & Hcore3); [by rewrite E1|by rewrite E5|].
  split_and!; [|congruence|congruence|by rewrite <- E1|by apply Hren].
  split; rewrite ?F2, ?F4, ?E1; [|done|rewrite E1, E3, Hre in Hcore3; exact Hcore3].
  unfold pushed. rewrite F2, F3, E1, E2. split_and!; [done| | |done].
  - eapply renumbered_all; [exact Hren|apply renumbered_single|done].
  - eapply (renumbered_all _ _ (λ _, True)); [exact Hren|by intros ? ? (_ & _ & ?)|by apply Forall_true].
Qed.

(** What a put would install: nothing when the rules do not load or a subject
    has no stream. *)
Definition put_verdict (lister : list StreamConfig * bool) (val : string) c : option (list Rule) :=
  match (ParseAndValidateYAML (cl_loader c) val (cl_st c)).1 with
  | Ok rules =>
      if (0 <? length (ValidateRulesHaveStreams (bk_resolver (RefreshStreams (cl_broker c) lister)) rules))%nat
      then None else Some rules
  | Err _ => None
  end.

Lemma put_verdict_single lister val c rules : put_verdict lister val c = Some rules → Forall single rules.
Proof.
  unfold put_verdict. destruct ((ParseAndValidateYAML _ _ _).1) as [rs|] eqn:E; [|done].
  apply ParseAndValidateYAML_accepted in E as (parsed & _ & Hf & _). case_match; [done|]. intros [= <-].
  apply Forall_forall. intros r [i Hi]%list_elem_of_lookup. destruct (Forall2_lookup_r _ _ _ _ _ Hf Hi) as (? & _ & Ha & _).
  by apply accepted_single.
Qed.

(** A put, in its two cases. *)
Lemma handleRulePut_cases lister key val c : pushed c →
  let c' := handleRulePut lister key val c in
  follows c c' ∧
  match put_verdict lister val c with
  | None => frame c c' ∧ subs_of (cl_broker c') = subs_of (cl_broker c)
  | Some rules =>
      delete key (cl_currentRules c') = delete key (cl_currentRules c) ∧
      (∃ rules', cl_currentRules c' !! key = Some rules' ∧ Forall2 renumbered rules rules') ∧
      (∀ k sub, subs_of (cl_broker c) !! k = Some sub → subs_of (cl_broker c') !! k = Some sub) ∧
      (∀ k, k ∉ collectNATSTriggerSubjects rules → subs_of (cl_broker c') !! k = subs_of (cl_broker c) !! k)
  end.
Proof.
  intros Hp. unfold handleRulePut, put_verdict.
  pose proof (put_verdict_single lister val c) as Hsingle. unfold put_verdict in Hsingle.
  destruct (ParseAndValidateYAML (cl_loader c) val (cl_st c)) as [[rules|e] st]; cbn [fst snd] in *.
  2: { assert (frame c (set_st c st)) as Hf by (split; try done; exists []; by rewrite app_nil_r).
       split; [by apply frame_follows|]. by split. }
  cbn [set_st set_broker cl_broker RefreshStreams with_resolver bk_resolver] in *.
  destruct (0 <? length (ValidateRulesHaveStreams _ rules))%nat.
  { split; [apply frame_follows; [done|]|split; [|done]];
      (split; try done; exists []; by rewrite app_nil_r). }
  specialize (Hsingle rules eq_refl). set (c0 := set_broker (set_st c st) _).
  assert (follows c c0) as Hc0 by (apply frame_follows; [done|]; split; try done; exists []; by rewrite app_nil_r).
  change (cl_currentRules c0) with (cl_currentRules c).
  pose proof (update_follows key (<[key:=rules]> (cl_currentRules c)) c0 (fo_pushed _ _ Hc0)) as Hup.
  rewrite lookup_insert_eq in Hup. change (cl_currentRules c0) with (cl_currentRules c) in Hup. cbn [default id] in Hup.
  rewrite delete_insert_eq in Hup. specialize (Hup eq_refl Hsingle).
  destruct (push _) as [[c1 schedule] core]. destruct Hup as (Hs3 & Hb3 & Hr3 & Hd & Hk).
  set (c3 := rebuild_core _ _ _) in *.
  destruct (in_range_order_spec (collectNATSTriggerSubjects rules) c3) as (Hf4 & Hb4 & Hin).
  destruct (in_range_order _ c3) as [subjects c4]. cbn [fst snd] in *.
  set (new := List.filter _ subjects). destruct (start_subjects_spec new c4) as (Hf5 & Hm & Ho).
  assert (frame c3 (start_subjects new c4)) as Hf by by eapply frame_trans.
  split; [eapply follows_trans; [exact Hc0|]; eapply follows_trans; [exact Hs3|]; by apply frame_follows; [apply (fo_pushed _ _ Hs3)|]|].
  rewrite (fr_rules _ _ Hf), Hr3. split_and!; [done|by inversion Hk; eauto| |].
  - intros k sub Hsub. apply Hm. rewrite Hb4, Hb3. done.
  - intros k Hnk. rewrite Ho; [by rewrite Hb4, Hb3|]. intros [_ Hkin]%elem_of_filterb. by apply Hin in Hkin.
Qed.

Lemma still_needed_all c : still_needed (cl_currentRules c) = collectNATSTriggerSubjects (all_current (cl_currentRules c)).
Proof. done. Qed.

(** A delete, in its two cases. *)
Lemma handleRuleDelete_cases key c : pushed c →
  let c' := handleRuleDelete key c in
  follows c c' ∧ cl_currentRules c' = delete key (cl_currentRules c) ∧
  ∀ k, subs_of (cl_broker c') !! k =
    if bool_decide (k ∈ collectNATSTriggerSubjects (default [] (cl_currentRules c !! key)) ∧
                    k ∉ collectNATSTriggerSubjects (all_current (cl_currentRules c')))
    then None else subs_of (cl_broker c) !! k.
Proof.
  intros Hp. unfold handleRuleDelete. destruct (cl_currentRules c !! key) as [old|] eqn:Hold.
  2: { split_and!; [by apply frame_follows, frame_refl|by rewrite delete_id|]. intros k. rewrite bool_decide_false; [done|]. cbn. set_solver. }
  pose proof (update_follows key (delete key (cl_currentRules c)) c Hp) as Hup.
  rewrite lookup_delete_eq, Hold in Hup. cbn [default id] in Hup. rewrite delete_delete_eq in Hup.
  specialize (Hup eq_refl (Forall_nil_2 _)).
  change (hasScheduleRules []) with false in Hup. change (hasCoreRules []) with false in Hup. rewrite !orb_false_r in Hup.
  destruct (push _) as [[c1 schedule] core]. destruct Hup as (Hs3 & Hb3 & Hr3 & Hd & Hk).
  set (c3 := rebuild_core _ _ _) in *.
  destruct (in_range_order_spec (collectNATSTriggerSubjects old) c3) as (Hf4 & Hb4 & Hin).
  destruct (in_range_order _ c3) as [subjects c4]. cbn [fst snd] in *.
  set (gone := List.filter _ subjects). destruct (remove_subjects_spec gone c4) as (Hf5 & Hm).
  assert (frame c3 (remove_subjects gone c4)) as Hf by by eapply frame_trans.
  assert (cl_currentRules (remove_subjects gone c4) = cl_currentRules c1) as Er by by rewrite (fr_rules _ _ Hf), Hr3.
  assert (cl_currentRules c1 = delete key (cl_currentRules c)) as Ec1.
  { rewrite <- Hd, delete_id; [done|]. by inversion Hk. }
  split_and!; [eapply follows_trans; [exact Hs3|]; by apply frame_follows; [apply (fo_pushed _ _ Hs3)|]|by rewrite Er|].
  intros k. rewrite Er, Hm, Hb4, Hb3. cbn [default id]. erewrite bool_decide_ext; [done|].
  subst gone. rewrite elem_of_filterb, Hin, negb_true_iff, bool_decide_eq_false. rewrite still_needed_all. tauto.
Qed.

(** ** The abstract bucket

    What the manager is to implement: a table of the rules of each key, that an
    acceptable put replaces and a delete removes. *)

Notation bucket := (gmap string (list Rule)).

Definition spec_step c (u : rule_update) (b : bucket) : bucket :=
  match u with
  | RulePut lister key val =>
      match put_verdict lister val c with Some rules => <[key := rules]> b | None => b end
  | RuleDelete key => delete key b
  end.
Fixpoint spec_run c (updates : list rule_update) (b : bucket) : bucket :=
  match updates with
  | [] => b
  | u :: rest => spec_run (consume c u) rest (spec_step c u b)
  end.

(** The same rule, whatever its number. *)
Definition same_rule (r r' : Rule) : Prop := set_rule_index r 0 = set_rule_index r' 0.
Definition represents c (b : bucket) : Prop :=
  ∀ k, option_Forall2 (Forall2 same_rule) (b !! k) (cl_currentRules c !! k).

Definition update_key (u : rule_update) : string :=
  match u with RulePut _ key _ => key | RuleDelete key => key end.

Lemma renumbered_same r r' : renumbered r r' → same_rule r r'.
Proof. intros [-> _]. done. Qed.

Lemma consume_follows c u : pushed c →
  follows c (consume c u) ∧
  delete (update_key u) (cl_currentRules (consume c u)) = delete (update_key u) (cl_currentRules c) ∧
  ∀ b, represents c b → represents (consume c u) (spec_step c u b).
Proof.
  intros Hs. destruct u as [lister key val|key]; cbn [consume update_key spec_step].
  - destruct (handleRulePut_cases lister key val c Hs) as [Hs' Hv]. split; [done|].
    destruct (put_verdict lister val c) as [rules|].
    + destruct Hv as (Hd & (rules' & Hk & Hr) & _). split; [done|]. intros b Hb k.
      destruct (decide (k = key)) as [->|Hne].
      * rewrite lookup_insert_eq, Hk. constructor. eapply Forall2_impl; [exact Hr|apply renumbered_same].
      * rewrite lookup_insert_ne by done. specialize (Hb k).
        apply (f_equal (λ m : bucket, m !! k)) in Hd. rewrite !lookup_delete_ne in Hd by done. by rewrite Hd.
    + destruct Hv as [Hf _]. rewrite (fr_rules _ _ Hf). split; [done|].
      intros b Hb k. rewrite (fr_rules _ _ Hf). apply Hb.
  - destruct (handleRuleDelete_cases key c Hs) as (Hs' & Hr & _). split; [done|]. rewrite Hr. split; [by rewrite delete_delete_eq|].
    intros b Hb k. rewrite Hr. destruct (decide (k = key)) as [->|Hne]; [rewrite !lookup_delete_eq; constructor|].
    by rewrite !lookup_delete_ne by done.
Qed.

Lemma consume_spec c u : synced c →
  synced (consume c u) ∧
  delete (update_key u) (cl_currentRules (consume c u)) = delete (update_key u) (cl_currentRules c) ∧
  ∀ b, represents c b → represents (consume c u) (spec_step c u b).
Proof.
  intros Hs. pose proof Hs as (Hp & _)%synced_parts. destruct (consume_follows c u Hp) as (Hf & ? & ?).
  split_and!; [by eapply follows_synced|done|done].
Qed.

Lemma consumeUpdates_spec c updates b : synced c → represents c b →
  synced (consumeUpdates c updates) ∧ represents (consumeUpdates c updates) (spec_run c updates b).
Proof.
  revert c b. induction updates as [|u updates IH]; intros c b Hs Hb; [done|].
  destruct (consume_spec c u Hs) as (Hs' & _ & Hb'). cbn [spec_run]. apply IH; auto.
Qed.

Lemma same_rule_place r r' : same_rule r r' → place_of r = place_of r'.
Proof. intros Hr. change (place_of (set_rule_index r 0) = place_of (set_rule_index r' 0)). by rewrite Hr. Qed.

(** The rules at a place, without their numbers. *)
Lemma represents_places (b b' : bucket) pl :
  (∀ k, option_Forall2 (Forall2 same_rule) (b !! k) (b' !! k)) →
  map (λ r, set_rule_index r 0) (at_place pl (all_current b)) ≡ₚ map (λ r, set_rule_index r 0) (at_place pl (all_current b')).
Proof.
  revert b'. induction b as [|k l b Hk IH] using map_ind; intros b' Hb.
  - assert (b' = ∅) as ->; [|done]. apply map_eq. intros k. specialize (Hb k). rewrite lookup_empty in *. by inversion Hb.
  - pose proof (Hb k) as Hbk. rewrite lookup_insert_eq in Hbk.
    destruct (b' !! k) as [l'|] eqn:Hb'; inversion Hbk as [? ? Hl|]; subst.
    assert (all_current b' ≡ₚ (l' ++ all_current (delete k b'))%list) as Hs'
      by (by rewrite (all_current_split b' k), Hb').
    assert (all_current (<[k:=l]> b) ≡ₚ (l ++ all_current b)%list) as Hs.
    { rewrite (all_current_split _ k), lookup_insert_eq, delete_insert_id by done. done. }
    rewrite (filter_Permutation _ _ _ Hs : at_place pl _ ≡ₚ at_place pl _),
      (filter_Permutation _ _ _ Hs' : at_place pl _ ≡ₚ at_place pl _), !at_place_app, !map_app, (IH (delete k b')).
    2: { intros k'. specialize (Hb k'). destruct (decide (k' = k)) as [->|Hne].
         - rewrite Hk, lookup_delete_eq. constructor.
         - rewrite lookup_delete_ne by done. by rewrite lookup_insert_ne in Hb. }
    f_equiv. clear -Hl. induction Hl as [|r r' l l' Hr _ IH]; [done|]. rewrite !at_place_cons, (same_rule_place _ _ Hr).
    case_bool_decide; [|done]. cbn. rewrite IH. by f_equiv.
Qed.

Lemma fresh_synced c : cl_currentRules c = ∅ → p_kvRuleSet (cl_processor c) = None → (0 ≤ p_kvRuleSeq (cl_processor c))%Z →
  (∀ js, cl_jobs c = Some js → List.filter (has_tag kvScheduleTag) js = []) →
  (∀ re, cl_responder c = Some re → re_subs re = []) → synced c.
Proof.
  intros Hr Hp Hseq Hj Hre. split; rewrite ?Hr; try done.
  - intros pl _. unfold kv_lists. by rewrite Hp.
  - intros js Hjs. by rewrite Hj.
  - intros re Hre' _ s. rewrite (Hre re Hre'). split; [by intros ?%elem_of_nil|]. intros r q Hin. by apply elem_of_nil in Hin.
Qed.
End cluster.

(** ** Properties *)

Section properties.
Context `{Env} `{LoaderEnv} `{Cron} `{Net} `{SortSlice}.

(** C7: The manager implements the abstract bucket: after any sequence of updates
    the rules the processor holds for each subject, path, pattern and for the
    schedule are those of the table that acceptable puts fill and deletes empty,
    every key's rules under their key, whatever the order in which maps are
    visited and the numbers the rules were given. *)
Theorem consumeUpdates_refines (c : Cluster) updates b :
  synced c → represents c b →
  let c' := consumeUpdates c updates in
  let b' := spec_run c updates b in
  represents c' b' ∧
  ∀ pl, pl ≠ PNowhere →
    map (λ r, set_rule_index r 0) (kv_lists (cl_processor c') pl) ≡ₚ map (λ r, set_rule_index r 0) (at_place pl (all_current b')).
Proof.
  intros Hs Hb c' b'. destruct (consumeUpdates_spec c updates b Hs Hb) as [Hs' Hb']. split; [done|].
  intros pl Hpl. subst c' b'. rewrite (in_lists _ Hs' pl Hpl). symmetry. by apply represents_places.
Qed.

(** C12: Whatever the updates, every rule in use has a number and one place, the cron
    jobs of the bucket are those of the schedule rules of all keys, and there is
    a core subscription exactly for the subjects of their core rules, refusals
    of the server aside. *)
Theorem consumeUpdates_synced (c : Cluster) updates : synced c → synced (consumeUpdates c updates).
Proof.
  intros Hs. apply (consumeUpdates_spec c updates (cl_currentRules c) Hs).
  intros k. destruct (cl_currentRules c !! k) as [l|]; constructor. by induction l; constructor.
Qed.

(** An update of one key leaves the rules of the others exactly as they are,
    their numbers included, so the throttle windows they opened stay theirs. *)
Theorem other_keys_untouched (c : Cluster) u k :
  synced c → k ≠ update_key u → cl_currentRules (consume c u) !! k = cl_currentRules c !! k.
Proof.
  intros Hs Hk. destruct (consume_spec c u Hs) as (_ & Hd & _).
  apply (f_equal (λ m : gmap string (list Rule), m !! k)) in Hd. by rewrite !lookup_delete_ne in Hd by done.
Qed.

(** A put never takes a subscription away and touches none but those of its own
    subjects; a delete takes away exactly those of the key's subjects that no
    rule of another key needs. *)
Theorem subscriptions_follow (c : Cluster) u : synced c →
  let c' := consume c u in
  match u with
  | RulePut lister key val =>
      (∀ s sub, subs_of (cl_broker c) !! s = Some sub → subs_of (cl_broker c') !! s = Some sub) ∧
      (∀ s, subs_of (cl_broker c') !! s ≠ subs_of (cl_broker c) !! s →
         s ∈ collectNATSTriggerSubjects (default [] (put_verdict lister val c)))
  | RuleDelete key =>
      ∀ s, subs_of (cl_broker c') !! s =
        if bool_decide (s ∈ collectNATSTriggerSubjects (default [] (cl_currentRules c !! key)) ∧
                        s ∉ collectNATSTriggerSubjects (all_current (delete key (cl_currentRules c))))
        then None else subs_of (cl_broker c) !! s
  end.
Proof.
  intros Hs. destruct u as [lister key val|key]; cbn [consume].
  - destruct (handleRulePut_cases lister key val c (synced_pushed c Hs)) as [_ Hv]. destruct (put_verdict lister val c) as [rules|]; cbn.
    + destruct Hv as (_ & _ & Hm & Ho). split; [done|]. intros s Hne.
      destruct (decide (s ∈ collectNATSTriggerSubjects rules)); [done|]. by destruct Hne; apply Ho.
    + destruct Hv as [_ ->]. done.
  - destruct (handleRuleDelete_cases key c (synced_pushed c Hs)) as (_ & Hr & Hk). intros s. by rewrite Hk, Hr.
Qed.

End properties.

(** ** A concrete cluster *)

#[local] Instance manager_loader : LoaderEnv := {|
  yaml_Unmarshal := λ s, if String.eqb s "rules" then Some [demo_rule] else if String.eqb s "none" then Some [] else None;
  cron_Parse := λ s, negb (String.eqb s "");
  time_LoadLocation := λ s, String.eqb s "UTC";
  os_Getenv := λ s, if String.eqb s "WINDOW" then "5s" else "";
|}.

#[local] Instance manager_cron : Cron := {| gocron_CronJob := λ s, negb (String.eqb s "") |}.
#[local] Existing Instances demo demo_net merge_SortSlice.

Definition demo_lister : list StreamConfig * bool := ([MkStreamConfig "ALL" [">"] FileStorage None []], false).

Definition demo_cluster : Cluster :=
  MkCluster (NewLoader []) ∅ (NewProcessor None None None (MkTime 0 0)) demo_start
    (MkBroker ∅ (Some (MkSubscriptionManager demo_publisher None 0 ∅)) NewStreamResolver "rr" "all" "instant" 1)
    (Some []) None (demo_net_start []).

Definition demo_updates : list rule_update := [RulePut demo_lister "k" "rules"; RulePut demo_lister "k" "none"].

Definition subscribed (c : Cluster) : list string := map fst (map_to_list (subs_of (cl_broker c))).

Lemma demo_synced : synced demo_cluster.
Proof. apply fresh_synced; [done|done|done|by intros ? [= <-]|done]. Qed.

(** A put that no longer names a subject leaves its subscription running: after
    both puts the key has no rules and the subject of the first is served. *)
Lemma dropped_subject_stays :
  let c := consumeUpdates demo_cluster demo_updates in
  all_current (cl_currentRules c) = [] ∧ subscribed c = ["sensors.*"].
Proof. split; vm_compute; reflexivity. Qed.

(** A subscription that could not be started is not tried again by later puts of
    the key: here the subscription manager came after the first put. *)
Lemma failed_start_not_retried :
  let b := cl_broker demo_cluster in
  let early := MkBroker (bk_consumers b) None (bk_resolver b) (bk_ConsumerPrefix b) (bk_DeliverPolicy b) (bk_ReplayPolicy b)
    (bk_WorkerCount b) in
  let c := consume (set_broker demo_cluster early) (RulePut demo_lister "k" "rules") in
  let c := set_broker c (with_manager (cl_broker c) (MkSubscriptionManager demo_publisher None 0 ∅)) in
  let c := consume c (RulePut demo_lister "k" "rules") in
  length (all_current (cl_currentRules c)) = 1%nat ∧ subscribed c = [].
Proof. split; vm_compute; reflexivity. Qed.

Lemma consumeUpdates_refines_witness :
  let c' := consumeUpdates demo_cluster demo_updates in
  let b' := spec_run demo_cluster demo_updates ∅ in
  represents c' b' ∧
  ∀ pl, pl ≠ PNowhere →
    map (λ r, set_rule_index r 0) (kv_lists (cl_processor c') pl) ≡ₚ map (λ r, set_rule_index r 0) (at_place pl (all_current b')).
Proof. apply (consumeUpdates_refines demo_cluster demo_updates ∅); [apply demo_synced|intros k; rewrite lookup_empty; constructor]. Defined.

Lemma consumeUpdates_synced_witness : synced (consumeUpdates demo_cluster demo_updates).
Proof. apply (consumeUpdates_synced demo_cluster demo_updates). apply demo_synced. Defined.

Definition filled_cluster : Cluster := consume demo_cluster (RulePut demo_lister "k" "rules").

Lemma filled_synced : synced filled_cluster.
Proof. apply consume_spec, demo_synced. Qed.

Lemma other_keys_untouched_witness :
  is_Some (cl_currentRules filled_cluster !! "k") ∧
  cl_currentRules (consume filled_cluster (RulePut demo_lister "other" "rules")) !! "k" = cl_currentRules filled_cluster !! "k".
Proof.
  split; [vm_compute; by eexists|].
  apply (other_keys_untouched filled_cluster (RulePut demo_lister "other" "rules") "k"); [apply filled_synced|done].
Defined.

Lemma subscriptions_follow_witness :
  is_Some (subs_of (cl_broker filled_cluster) !! "sensors.*") ∧
  subs_of (cl_broker (consume filled_cluster (RuleDelete "k"))) !! "sensors.*" = None.
Proof.
  split; [vm_compute; by eexists|].
  etransitivity; [apply (subscriptions_follow filled_cluster (RuleDelete "k") filled_synced)|vm_compute; reflexivity].
Defined.
