(* ===== verification/Bucket.v ===== *)
(** * What the engine computes with rules from a bucket (internal/rule, internal/broker)

    The meaning that Engine gives to rules, for an engine whose rules come and go
    while it works: updates of the bucket and messages in any order.  The rules of
    a bucket are used as they are parsed, those of files are prepared first; the
    meaning is the same. *)

From S2P Require Import Prelude GoStrings GoFloat GoTime Value Types TimeContext Env Demo.
From S2P Require Import PathMatcher Pattern KVContext Context Throttle Index Random Processor Engine Loader.
From S2P Require Import StreamResolver Net Watch HttpClient Publisher Site Subscription Responder Scheduler Broker RuleManager.
Local Open Scope string_scope.

(** ** Specification *)

(** The rules of a bucket that a message concerns, when [lists] are those of each
    place. *)
Definition of_method (method : string) (r : Rule) : bool := String.eqb (http_method r) "" || String.eqb (http_method r) method.
Definition bucket_triggered (m : message) (lists : place → list Rule) : list Rule :=
  match m with
  | NATSMessage _ _ _ => []
  | Delivery subscription _ _ _ transport => List.filter (of_transport transport) (lists (PNats subscription))
  | HTTPRequest path method _ _ _ =>
      let found := (lists (PExact path) ++ List.filter (has_path_pattern path) (lists PPattern))%list in
      if String.eqb method "" then found else List.filter (of_method method) found
  | Fire position => option_list (lists PSchedule !! position)
  end.

Definition denotable (r : Rule) : Prop := plain_rule r = true ∧ fresh_rule r = true.

Section bucket.
Context `{Env} `{LoaderEnv} `{Cron} `{Net} `{SortSlice}.
Variable snapshot : string → string → option string.

(** What happens to a router: the bucket changes, or a message is processed. *)
Inductive occurrence := Updated (u : rule_update) | Processed (m : message).

Definition occur (c : Cluster) (o : occurrence) : Cluster :=
  match o with
  | Updated u => consume c u
  | Processed m =>
      let '(p, st) := (process_message m (cl_processor c, cl_st c)).2 in
      MkCluster (cl_loader c) (cl_currentRules c) p st (cl_broker c) (cl_jobs c) (cl_responder c) (cl_net c)
  end.

(** The bucket after them. *)
Fixpoint bucket_run (c : Cluster) (os : list occurrence) (b : gmap string (list Rule)) : gmap string (list Rule) :=
  match os with
  | [] => b
  | o :: rest => bucket_run (occur c o) rest match o with Updated u => spec_step c u b | Processed _ => b end
  end.

(** Every rule a put may install has a meaning. *)
Definition denotable_update (o : occurrence) : Prop :=
  match o with
  | Updated (RulePut _ _ val) => ∀ l st rules, (ParseAndValidateYAML l val st).1 = Ok rules → Forall denotable rules
  | _ => True
  end.

(** No rules from files, and a matcher of its own with every pattern. *)
Definition own_matcher (pr : HTTPPatternRule) : Prop :=
  ∃ h, tr_HTTP (r_Trigger (hp_Rule pr)) = Some h ∧ PathContainsWildcards (ht_Path h) = true ∧ NewPathMatcher (ht_Path h) = Ok (hp_Matcher pr).
Definition own_matchers (set : KVRuleSet) : Prop := Forall own_matcher (hk_Patterns (ks_HTTP set)).
Record bucket_only (p : Processor) : Prop := {
  bo_exact : exactMatches (p_index p) = ∅;
  bo_patterns : patternRules (p_index p) = [];
  bo_paths : p_httpExactPaths p = ∅;
  bo_pathPatterns : p_httpPatternRules p = [];
  bo_schedule : p_scheduleRules p = [];
  bo_set : ∀ set, p_kvRuleSet p = Some set → own_matchers set;
}.

(** ** Lemmas: one message *)

Section message.
Hypothesis Hstatic : server_static snapshot.

Lemma find_nothing p ix stats subject tokens : bucket_only p →
  ∃ ix', FindAllMatchingTokenized (p_index (recount p ix stats)) subject tokens = ([], MkIndex (exactMatches (p_index p)) (patternRules (p_index p)) ix').
Proof.
  intros [He Hp _ _ _ _]. unfold FindAllMatchingTokenized, find_with. cbn [recount set_stats set_index p_index exactMatches patternRules ix_stats].
  rewrite He, Hp. destruct ix as [el pc mt lu]. by eexists.
Qed.

Lemma filtered_nothing p subject payload headers f ix stats st : bucket_only p →
  ∃ ix', processNATSFiltered subject payload headers f (recount p ix stats, st) = (Ok noOutcome, (recount p ix' stats, st)).
Proof.
  intros Hp. unfold processNATSFiltered, mbind, PM_bind, getP. cbn [fst].
  destruct (find_nothing p ix stats subject (sc_Tokens (NewSubjectContext subject)) Hp) as [ix' ->]. unfold putP. cbn [snd].
  exists ix'. by destruct f.
Qed.

Lemma bucket_http p ix stats path method payload headers query : bucket_only p →
  findHTTPRules (recount p ix stats) path method = bucket_triggered (HTTPRequest path method payload headers query) (kv_lists p).
Proof.
  intros [_ _ Hx Hpp _ Hset]. unfold findHTTPRules, bucket_triggered. cbn [recount set_stats set_index p_httpExactPaths p_httpPatternRules p_kvRuleSet].
  rewrite Hx, Hpp. unfold rules_in at 1. rewrite lookup_empty. cbn [default id List.filter map app].
  assert (match p_kvRuleSet p with Some set => rules_in (hk_Exact (ks_HTTP set)) (hk_Patterns (ks_HTTP set)) path | None => [] end =
    (kv_lists p (PExact path) ++ List.filter (has_path_pattern path) (kv_lists p PPattern))%list) as ->; [|done].
  unfold kv_lists. destruct (p_kvRuleSet p) as [set|] eqn:Es; [|done]. unfold rules_in. cbn [set_lists]. f_equal. specialize (Hset set eq_refl).
  unfold own_matchers in Hset. induction Hset as [|pr prs (h & Hh & Hw & Hm) _ IH]; [done|]. cbn [List.filter map].
  assert (MatchPath (hp_Matcher pr) path = has_path_pattern path (hp_Rule pr)) as ->; [|by destruct (has_path_pattern _ _); cbn; rewrite IH].
  unfold has_path_pattern. rewrite Hh, Hw. cbn [andb]. unfold NewPathMatcher in Hm. apply bind_Ok in Hm as (u & [_ Hv]%ValidatePathPattern_Ok & [= <-]).
  unfold MatchPath. by rewrite MatchTokens_spec by apply Hv.
Qed.

Lemma bucket_triggered_denotable m lists : (∀ pl, Forall denotable (lists pl)) → Forall denotable (bucket_triggered m lists).
Proof.
  intros Hl. assert (∀ f l, Forall denotable l → Forall denotable (List.filter f l)) as Hf.
  { intros f l Hall. rewrite Forall_forall in *. intros r. rewrite elem_of_filterb. naive_solver. }
  destruct m as [| |path method payload headers query|position]; cbn [bucket_triggered]; [constructor|by apply Hf| |].
  - assert (Forall denotable (lists (PExact path) ++ List.filter (has_path_pattern path) (lists PPattern))) by (apply Forall_app; auto).
    destruct (String.eqb method ""); auto.
  - destruct (lists PSchedule !! position) as [r|] eqn:E; [|constructor]. constructor; [|constructor]. specialize (Hl PSchedule).
    rewrite Forall_forall in Hl. by apply Hl, (list_elem_of_lookup_2 _ position).
Qed.

Lemma bucket_process m p ix stats st : bucket_only p → (∀ pl, Forall denotable (kv_lists p pl)) → engine_ready snapshot p st →
  ∃ ix' stats' st', process_message m (recount p ix stats, st) =
    (denote_with snapshot p (bucket_triggered m (kv_lists p)) (CurrentContext (p_timeProvider p) st).1 m, (recount p ix' stats', st')) ∧
    engine_ready snapshot p st'.
Proof.
  intros Hp Hl Hst. pose proof (bucket_triggered_denotable m _ Hl) as Ht.
  destruct m as [subject payload headers|subscription subject payload headers transport|path method payload headers query|position]; cbn [process_message].
  - destruct (filtered_nothing p subject payload headers None ix stats st Hp) as [ix' Hr]. exists ix', stats, st. by split.
  - unfold ProcessForSubscription, mbind, PM_bind, getP. cbn [fst]. change (p_kvRuleSet (recount p ix stats)) with (p_kvRuleSet p).
    cbn [bucket_triggered] in *. unfold kv_lists in *. destruct (p_kvRuleSet p) as [set|] eqn:Es.
    2: { destruct (filtered_nothing p subject payload headers (Some transport) ix stats st Hp) as [ix' ->]. exists ix', stats, st. by split. }
    cbn [set_lists] in *. destruct (length (default [] (ks_NATS set !! subscription)) =? 0)%nat eqn:El.
    { destruct (filtered_nothing p subject payload headers (Some transport) ix stats st Hp) as [ix' ->]. exists ix', stats, st. split; [|done].
      apply Nat.eqb_eq, length_zero_iff_nil in El. by rewrite El. }
    rewrite filterNATSRules_filter. change (λ r, match tr_NATS (r_Trigger r) with Some t => transport t | None => false end) with (of_transport transport).
    unfold denote_with. destruct (length (List.filter (of_transport transport) _) =? 0)%nat; [by exists ix, stats, st|].
    change (p_sigVerification (recount p ix stats)) with (p_sigVerification p).
    destruct (with_context_denotes snapshot Hstatic _ _ payload headers (Some (NewSubjectContext subject)) None (p_sigVerification p) "nats" p ix stats st (given_plain _) Ht Hst)
      as (stats' & st' & -> & Hst'). by exists ix, stats', st'.
  - unfold ProcessHTTP, denote_with, mbind, PM_bind, getP. cbn [fst]. rewrite (bucket_http p ix stats path method payload headers query Hp).
    destruct (_ =? 0)%nat; [by exists ix, stats, st|]. change (p_sigVerification (recount p ix stats)) with (p_sigVerification p).
    destruct (with_context_denotes snapshot Hstatic _ _ payload headers None (Some (NewHTTPRequestContext path method query)) (p_sigVerification p) "http" p ix stats st (given_plain _) Ht Hst)
      as (stats' & st' & -> & Hst'). by exists ix, stats', st'.
  - unfold denote_with, mbind, PM_bind, getP, ScheduleRules. cbn [fst bucket_triggered] in *. change (p_kvRuleSet (recount p ix stats)) with (p_kvRuleSet p).
    change (p_scheduleRules (recount p ix stats)) with (p_scheduleRules p). rewrite (bo_schedule _ Hp).
    assert (match p_kvRuleSet p with Some set => ks_Schedule set | None => [] end = kv_lists p PSchedule) as -> by (unfold kv_lists; by destruct (p_kvRuleSet p)).
    destruct (kv_lists p PSchedule !! position) as [r|]; [|by exists ix, stats, st].
    cbn [option_list length Nat.eqb] in *. unfold ProcessSchedule.
    destruct (with_context_denotes snapshot Hstatic [r] [r] "" [] None None None "schedule" p ix stats st (given_plain _) Ht Hst) as (stats' & st' & Hrun & Hst').
    exists ix, stats', st'. split; [exact Hrun|done].
Qed.
End message.

(** ** Lemmas: updates *)

(** What a computation of the engine's monad leaves alone when it only draws
    from the world. *)
Definition keeps_caches {A} (m : M A) : Prop :=
  ∀ st, st_parseCache (m st).2 = st_parseCache st ∧ st_localCache (m st).2 = st_localCache st.

Lemma keeps_ret {A} (a : A) : keeps_caches (mret a).
Proof. done. Qed.
Lemma keeps_bind {A B} (m : M A) (f : A → M B) : keeps_caches m → (∀ a, keeps_caches (f a)) → keeps_caches (m ≫= f).
Proof.
  intros Hm Hf st. unfold mbind, M_bind. destruct (Hm st) as [Ep El]. destruct (m st) as [a st1]. destruct (Hf a st1) as [-> ->]. done.
Qed.
Lemma keeps_world {A} (f : World → A * World) : keeps_caches (lift_world f).
Proof. intros st. unfold lift_world. by destruct (f (st_world st)). Qed.

Lemma randomValue_keeps call : keeps_caches (randomValue call).
Proof.
  unfold randomValue. destruct (Cut "(" call) as [[name rest] found]. destruct (_ || _); [apply keeps_ret|]. cbv zeta.
  generalize (Split "," (stake (slen rest - 1) rest)). intros args. repeat destruct (String.eqb name _); [..|apply keeps_ret].
  - unfold randomInt. destruct args as [|a [|b [|? ?]]]; try apply keeps_ret.
    destruct (ParseInt a); [|apply keeps_ret]. destruct (ParseInt b); [|apply keeps_ret]. destruct (_ <? _)%Z; [apply keeps_ret|]. cbv zeta.
    destruct (_ || _); [apply keeps_ret|]. apply keeps_bind; [apply keeps_world|]. intros. apply keeps_ret.
  - unfold randomFloat. destruct args as [|a [|b [|c [|? ?]]]]; try apply keeps_ret.
    destruct (ParseFloat a); [|apply keeps_ret]. destruct (ParseFloat b); [|apply keeps_ret]. destruct (Atoi c); [|apply keeps_ret].
    destruct (_ || _); [apply keeps_ret|]. destruct (fltb _ _); [apply keeps_ret|]. destruct (_ || _); [apply keeps_ret|].
    apply keeps_bind; [apply keeps_world|]. intros. apply keeps_ret.
  - unfold randomChoice. destruct (_ || _); [apply keeps_ret|]. apply keeps_bind; [apply keeps_world|]. intros. apply keeps_ret.
Qed.

Lemma ParseAndValidateYAML_keeps l val : keeps_caches (ParseAndValidateYAML l val).
Proof.
  assert (∀ calls, keeps_caches (first_bad_call calls)) as Hcalls.
  { induction calls as [|call calls IH]; [apply keeps_ret|]. cbn [first_bad_call]. apply keeps_bind; [apply randomValue_keeps|].
    intros [?|?]; [done|apply keeps_ret]. }
  assert (∀ rules i, keeps_caches (validate_loop i rules)) as Hloop.
  { induction rules as [|r rules IH]; intros i; [apply keeps_ret|]. cbn [validate_loop]. destruct (validateRule r); [|apply keeps_ret].
    apply keeps_bind; [apply Hcalls|]. intros [[? ?]|]; [apply keeps_ret|]. apply keeps_bind; [apply IH|]. intros. apply keeps_ret. }
  unfold ParseAndValidateYAML. destruct (yaml_Unmarshal val); [|apply keeps_ret]. destruct (_ =? 0)%nat; [apply keeps_ret|].
  destruct (mapE _ 0 _); [|apply keeps_ret]. destruct (mapE _ 0 _); [|apply keeps_ret]. apply Hloop.
Qed.

(** The work on jobs and subscriptions leaves the engine alone. *)
Definition same_engine (c c' : Cluster) : Prop := cl_processor c' = cl_processor c ∧ cl_st c' = cl_st c.

Lemma same_engine_trans c1 c2 c3 : same_engine c1 c2 → same_engine c2 c3 → same_engine c1 c3.
Proof. intros [E1 E2] [E3 E4]. split; congruence. Qed.
Lemma with_net_engine {A} (m : NM A) c : same_engine c (with_net m c).2.
Proof. unfold with_net. by destruct (m (cl_net c)). Qed.
Lemma rebuild_schedule_engine wanted schedule c : same_engine c (rebuild_schedule wanted schedule c).
Proof. unfold rebuild_schedule. destruct (cl_jobs c); [|done]. by destruct wanted. Qed.
Lemma rebuild_core_engine wanted core c : same_engine c (rebuild_core wanted core c).
Proof.
  unfold rebuild_core. destruct (cl_responder c) as [re|]; [|done]. destruct wanted; [|done].
  pose proof (with_net_engine (Rebuild re core) c) as Hn. by destruct (with_net _ c).
Qed.
Lemma start_subjects_engine subjects c : same_engine c (start_subjects subjects c).
Proof.
  revert c. induction subjects as [|s rest IH]; intros c; [done|]. cbn [start_subjects].
  pose proof (with_net_engine (broker_AddAndStartSubscription (cl_broker c) s) c) as Hn. destruct (with_net _ c) as [out c1].
  eapply same_engine_trans; [|apply IH]. exact Hn.
Qed.
Lemma remove_subjects_engine subjects c : same_engine c (remove_subjects subjects c).
Proof.
  revert c. induction subjects as [|s rest IH]; intros c; [done|]. cbn [remove_subjects].
  pose proof (with_net_engine (broker_RemoveSubscription (cl_broker c) s) c) as Hn. destruct (with_net _ c) as [b c1].
  eapply same_engine_trans; [|apply IH]. exact Hn.
Qed.

(** A set built of rules has their matchers, numbered or not. *)
Lemma built_set_matchers flat : own_matchers (foldl add_to_set empty_set flat).
Proof.
  induction flat as [|r flat IH] using rev_ind; [constructor|]. rewrite foldl_app. cbn [foldl]. unfold own_matchers, add_to_set. cbn [ks_HTTP].
  destruct (tr_HTTP (r_Trigger r)) as [h|] eqn:Eh; [|exact IH]. destruct (PathContainsWildcards (ht_Path h)) eqn:Ew; [|exact IH].
  destruct (NewPathMatcher (ht_Path h)) as [pm|] eqn:Em; [|exact IH]. cbn [hk_Patterns]. apply Forall_app. split; [exact IH|].
  constructor; [|constructor]. by exists h.
Qed.

Lemma number_patterns_matchers seq prs : Forall own_matcher prs → Forall own_matcher (number_patterns seq prs).2.
Proof.
  intros Hp. revert seq. induction Hp as [|[r pm] prs (h & Hh & Hw & Hm) _ IH]; intros seq; [constructor|]. cbn [number_patterns].
  destruct (number_rule seq r) as [seq1 r'] eqn:Er. specialize (IH seq1). destruct (number_patterns seq1 prs) as [seq2 prs']. constructor; [|exact IH].
  exists h. split_and!; [|done|done]. cbn [hp_Rule] in *. unfold number_rule in Er. destruct (r_index r =? 0)%Z; by injection Er as <- <-.
Qed.

(** The settings of a processor, which no update changes. *)
Definition settings (p : Processor) : option KVContext * option SignatureVerification * Z * TimeProvider :=
  (p_kvContext p, p_sigVerification p, p_maxForEachIters p, p_timeProvider p).

Lemma Replace_bucket_only p set : bucket_only p → own_matchers set →
  bucket_only (ReplaceKVRuleSet p set) ∧ settings (ReplaceKVRuleSet p set) = settings p.
Proof.
  intros [? ? ? ? ? _] Hm. unfold ReplaceKVRuleSet. destruct (number_map _ _) as [s1 nats]. destruct (number_map s1 _) as [s2 exact].
  pose proof (number_patterns_matchers s2 _ Hm) as Hm'. destruct (number_patterns s2 _) as [s3 patterns]. destruct (number_list s3 _) as [s4 schedule].
  split; [|done]. split; try done. by intros ? [= <-].
Qed.

(** What an update does to the engine. *)
Definition engine_step (c c' : Cluster) : Prop :=
  (bucket_only (cl_processor c) → bucket_only (cl_processor c')) ∧ (bucket_only (cl_processor c) → settings (cl_processor c') = settings (cl_processor c)) ∧
  st_parseCache (cl_st c') = st_parseCache (cl_st c) ∧ st_localCache (cl_st c') = st_localCache (cl_st c).

Lemma same_engine_step c c1 c' : engine_step c c1 → same_engine c1 c' → engine_step c c'.
Proof. unfold engine_step. by intros (? & ? & ? & ?) [-> ->]. Qed.

Lemma push_step c : engine_step c (push c).1.1.
Proof.
  unfold push. pose proof (with_net_engine (with_world (range_order (map_to_list (cl_currentRules c)))) c) as [Ep Es].
  destruct (with_net _ c) as [order c1]. cbn [snd] in *. unfold pushRulesToProcessor. cbn [fst cl_processor cl_st].
  unfold engine_step. cbn [cl_processor cl_st]. rewrite Ep, Es.
  assert (bucket_only (cl_processor c) → bucket_only (ReplaceKVRuleSet (cl_processor c) (foldl add_to_set empty_set (concat (map snd order)))) ∧
    settings (ReplaceKVRuleSet (cl_processor c) (foldl add_to_set empty_set (concat (map snd order)))) = settings (cl_processor c)) as Hr
    by (intros Hb; by apply Replace_bucket_only, built_set_matchers).
  split_and!; [by intros [? _]%Hr|by intros [_ ?]%Hr|done|done].
Qed.

Lemma consume_step c u : engine_step c (consume c u).
Proof.
  destruct u as [lister key val|key]; cbn [consume].
  - unfold handleRulePut. pose proof (ParseAndValidateYAML_keeps (cl_loader c) val (cl_st c)) as [Ep El].
    destruct (ParseAndValidateYAML _ _ _) as [[rules|e] st]; [|by split_and!]. cbn [snd] in *.
    destruct (0 <? _)%nat; [by split_and!|]. set (c1 := set_broker (set_st c st) _).
    pose proof (push_step (set_rules c1 (<[key:=rules]> (cl_currentRules c1)))) as (Hb & Hs & Ep' & El').
    destruct (push _) as [[c2 schedule] core]. cbn [fst] in *.
    assert (engine_step c c2) as Hstep by (by split_and!; [..|rewrite Ep'|rewrite El']).
    eapply (same_engine_step c c2); [done|]. eapply same_engine_trans; [apply rebuild_schedule_engine|]. eapply same_engine_trans; [apply rebuild_core_engine|].
    unfold in_range_order. pose proof (with_net_engine (with_world (range_order (elements (collectNATSTriggerSubjects rules))))
      (rebuild_core (hasCoreRules (default [] (cl_currentRules c1 !! key)) || hasCoreRules rules) core
        (rebuild_schedule (hasScheduleRules (default [] (cl_currentRules c1 !! key)) || hasScheduleRules rules) schedule c2))) as Hn.
    destruct (with_net _ _) as [subjects c3]. eapply same_engine_trans; [exact Hn|]. apply start_subjects_engine.
  - unfold handleRuleDelete. destruct (cl_currentRules c !! key) as [old|]; [|by split_and!].
    pose proof (push_step (set_rules c (delete key (cl_currentRules c)))) as (Hb & Hs & Ep' & El').
    destruct (push _) as [[c2 schedule] core]. cbn [fst] in *.
    eapply (same_engine_step c c2); [done|]. eapply same_engine_trans; [apply rebuild_schedule_engine|]. eapply same_engine_trans; [apply rebuild_core_engine|].
    unfold in_range_order.
    pose proof (with_net_engine (with_world (range_order (elements (collectNATSTriggerSubjects old))))
      (rebuild_core (hasCoreRules old) core (rebuild_schedule (hasScheduleRules old) schedule c2))) as Hn.
    destruct (with_net _ _) as [subjects c3]. eapply same_engine_trans; [exact Hn|]. apply remove_subjects_engine.
Qed.

(** ** Lemmas: histories *)

Hypothesis Hstatic : server_static snapshot.

Lemma same_rule_denotable r r' : same_rule r r' → denotable r → denotable r'.
Proof. unfold same_rule. intros E Hr. change (denotable (set_rule_index r' 0)). by rewrite <- E. Qed.

Definition denotable_bucket (b : gmap string (list Rule)) : Prop := ∀ k rules, b !! k = Some rules → Forall denotable rules.

Lemma represents_denotable c b : represents c b → denotable_bucket b → Forall denotable (all_current (cl_currentRules c)).
Proof.
  intros Hr Hb. apply Forall_forall. intros r Hin. unfold all_current in Hin. apply list_elem_of_In, in_concat in Hin as (rules & Hrules & Hin).
  apply in_map_iff in Hrules as ([k l] & <- & Hk%list_elem_of_In). apply elem_of_map_to_list in Hk. cbn [snd] in *.
  specialize (Hr k). rewrite Hk in Hr. inversion Hr as [l0 ? Hl E|]; subst. symmetry in E. specialize (Hb k l0 E).
  apply list_elem_of_In, list_elem_of_lookup in Hin as [i Hi]. destruct (Forall2_lookup_r _ _ _ _ _ Hl Hi) as (r0 & Hi0 & Hs).
  eapply same_rule_denotable; [exact Hs|]. rewrite Forall_lookup in Hb. by eapply Hb.
Qed.

Lemma lists_denotable c b : synced c → represents c b → denotable_bucket b → ∀ pl, Forall denotable (kv_lists (cl_processor c) pl).
Proof.
  intros Hs Hr Hb pl. destruct (decide (pl = PNowhere)) as [->|Hne].
  - unfold kv_lists. destruct (p_kvRuleSet _); constructor.
  - rewrite (in_lists _ Hs pl Hne). pose proof (represents_denotable c b Hr Hb) as Hd. apply Forall_forall.
    intros r Hin. unfold at_place in Hin. apply elem_of_filterb in Hin as [_ Hin]. exact (proj1 (Forall_forall _ _) Hd r Hin).
Qed.

Lemma spec_step_denotable c u b : denotable_update (Updated u) → denotable_bucket b → denotable_bucket (spec_step c u b).
Proof.
  intros Hu Hb k rules. destruct u as [lister key val|key]; cbn [spec_step].
  - unfold put_verdict. destruct ((ParseAndValidateYAML (cl_loader c) val (cl_st c)).1) as [rs|] eqn:E; [|apply Hb].
    destruct (0 <? _)%nat; [apply Hb|]. intros [[<- <-]|[_ ?]]%lookup_insert_Some; [by eapply Hu|by eapply Hb].
  - intros [_ ?]%lookup_delete_Some. by eapply Hb.
Qed.

(** What a history keeps. *)
Record meaningful (p0 : Processor) (c : Cluster) (b : gmap string (list Rule)) : Prop := {
  mf_synced : synced c; mf_represents : represents c b; mf_bucket : denotable_bucket b;
  mf_only : bucket_only (cl_processor c); mf_ready : engine_ready snapshot (cl_processor c) (cl_st c);
  mf_settings : settings (cl_processor c) = settings p0;
}.

Lemma meaningful_lists p0 c b : meaningful p0 c b → ∀ pl, pl ≠ PNowhere →
  map (λ r, set_rule_index r 0) (kv_lists (cl_processor c) pl) ≡ₚ map (λ r, set_rule_index r 0) (at_place pl (all_current b)).
Proof. intros [Hs Hr _ _ _ _] pl Hpl. rewrite (in_lists _ Hs pl Hpl). symmetry. by apply represents_places. Qed.

Lemma occur_meaningful p0 c b o : denotable_update o → meaningful p0 c b →
  meaningful p0 (occur c o) match o with Updated u => spec_step c u b | Processed _ => b end.
Proof.
  intros Ho [Hs Hr Hb Hp Hst Hset]. destruct o as [u|m]; cbn [occur].
  - destruct (consume_spec c u Hs) as (Hs' & _ & Hr'). destruct (consume_step c u) as (Hp' & Hset' & Epc & Elc). split.
    + done.
    + by apply Hr'.
    + by apply spec_step_denotable.
    + auto.
    + intros kv Hkv. rewrite Epc, Elc. apply Hst. specialize (Hset' Hp). unfold settings in Hset'. congruence.
    + by rewrite Hset'.
  - destruct (bucket_process Hstatic m (cl_processor c) (ix_stats (p_index (cl_processor c))) (p_stats (cl_processor c)) (cl_st c) Hp
      (lists_denotable c b Hs Hr Hb) Hst) as (ix & stats & st & Hrun & Hst').
    rewrite recount_id in Hrun. rewrite Hrun. cbn [snd]. split.
    + by destruct Hs.
    + done.
    + done.
    + by destruct Hp.
    + done.
    + done.
Qed.

Lemma history_meaningful p0 os : Forall denotable_update os → ∀ c b, meaningful p0 c b → meaningful p0 (foldl occur c os) (bucket_run c os b).
Proof.
  induction 1 as [|o os Ho _ IH]; intros c b Hm; [done|]. cbn [foldl bucket_run]. apply IH. by apply occur_meaningful.
Qed.
End bucket.

(** ** Properties *)

(** C3: A router that reads its rules from a bucket always acts by the rules the
    bucket holds.  Start with an engine in step with a bucket, without rules from
    files, and let puts, deletes and messages come in any order, where the rules of the
    bucket and of the puts are as a file gives them (nothing prepared, no padded operand),
    with action templates that call no function and nest no more than ten names, and
    trailing throttles only; let every read of the key-value stores the rules look
    at give one snapshot, with which the caches agree at the start and which no
    watcher updates.  Then the lists the engine searches are, up to the numbers
    and the order of their rules, those of the table that the acceptable puts
    filled and the deletes emptied; and a message's outcome is the meaning of
    the rules it concerns in them, so that, over such a snapshot, earlier messages
    and rule sets show in no outcome.  With stores that change, a cached value can show
    an earlier message ([KVCache.unwatched_bucket_goes_stale]). *)
Theorem bucket_denotes `{Env} `{LoaderEnv} `{Cron} `{Net} `{SortSlice} snapshot (c : Cluster) b history m :
  server_static snapshot → meaningful snapshot (cl_processor c) c b → Forall denotable_update history →
  let c' := foldl occur c history in
  let b' := bucket_run c history b in
  let lists := kv_lists (cl_processor c') in
  (∀ pl, pl ≠ PNowhere →
    map (λ r, set_rule_index r 0) (lists pl) ≡ₚ map (λ r, set_rule_index r 0) (at_place pl (all_current b'))) ∧
  (process_message m (cl_processor c', cl_st c')).1 =
    denote_with snapshot (cl_processor c) (bucket_triggered m lists)
      (CurrentContext (p_timeProvider (cl_processor c)) (cl_st c')).1 m.
Proof.
  intros Hstat Hm Hos c' b' lists. pose proof (history_meaningful snapshot Hstat (cl_processor c) history Hos c b Hm) as Hm'.
  fold c' in Hm'. fold b' in Hm'. split; [exact (meaningful_lists snapshot _ c' b' Hm')|].
  destruct Hm' as [Hs Hr Hb Hp Hst Hset].
  destruct (bucket_process snapshot Hstat m (cl_processor c') (ix_stats (p_index (cl_processor c'))) (p_stats (cl_processor c')) (cl_st c') Hp
    (lists_denotable c' b' Hs Hr Hb) Hst) as (ix & stats & st & Hrun & _).
  rewrite recount_id in Hrun. rewrite Hrun. cbn [fst]. unfold settings in Hset. injection Hset as Ekv Esig Emax Etp.
  unfold denote_with. by rewrite Ekv, Esig, Emax, Etp.
Qed.

(** ** A concrete history *)

Definition relay_rule (name subject : string) (template : string) : Rule :=
  MkRule name (MkTrigger (Some (MkNATSTrigger subject None None "" false "")) None None)
    (Some (MkConditions "and" [cond "{temperature}" "gt" (VNumber "10")] []))
    (MkAction (Some (MkNATSAction "out" "" template false false ∅ "" false "" "" None None None None)) None None None) 0.

#[local] Instance bucket_loader : LoaderEnv := {|
  yaml_Unmarshal := λ s, if String.eqb s "one" then Some [relay_rule "one" "a.b" "{temperature}"]
                         else if String.eqb s "two" then Some [relay_rule "two" "a.b" "{unit}"; relay_rule "three" "a.c" "x"] else None;
  cron_Parse := λ _, true;
  time_LoadLocation := λ _, true;
  os_Getenv := λ _, "";
|}.
#[local] Instance bucket_cron : Cron := {| gocron_CronJob := λ _, true |}.
#[local] Existing Instances demo demo_net merge_SortSlice.

#[local] Notation bucket_history :=
  [Updated (RulePut demo_lister "k" "one"); Processed (Delivery "a.b" "a.b" "sample" [] JetStreamRuleFilter);
   Updated (RulePut demo_lister "j" "two"); Updated (RuleDelete "k"); Updated (RulePut demo_lister "k" "broken");
   Processed (Delivery "a.c" "a.c" "sample" [] JetStreamRuleFilter)].
#[local] Notation bucket_message := (Delivery "a.b" "a.b" "sample" [] JetStreamRuleFilter).
#[local] Notation bucket_after := (foldl occur demo_cluster bucket_history).

Lemma one_parsed l st : (ParseAndValidateYAML l "one" st).1 = Ok [relay_rule "one" "a.b" "{temperature}"].
Proof. destruct l as [buckets []]; vm_compute; reflexivity. Qed.
Lemma two_parsed l st : (ParseAndValidateYAML l "two" st).1 = Ok [relay_rule "two" "a.b" "{unit}"; relay_rule "three" "a.c" "x"].
Proof. destruct l as [buckets []]; vm_compute; reflexivity. Qed.

Lemma bucket_history_denotable : Forall denotable_update bucket_history.
Proof.
  repeat apply Forall_cons_2; try done; try apply Forall_nil_2; intros l st rules; [rewrite one_parsed|rewrite two_parsed];
    intros [= <-]; repeat constructor.
Qed.

Lemma demo_meaningful : meaningful demo_snapshot (cl_processor demo_cluster) demo_cluster ∅.
Proof.
  split; [apply fresh_synced; [done|done|done|by intros ? [= <-]|done]| | | | |done].
  - intros k. rewrite lookup_empty. constructor.
  - by intros k rules.
  - by split.
  - intros kv [=].
Qed.

Lemma bucket_denotes_witness :
  (process_message bucket_message (cl_processor bucket_after, cl_st bucket_after)).1 =
    denote_with demo_snapshot (cl_processor demo_cluster) (bucket_triggered bucket_message (kv_lists (cl_processor bucket_after)))
      (CurrentContext (p_timeProvider (cl_processor demo_cluster)) (cl_st bucket_after)).1 bucket_message ∧
  (λ out, map (λ a, na_Payload <$> a_NATS a) (o_Immediate out)) <$>
    ok_or_none (process_message bucket_message (cl_processor bucket_after, cl_st bucket_after)).1 = Some [Some "C"].
Proof.
  split; [|vm_compute; reflexivity].
  apply (bucket_denotes demo_snapshot demo_cluster ∅ bucket_history bucket_message); [done|apply demo_meaningful|apply bucket_history_denotable].
Defined.
