(* ===== verification/Config.v ===== *)
(** * Configuration (config/config.go)

    The configuration and its defaults, the checks it passes before anything
    starts, and the order in which [Load] applies them.  What Viper makes of the
    file and of the environment is a parameter. *)

From S2P Require Import Prelude GoStrings GoTime Types Env Demo StreamResolver Net HttpClient Publisher Site Subscription Gateway Broker.
Local Open Scope string_scope.

(** ** Constants *)

Definition DefaultNATSURL : string := "nats://localhost:4222".
Definition DefaultReconnectWait : Z := 50 * Millisecond.
Definition DefaultFetchTimeout : Z := 5 * Second.
Definition DefaultAckWaitTimeout : Z := 30 * Second.
Definition DefaultPublishAckTimeout : Z := 5 * Second.
Definition DefaultRetryBaseDelay : Z := 50 * Millisecond.
Definition DefaultHTTPReadTimeout : Z := 30 * Second.
Definition DefaultHTTPWriteTimeout : Z := 30 * Second.
Definition DefaultHTTPIdleTimeout : Z := 120 * Second.
Definition DefaultHTTPShutdownGracePeriod : Z := 30 * Second.
Definition DefaultHTTPClientTimeout : Z := 30 * Second.
Definition DefaultHTTPIdleConnTimeout : Z := 90 * Second.
Definition DefaultMaxHeaderBytes : Z := Z.shiftl 1 20.
Definition DefaultWorkerCount : Z := 2.
Definition DefaultFetchBatchSize : Z := 1.
Definition DefaultMaxDeliver : Z := 3.
Definition DefaultMaxAckPending : Z := 1000.
Definition DefaultPublishMaxRetries : Z := 3.
Definition DefaultMaxIdleConns : Z := 100.
Definition DefaultMaxIdleConnsPerHost : Z := 10.
Definition DefaultForEachMaxIterations : Z := 100.
Definition ConfigInboundQueueSize : Z := 1000.
Definition MaxWorkerCount : Z := 1000.
Definition MaxFetchBatchSize : Z := 10000.
Definition MaxAckPending : Z := 100000.
Definition MaxForEachIterations : Z := 10000.
Definition MaxInboundQueueSize : Z := 100000.
Definition DefaultConsumerPrefix : string := "rule-router".
Definition DefaultPublishMode : string := "jetstream".
Definition DefaultDeliverPolicy : string := "new".
Definition DefaultReplayPolicy : string := "instant".
Definition DefaultLogLevel : string := "info".
Definition DefaultLogEncoding : string := "json".
Definition DefaultLogOutput : string := "stdout".
Definition DefaultMetricsAddress : string := ":2112".
Definition DefaultMetricsPath : string := "/metrics".
Definition DefaultMetricsUpdateInterval : string := "15s".
Definition DefaultHTTPServerAddress : string := ":8080".
Definition DefaultPublicKeyHeader : string := "Nats-Public-Key".
Definition DefaultSignatureHeader : string := "Nats-Signature".

(** ** The configuration *)

Record FeaturesConfig := MkFeatures { fe_Router : bool; fe_Gateway : bool; fe_Scheduler : bool }.
Record ForEachConfig := MkForEach { fc_MaxIterations : Z }.
Record HTTPServerConfig := MkHTTPServer {
  hs_Address : string; hs_ReadTimeout : Z; hs_WriteTimeout : Z; hs_IdleTimeout : Z; hs_MaxHeaderBytes : Z;
  hs_ShutdownGracePeriod : Z; hs_InboundWorkerCount : Z; hs_InboundQueueSize : Z;
}.
Record HTTPClientConfig := MkHTTPClient {
  hc_Timeout : Z; hc_MaxIdleConns : Z; hc_MaxIdleConnsPerHost : Z; hc_IdleConnTimeout : Z; hc_InsecureSkipVerify : bool;
}.
Record TLSConfig := MkTLS {
  tl_Enable : bool; tl_CertFile : string; tl_KeyFile : string; tl_CAFile : string; tl_Insecure : bool;
}.
Record ConsumerConfig := MkConsumer {
  co_ConsumerPrefix : string; co_WorkerCount : Z; co_FetchBatchSize : Z; co_FetchTimeout : Z; co_MaxAckPending : Z;
  co_AckWaitTimeout : Z; co_MaxDeliver : Z; co_DeliverPolicy : string; co_ReplayPolicy : string;
}.
Record ConnectionConfig := MkConnection { cn_MaxReconnects : Z; cn_ReconnectWait : Z }.
Record NATSConfig := MkNATS {
  na_URLs : list string; na_Username : string; na_Password : string; na_Token : string;
  na_NKeySeedFile : string; na_CredsFile : string; na_TLS : TLSConfig;
  na_Consumers : ConsumerConfig; na_Connection : ConnectionConfig; na_Publish : PublishConfig;
}.
Record LogConfig := MkLog { lo_Level : string; lo_Encoding : string; lo_OutputPath : string }.
Record MetricsConfig := MkMetrics { me_Enabled : bool; me_Address : string; me_Path : string; me_UpdateInterval : string }.
Record KVBucketConfig := MkBucket { kb_Name : string; kb_KeyFilter : string }.
Record KVRulesConfig := MkKVRules { kr_Enabled : bool; kr_Bucket : string; kr_AutoProvision : bool }.
Record KVConfig := MkKV {
  kv_Enabled : bool; kv_Buckets : list KVBucketConfig; kv_Rules : KVRulesConfig; kv_LocalCache : bool;
}.
Record VerificationConfig := MkVerification { ve_Enabled : bool; ve_PublicKeyHeader : string; ve_SignatureHeader : string }.
Record Config := MkConfig {
  cf_Features : FeaturesConfig; cf_NATS : NATSConfig; cf_Server : HTTPServerConfig; cf_Client : HTTPClientConfig;
  cf_Logging : LogConfig; cf_Metrics : MetricsConfig; cf_KV : KVConfig; cf_Security : VerificationConfig;
  cf_ForEach : ForEachConfig;
}.

(** [var config Config] *)
Definition zero_config : Config :=
  MkConfig (MkFeatures false false false)
    (MkNATS [] "" "" "" "" "" (MkTLS false "" "" "" false) (MkConsumer "" 0 0 0 0 0 0 "" "") (MkConnection 0 0)
       (MkPublishConfig "" 0 0 0))
    (MkHTTPServer "" 0 0 0 0 0 0 0) (MkHTTPClient 0 0 0 0 false) (MkLog "" "" "") (MkMetrics false "" "" "")
    (MkKV false [] (MkKVRules false "" false) false) (MkVerification false "" "") (MkForEach 0).

Definition BucketNames (kv : KVConfig) : list string := map kb_Name (kv_Buckets kv).

(** ** Defaults *)

Definition or_else (v default_ : string) : string := if String.eqb v "" then default_ else v.
Definition or_num (v default_ : Z) : Z := if (v =? 0)%Z then default_ else v.

Definition default_consumer (c : ConsumerConfig) : ConsumerConfig :=
  MkConsumer (or_else (co_ConsumerPrefix c) DefaultConsumerPrefix) (or_num (co_WorkerCount c) DefaultWorkerCount)
    (or_num (co_FetchBatchSize c) DefaultFetchBatchSize) (or_num (co_FetchTimeout c) DefaultFetchTimeout)
    (or_num (co_MaxAckPending c) DefaultMaxAckPending) (or_num (co_AckWaitTimeout c) DefaultAckWaitTimeout)
    (or_num (co_MaxDeliver c) DefaultMaxDeliver) (or_else (co_DeliverPolicy c) DefaultDeliverPolicy)
    (or_else (co_ReplayPolicy c) DefaultReplayPolicy).
Definition default_publish (p : PublishConfig) : PublishConfig :=
  MkPublishConfig (or_else (pc_Mode p) DefaultPublishMode) (or_num (pc_MaxRetries p) DefaultPublishMaxRetries)
    (or_num (pc_RetryBaseDelay p) DefaultRetryBaseDelay) (or_num (pc_AckTimeout p) DefaultPublishAckTimeout).
Definition default_nats (n : NATSConfig) : NATSConfig :=
  MkNATS (if (length (na_URLs n) =? 0)%nat then [DefaultNATSURL] else na_URLs n)
    (na_Username n) (na_Password n) (na_Token n) (na_NKeySeedFile n) (na_CredsFile n) (na_TLS n)
    (default_consumer (na_Consumers n))
    (MkConnection (or_num (cn_MaxReconnects (na_Connection n)) (-1))
       (or_num (cn_ReconnectWait (na_Connection n)) DefaultReconnectWait))
    (default_publish (na_Publish n)).
Definition default_server (s : HTTPServerConfig) : HTTPServerConfig :=
  MkHTTPServer (hs_Address s) (or_num (hs_ReadTimeout s) DefaultHTTPReadTimeout)
    (or_num (hs_WriteTimeout s) DefaultHTTPWriteTimeout) (or_num (hs_IdleTimeout s) DefaultHTTPIdleTimeout)
    (or_num (hs_MaxHeaderBytes s) DefaultMaxHeaderBytes)
    (or_num (hs_ShutdownGracePeriod s) DefaultHTTPShutdownGracePeriod)
    (or_num (hs_InboundWorkerCount s) 10) (or_num (hs_InboundQueueSize s) ConfigInboundQueueSize).
Definition default_client (c : HTTPClientConfig) : HTTPClientConfig :=
  MkHTTPClient (or_num (hc_Timeout c) DefaultHTTPClientTimeout) (or_num (hc_MaxIdleConns c) DefaultMaxIdleConns)
    (or_num (hc_MaxIdleConnsPerHost c) DefaultMaxIdleConnsPerHost)
    (or_num (hc_IdleConnTimeout c) DefaultHTTPIdleConnTimeout) (hc_InsecureSkipVerify c).
Definition default_log (l : LogConfig) : LogConfig :=
  MkLog (or_else (lo_Level l) DefaultLogLevel) (or_else (lo_Encoding l) DefaultLogEncoding)
    (or_else (lo_OutputPath l) DefaultLogOutput).
Definition default_verification (v : VerificationConfig) : VerificationConfig :=
  MkVerification (ve_Enabled v) (or_else (ve_PublicKeyHeader v) DefaultPublicKeyHeader)
    (or_else (ve_SignatureHeader v) DefaultSignatureHeader).

Definition setDefaults (c : Config) : Config :=
  MkConfig (cf_Features c) (default_nats (cf_NATS c)) (default_server (cf_Server c)) (default_client (cf_Client c))
    (default_log (cf_Logging c)) (cf_Metrics c) (cf_KV c) (default_verification (cf_Security c))
    (MkForEach (or_num (fc_MaxIterations (cf_ForEach c)) DefaultForEachMaxIterations)).

(** ** Validation *)

Inductive config_error :=
| NoURL | ManyAuth | NoKeyFile | NoCertFile | NoCredsFile (path : string)
| LowWorkers | HighWorkers (n : Z) | LowBatch | HighBatch (n : Z) | BadFetchTimeout
| LowAckPending | HighAckPending (n : Z) | LowDeliver
| InvalidDeliverPolicy (p : string) | InvalidReplayPolicy (p : string) | InvalidPublishMode (m : string)
| InvalidLogLevel (l : string) | InvalidInterval (i : string) | NoFeature
| NoAddress | NegativeReadTimeout | NegativeWriteTimeout
| LowInboundWorkers | HighInboundWorkers (n : Z) | LowQueue | HighQueue (n : Z)
| NegativeClientTimeout | NegativeIdleConns | NegativeIdleConnsPerHost
| EmptyBucketName | DuplicateBucket (name : string) | EmptyRulesBucket
| NegativeIterations | HighIterations (n : Z)
| ReadFailed | UnmarshalFailed.

(** The checks in order: the first that fails is the error. *)
Fixpoint checks (l : list (bool * config_error)) : result config_error unit :=
  match l with
  | [] => Ok tt
  | (failed, err) :: rest => if failed then Err err else checks rest
  end.

Definition authCount (n : NATSConfig) : nat :=
  length (List.filter (λ s, negb (String.eqb s "")) [na_Username n; na_Token n; na_NKeySeedFile n; na_CredsFile n]).

Definition mem (s : string) (l : list string) : bool := existsb (String.eqb s) l.

Definition nats_checks (not_exist : string → bool) (n : NATSConfig) : list (bool * config_error) :=
  let tls := na_TLS n in
  let empty s := String.eqb s "" in
  [ ((length (na_URLs n) =? 0)%nat, NoURL);
    ((1 <? authCount n)%nat, ManyAuth);
    (tl_Enable tls && (negb (empty (tl_CertFile tls)) && empty (tl_KeyFile tls)), NoKeyFile);
    (tl_Enable tls && (negb (empty (tl_KeyFile tls)) && empty (tl_CertFile tls)), NoCertFile);
    (negb (empty (na_CredsFile n)) && not_exist (na_CredsFile n), NoCredsFile (na_CredsFile n)) ].

Definition consumer_checks (c : ConsumerConfig) : list (bool * config_error) :=
  [ ((co_WorkerCount c <? 1)%Z, LowWorkers);
    ((MaxWorkerCount <? co_WorkerCount c)%Z, HighWorkers (co_WorkerCount c));
    ((co_FetchBatchSize c <? 1)%Z, LowBatch);
    ((MaxFetchBatchSize <? co_FetchBatchSize c)%Z, HighBatch (co_FetchBatchSize c));
    ((co_FetchTimeout c <=? 0)%Z, BadFetchTimeout);
    ((co_MaxAckPending c <? 1)%Z, LowAckPending);
    ((MaxAckPending <? co_MaxAckPending c)%Z, HighAckPending (co_MaxAckPending c));
    ((co_MaxDeliver c <? 1)%Z, LowDeliver);
    (negb (mem (co_DeliverPolicy c) ["all"; "new"; "last"; "by_start_time"; "by_start_sequence"]),
       InvalidDeliverPolicy (co_DeliverPolicy c));
    (negb (mem (co_ReplayPolicy c) ["instant"; "original"]), InvalidReplayPolicy (co_ReplayPolicy c)) ].

Definition common_checks (c : Config) : list (bool * config_error) :=
  let mode := pc_Mode (na_Publish (cf_NATS c)) in
  let me := cf_Metrics c in
  let fe := cf_Features c in
  [ (negb (String.eqb mode "jetstream") && negb (String.eqb mode "core"), InvalidPublishMode mode);
    (negb (mem (lo_Level (cf_Logging c)) ["debug"; "info"; "warn"; "error"]), InvalidLogLevel (lo_Level (cf_Logging c)));
    (me_Enabled me && (negb (String.eqb (me_UpdateInterval me) "")
       && match ParseDuration (me_UpdateInterval me) with Some _ => false | None => true end),
       InvalidInterval (me_UpdateInterval me));
    (negb (fe_Router fe) && negb (fe_Gateway fe) && negb (fe_Scheduler fe), NoFeature) ].

Definition http_checks (s : HTTPServerConfig) (c : HTTPClientConfig) : list (bool * config_error) :=
  [ (String.eqb (hs_Address s) "", NoAddress);
    ((hs_ReadTimeout s <? 0)%Z, NegativeReadTimeout);
    ((hs_WriteTimeout s <? 0)%Z, NegativeWriteTimeout);
    ((hs_InboundWorkerCount s <? 1)%Z, LowInboundWorkers);
    ((MaxWorkerCount <? hs_InboundWorkerCount s)%Z, HighInboundWorkers (hs_InboundWorkerCount s));
    ((hs_InboundQueueSize s <? 1)%Z, LowQueue);
    ((MaxInboundQueueSize <? hs_InboundQueueSize s)%Z, HighQueue (hs_InboundQueueSize s));
    ((hc_Timeout c <? 0)%Z, NegativeClientTimeout);
    ((hc_MaxIdleConns c <? 0)%Z, NegativeIdleConns);
    ((hc_MaxIdleConnsPerHost c <? 0)%Z, NegativeIdleConnsPerHost) ].

Fixpoint bucket_checks (seen : list string) (buckets : list KVBucketConfig) : list (bool * config_error) :=
  match buckets with
  | [] => []
  | b :: rest =>
      (String.eqb (kb_Name b) "", EmptyBucketName) :: (mem (kb_Name b) seen, DuplicateBucket (kb_Name b))
        :: bucket_checks (kb_Name b :: seen) rest
  end.

Definition last_checks (c : Config) : list (bool * config_error) :=
  [ (kr_Enabled (kv_Rules (cf_KV c)) && String.eqb (kr_Bucket (kv_Rules (cf_KV c))) "", EmptyRulesBucket);
    ((fc_MaxIterations (cf_ForEach c) <? 0)%Z, NegativeIterations);
    ((MaxForEachIterations <? fc_MaxIterations (cf_ForEach c))%Z, HighIterations (fc_MaxIterations (cf_ForEach c))) ].

Definition validateConfig (not_exist : string → bool) (c : Config) : result config_error unit :=
  checks (nats_checks not_exist (cf_NATS c) ++ consumer_checks (na_Consumers (cf_NATS c)) ++ common_checks c ++
          (if fe_Gateway (cf_Features c) then http_checks (cf_Server c) (cf_Client c) else []) ++
          (if kv_Enabled (cf_KV c) then bucket_checks [] (kv_Buckets (cf_KV c)) else []) ++ last_checks c).

(** ** Loading *)

(** Viper and the file system: the file is read, absent, or broken; what the
    sources make of a configuration; the keys they set; the files that are not
    there. *)
Class Viper := {
  v_ReadInConfig : bool;
  v_Unmarshal : Config → option Config;
  v_IsSet : string → bool;
  os_IsNotExist : string → bool;
}.

Definition default_bucket (b : KVBucketConfig) : KVBucketConfig := MkBucket (kb_Name b) (or_else (kb_KeyFilter b) ">").

(** The defaults that depend on other values. *)
Definition default_kv (c : KVConfig) : KVConfig :=
  let r := kv_Rules c in
  MkKV (kv_Enabled c) (map default_bucket (kv_Buckets c))
    (if kr_Enabled r && String.eqb (kr_Bucket r) "" then MkKVRules true "rules" (kr_AutoProvision r) else r)
    (kv_LocalCache c).
Definition default_metrics (m : MetricsConfig) : MetricsConfig :=
  if me_Enabled m then
    MkMetrics true (or_else (me_Address m) DefaultMetricsAddress) (or_else (me_Path m) DefaultMetricsPath)
      (or_else (me_UpdateInterval m) DefaultMetricsUpdateInterval)
  else m.

Definition dependent_defaults `{Viper} (c : Config) : Config :=
  let fe := if negb (v_IsSet "features.router") && negb (v_IsSet "features.gateway") && negb (v_IsSet "features.scheduler")
            then MkFeatures true (fe_Gateway (cf_Features c)) (fe_Scheduler (cf_Features c)) else cf_Features c in
  let s := cf_Server c in
  let server := if fe_Gateway fe && String.eqb (hs_Address s) ""
                then MkHTTPServer DefaultHTTPServerAddress (hs_ReadTimeout s) (hs_WriteTimeout s) (hs_IdleTimeout s)
                       (hs_MaxHeaderBytes s) (hs_ShutdownGracePeriod s) (hs_InboundWorkerCount s) (hs_InboundQueueSize s)
                else s in
  let kv := default_kv (cf_KV c) in
  let kv := if kv_Enabled kv && negb (v_IsSet "kv.localCache.enabled")
            then MkKV (kv_Enabled kv) (kv_Buckets kv) (kv_Rules kv) true else kv in
  MkConfig fe (cf_NATS c) server (cf_Client c) (cf_Logging c) (default_metrics (cf_Metrics c)) kv
    (cf_Security c) (cf_ForEach c).

Definition Load `{Viper} : result config_error Config :=
  if negb v_ReadInConfig then Err ReadFailed
  else
    match v_Unmarshal (setDefaults zero_config) with
    | None => Err UnmarshalFailed
    | Some c =>
        let c := dependent_defaults c in
        match validateConfig os_IsNotExist c with Err e => Err e | Ok _ => Ok c end
    end.

(** ** Specification *)

(** What the checks ask of a configuration. *)
Record checked (not_exist : string → bool) (c : Config) : Prop := {
  ck_urls : na_URLs (cf_NATS c) ≠ [];
  ck_auth : (authCount (cf_NATS c) ≤ 1)%nat;
  ck_tls : tl_Enable (na_TLS (cf_NATS c)) = true →
    (tl_CertFile (na_TLS (cf_NATS c)) = "" ↔ tl_KeyFile (na_TLS (cf_NATS c)) = "");
  ck_creds : na_CredsFile (cf_NATS c) ≠ "" → not_exist (na_CredsFile (cf_NATS c)) = false;
  ck_workers : (1 ≤ co_WorkerCount (na_Consumers (cf_NATS c)) ≤ MaxWorkerCount)%Z;
  ck_batch : (1 ≤ co_FetchBatchSize (na_Consumers (cf_NATS c)) ≤ MaxFetchBatchSize)%Z;
  ck_fetch : (0 < co_FetchTimeout (na_Consumers (cf_NATS c)))%Z;
  ck_pending : (1 ≤ co_MaxAckPending (na_Consumers (cf_NATS c)) ≤ MaxAckPending)%Z;
  ck_deliver : (1 ≤ co_MaxDeliver (na_Consumers (cf_NATS c)))%Z;
  ck_policies : parseDeliverPolicy (co_DeliverPolicy (na_Consumers (cf_NATS c))) ≠ None ∧
    parseReplayPolicy (co_ReplayPolicy (na_Consumers (cf_NATS c))) ≠ None;
  ck_mode : pc_Mode (na_Publish (cf_NATS c)) = ModeJetStream ∨ pc_Mode (na_Publish (cf_NATS c)) = ModeCore;
  ck_level : lo_Level (cf_Logging c) ∈ ["debug"; "info"; "warn"; "error"];
  ck_interval : me_Enabled (cf_Metrics c) = true → me_UpdateInterval (cf_Metrics c) ≠ "" →
    is_Some (ParseDuration (me_UpdateInterval (cf_Metrics c)));
  ck_feature : fe_Router (cf_Features c) = true ∨ fe_Gateway (cf_Features c) = true ∨ fe_Scheduler (cf_Features c) = true;
  ck_http : fe_Gateway (cf_Features c) = true →
    hs_Address (cf_Server c) ≠ "" ∧ (0 ≤ hs_ReadTimeout (cf_Server c))%Z ∧ (0 ≤ hs_WriteTimeout (cf_Server c))%Z ∧
    (1 ≤ hs_InboundWorkerCount (cf_Server c) ≤ MaxWorkerCount)%Z ∧
    (1 ≤ hs_InboundQueueSize (cf_Server c) ≤ MaxInboundQueueSize)%Z ∧
    (0 ≤ hc_Timeout (cf_Client c))%Z ∧ (0 ≤ hc_MaxIdleConns (cf_Client c))%Z ∧ (0 ≤ hc_MaxIdleConnsPerHost (cf_Client c))%Z;
  ck_buckets : kv_Enabled (cf_KV c) = true → "" ∉ BucketNames (cf_KV c) ∧ NoDup (BucketNames (cf_KV c));
  ck_rules : kr_Enabled (kv_Rules (cf_KV c)) = true → kr_Bucket (kv_Rules (cf_KV c)) ≠ "";
  ck_iterations : (0 ≤ fc_MaxIterations (cf_ForEach c) ≤ MaxForEachIterations)%Z;
}.

Section usable.
Context `{Env} `{Net} `{SortSlice}.

(** The broker's part of a configuration. *)
Definition broker_of (c : Config) (consumers : gmap string string) (sm : option SubscriptionManager)
    (resolver : StreamResolver) : Broker :=
  let co := na_Consumers (cf_NATS c) in
  MkBroker consumers sm resolver (co_ConsumerPrefix co) (co_DeliverPolicy co) (co_ReplayPolicy co) (co_WorkerCount co).

(** What the rest of the program finds in a configuration that was loaded: no
    consumer fails for its policies, the gateway has the workers and the queue
    it was given, every bucket is watched by some filter, the metrics server
    has an address, a path and an interval. *)
Record usable (c : Config) : Prop := {
  us_consumers : ∀ consumers sm resolver subject st p,
    (CreateConsumerForSubject (broker_of c consumers sm resolver) subject st).1.1 ≠ Err (BadDeliverPolicy p) ∧
    (CreateConsumerForSubject (broker_of c consumers sm resolver) subject st).1.1 ≠ Err (BadReplayPolicy p);
  us_gateway : fe_Gateway (cf_Features c) = true → ∀ (pub : NATSPublisher),
    let s := NewInboundServer pub (hs_InboundWorkerCount (cf_Server c)) (hs_InboundQueueSize (cf_Server c)) in
    is_workers s = hs_InboundWorkerCount (cf_Server c) ∧ is_queueSize s = hs_InboundQueueSize (cf_Server c);
  us_filters : Forall (λ b, kb_KeyFilter b ≠ "") (kv_Buckets (cf_KV c));
  us_metrics : me_Enabled (cf_Metrics c) = true →
    me_Address (cf_Metrics c) ≠ "" ∧ me_Path (cf_Metrics c) ≠ "" ∧ is_Some (ParseDuration (me_UpdateInterval (cf_Metrics c)));
}.
End usable.

(** ** Lemmas *)

Lemma config_checks_ok l : checks l = Ok tt ↔ Forall (λ x, x.1 = false) l.
Proof.
  induction l as [|[[] e] l IH]; cbn [checks].
  - done.
  - split; [done|]. by intros [? _]%Forall_cons.
  - rewrite IH, Forall_cons. naive_solver.
Qed.

Lemma checks_first l e : checks l = Err e → ∃ before rest, l = (before ++ (true, e) :: rest)%list ∧ Forall (λ x, x.1 = false) before.
Proof.
  induction l as [|[[] e'] l IH]; cbn [checks]; [done| |].
  - intros [= ->]. exists [], l. done.
  - intros (before & rest & -> & Hf)%IH. exists ((false, e') :: before), rest. split; [done|]. by constructor.
Qed.

Lemma mem_spec s l : mem s l = true ↔ s ∈ l.
Proof. unfold mem. rewrite existsb_True. setoid_rewrite String.eqb_eq. naive_solver. Qed.

Lemma bucket_checks_spec seen buckets :
  Forall (λ x, x.1 = false) (bucket_checks seen buckets) ↔
  "" ∉ map kb_Name buckets ∧ NoDup (map kb_Name buckets) ∧ ∀ n, n ∈ map kb_Name buckets → n ∉ seen.
Proof.
  revert seen. induction buckets as [|b rest IH]; intros seen; cbn [bucket_checks map].
  { split; [|by constructor]. intros _. split_and!; [set_solver|apply NoDup_nil_2|set_solver]. }
  rewrite !Forall_cons, IH, NoDup_cons. cbn [fst]. rewrite String.eqb_neq.
  rewrite <- not_true_iff_false, mem_spec. set_solver.
Qed.

Lemma authCount_spec n : (1 <? authCount n)%nat = false ↔ (authCount n ≤ 1)%nat.
Proof. rewrite Nat.ltb_ge. done. Qed.

Lemma deliver_policy p :
  mem p ["all"; "new"; "last"; "by_start_time"; "by_start_sequence"] = true ↔ parseDeliverPolicy p ≠ None.
Proof. unfold mem, parseDeliverPolicy. cbn. repeat (destruct (String.eqb p _); [naive_solver|]). naive_solver. Qed.
Lemma replay_policy p : mem p ["instant"; "original"] = true ↔ parseReplayPolicy p ≠ None.
Proof. unfold mem, parseReplayPolicy. cbn. repeat (destruct (String.eqb p _); [naive_solver|]). naive_solver. Qed.

Ltac checks_to_prop :=
  repeat match goal with
  | H : Forall _ (_ :: _) |- _ => apply Forall_cons in H as [? H]
  | H : Forall _ [] |- _ => clear H
  end.

(** The checks, block by block. *)
Lemma nats_checks_spec not_exist n : Forall (λ x, x.1 = false) (nats_checks not_exist n) ↔
  na_URLs n ≠ [] ∧ (authCount n ≤ 1)%nat ∧
  (tl_Enable (na_TLS n) = true → (tl_CertFile (na_TLS n) = "" ↔ tl_KeyFile (na_TLS n) = "")) ∧
  (na_CredsFile n ≠ "" → not_exist (na_CredsFile n) = false).
Proof.
  unfold nats_checks. rewrite !Forall_cons, Forall_nil. cbn [fst].
  rewrite authCount_spec, Nat.eqb_neq, length_zero_iff_nil.
  destruct (tl_Enable (na_TLS n)), (String.eqb_spec (tl_CertFile (na_TLS n)) ""), (String.eqb_spec (tl_KeyFile (na_TLS n)) ""),
    (String.eqb_spec (na_CredsFile n) ""); cbn; naive_solver.
Qed.

Lemma consumer_checks_spec c : Forall (λ x, x.1 = false) (consumer_checks c) ↔
  (1 ≤ co_WorkerCount c ≤ MaxWorkerCount)%Z ∧ (1 ≤ co_FetchBatchSize c ≤ MaxFetchBatchSize)%Z ∧
  (0 < co_FetchTimeout c)%Z ∧ (1 ≤ co_MaxAckPending c ≤ MaxAckPending)%Z ∧ (1 ≤ co_MaxDeliver c)%Z ∧
  parseDeliverPolicy (co_DeliverPolicy c) ≠ None ∧ parseReplayPolicy (co_ReplayPolicy c) ≠ None.
Proof.
  unfold consumer_checks. rewrite !Forall_cons, Forall_nil. cbn [fst].
  rewrite !Z.ltb_ge, Z.leb_gt, !negb_false_iff, deliver_policy, replay_policy. naive_solver lia.
Qed.

Lemma common_checks_spec c : Forall (λ x, x.1 = false) (common_checks c) ↔
  (pc_Mode (na_Publish (cf_NATS c)) = ModeJetStream ∨ pc_Mode (na_Publish (cf_NATS c)) = ModeCore) ∧
  lo_Level (cf_Logging c) ∈ ["debug"; "info"; "warn"; "error"] ∧
  (me_Enabled (cf_Metrics c) = true → me_UpdateInterval (cf_Metrics c) ≠ "" →
    is_Some (ParseDuration (me_UpdateInterval (cf_Metrics c)))) ∧
  (fe_Router (cf_Features c) = true ∨ fe_Gateway (cf_Features c) = true ∨ fe_Scheduler (cf_Features c) = true).
Proof.
  unfold common_checks. rewrite !Forall_cons, Forall_nil. cbn [fst]. rewrite (negb_false_iff (mem _ _)), mem_spec.
  change "jetstream" with ModeJetStream. change "core" with ModeCore.
  assert (∀ mode, negb (String.eqb mode ModeJetStream) && negb (String.eqb mode ModeCore) = false ↔
    mode = ModeJetStream ∨ mode = ModeCore) as ->.
  { intros mode. rewrite andb_false_iff, !negb_false_iff, !String.eqb_eq. done. }
  assert (∀ a b d, negb a && negb b && negb d = false ↔ a = true ∨ b = true ∨ d = true) as -> by (intros [] [] []; naive_solver).
  assert (∀ b (i : string), b && (negb (String.eqb i "") && match ParseDuration i with Some _ => false | None => true end) = false ↔
    (b = true → i ≠ "" → is_Some (ParseDuration i))) as ->.
  { intros b i. destruct b; [|naive_solver]. destruct (String.eqb_spec i ""); cbn; [naive_solver|].
    destruct (ParseDuration i); split; eauto; [done|]. intros Hs. by destruct (Hs eq_refl). }
  tauto.
Qed.

Lemma http_checks_spec s c : Forall (λ x, x.1 = false) (http_checks s c) ↔
  hs_Address s ≠ "" ∧ (0 ≤ hs_ReadTimeout s)%Z ∧ (0 ≤ hs_WriteTimeout s)%Z ∧
  (1 ≤ hs_InboundWorkerCount s ≤ MaxWorkerCount)%Z ∧ (1 ≤ hs_InboundQueueSize s ≤ MaxInboundQueueSize)%Z ∧
  (0 ≤ hc_Timeout c)%Z ∧ (0 ≤ hc_MaxIdleConns c)%Z ∧ (0 ≤ hc_MaxIdleConnsPerHost c)%Z.
Proof.
  unfold http_checks. rewrite !Forall_cons, Forall_nil. cbn [fst]. rewrite !Z.ltb_ge, String.eqb_neq. naive_solver lia.
Qed.

Lemma last_checks_spec c : Forall (λ x, x.1 = false) (last_checks c) ↔
  (kr_Enabled (kv_Rules (cf_KV c)) = true → kr_Bucket (kv_Rules (cf_KV c)) ≠ "") ∧
  (0 ≤ fc_MaxIterations (cf_ForEach c) ≤ MaxForEachIterations)%Z.
Proof.
  unfold last_checks. rewrite !Forall_cons, Forall_nil. cbn [fst]. rewrite !Z.ltb_ge.
  destruct (kr_Enabled (kv_Rules (cf_KV c))), (String.eqb_spec (kr_Bucket (kv_Rules (cf_KV c))) ""); cbn; naive_solver lia.
Qed.

Lemma Forall_if {A} (P : A → Prop) (b : bool) l : Forall P (if b then l else []) ↔ (b = true → Forall P l).
Proof. destruct b; [naive_solver|]. split; [done|by constructor]. Qed.

Lemma validateConfig_spec not_exist c : validateConfig not_exist c = Ok tt ↔ checked not_exist c.
Proof.
  unfold validateConfig. rewrite config_checks_ok, !Forall_app, !Forall_if, nats_checks_spec, consumer_checks_spec,
    common_checks_spec, http_checks_spec, bucket_checks_spec, last_checks_spec.
  split.
  - intros. destruct_and?. split; try done; try tauto.
  - intros []. unfold BucketNames in *. split_and!; try done; try tauto. intros Hkv.
    destruct (ck_buckets0 Hkv). split_and!; [done|done|set_solver].
Qed.

Lemma or_else_ne v d : d ≠ "" → or_else v d ≠ "".
Proof. unfold or_else. by destruct (String.eqb_spec v ""). Qed.
Lemma or_else_twice v d : or_else (or_else v d) d = or_else v d.
Proof. unfold or_else. destruct (String.eqb v "") eqn:E; [by destruct (String.eqb d "")|by rewrite E]. Qed.
Lemma or_num_twice v d : or_num (or_num v d) d = or_num v d.
Proof. unfold or_num. destruct (v =? 0)%Z eqn:E; [by destruct (d =? 0)%Z|by rewrite E]. Qed.

Section load.
Context `{Viper} `{Env} `{Net} `{SortSlice}.

Lemma Load_checked c : Load = Ok c → checked os_IsNotExist c ∧
  ∃ raw, v_Unmarshal (setDefaults zero_config) = Some raw ∧ c = dependent_defaults raw.
Proof.
  unfold Load. destruct (negb v_ReadInConfig); [done|]. destruct (v_Unmarshal _) as [raw|]; [|done].
  destruct (validateConfig _ _) as [[]|e] eqn:Hv; [|done]. intros [= <-]. split; [by apply validateConfig_spec|eauto].
Qed.

Lemma dependent_defaults_filled raw : let c := dependent_defaults raw in
  Forall (λ b, kb_KeyFilter b ≠ "") (kv_Buckets (cf_KV c)) ∧
  (me_Enabled (cf_Metrics c) = true →
    me_Address (cf_Metrics c) ≠ "" ∧ me_Path (cf_Metrics c) ≠ "" ∧ me_UpdateInterval (cf_Metrics c) ≠ "").
Proof.
  cbn. split.
  - assert (Forall (λ b, kb_KeyFilter b ≠ "") (map default_bucket (kv_Buckets (cf_KV raw)))) as Hf.
    { induction (kv_Buckets (cf_KV raw)); cbn; constructor; [by apply or_else_ne|done]. }
    by destruct (_ && _).
  - unfold default_metrics. destruct (me_Enabled (cf_Metrics raw)) eqn:Hm; cbn; [|by rewrite Hm].
    intros _. split_and!; by apply or_else_ne.
Qed.

(** ** Properties *)

(** C27: A configuration that loads is what the sources gave over the defaults, with
    the dependent defaults, and it passed every check: workers, batches, queues
    and iterations within their limits, at most one way to authenticate, policies,
    modes and levels that exist, a feature that runs, an address when it is the
    gateway, distinct buckets.  So the broker itself never rejects the name of a
    policy when it creates a consumer; the gateway has the workers and the queue
    it was given; every bucket has a filter; and the metrics server has an address,
    a path and an interval that parses.  That is all the checks promise: the server
    refuses the consumers of a [by_start] policy, which lack the option it needs,
    and an interval of zero ([zero_interval_loads]) or a path of the metrics that
    is taken ([health_path_panics]) loads and panics later. *)
Theorem Load_sound c : Load = Ok c →
  (∃ raw, v_ReadInConfig = true ∧ v_Unmarshal (setDefaults zero_config) = Some raw ∧ c = dependent_defaults raw) ∧
  checked os_IsNotExist c ∧ usable c.
Proof.
  intros Hl. destruct (Load_checked c Hl) as (Hc & raw & Hraw & ->).
  split; [exists raw; unfold Load in Hl; by destruct v_ReadInConfig|]. split; [done|].
  destruct (dependent_defaults_filled raw) as [Hf Hm]. split; [| |done|].
  - intros consumers sm resolver subject st p. unfold CreateConsumerForSubject. cbn [bk_consumers broker_of].
    destruct (ck_policies _ _ Hc) as [Hd Hr].
    destruct (consumers !! subject); [done|]. destruct (FindStreamForSubject _ _); [|done]. cbn [bk_DeliverPolicy bk_ReplayPolicy broker_of].
    destruct (parseDeliverPolicy _); [|done]. destruct (parseReplayPolicy _); [|done].
    unfold mbind, NM_bind, with_world, emit_event. destruct (js_CreateConsumer _ _ _ _) as [[] ?]; done.
  - intros Hg pub. destruct (ck_http _ _ Hc Hg) as (_ & _ & _ & [Hw _] & [Hq _] & _).
    unfold NewInboundServer. cbn [is_workers is_queueSize]. rewrite !(proj2 (Z.leb_gt _ _)) by lia. done.
  - intros Hon. destruct (Hm Hon) as (Ha & Hp & Hi). split_and!; [done|done|]. by apply (ck_interval _ _ Hc).
Qed.
End load.

(** The checks accept exactly the configurations that satisfy them; an error is
    that of the first check that fails. *)
Theorem validateConfig_correct not_exist c :
  (validateConfig not_exist c = Ok tt ↔ checked not_exist c) ∧
  (∀ e, validateConfig not_exist c = Err e → ∃ before rest,
     (nats_checks not_exist (cf_NATS c) ++ consumer_checks (na_Consumers (cf_NATS c)) ++ common_checks c ++
      (if fe_Gateway (cf_Features c) then http_checks (cf_Server c) (cf_Client c) else []) ++
      (if kv_Enabled (cf_KV c) then bucket_checks [] (kv_Buckets (cf_KV c)) else []) ++ last_checks c)%list =
       (before ++ (true, e) :: rest)%list ∧ Forall (λ x, x.1 = false) before).
Proof. split; [apply validateConfig_spec|intros e; apply checks_first]. Qed.

(** Setting the defaults again changes nothing. *)
Lemma setDefaults_idempotent c : setDefaults (setDefaults c) = setDefaults c.
Proof.
  destruct c as [fe [urls us pw tk nk cr tls [] [] []] [] [] [] me kv [] []]. unfold setDefaults. cbn.
  unfold default_nats, default_consumer, default_publish, default_server, default_client, default_log, default_verification.
  cbn. rewrite !or_else_twice, !or_num_twice. by destruct urls.
Qed.

(** ** Examples *)

(** Sources that set nothing, and sources that edit the defaults. *)
Definition edited_by (f : Config → Config) : Viper :=
  {| v_ReadInConfig := true; v_Unmarshal := λ c, Some (f c); v_IsSet := λ _, false; os_IsNotExist := λ _, true |}.

Definition default_config : Config := @dependent_defaults (edited_by id) (setDefaults zero_config).

Lemma defaults_load : @Load (edited_by id) = Ok default_config ∧ fe_Router (cf_Features default_config) = true.
Proof. split; vm_compute; reflexivity. Qed.

Lemma Load_sound_witness : checked (λ _, true) default_config ∧ @usable demo_net merge_SortSlice default_config.
Proof. refine (proj2 (@Load_sound (edited_by id) demo_net merge_SortSlice default_config _)). vm_compute. reflexivity. Defined.

(** An interval of zero is accepted: it parses, and the ticker of the metrics
    collector panics on it. *)
Definition zero_interval (c : Config) : Config :=
  MkConfig (cf_Features c) (cf_NATS c) (cf_Server c) (cf_Client c) (cf_Logging c) (MkMetrics true "" "" "0s")
    (cf_KV c) (cf_Security c) (cf_ForEach c).
Lemma zero_interval_loads :
  ∃ c, @Load (edited_by zero_interval) = Ok c ∧ ParseDuration (me_UpdateInterval (cf_Metrics c)) = Some 0%Z.
Proof.
  exists (@dependent_defaults (edited_by zero_interval) (zero_interval (setDefaults zero_config))).
  split; vm_compute; reflexivity.
Qed.

(** No number of publish attempts is checked either: with none, as a literal
    zero sets them, every publication fails and nothing is sent. *)
Definition no_attempts (c : Config) : Config :=
  let n := cf_NATS c in
  MkConfig (cf_Features c)
    (MkNATS (na_URLs n) (na_Username n) (na_Password n) (na_Token n) (na_NKeySeedFile n) (na_CredsFile n) (na_TLS n)
       (na_Consumers n) (na_Connection n) (MkPublishConfig "jetstream" 0 Second Second))
    (cf_Server c) (cf_Client c) (cf_Logging c) (cf_Metrics c) (cf_KV c) (cf_Security c) (cf_ForEach c).
Lemma no_attempts_load : is_ok (@Load (edited_by no_attempts)) = true.
Proof. vm_compute. reflexivity. Qed.
Lemma no_attempts_publish_nothing `{Net} ap ctx action st :
  (pc_MaxRetries (ap_cfg ap) ≤ 0)%Z →
  (PublishWithRetry ap ctx action st).1 ≠ Ok tt ∧ n_log (PublishWithRetry ap ctx action st).2 = n_log st.
Proof. intros Hn. unfold PublishWithRetry. by replace (Z.to_nat _) with 0%nat by lia. Qed.
