(* ===== verification/Server.v ===== *)
(** * The gateway's server and its workers (internal/gateway/server.go, internal/app/gateway.go)

    The routes in front of the handler, the pool of workers, and the shutdown: a
    worker takes a webhook and processes it later, requests may still be in the
    handler when the queue is closed, and the grace period may end while workers
    are busy.  The steps of all of them interleave. *)

From S2P Require Import Prelude GoStrings GoPath GoFloat GoTime Value Types Context Env Demo PathMatcher Index Hmac Processor Coalescer.
From S2P Require Import Net HttpClient Publisher Site Gateway Config.
Local Open Scope string_scope.

Definition deferredActionTimeout : Z := 30 * Second.

(** ** Routes *)

Inductive route := ToHealth | ToWebhook | ToCleanPath (path : string) | Unrouted.

(** The [http.ServeMux] of [Start]: a path that is not clean is redirected, by its
    escaped form, and the health checks come before every rule. *)
Definition mux_route (method path escaped : string) : route :=
  if negb (String.eqb method "CONNECT") && negb (String.eqb (cleanPath escaped) escaped) then ToCleanPath (cleanPath escaped)
  else if String.eqb path "" then Unrouted
  else if String.eqb path "/health" || String.eqb path "/healthz" then ToHealth
  else ToWebhook.

(** ** The server of the application *)

Section server.
Context `{Env} `{Crypto} `{Net}.

Definition setupInboundServer (publisher : NATSPublisher) (cfg : HTTPServerConfig) : InboundServer :=
  NewInboundServer publisher (hs_InboundWorkerCount cfg) (hs_InboundQueueSize cfg).

(** ** Held batches *)

Fixpoint run_deferred (s : InboundServer) (ctx : GoContext) (actions : list Action) : NM unit :=
  match actions with
  | [] => mret tt
  | a :: rest => _ ← gateway_executeDeferred s ctx a; run_deferred s ctx rest
  end.
Definition execute_batch (s : InboundServer) (parent : GoContext) (batch : DeferredBatch) : NM unit :=
  w ← getN;
  run_deferred s (context_WithTimeout parent deferredActionTimeout w) (db_Actions batch).

(** The loop of the coalescer's [Stop]: the batches that are dropped because the
    context is done before their turn.  They run one after the other here. *)
Fixpoint flush_loop (s : InboundServer) (ctx : GoContext) (batches : list DeferredBatch) : NM (list DeferredBatch) :=
  match batches with
  | [] => mret []
  | b :: rest =>
      w ← getN;
      if ctx_Done ctx w then dropped ← flush_loop s ctx rest; mret (b :: dropped)
      else _ ← execute_batch s ctx b; flush_loop s ctx rest
  end.
Definition flush_batches (s : InboundServer) (ctx : GoContext) : SM (list DeferredBatch) := λ site,
  let '(batches, c) := Coalescer.Stop (si_coalescer site) in
  on_net (batches ← with_world (range_order batches); flush_loop s ctx batches)
    (MkSite (si_engine site) c (si_net site)).

(** A window closes. *)
Definition fire_window (s : InboundServer) (key : string) : SM unit := λ site,
  let '(batch, c) := Coalescer.fire (si_coalescer site) key in
  on_net match batch with Some b => execute_batch s context_Background b | None => mret tt end
    (MkSite (si_engine site) c (si_net site)).

(** ** The pool *)

(** The context of a shutdown. *)
Definition shutdown_context (grace : Z) (w : NWorld) : GoContext := context_WithTimeout context_Background grace w.

(** A worker waits for the queue, has taken a webhook, or has returned. *)
Inductive worker_state := Waiting | Holding (job : webhookJob) | Exited.

(** How far [Stop] is: the listener is being shut down; the queue is closed and the
    workers are waited for, until the context is done; it has returned, after the
    workers or before, with the batches it dropped. *)
Inductive stage :=
| Serving | ShuttingDown (ctx : GoContext) | Draining (ctx : GoContext) | Stopped (drained : bool) (dropped : list DeferredBatch).

(** [pl_handlers]: requests may be in the handler.  The last three are the
    history: what was accepted, taken and processed, in order. *)
Record Pool := MkPool {
  pl_gateway : Gateway; pl_workers : list worker_state; pl_handlers : bool; pl_stage : stage;
  pl_accepted : list webhookJob; pl_taken : list webhookJob; pl_processed : list webhookJob;
}.

Definition startWorkers (s : InboundServer) : list worker_state := replicate (Z.to_nat (is_workers s)) Waiting.
Definition Start (s : InboundServer) (engine : Processor * St) (net : NSt) : Pool :=
  MkPool (MkGateway (MkSite engine Coalescer.New net) [] false) (startWorkers s) true Serving [] [] [].

(** [processWebhookWithRecovery]; nothing in the model panics. *)
Definition processWebhookWithRecovery (s : InboundServer) (ctx : GoContext) (job : webhookJob) : SM unit := processWebhook s ctx job.

Definition exited (w : worker_state) : bool := match w with Exited => true | _ => false end.

(** A request arrives; worker [i] takes a webhook, processes it, or finds the
    queue closed and empty; the application is told to stop; the listener is
    down, with or without requests left in the handler, and the queue is closed;
    [Stop] goes on because the workers are done or because the context is; a
    window closes, the rules change, time passes. *)
Inductive server_event :=
| Arrives (r : in_request GoContext) | Takes (i : nat) | Processes (i : nat) | Exits (i : nat)
| ToldToStop | ListenerDown (in_time : bool) | WorkersDone | GraceEnds
| WindowCloses (key : string) | RulesChange (set : KVRuleSet) | Passes (w : NWorld).

Definition with_worker (i : nat) (w : worker_state) (p : Pool) : Pool :=
  MkPool (pl_gateway p) (<[i := w]> (pl_workers p)) (pl_handlers p) (pl_stage p) (pl_accepted p) (pl_taken p) (pl_processed p).
Definition with_gateway (g : Gateway) (p : Pool) : Pool :=
  MkPool g (pl_workers p) (pl_handlers p) (pl_stage p) (pl_accepted p) (pl_taken p) (pl_processed p).
Definition with_stage (st : stage) (p : Pool) : Pool :=
  MkPool (pl_gateway p) (pl_workers p) (pl_handlers p) st (pl_accepted p) (pl_taken p) (pl_processed p).

Definition pool_time (w : NWorld) (g : Gateway) : Gateway :=
  (on_site (on_net (with_world (λ _, (tt, w)))) g).2.

(** The end of [Stop]: the batches held are flushed. *)
Definition finish_stop (s : InboundServer) (ctx : GoContext) (drained : bool) (p : Pool) : Pool :=
  let '(dropped, g) := on_site (flush_batches s ctx) (pl_gateway p) in
  with_stage (Stopped drained dropped) (with_gateway g p).

Definition server_step (s : InboundServer) (grace : Z) (e : server_event) (p : Pool) : option Pool :=
  let g := pl_gateway p in
  match e with
  | Arrives r =>
      if pl_handlers p then
        let g' := (webhookHandler s r g).2 in
        Some (MkPool g' (pl_workers p) (pl_handlers p) (pl_stage p)
                (pl_accepted p ++ drop (length (gw_queue g)) (gw_queue g')) (pl_taken p) (pl_processed p))
      else None
  | Takes i =>
      match pl_workers p !! i, gw_queue g with
      | Some Waiting, job :: rest =>
          Some (MkPool (MkGateway (gw_site g) rest (gw_closed g)) (<[i := Holding job]> (pl_workers p)) (pl_handlers p) (pl_stage p)
                  (pl_accepted p) (pl_taken p ++ [job]) (pl_processed p))
      | _, _ => None
      end
  | Processes i =>
      match pl_workers p !! i with
      | Some (Holding job) =>
          Some (MkPool (on_site (processWebhookWithRecovery s context_Background job) g).2 (<[i := Waiting]> (pl_workers p)) (pl_handlers p) (pl_stage p)
                  (pl_accepted p) (pl_taken p) (pl_processed p ++ [job]))
      | _ => None
      end
  | Exits i =>
      match pl_workers p !! i, gw_queue g with
      | Some Waiting, [] => if gw_closed g then Some (with_worker i Exited p) else None
      | _, _ => None
      end
  | ToldToStop =>
      match pl_stage p with
      | Serving => Some (with_stage (ShuttingDown (shutdown_context grace (n_world (si_net (gw_site g))))) p)
      | _ => None
      end
  | ListenerDown in_time =>
      match pl_stage p with
      | ShuttingDown ctx =>
          Some (MkPool (close_queue g) (pl_workers p) (negb in_time) (Draining ctx) (pl_accepted p) (pl_taken p) (pl_processed p))
      | _ => None
      end
  | WorkersDone =>
      match pl_stage p with
      | Draining ctx => if forallb exited (pl_workers p) then Some (finish_stop s ctx true p) else None
      | _ => None
      end
  | GraceEnds =>
      match pl_stage p with
      | Draining ctx => if ctx_Done ctx (n_world (si_net (gw_site g))) then Some (finish_stop s ctx false p) else None
      | _ => None
      end
  | WindowCloses key => Some (with_gateway (on_site (fire_window s key) g).2 p)
  | RulesChange set => Some (with_gateway (swap_rules set g) p)
  | Passes w => Some (with_gateway (pool_time w g) p)
  end.

Fixpoint server_run (s : InboundServer) (grace : Z) (es : list server_event) (p : Pool) : option Pool :=
  match es with
  | [] => Some p
  | e :: rest => p' ← server_step s grace e p; server_run s grace rest p'
  end.
End server.

(** ** Specification *)

Section specification.
Context `{Env} `{Crypto} `{Net}.

Definition in_hand (w : worker_state) : option webhookJob := match w with Holding job => Some job | _ => None end.

(** What is left to do: a webhook is taken and processed, a worker returns. *)
Definition weight (w : worker_state) : nat := match w with Waiting => 1 | Holding _ => 2 | Exited => 0 end.
Definition work (p : Pool) : nat := 2 * length (gw_queue (pl_gateway p)) + sum_list_with weight (pl_workers p).

Definition worker_event (e : server_event) : bool :=
  match e with Takes _ | Processes _ | Exits _ => true | _ => false end.

Definition queue_closed (st : stage) : bool := match st with Serving | ShuttingDown _ => false | _ => true end.
Definition has_stopped (st : stage) : bool := match st with Stopped _ _ => true | _ => false end.

(** Every webhook accepted was taken, in order, or is queued; every one taken was
    processed or is in the hands of one worker.  Workers return when nothing will
    come any more; and a stop that waited for them flushed after the last. *)
Record pool_ok (s : InboundServer) (p : Pool) : Prop := {
  po_accepted : pl_accepted p = (pl_taken p ++ gw_queue (pl_gateway p))%list;
  po_taken : pl_taken p ≡ₚ (pl_processed p ++ omap in_hand (pl_workers p))%list;
  po_workers : length (pl_workers p) = Z.to_nat (is_workers s);
  po_queue : (Z.of_nat (length (gw_queue (pl_gateway p))) ≤ is_queueSize s)%Z;
  po_closed : gw_closed (pl_gateway p) = queue_closed (pl_stage p);
  po_exited : Exited ∈ pl_workers p → gw_closed (pl_gateway p) = true ∧ gw_queue (pl_gateway p) = [];
  po_drained : ∀ dropped, pl_stage p = Stopped true dropped → forallb exited (pl_workers p) = true;
  po_stopped : co_stopped (si_coalescer (gw_site (pl_gateway p))) = has_stopped (pl_stage p);
  po_flushed : has_stopped (pl_stage p) = true → co_pending (si_coalescer (gw_site (pl_gateway p))) = ∅;
}.
End specification.

(** ** Lemmas *)

Lemma insert_split {A} (l : list A) i x y : l !! i = Some y → ∃ rest, l ≡ₚ y :: rest ∧ <[i := x]> l ≡ₚ x :: rest.
Proof.
  intros Hl. exists (take i l ++ drop (S i) l)%list. rewrite insert_take_drop by (by eapply lookup_lt_Some).
  rewrite <- !Permutation_middle. split; [|done]. rewrite <- (take_drop_middle l i y Hl) at 1. by rewrite <- Permutation_middle.
Qed.

Section lemmas.
Context `{Env} `{Crypto} `{Net}.
Variables (s : InboundServer) (grace : Z).

(** What a worker or a request does to the coalescer is to submit batches. *)
Definition submits (c c' : Coalescer) : Prop := ∃ batches now, c' = submitted c batches now.

Lemma submits_refl c : submits c c.
Proof. by exists [], 0%Z. Qed.

Lemma submitted_stopped c batches now :
  co_stopped (submitted c batches now) = co_stopped c ∧ (co_stopped c = true → submitted c batches now = c).
Proof.
  unfold submitted. revert c. induction batches as [|b bs IH]; intros c; [done|]. cbn [foldl].
  destruct (IH (Coalescer.Submit c b now).2) as [-> Hs]. unfold Submit in *. destruct (length (db_Actions b) =? 0)%nat; [done|].
  destruct (co_stopped c) eqn:Hc; cbn [snd] in *; [by rewrite ?Hc; auto|]. by destruct (co_pending c !! db_Key b).
Qed.

Lemma processWebhook_submits ctx job (st : Site) : submits (si_coalescer st) (si_coalescer (processWebhook s ctx job st).2).
Proof.
  destruct (processWebhook_correct s ctx job st) as (_ & evs & _ & Hm). destruct (ProcessHTTP _ _ _ _ _ _) as [[outcome|] ?]; cbn [fst] in Hm.
  - destruct Hm as [-> _]. by eexists _, _.
  - destruct Hm as [_ ->]. apply submits_refl.
Qed.

Lemma webhookHandler_submits r g :
  submits (si_coalescer (gw_site g)) (si_coalescer (gw_site (webhookHandler s r g).2)).
Proof.
  destruct g as [[[p st] co net] queue closed]. cbn [gw_site si_coalescer]. unfold webhookHandler. unfold mbind at 1. unfold GM_bind at 1.
  cbn [on_site processor_of on_engine getP gw_site si_engine si_coalescer si_net gw_queue gw_closed fst snd].
  destruct (MatchHTTPPath p (ir_Path r)) as [route|]; [|apply submits_refl].
  destruct (read_body r) as [body|]; [|apply submits_refl].
  unfold mbind at 1. unfold GM_bind at 1. unfold on_site at 1. unfold on_engine at 1. unfold lift.
  cbn [gw_site gw_queue gw_closed si_engine si_coalescer si_net snd fst].
  destruct (CheckHTTPHMAC _ _ _ _ _ _) as [[required ok] st']. cbn [fst snd].
  destruct (required && negb ok)%bool; [apply submits_refl|].
  destruct (HasSyncHTTPPath p (ir_Path r) (ir_Method r)).
  - unfold mbind, GM_bind, on_site. cbn [gw_site].
    match goal with |- context [handleSync ?s ?c ?rt ?b ?h ?q ?site] => pose proof (handleSync_spec s c rt b h q site) as (_ & evs & _ & Hrun) end.
    destruct (handleSync _ _ _ _ _ _ _) as [reply site']. cbn in Hrun |- *. destruct (ProcessHTTP _ _ _ _ _ _) as [[outcome|] ?]; cbn in Hrun.
    + destruct Hrun as [-> _]. by eexists _, _.
    + destruct Hrun as (_ & -> & _). apply submits_refl.
  - match goal with |- context [enqueue ?s ?rt ?j ?g] => destruct (enqueue_spec s rt j g) as (_ & -> & _) end. apply submits_refl.
Qed.

(** What concerns the queue and the coalescer, in one step of a gateway. *)
Lemma submits_ok c c' (st : bool) : submits c c' → co_stopped c = st → (st = true → co_pending c = ∅) →
  co_stopped c' = st ∧ (st = true → co_pending c' = ∅).
Proof.
  intros (bs & now & ->) Hc Hp. destruct (submitted_stopped c bs now) as [-> Hs]. split; [done|]. intros ->. rewrite Hs by done. auto.
Qed.

Lemma fire_ok c key (st : bool) : co_stopped c = st → (st = true → co_pending c = ∅) →
  co_stopped (Coalescer.fire c key).2 = st ∧ (st = true → co_pending (Coalescer.fire c key).2 = ∅).
Proof.
  intros Hc Hp. unfold fire. destruct (co_pending c !! key); [|done]. destruct (co_stopped c) eqn:Hs; [by subst|].
  split; [done|]. by subst st.
Qed.

Lemma pool_start_ok publisher workers size engine net : let s := NewInboundServer publisher workers size in pool_ok s (Start s engine net).
Proof.
  intros s'. split; cbn; try done.
  - unfold startWorkers. generalize (Z.to_nat (is_workers s')). intros n. induction n as [|n IH]; [done|exact IH].
  - apply length_replicate.
  - unfold DefaultInboundQueueSize. destruct (Z.leb_spec size 0); lia.
  - intros Hin. by apply elem_of_replicate in Hin as [? _].
Qed.

(** Every event keeps the invariant. *)
Lemma arrives_ok r p : pl_handlers p = true → pool_ok s p →
  let g := pl_gateway p in let g' := (webhookHandler s r g).2 in
  pool_ok s (MkPool g' (pl_workers p) true (pl_stage p) (pl_accepted p ++ drop (length (gw_queue g)) (gw_queue g')) (pl_taken p) (pl_processed p)).
Proof.
  intros Hh [Ha Ht Hw Hq Hc He Hd Hs Hf] g g'. destruct (request_queue s r g) as (added & Hqueue & Hcl & Hnone & _ & Hsize). fold g' in Hqueue, Hcl, Hsize.
  destruct (submits_ok _ _ _ (webhookHandler_submits r g) Hs Hf) as [Hs' Hf']. fold g' in Hs', Hf'.
  split; cbn [pl_accepted pl_taken pl_processed pl_gateway pl_workers pl_stage]; try done.
  - rewrite Hqueue, drop_app_length, Ha. by rewrite app_assoc.
  - auto.
  - by rewrite Hcl.
  - intros Hin. destruct (He Hin) as [Hcg Hqg]. rewrite Hcl, Hqueue, Hnone by done. by rewrite app_nil_r.
Qed.

Lemma takes_ok i job rest p : pl_workers p !! i = Some Waiting → gw_queue (pl_gateway p) = job :: rest → pool_ok s p →
  let g := pl_gateway p in
  pool_ok s (MkPool (MkGateway (gw_site g) rest (gw_closed g)) (<[i := Holding job]> (pl_workers p)) (pl_handlers p) (pl_stage p)
    (pl_accepted p) (pl_taken p ++ [job]) (pl_processed p)).
Proof.
  intros Hi Hj [Ha Ht Hw Hq Hc He Hd Hs Hf] g. destruct (insert_split _ i (Holding job) Waiting Hi) as (ws & Hold & Hnew).
  split; cbn [pl_accepted pl_taken pl_processed pl_gateway pl_workers pl_stage gw_queue gw_closed gw_site]; try done.
  - rewrite Ha, Hj. by rewrite <- app_assoc.
  - rewrite Ht, Hnew, Hold. cbn. by rewrite <- !app_assoc, <- Permutation_cons_append.
  - by rewrite length_insert.
  - rewrite Hj in Hq. cbn [length] in Hq. lia.
  - rewrite Hnew. intros [?|Hin]%elem_of_cons; [done|]. destruct He as [_ ?]; [|congruence]. rewrite Hold. by right.
  - intros dropped Hst. specialize (Hd dropped Hst). rewrite forallb_forall in Hd. apply list_elem_of_lookup_2, list_elem_of_In, Hd in Hi. done.
Qed.

Lemma processes_ok i job p : pl_workers p !! i = Some (Holding job) → pool_ok s p →
  pool_ok s (MkPool (on_site (processWebhookWithRecovery s context_Background job) (pl_gateway p)).2 (<[i := Waiting]> (pl_workers p))
    (pl_handlers p) (pl_stage p) (pl_accepted p) (pl_taken p) (pl_processed p ++ [job])).
Proof.
  intros Hi [Ha Ht Hw Hq Hc He Hd Hs Hf]. destruct (insert_split _ i Waiting (Holding job) Hi) as (ws & Hold & Hnew).
  destruct (on_site_queue (processWebhookWithRecovery s context_Background job) (pl_gateway p)) as [Eq Ec].
  destruct (submits_ok _ _ _ (processWebhook_submits context_Background job (gw_site (pl_gateway p))) Hs Hf) as [Hs' Hf'].
  split; cbn [pl_accepted pl_taken pl_processed pl_gateway pl_workers pl_stage]; rewrite ?Eq, ?Ec; try done.
  - rewrite Ht, Hnew, Hold. cbn. by rewrite <- app_assoc.
  - by rewrite length_insert.
  - rewrite Hnew. intros [?|Hin]%elem_of_cons; [done|]. apply He. rewrite Hold. by right.
  - intros dropped Hst. specialize (Hd dropped Hst). rewrite forallb_forall in Hd. apply list_elem_of_lookup_2, list_elem_of_In, Hd in Hi. done.
  - unfold on_site, processWebhookWithRecovery. by destruct (processWebhook _ _ _ _).
  - unfold on_site, processWebhookWithRecovery. by destruct (processWebhook _ _ _ _).
Qed.

Lemma exits_ok i p : pl_workers p !! i = Some Waiting → gw_queue (pl_gateway p) = [] → gw_closed (pl_gateway p) = true →
  pool_ok s p → pool_ok s (with_worker i Exited p).
Proof.
  intros Hi Hempty Hclosed [Ha Ht Hw Hq Hc He Hd Hs Hf]. destruct (insert_split _ i Exited Waiting Hi) as (ws & Hold & Hnew).
  split; cbn [with_worker pl_accepted pl_taken pl_processed pl_gateway pl_workers pl_stage]; try done.
  - by rewrite Ht, Hnew, Hold.
  - by rewrite length_insert.
  - intros dropped Hst. specialize (Hd dropped Hst). rewrite forallb_forall in Hd. apply list_elem_of_lookup_2, list_elem_of_In, Hd in Hi. done.
Qed.

(** What changes the engine, the network and the time only. *)
Lemma elsewhere_ok g p : gw_queue g = gw_queue (pl_gateway p) → gw_closed g = gw_closed (pl_gateway p) →
  (let c := si_coalescer (gw_site g) in co_stopped c = has_stopped (pl_stage p) ∧ (has_stopped (pl_stage p) = true → co_pending c = ∅)) →
  pool_ok s p → pool_ok s (with_gateway g p).
Proof.
  intros Eq Ec [Hs' Hf'] [Ha Ht Hw Hq Hc He Hd Hs Hf].
  split; cbn [with_gateway pl_accepted pl_taken pl_processed pl_gateway pl_workers pl_stage]; rewrite ?Eq, ?Ec; done.
Qed.

Lemma on_net_coalescer {A} (m : NM A) site : si_coalescer (on_net m site).2 = si_coalescer site.
Proof. unfold on_net. by destruct (m (si_net site)). Qed.

Lemma fire_window_site key site :
  si_coalescer (fire_window s key site).2 = (Coalescer.fire (si_coalescer site) key).2.
Proof. unfold fire_window. destruct (Coalescer.fire _ _) as [b c]. apply on_net_coalescer. Qed.

Lemma flush_batches_site ctx site :
  si_coalescer (flush_batches s ctx site).2 = (Coalescer.Stop (si_coalescer site)).2.
Proof. unfold flush_batches. destruct (Coalescer.Stop _) as [bs c]. apply on_net_coalescer. Qed.

Lemma finish_ok ctx drained p : pl_stage p = Draining ctx → (drained = true → forallb exited (pl_workers p) = true) →
  pool_ok s p → pool_ok s (finish_stop s ctx drained p).
Proof.
  intros Hst Hall [Ha Ht Hw Hq Hc He Hd Hs Hf]. unfold finish_stop.
  destruct (on_site_queue (flush_batches s ctx) (pl_gateway p)) as [Eq Ec].
  pose proof (flush_batches_site ctx (gw_site (pl_gateway p))) as Hco. rewrite Hst in *. cbn [queue_closed has_stopped] in *.
  unfold on_site in *. destruct (flush_batches _ _ _) as [dropped site]. cbn [fst snd gw_site] in *.
  unfold Coalescer.Stop in Hco. rewrite Hs in Hco. cbn [snd] in Hco.
  split; cbn [with_stage with_gateway pl_accepted pl_taken pl_processed pl_gateway pl_workers pl_stage gw_site gw_queue gw_closed queue_closed has_stopped]; try done.
  - intros d [= -> _]. auto.
  - by rewrite Hco.
  - by rewrite Hco.
Qed.

Lemma server_step_ok e p p' : server_step s grace e p = Some p' → pool_ok s p → pool_ok s p'.
Proof.
  intros Hstep Hok. pose proof Hok as [Ha Ht Hw Hq Hc He Hd Hs Hf]. destruct e as [r|i|i|i| |in_time| | |key|set|w]; cbn [server_step] in Hstep.
  - destruct (pl_handlers p) eqn:Hh; [|done]. injection Hstep as <-. by apply arrives_ok.
  - destruct (pl_workers p !! i) as [[| |]|] eqn:Hi; try done. destruct (gw_queue (pl_gateway p)) as [|job rest] eqn:Ej; [done|].
    injection Hstep as <-. by apply takes_ok.
  - destruct (pl_workers p !! i) as [[|job|]|] eqn:Hi; try done. injection Hstep as <-. by apply processes_ok.
  - destruct (pl_workers p !! i) as [[| |]|] eqn:Hi; try done. destruct (gw_queue (pl_gateway p)) as [|] eqn:Ej; [|done].
    destruct (gw_closed (pl_gateway p)) eqn:Ec; [|done]. injection Hstep as <-. by apply exits_ok.
  - destruct (pl_stage p) eqn:Hst; try done. injection Hstep as <-.
    split; cbn [with_stage pl_accepted pl_taken pl_processed pl_gateway pl_workers pl_stage]; done.
  - destruct (pl_stage p) eqn:Hst; try done. injection Hstep as <-.
    split; cbn [pl_accepted pl_taken pl_processed pl_gateway pl_workers pl_stage close_queue gw_queue gw_closed gw_site]; try done.
    intros Hin. by destruct (He Hin).
  - destruct (pl_stage p) eqn:Hst; try done. destruct (forallb exited (pl_workers p)) eqn:Hall; [|done]. injection Hstep as <-. by apply (finish_ok ctx).
  - destruct (pl_stage p) eqn:Hst; try done. destruct (ctx_Done _ _); [|done]. injection Hstep as <-. by apply (finish_ok ctx).
  - injection Hstep as <-. destruct (on_site_queue (fire_window s key) (pl_gateway p)) as [Eq Ec]. apply elsewhere_ok; [done|done| |done].
    unfold on_site. pose proof (fire_window_site key (gw_site (pl_gateway p))) as Hco. destruct (fire_window _ _ _) as [[] site]. cbn [snd gw_site] in *.
    rewrite Hco. by apply fire_ok.
  - injection Hstep as <-. destruct (swap_queue set (pl_gateway p)) as [Eq Ec]. apply elsewhere_ok; [done|done| |done].
    unfold swap_rules. by destruct (si_engine _).
  - injection Hstep as <-. by apply elsewhere_ok.
Qed.

Lemma server_run_ok es p p' : server_run s grace es p = Some p' → pool_ok s p → pool_ok s p'.
Proof.
  revert p. induction es as [|e es IH]; intros p; cbn [server_run]; [by intros [= <-]|].
  destruct (server_step s grace e p) as [p1|] eqn:E; [|done]. intros Hr Hok. apply (IH p1 Hr). by eapply server_step_ok.
Qed.

(** A worker's event does one unit of the work and changes nothing else of the
    shutdown. *)
Lemma insert_weight (ws : list worker_state) i x y : ws !! i = Some y →
  (sum_list_with weight (<[i := x]> ws) + weight y = sum_list_with weight ws + weight x)%nat.
Proof. intros Hi. destruct (insert_split ws i x y Hi) as (rest & Hold & Hnew). rewrite Hnew, Hold. cbn [sum_list_with]. lia. Qed.

Lemma worker_step e p p' : worker_event e = true → server_step s grace e p = Some p' →
  S (work p') = work p ∧ pl_stage p' = pl_stage p ∧ pl_accepted p' = pl_accepted p ∧ gw_closed (pl_gateway p') = gw_closed (pl_gateway p).
Proof.
  destruct e as [r|i|i|i| |in_time| | |key|set|w]; try done; intros _; cbn [server_step]; unfold work.
  - destruct (pl_workers p !! i) as [[| |]|] eqn:Hi; try done. destruct (gw_queue (pl_gateway p)) as [|job rest] eqn:Ej; [done|].
    intros [= <-]. pose proof (insert_weight _ i (Holding job) _ Hi). cbn [pl_gateway pl_workers pl_stage pl_accepted gw_queue gw_closed length weight] in *.
    split_and!; try done. lia.
  - destruct (pl_workers p !! i) as [[|job|]|] eqn:Hi; try done. intros [= <-].
    destruct (on_site_queue (processWebhookWithRecovery s context_Background job) (pl_gateway p)) as [Eq Ec].
    pose proof (insert_weight _ i Waiting _ Hi). cbn [pl_gateway pl_workers pl_stage pl_accepted weight] in *. rewrite Eq. split_and!; try done. lia.
  - destruct (pl_workers p !! i) as [[| |]|] eqn:Hi; try done. destruct (gw_queue (pl_gateway p)) as [|] eqn:Ej; [|done].
    destruct (gw_closed (pl_gateway p)) eqn:Ec; [|done]. intros [= <-]. pose proof (insert_weight _ i Exited _ Hi).
    cbn [with_worker pl_gateway pl_workers pl_stage pl_accepted weight] in *. rewrite Ej. split_and!; try done. lia.
Qed.

Lemma worker_run_bounded es p p' : Forall (λ e, worker_event e = true) es → server_run s grace es p = Some p' →
  (length es + work p' = work p)%nat ∧ pl_stage p' = pl_stage p ∧ pl_accepted p' = pl_accepted p.
Proof.
  intros Hall. revert p. induction Hall as [|e es He _ IH]; intros p; cbn [server_run]; [by intros [= <-]|].
  destruct (server_step s grace e p) as [p1|] eqn:E; [|done]. intros Hr. destruct (worker_step e p p1 He E) as (Hw & Hst & Ha & _).
  destruct (IH p1 Hr) as (Hl & -> & ->). cbn [length]. split_and!; [lia|done..].
Qed.

(** While the queue is closed some worker can go on, or all have returned. *)
Lemma worker_progress p : (0 < is_workers s)%Z → gw_closed (pl_gateway p) = true → pool_ok s p →
  forallb exited (pl_workers p) = true ∧ work p = 0%nat ∨ ∃ e p', worker_event e = true ∧ server_step s grace e p = Some p'.
Proof.
  intros Hpos Hcl [Ha Ht Hw Hq Hc He Hd Hs Hf]. destruct (forallb exited (pl_workers p)) eqn:Hall.
  - left. split; [done|]. assert (Exited ∈ pl_workers p) as Hin.
    { destruct (pl_workers p) as [|[| |] ws]; cbn in *; try done; [lia|by left]. }
    unfold work. destruct (He Hin) as [_ ->]. rewrite forallb_forall in Hall. cbn [length].
    assert (∀ w, w ∈ pl_workers p → w = Exited) as Hex by (intros [| |] Hx%list_elem_of_In; apply Hall in Hx; done).
    clear -Hex. induction (pl_workers p) as [|w ws IH]; [done|]. cbn. rewrite (Hex w) by (by left). apply IH. intros w' ?. apply Hex. by right.
  - right. assert (∃ w, w ∈ pl_workers p ∧ exited w = false) as (w & [i Hi]%list_elem_of_lookup & Hw').
    { clear -Hall. induction (pl_workers p) as [|w ws IH]; [done|]. cbn in Hall. destruct (exited w) eqn:E; [|by exists w; split; [left|]].
      destruct (IH Hall) as (w' & ? & ?). exists w'. split; [by right|done]. }
    destruct w as [|job|]; [|by exists (Processes i); eexists; split; [|cbn; by rewrite Hi]|done].
    destruct (gw_queue (pl_gateway p)) as [|job rest] eqn:Ej; [exists (Exits i)|exists (Takes i)]; eexists; (split; [done|]); cbn; rewrite Hi, Ej, ?Hcl; done.
Qed.

Lemma workers_drain n p : (0 < is_workers s)%Z → gw_closed (pl_gateway p) = true → pool_ok s p → work p = n →
  ∃ es p', Forall (λ e, worker_event e = true) es ∧ server_run s grace es p = Some p' ∧ forallb exited (pl_workers p') = true.
Proof.
  intros Hpos. revert p. induction n as [|n IH]; intros p Hcl Hok Hn.
  all: destruct (worker_progress p Hpos Hcl Hok) as [[Hex _]|(e & p1 & He & E)]; [by exists [], p|].
  all: destruct (worker_step e p p1 He E) as (Hw & _ & _ & Hc1).
  { lia. }
  destruct (IH p1) as (es & p' & Hall & Hr & Hex); [by rewrite Hc1|by eapply server_step_ok|lia|].
  exists (e :: es), p'. split_and!; [by constructor|cbn; by rewrite E|done].
Qed.

(** Behind workers that have all returned, everything accepted was processed. *)
Lemma drained_processed p dropped : (0 < is_workers s)%Z → pool_ok s p → pl_stage p = Stopped true dropped → pl_accepted p ≡ₚ pl_processed p.
Proof.
  intros Hpos Hok Hst. assert (gw_closed (pl_gateway p) = true) as Hcl by (by rewrite (po_closed _ _ Hok), Hst).
  destruct (worker_progress p Hpos Hcl Hok) as [[Hex Hw]|(e & p' & He & E)].
  - rewrite (po_accepted _ _ Hok), (po_taken _ _ Hok). unfold work in Hw. destruct (gw_queue (pl_gateway p)); [|cbn in Hw; lia].
    rewrite app_nil_r. assert (omap in_hand (pl_workers p) = []) as ->; [|by rewrite app_nil_r].
    clear -Hex. induction (pl_workers p) as [|[| |] ws IH]; cbn in *; try done. by apply IH.
  - exfalso. pose proof (po_drained _ _ Hok dropped Hst) as Hall. rewrite forallb_forall in Hall.
    assert (∀ i w, pl_workers p !! i = Some w → w = Exited) as Hx
      by (intros i [| |] Hi%list_elem_of_lookup_2%list_elem_of_In; apply Hall in Hi; done).
    destruct e as [r|i|i|i| |in_time| | |key|set|w]; try done; cbn [server_step] in E;
      destruct (pl_workers p !! i) as [w|] eqn:Hi; try done; apply Hx in Hi as ->; done.
Qed.

(** ** The flush *)

Lemma published_app l1 l2 evs1 evs2 : published s l1 evs1 → published s l2 evs2 → published s (l1 ++ l2) (evs1 ++ evs2).
Proof.
  intros (e1 & -> & H1') (e2 & -> & H2'). exists (e1 ++ e2)%list. rewrite concat_app. split; [done|]. by apply Forall2_app.
Qed.

Lemma run_deferred_spec ctx actions : yields (run_deferred s ctx actions) (λ _ evs, published s (omap a_NATS actions) evs).
Proof.
  induction actions as [|a rest IH]; cbn [run_deferred]; [apply yields_ret; apply published_nil|].
  cbn [omap list_omap]. unfold gateway_executeDeferred. destruct (a_NATS a) as [n|].
  - eapply (yields_bind _ _ (λ _ evs, ∃ r, np_runs n r evs)).
    + eapply yields_bind; [apply np_publishes|]. intros r evs Hr. apply yields_ret. rewrite app_nil_r. eauto.
    + intros r' evs (r & Hr). eapply yields_weaken; [apply IH|]. intros [] evs' Hp. by eapply published_cons.
  - exact IH.
Qed.

Lemma execute_batch_spec ctx b : yields (execute_batch s ctx b) (λ _ evs, published s (omap a_NATS (db_Actions b)) evs).
Proof. eapply yields_bind; [apply yields_get|]. intros w ? ->. apply run_deferred_spec. Qed.

(** The batches flushed are carried out, the others are reported. *)
Lemma flush_loop_spec ctx batches : yields (flush_loop s ctx batches) (λ dropped evs,
  ∃ flushed, batches ≡ₚ (flushed ++ dropped)%list ∧ published s (omap a_NATS (concat (map db_Actions flushed))) evs).
Proof.
  induction batches as [|b rest IH]; cbn [flush_loop]; [apply yields_ret; exists []; split; [done|apply published_nil]|].
  eapply yields_bind; [apply yields_get|]. intros w ? ->. destruct (ctx_Done ctx w).
  - eapply yields_bind; [apply IH|]. intros dropped evs (flushed & Hp & Hpub). apply yields_ret. exists flushed.
    rewrite app_nil_r. split; [|done]. by rewrite Hp, Permutation_middle.
  - eapply yields_bind; [apply execute_batch_spec|]. intros [] evs Hb. eapply yields_weaken; [apply IH|].
    intros dropped evs' (flushed & Hp & Hpub). exists (b :: flushed). cbn [app map concat]. split; [by rewrite Hp|].
    rewrite omap_app. by apply published_app.
Qed.

(** [Stop] after the workers, or after the grace period: what was held is flushed,
    as long as the context lasts. *)
Lemma finish_flushes ctx drained p : co_stopped (si_coalescer (gw_site (pl_gateway p))) = false →
  let p' := finish_stop s ctx drained p in
  ∃ flushed dropped evs, pl_stage p' = Stopped drained dropped ∧
    map (λ kv, en_batch kv.2) (map_to_list (co_pending (si_coalescer (gw_site (pl_gateway p))))) ≡ₚ (flushed ++ dropped)%list ∧
    n_log (si_net (gw_site (pl_gateway p'))) = (n_log (si_net (gw_site (pl_gateway p))) ++ evs)%list ∧
    published s (omap a_NATS (concat (map db_Actions flushed))) evs ∧
    pl_accepted p' = pl_accepted p ∧ pl_processed p' = pl_processed p.
Proof.
  intros Hc p'. subst p'. unfold finish_stop, on_site, flush_batches. unfold Coalescer.Stop. rewrite Hc.
  set (batches := map _ _). unfold on_net. cbn [si_net si_engine si_coalescer].
  set (m := mbind (M:=NM) _ (with_world (range_order batches))).
  assert (yields m (λ dropped evs, ∃ flushed, batches ≡ₚ (flushed ++ dropped)%list ∧ published s (omap a_NATS (concat (map db_Actions flushed))) evs)) as Hy.
  { eapply yields_bind; [apply (yields_world _ (λ l, l ≡ₚ batches)); intros w; apply range_order_perm|].
    intros l ? [Hl ->]. eapply yields_weaken; [apply flush_loop_spec|]. intros dropped evs (flushed & Hp & Hpub). exists flushed. by rewrite <- Hl. }
  destruct (Hy (si_net (gw_site (pl_gateway p)))) as (evs & Hl & flushed & Hp & Hpub).
  destruct (m _) as [dropped n]. cbn in *. exists flushed, dropped, evs. done.
Qed.
End lemmas.

(** ** Properties *)

Section properties.
Context `{Env} `{Crypto} `{Net}.

(** C17: A shutdown of the gateway loses no webhook that was accepted, unless its
    grace period ends.  In every interleaving of requests, workers, windows, rule
    changes and the shutdown, every webhook accepted was taken by one worker, in
    the order of acceptance, and processed or is in that worker's hands, or is
    still queued, within the capacity.  Once the queue is closed the workers
    always reach the end, after exactly the work that is left, and then [Stop]
    goes on: by then every webhook accepted was processed, and what the
    coalescer held is carried out, as far as the context allows, and nothing
    is held any more. *)
Theorem shutdown_drains publisher workers size grace engine net es p :
  let s := NewInboundServer publisher workers size in
  server_run s grace es (Start s engine net) = Some p →
  pool_ok s p ∧
  (∀ dropped, pl_stage p = Stopped true dropped → pl_accepted p ≡ₚ pl_processed p) ∧
  (∀ es' p', Forall (λ e, worker_event e = true) es' → server_run s grace es' p = Some p' → (length es' + work p' = work p)%nat) ∧
  (∀ ctx, pl_stage p = Draining ctx →
    ∃ es' p' flushed dropped evs, Forall (λ e, worker_event e = true) es' ∧ server_run s grace es' p = Some p' ∧
      let p'' := finish_stop s ctx true p' in
      server_step s grace WorkersDone p' = Some p'' ∧ pl_stage p'' = Stopped true dropped ∧
      pl_accepted p'' = pl_accepted p ∧ pl_accepted p'' ≡ₚ pl_processed p'' ∧
      map (λ kv, en_batch kv.2) (map_to_list (co_pending (si_coalescer (gw_site (pl_gateway p'))))) ≡ₚ (flushed ++ dropped)%list ∧
      n_log (si_net (gw_site (pl_gateway p''))) = (n_log (si_net (gw_site (pl_gateway p'))) ++ evs)%list ∧
      published s (omap a_NATS (concat (map db_Actions flushed))) evs).
Proof.
  intros s Hrun. assert (0 < is_workers s)%Z as Hpos.
  { cbn. unfold DefaultInboundWorkerCount. destruct (Z.leb_spec workers 0); lia. }
  pose proof (server_run_ok s grace es _ p Hrun (pool_start_ok publisher workers size engine net)) as Hok.
  assert (∀ q dropped, pool_ok s q → pl_stage q = Stopped true dropped → pl_accepted q ≡ₚ pl_processed q) as Hall
    by (intros q dropped Hq; by apply (drained_processed s grace)).
  split_and!; [done|by intros ?; apply Hall|intros es' p' He Hr; by apply (worker_run_bounded s grace es')|].
  intros ctx Hst. assert (gw_closed (pl_gateway p) = true) as Hcl by (by rewrite (po_closed _ _ Hok), Hst).
  destruct (workers_drain s grace _ p Hpos Hcl Hok eq_refl) as (es' & p' & He & Hr & Hex).
  destruct (worker_run_bounded s grace es' p p' He Hr) as (_ & Hst' & Ha). pose proof (server_run_ok s grace es' p p' Hr Hok) as Hok'.
  assert (co_stopped (si_coalescer (gw_site (pl_gateway p'))) = false) as Hco by (by rewrite (po_stopped _ _ Hok'), Hst', Hst).
  destruct (finish_flushes s ctx true p' Hco) as (flushed & dropped & evs & Hs & Hp & Hl & Hpub & Ha' & _).
  assert (pool_ok s (finish_stop s ctx true p')) as Hok'' by (apply finish_ok; [by rewrite Hst'|done|done]).
  exists es', p', flushed, dropped, evs. cbv zeta. split_and!; try done.
  - cbn [server_step]. by rewrite Hst', Hst, Hex.
  - by rewrite Ha', Ha.
  - by apply (Hall _ dropped).
Qed.
End properties.

(** ** Examples *)

#[local] Instance server_crypto : Crypto := {| hmac_Sum h key msg := key ++ msg |}.
#[local] Existing Instances demo demo_net.

(** A rule that holds its action back. *)
Definition held_rule : Rule :=
  MkRule "held" (MkTrigger None (Some (MkHTTPTrigger "/held" "POST" None None None)) None) None
    (MkAction (Some (MkNATSAction "held" "" "{}" false false ∅ "" false "" "" None (Some (MkThrottle "5s" "" "trailing")) None None)) None None None) 0.
Definition pool_rules : KVRuleSet := MkKVRuleSet ∅ (MkHTTPKVRuleSet {["/hook" := [hook_rule None]; "/held" := [held_rule] ]} []) [].
Definition pool_post (path : string) : in_request (@GoContext demo_net) := MkInRequest path "POST" [] [] "30" false None.
#[local] Notation pool_server := (NewInboundServer (ActionPublisher_publisher demo_publisher) 2 3).
#[local] Notation pool_start := (Start pool_server (ReplaceKVRuleSet (NewProcessor None None None (MkTime 0 0)) pool_rules, demo_start) (demo_net_start [])).

(** Three webhooks, two workers, and a stop while both are busy. *)
#[local] Notation busy_stop :=
  [Arrives (pool_post "/hook"); Arrives (pool_post "/held"); Arrives (pool_post "/hook"); Takes 1; Takes 0; Processes 0;
   ToldToStop; ListenerDown true].
#[local] Notation after_busy_stop := (default pool_start (server_run pool_server Second busy_stop pool_start)).

Lemma busy_stop_runs : server_run pool_server Second busy_stop pool_start = Some after_busy_stop.
Proof.
  assert (match server_run pool_server Second busy_stop pool_start with Some _ => true | None => false end = true) as Hr by (vm_compute; reflexivity).
  by destruct (server_run _ _ _ _).
Qed.

Lemma shutdown_drains_witness :
  pool_ok pool_server after_busy_stop ∧ length (pl_accepted after_busy_stop) = 3%nat ∧ length (pl_processed after_busy_stop) = 1%nat ∧
  work after_busy_stop = 5%nat.
Proof.
  split; [|vm_compute; split_and!; reflexivity].
  apply (shutdown_drains (ActionPublisher_publisher demo_publisher) 2 3 Second _ (demo_net_start []) busy_stop after_busy_stop busy_stop_runs).
Defined.

(** When the grace period ends first, [Stop] returns while a worker is busy: the
    action that this worker's webhook holds back is refused by the coalescer and lost. *)
Lemma late_batch_is_lost :
  (λ p, (pl_stage p, length (pl_processed p), length (pl_accepted p), sent (pl_gateway p), si_coalescer (gw_site (pl_gateway p)))) <$>
    server_run pool_server Second
      [Arrives (pool_post "/held"); Takes 0; ToldToStop; ListenerDown true; Passes (MkScript (2 * Second) [] : @NWorld demo_net);
       GraceEnds; Processes 0] pool_start =
    Some (Stopped false [], 1%nat, 1%nat, [], MkCoalescer ∅ true).
Proof. vm_compute. reflexivity. Qed.

(** A rule for the path of a health check, or for a path that is not clean, passes
    the validation and is never reached. *)
Lemma health_path_is_taken :
  ValidatePathPattern "/health" = Ok tt ∧ ∀ method, mux_route method "/health" "/health" = ToHealth.
Proof. split; [reflexivity|]. intros method. unfold mux_route. by destruct (String.eqb method "CONNECT"). Qed.

Lemma unclean_path_is_redirected :
  ValidatePathPattern "/a/../b" = Ok tt ∧ mux_route "POST" "/a/../b" "/a/../b" = ToCleanPath "/b".
Proof. split; vm_compute; reflexivity. Qed.

(** Every other path reaches the handler as it is. *)
Theorem mux_route_webhook method path escaped : path ≠ "" → path ≠ "/health" → path ≠ "/healthz" →
  method ≠ "CONNECT" → cleanPath escaped = escaped → mux_route method path escaped = ToWebhook.
Proof.
  intros Hp Hh Hz Hm Hc. unfold mux_route. rewrite Hc. apply String.eqb_neq in Hp, Hh, Hz, Hm.
  by rewrite Hp, Hh, Hz, Hm, String.eqb_refl.
Qed.
