(* ===== verification/KVCache.v ===== *)
(** * The local cache of the buckets (internal/broker/nats.go)

    One watcher per configured bucket keeps the cache up to date; each heals
    itself by the loop of [Watch], and a reconnection stops them all so that they
    are made anew.  The goroutines of the buckets share the cache, whose
    operations are critical sections, so what they do is some interleaving of
    their updates. *)

From S2P Require Import Prelude GoStrings GoFloat GoTime Value Types Env Demo KVContext Watch.
From S2P Require Import StreamResolver Net HttpClient Publisher Site Subscription Broker Config.
Local Open Scope string_scope.

(** ** State *)

Record kvWatchHandle := MkHandle { kh_bucket : string; kh_keyFilter : string }.

(** The broker's part: the buckets it has opened, the cache, the watchers. *)
Record KVBroker := MkKVBroker {
  kb_stores : gset string; kb_cache : LocalKVCache; kb_watchers : list kvWatchHandle;
}.

Definition with_cache (b : KVBroker) (c : LocalKVCache) : KVBroker := MkKVBroker (kb_stores b) c (kb_watchers b).

(** What a server makes of [store.Watch(filter)] on a bucket. *)
Definition watch_opens : Type := string → string → bool.

Inductive kv_cache_error := BucketNotFound (name : string) | WatchFailed (name filter : string) | NoBucketWatched (failed : list string).

(** ** Starting *)

Definition watchKVBucket (opens : watch_opens) (b : KVBroker) (bucketName keyFilter : string)
    : result kv_cache_error unit * KVBroker :=
  if negb (bool_decide (bucketName ∈ kb_stores b)) then (Err (BucketNotFound bucketName), b)
  else if negb (opens bucketName keyFilter) then (Err (WatchFailed bucketName keyFilter), b)
  else (Ok tt, MkKVBroker (kb_stores b) (kb_cache b) (kb_watchers b ++ [MkHandle bucketName keyFilter])%list).

Fixpoint watch_all (opens : watch_opens) (buckets : list KVBucketConfig) (b : KVBroker) (failed : list string)
    : list string * KVBroker :=
  match buckets with
  | [] => (failed, b)
  | bucket :: rest =>
      match watchKVBucket opens b (kb_Name bucket) (kb_KeyFilter bucket) with
      | (Ok _, b) => watch_all opens rest b failed
      | (Err _, b) => watch_all opens rest b (failed ++ [kb_Name bucket])%list
      end
  end.

Definition subscribeToKVChanges (opens : watch_opens) (buckets : list KVBucketConfig) (b : KVBroker)
    : result kv_cache_error unit * KVBroker :=
  let '(failedBuckets, b) := watch_all opens buckets b [] in
  let total := length buckets in
  if ((0 <? total) && (length failedBuckets =? total))%nat then (Err (NoBucketWatched failedBuckets), b) else (Ok tt, b).

Definition InitializeKVCache (opens : watch_opens) (kv : KVConfig) (b : KVBroker) : result kv_cache_error unit * KVBroker :=
  if negb (kv_Enabled kv) then (Ok tt, b)
  else if negb (kv_LocalCache kv) then (Ok tt, with_cache b (cache_SetEnabled (kb_cache b) false))
  else
    match subscribeToKVChanges opens (kv_Buckets kv) b with
    | (Err e, b) => (Err e, with_cache b (cache_SetEnabled (kb_cache b) false))
    | (Ok _, b) => (Ok tt, b)
    end.

(** ** Running *)

(** [runKVWatch]: without the bucket's store nothing is made again. *)
Definition runKVWatch `{JSON} (b : KVBroker) (h : kvWatchHandle) (first : session kv_entry) (attempts : list (attempt kv_entry))
    : LocalKVCache * bool * list watch_event * watch_end :=
  if bool_decide (kh_bucket h ∈ kb_stores b) then runWatch (handleKVUpdate (kh_bucket h)) (kb_cache b) first attempts
  else let '(c, ready) := consume_updates (handleKVUpdate (kh_bucket h)) (kb_cache b) false (se_updates first) in
       (c, ready, [], Exited).

(** What stopping a watcher comes to, and whether it is reported. *)
Inductive stop_result := WatcherStopped | BadSubscription | ConnectionClosed | StopFailed.
Definition stopKVWatcher (w : option stop_result) : option stop_result :=
  match w with
  | Some StopFailed => Some StopFailed
  | _ => None
  end.

(** The watchers a reconnection stops. *)
Definition restartKVWatchers (kv : KVConfig) (closing : bool) (b : KVBroker) : list kvWatchHandle :=
  if negb (kv_Enabled kv) || negb (kv_LocalCache kv) then []
  else if closing then [] else kb_watchers b.

(** Updates of several buckets, in the order in which they reach the cache. *)
Definition apply_update `{JSON} (c : LocalKVCache) (u : string * kv_entry) : LocalKVCache := handleKVUpdate u.1 c u.2.

(** Two kinds of goroutines write the cache: the watchers, and the readers, each of
    which sets a key it did not find to what it read from the server
    ([getFromNATSKV]).  A reader's look at the server and its write are apart, so
    a write may follow an update it did not see. *)
Inductive cache_event := Delivered (u : string * kv_entry) | Loaded (bucket key : string) (v : value).
Definition apply_event `{JSON} (c : LocalKVCache) (ev : cache_event) : LocalKVCache :=
  match ev with
  | Delivered u => apply_update c u
  | Loaded bucket key v => cache_Set c bucket key v
  end.

(** ** Specification *)

Definition watchable (opens : watch_opens) (stores : gset string) (bucket : KVBucketConfig) : bool :=
  bool_decide (kb_Name bucket ∈ stores) && opens (kb_Name bucket) (kb_KeyFilter bucket).
Definition handle_of (bucket : KVBucketConfig) : kvWatchHandle := MkHandle (kb_Name bucket) (kb_KeyFilter bucket).

(** An interleaving of lists. *)
Inductive interleaved {A} : list (list A) → list A → Prop :=
| interleaved_done ls : Forall (λ l, l = []) ls → interleaved ls []
| interleaved_take ls1 a l ls2 rest :
    interleaved (ls1 ++ l :: ls2)%list rest → interleaved (ls1 ++ (a :: l) :: ls2)%list (a :: rest).

(** What the goroutine of a watcher delivers. *)
Definition deliveries (h : kvWatchHandle) (run : session kv_entry * list (attempt kv_entry)) : list (string * kv_entry) :=
  map (pair (kh_bucket h)) (omap id (all_delivered run.1 run.2)).
Definition watcher_events (h : kvWatchHandle) (run : session kv_entry * list (attempt kv_entry)) : list cache_event :=
  map Delivered (deliveries h run).
Definition load_event (l : string * string * value) : cache_event := Loaded l.1.1 l.1.2 l.2.

(** What a reader has set a key to since the watcher last delivered it. *)
Definition loaded_since (bucket key : string) (events : list cache_event) : option value :=
  foldl (λ loaded ev,
    match ev with
    | Delivered u => if bool_decide (bucket = u.1 ∧ key = ke_Key u.2) then None else loaded
    | Loaded b k v => if bool_decide (bucket = b ∧ key = k) then Some v else loaded
    end) None events.

Definition of_bucket (bucket : string) (ev : cache_event) : bool :=
  match ev with Delivered u => String.eqb u.1 bucket | Loaded _ _ _ => false end.
Definition entry_of (ev : cache_event) : option kv_entry :=
  match ev with Delivered u => Some u.2 | Loaded _ _ _ => None end.

(** ** Lemmas *)

Lemma watch_all_spec opens buckets b failed :
  watch_all opens buckets b failed =
    ((failed ++ map kb_Name (List.filter (λ k, negb (watchable opens (kb_stores b) k)) buckets))%list,
     MkKVBroker (kb_stores b) (kb_cache b)
       (kb_watchers b ++ map handle_of (List.filter (watchable opens (kb_stores b)) buckets))%list).
Proof.
  revert b failed. induction buckets as [|k rest IH]; intros [stores c ws] failed; cbn [watch_all].
  { by rewrite !app_nil_r. }
  unfold watchKVBucket, watchable. cbn [List.filter kb_stores kb_cache kb_watchers].
  destruct (bool_decide (kb_Name k ∈ stores)); cbn [negb andb]; [destruct (opens _ _); cbn [negb]|];
    rewrite IH; cbn; by rewrite <- ?app_assoc.
Qed.

Lemma handleKVUpdate_lookup `{JSON} c u b k : lc_enabled c = true →
  lc_enabled (apply_update c u) = true ∧
  cache_Get (apply_update c u) b k =
    if bool_decide (b = u.1 ∧ k = ke_Key u.2) then
      match ke_Operation u.2 with KeyValuePut => Some (parsed_entry (ke_Value u.2)) | _ => None end
    else cache_Get c b k.
Proof.
  intros He. unfold apply_update, handleKVUpdate. split.
  - unfold cache_Delete, cache_Set. destruct (ke_Operation u.2); rewrite He; cbn; try done; by destruct (lc_cache c !! u.1).
  - by destruct (ke_Operation u.2); rewrite ?cache_Get_Set, ?cache_Get_Delete, He.
Qed.

Lemma last_update_snoc `{JSON} key updates e before :
  last_update key (updates ++ [e]) before =
    if String.eqb (ke_Key e) key
    then match ke_Operation e with KeyValuePut => Some (parsed_entry (ke_Value e)) | _ => None end
    else last_update key updates before.
Proof. revert before. by induction updates as [|u l IH]; intros before; cbn [app last_update]. Qed.

(** The value of a key is what a reader has set it to since the last of its
    bucket's updates, or else that of this update. *)
Lemma apply_events_lookup `{JSON} events c bucket key : lc_enabled c = true →
  lc_enabled (foldl apply_event c events) = true ∧
  cache_Get (foldl apply_event c events) bucket key =
    match loaded_since bucket key events with
    | Some v => Some v
    | None => last_update key (omap entry_of (List.filter (of_bucket bucket) events)) (cache_Get c bucket key)
    end.
Proof.
  intros He. induction events as [|ev events [IHe IH]] using rev_ind; [done|].
  unfold loaded_since. rewrite !foldl_app, List.filter_app, omap_app. fold (loaded_since bucket key events). cbn [foldl].
  set (c' := foldl apply_event c events) in *. destruct ev as [u|b k v]; cbn [apply_event List.filter of_bucket].
  - destruct (handleKVUpdate_lookup c' u bucket key IHe) as [He' ->]. split; [done|]. rewrite IH.
    destruct (String.eqb_spec u.1 bucket) as [<-|Hb]; cbn [omap list_omap entry_of].
    + rewrite last_update_snoc. destruct (String.eqb_spec (ke_Key u.2) key) as [<-|Hk]; [by rewrite bool_decide_true|].
      by rewrite bool_decide_false by naive_solver.
    + by rewrite bool_decide_false, app_nil_r by naive_solver.
  - split; [unfold cache_Set; by rewrite IHe|]. rewrite cache_Get_Set, IHe. cbn [omap list_omap]. rewrite app_nil_r.
    by case_bool_decide.
Qed.

(** An interleaving keeps each list's own order. *)
Lemma interleaved_filter {A} (P : A → bool) ls l : interleaved ls l →
  ∀ ls1 l0 ls2, ls = (ls1 ++ l0 :: ls2)%list →
    Forall (λ l, List.filter P l = []) (ls1 ++ ls2) → List.filter P l = List.filter P l0.
Proof.
  induction 1 as [ls Hall|ls1' a l' ls2' rest Hi IH]; intros ls1 l0 ls2 Heq Hno.
  { subst ls. apply Forall_app in Hall as [_ Hall]. apply Forall_cons in Hall as [-> _]. done. }
  assert (∀ x ls1 ls2, Forall (λ l, List.filter P l = []) (ls1 ++ (a :: x) :: ls2) → P a = false ∧
    Forall (λ l, List.filter P l = []) (ls1 ++ x :: ls2)) as Hdrop.
  { intros x k1 k2. rewrite !Forall_app, !Forall_cons. cbn. destruct (P a); [by intros (_ & ? & _)|done]. }
  apply app_eq_inv in Heq as [(k & -> & Heq)|(k & -> & Heq)].
  - destruct k as [|x k]; [cbn in Heq|]; injection Heq as Hx Hk.
    + subst l0 ls2. cbn [List.filter]. rewrite app_nil_r in *.
      erewrite (IH ls1 l' ls2'); [|done|done]. done.
    + subst x ls2.
      replace (ls1 ++ k ++ (a :: l') :: ls2')%list with ((ls1 ++ k) ++ (a :: l') :: ls2')%list in Hno by by rewrite app_assoc.
      destruct (Hdrop l' (ls1 ++ k)%list ls2' Hno) as [Ha Hno']. cbn [List.filter]. rewrite Ha.
      apply (IH ls1 l0 (k ++ l' :: ls2')%list); [by rewrite <- app_assoc|]. by rewrite app_assoc.
  - destruct k as [|x k]; cbn in Heq; injection Heq as Hx Hk.
    + subst l0 ls2. rewrite app_nil_r in *. cbn [List.filter]. erewrite (IH ls1' l' ls2'); [|done|done]. done.
    + subst x ls2'. rewrite <- app_assoc in Hno. cbn in Hno.
      destruct (Hdrop l' ls1' (k ++ ls2)%list Hno) as [Ha Hno']. cbn [List.filter]. rewrite Ha.
      apply (IH (ls1' ++ l' :: k)%list l0 ls2); rewrite <- app_assoc; done.
Qed.

Lemma watcher_events_filter h run bucket :
  List.filter (of_bucket bucket) (watcher_events h run) =
    if String.eqb (kh_bucket h) bucket then watcher_events h run else [].
Proof.
  unfold watcher_events, deliveries. induction (omap id _) as [|e l IH]; [by case_match|]. cbn. rewrite IH.
  by destruct (String.eqb (kh_bucket h) bucket).
Qed.

Lemma load_events_filter loads bucket : List.filter (of_bucket bucket) (map load_event loads) = [].
Proof. by induction loads. Qed.

Lemma entries_of_watcher h run : omap entry_of (watcher_events h run) = omap id (all_delivered run.1 run.2).
Proof. unfold watcher_events, deliveries. induction (omap id _) as [|e l IH]; [done|]. cbn. by f_equal. Qed.

(** What a read does to the cache: at most one load, of a key that was missing,
    with what the server gave for it. *)
Lemma KVField_loads `{Env} kv field st c : st_localCache st = Some c →
  let st' := (KVField kv field st).2 in
  st_localCache st' = Some c ∨
  ∃ bucket key raw v, cache_Get c bucket key = None ∧ (kv_store_Get (st_world st) bucket key).1 = Some raw ∧
    json_unmarshal raw = Some v ∧ st_localCache st' = Some (apply_event c (Loaded bucket key v)).
Proof.
  intros Hc. unfold KVField, mbind, M_bind.
  destruct (parseKVField field st) as [p st1] eqn:Hp.
  assert (st_localCache st1 = Some c ∧ st_world st1 = st_world st) as [Hc1 Hw1].
  { revert Hp. unfold parseKVField, get, mbind, M_bind. cbn. destruct (st_parseCache st !! field); [by intros [= <- <-]|].
    destruct (parseKVFieldUncached field); [|by intros [= <- <-]]. cbn.
    destruct (Nat.leb (size (st_parseCache st)) 1023); cbn; by intros [= <- <-]. }
  destruct p as [[bucket key path]|e]; [|by left]. cbn [get fst snd]. unfold cached_value. rewrite Hc1.
  unfold cache_IsEnabled. destruct (lc_enabled c) eqn:He.
  - destruct (cache_Get c bucket key) eqn:Hg; [by left|].
    unfold getFromNATSKV, mbind, M_bind. destruct (negb _); [by left|]. unfold lift_world. rewrite Hw1.
    destruct (kv_store_Get (st_world st) bucket key) as [[raw|] w] eqn:Hr; cbn; [|by left].
    destruct (json_unmarshal raw) as [v|] eqn:Hv; cbn; [|by left]. rewrite Hc1. unfold cache_IsEnabled. rewrite He. cbn.
    right. exists bucket, key, raw, v. by rewrite Hr.
  - unfold getFromNATSKV, mbind, M_bind. destruct (negb _); [by left|]. unfold lift_world. rewrite Hw1.
    destruct (kv_store_Get (st_world st) bucket key) as [[raw|] w] eqn:Hr; cbn; [|by left].
    destruct (json_unmarshal raw) as [v|] eqn:Hv; cbn; [|by left]. rewrite Hc1. unfold cache_IsEnabled. rewrite He. cbn. by left.
Qed.

Lemma handles_sublist P buckets :
  map kh_bucket (map handle_of (List.filter P buckets)) `sublist_of` map kb_Name buckets.
Proof.
  induction buckets as [|k l IH]; [done|]. cbn. destruct (P k); cbn; [by apply sublist_skip|by apply sublist_cons].
Qed.

Lemma InitializeKVCache_watchers opens kv b b' : InitializeKVCache opens kv b = (Ok tt, b') →
  kb_watchers b = [] → map kh_bucket (kb_watchers b') `sublist_of` BucketNames kv.
Proof.
  unfold InitializeKVCache, subscribeToKVChanges. rewrite watch_all_spec. intros Hb Hw.
  assert (map kh_bucket (kb_watchers b) `sublist_of` BucketNames kv) as Hnil by (rewrite Hw; apply sublist_nil_l).
  destruct (kv_Enabled kv); cbn [negb] in Hb; [|by injection Hb as <-].
  destruct (kv_LocalCache kv); cbn [negb] in Hb; [|by injection Hb as <-].
  destruct (_ && _)%nat in Hb; [done|]. injection Hb as <-. cbn. rewrite Hw. apply handles_sublist.
Qed.

(** ** Properties *)

(** The cache is a matter of speed: starting it fails exactly when it is wanted
    and not one of the buckets can be watched, and then it is off; otherwise the
    buckets that can be watched are, in order and by their filters, and the
    others are passed over.  Nothing is in the cache that was not before. *)
Theorem InitializeKVCache_correct opens kv b :
  let '(r, b') := InitializeKVCache opens kv b in
  let wanted := kv_Enabled kv && kv_LocalCache kv in
  let able := List.filter (watchable opens (kb_stores b)) (kv_Buckets kv) in
  (is_ok r = false ↔ wanted = true ∧ able = [] ∧ kv_Buckets kv ≠ []) ∧
  kb_watchers b' = (kb_watchers b ++ if wanted then map handle_of able else [])%list ∧
  kb_stores b' = kb_stores b ∧ lc_cache (kb_cache b') = lc_cache (kb_cache b) ∧
  cache_IsEnabled (kb_cache b') =
    cache_IsEnabled (kb_cache b) && (negb (kv_Enabled kv) || kv_LocalCache kv) && is_ok r.
Proof.
  unfold InitializeKVCache, subscribeToKVChanges, cache_IsEnabled. rewrite watch_all_spec. cbn [app].
  destruct (kv_Enabled kv); cbn [negb andb orb].
  2: { rewrite app_nil_r, !andb_true_r. split; [|done]. split; [done|]. by intros [? _]. }
  destruct (kv_LocalCache kv); cbn [negb andb orb].
  2: { cbn. rewrite app_nil_r, andb_false_r. split; [|done]. split; [done|]. by intros [? _]. }
  rewrite length_map. set (P := watchable opens (kb_stores b)).
  assert ((length (List.filter (λ k, negb (P k)) (kv_Buckets kv)) + length (List.filter P (kv_Buckets kv)) =
    length (kv_Buckets kv))%nat) as Hlen.
  { induction (kv_Buckets kv) as [|k l IH]; [done|]. cbn. destruct (P k); cbn; lia. }
  destruct (Nat.ltb_spec 0 (length (kv_Buckets kv))), (Nat.eqb_spec (length (List.filter (λ k, negb (P k)) (kv_Buckets kv))) (length (kv_Buckets kv)));
    cbn [andb is_ok fst snd with_cache kb_watchers kb_stores kb_cache cache_SetEnabled lc_cache lc_enabled]; rewrite ?andb_true_r, ?andb_false_r;
    (split; [|done]).
  - split; [|done]. intros _. split_and!; [done|apply length_zero_iff_nil; lia|]. intros Hn. rewrite Hn in *. cbn in *. lia.
  - split; [done|]. intros (_ & Hn & _). rewrite Hn in Hlen. cbn in Hlen. lia.
  - split; [done|]. intros (_ & _ & Hne). destruct Hne. apply length_zero_iff_nil. lia.
  - split; [done|]. intros (_ & _ & Hne). destruct Hne. apply length_zero_iff_nil. lia.
Qed.

(** C38: The cache follows the watchers of the buckets.  However the watchers and
    the readers that load missing keys from the server interleave, and however
    often the watcher of a bucket was lost and made again, a key of a watched
    bucket has in the cache: what a reader has loaded it with since the watcher
    last delivered the key, if one has; otherwise the value of the last put the
    watcher delivered, with its numbers exact, none after a removal, and what it
    had at the start if nothing was delivered.  So the cache need not hold the
    bucket's last put: a reader that saw the server before an update may write
    after it ([late_load_stays]), a key the filter of the bucket leaves out is
    never delivered and keeps what was loaded, as does every key of a bucket that
    could not be watched ([unwatched_bucket_goes_stale]). *)
Theorem kv_cache_follows `{JSON} opens kv b b' runs loads events h run key :
  InitializeKVCache opens kv b = (Ok tt, b') → kb_watchers b = [] → NoDup (BucketNames kv) →
  cache_IsEnabled (kb_cache b') = true →
  interleaved (map load_event loads :: zip_with watcher_events (kb_watchers b') runs) events →
  (h, run) ∈ zip (kb_watchers b') runs →
  cache_Get (foldl apply_event (kb_cache b') events) (kh_bucket h) key =
    match loaded_since (kh_bucket h) key events with
    | Some v => Some v
    | None => last_update key (omap id (all_delivered run.1 run.2)) (cache_Get (kb_cache b') (kh_bucket h) key)
    end.
Proof.
  intros Hi Hw Hnd He Hint Hin. rewrite (proj2 (apply_events_lookup _ _ _ _ He)).
  enough (List.filter (of_bucket (kh_bucket h)) events = watcher_events h run) as -> by by rewrite entries_of_watcher.
  apply InitializeKVCache_watchers in Hi; [|done]. eapply sublist_NoDup in Hi; [|done]. clear Hw Hnd He.
  apply list_elem_of_split in Hin as (z1 & z2 & Hz).
  assert (zip_with watcher_events (kb_watchers b') runs =
    (map (λ hr, watcher_events hr.1 hr.2) z1 ++ watcher_events h run :: map (λ hr, watcher_events hr.1 hr.2) z2)%list) as Hzip.
  { replace (zip_with _ _ _) with (map (λ hr, watcher_events hr.1 hr.2) (zip (kb_watchers b') runs)).
    - by rewrite Hz, map_app.
    - generalize (kb_watchers b'). clear. induction runs as [|r rs IH]; intros [|k ks]; cbn; [done..|]. by rewrite IH. }
  assert (NoDup (map kh_bucket (map fst (zip (kb_watchers b') runs)))) as Hnd.
  { eapply sublist_NoDup; [exact Hi|]. generalize (kb_watchers b'). clear. induction runs as [|r rs IH]; intros [|k ks]; cbn;
      [done|apply sublist_nil_l..|by constructor]. }
  rewrite Hz, !map_app in Hnd. cbn in Hnd. apply NoDup_app in Hnd as (_ & Hd & Hnd). apply NoDup_cons in Hnd as [Hni _].
  assert (∀ z, kh_bucket h ∉ map kh_bucket (map fst z) → Forall (λ l, List.filter (of_bucket (kh_bucket h)) l = [])
    (map (λ hr : kvWatchHandle * _, watcher_events hr.1 hr.2) z)) as Hz'.
  { induction z as [|[k r] z IH]; cbn; [constructor|]. intros [Hne Hz']%not_elem_of_cons. constructor; [|by apply IH].
    rewrite watcher_events_filter. by rewrite (proj2 (String.eqb_neq _ _)). }
  rewrite (interleaved_filter _ _ _ Hint (map load_event loads :: map (λ hr, watcher_events hr.1 hr.2) z1) (watcher_events h run)
    (map (λ hr, watcher_events hr.1 hr.2) z2)).
  - by rewrite watcher_events_filter, String.eqb_refl.
  - by rewrite Hzip.
  - cbn. constructor; [apply load_events_filter|]. apply Forall_app. split; apply Hz'; [|done]. intros Hk. apply (Hd _ Hk). by left.
Qed.

(** ** A concrete cache *)

Definition demo_kv (buckets : list KVBucketConfig) : KVConfig := MkKV true buckets (MkKVRules false "" false) true.
Definition demo_kv_broker : KVBroker := MkKVBroker {["config"; "flags"]} NewLocalKVCache [].
Definition all_open : watch_opens := λ _ _, true.
Definition demo_watch : session kv_entry * list (attempt kv_entry) :=
  (MkSession [Some (MkEntry "limits" "{'max':25}" KeyValuePut); None] false,
   [OpenFails; Opened (MkSession [Some (MkEntry "mode" "fast" KeyValuePut); Some (MkEntry "limits" "" KeyValueDelete)] true)]).

(** A reader sets the limits again after their removal, and another the mode before
    its put arrives. *)
Definition demo_loads : list (string * string * value) :=
  [("config", "mode", VStr "slow"); ("config", "limits", VNumber "30")].
Definition demo_events : list cache_event :=
  match watcher_events (MkHandle "config" ">") demo_watch, map load_event demo_loads with
  | [e1; e2; e3], [l1; l2] => [l1; e1; e2; e3; l2]
  | _, _ => []
  end.

Lemma kv_cache_follows_witness :
  let '(_, b) := InitializeKVCache all_open (demo_kv [MkBucket "config" ">"]) demo_kv_broker in
  let c := foldl (@apply_event demo_JSON) (kb_cache b) demo_events in
  cache_Get c "config" "mode" = Some (VStr "fast") ∧ cache_Get c "config" "limits" = Some (VNumber "30").
Proof.
  cbv zeta. change (InitializeKVCache _ _ _) with (@pair (result kv_cache_error unit) KVBroker (Ok tt)
    (MkKVBroker {["config"; "flags"]} NewLocalKVCache [MkHandle "config" ">"])). cbv iota beta.
  assert (interleaved [map load_event demo_loads; watcher_events (MkHandle "config" ">") demo_watch] demo_events) as Hi.
  { apply (interleaved_take []). do 3 apply (interleaved_take [_]). apply (interleaved_take []).
    apply interleaved_done. repeat constructor. }
  pose proof (λ key, @kv_cache_follows demo_JSON all_open (demo_kv [MkBucket "config" ">"]) demo_kv_broker
    (MkKVBroker {["config"; "flags"]} NewLocalKVCache [MkHandle "config" ">"]) [demo_watch] demo_loads demo_events
    (MkHandle "config" ">") demo_watch key eq_refl eq_refl (NoDup_singleton _) eq_refl Hi ltac:(by apply list_elem_of_singleton)) as Hkey.
  split; (etransitivity; [apply Hkey|vm_compute; reflexivity]).
Defined.

(** A reader that looked at the server before a put and wrote after it: the cache
    keeps the older value. *)
Lemma late_load_stays :
  let events := [Delivered ("config", MkEntry "limits" "30" KeyValuePut); Loaded "config" "limits" (VNumber "25")] in
  @cache_Get (foldl (@apply_event demo_JSON) NewLocalKVCache events) "config" "limits" = Some (VNumber "25").
Proof. done. Qed.

(** A server whose value changes with every read. *)
#[local] Instance rotating : Env := {|
  env_JSON := demo_JSON;
  World := nat;
  kv_store_Get := λ w bucket key,
    (Some (if String.eqb key "mode" then "fast" else if (w =? 0)%nat then "30" else "{'max':25}"), S w);
  time_Now := λ w, (MkTime 0 0, w);
  uuid_New := λ w, ("", w);
  uuid_NewV7 := λ w, (None, w);
  rand_Int64N := λ w n, (0%Z, w);
  rand_IntN := λ w n, (0%Z, w);
  rand_Float64 := λ w, (float_of_Z 0, w);
  nkeys_FromPublicKey := λ k, false;
  nkeys_Verify := λ k payload sig, false;
|}.

Definition reads (c : LocalKVCache) (fields : list string) : list (option value) :=
  (foldl (λ acc f, let '(v, st) := KVField (MkKVContext {["config"; "flags"]}) f acc.2 in ((acc.1 ++ [v])%list, st))
     ([], MkSt (MkSig false false "") ∅ (Some c) 0 (0 : World)) fields).1.

(** A bucket that could not be watched beside one that is: the first read of a
    key fills the cache, which stays on, and every later read gives that value
    again, whatever the bucket holds by then. *)
Lemma unwatched_bucket_goes_stale :
  let opens : watch_opens := λ name _, String.eqb name "config" in
  let '(r, b) := InitializeKVCache opens (demo_kv [MkBucket "config" ">"; MkBucket "flags" ">"]) demo_kv_broker in
  r = Ok tt ∧ map kh_bucket (kb_watchers b) = ["config"] ∧
  reads (kb_cache b) ["@kv.flags.limit"; "@kv.flags.limit"] = [Some (VNumber "30"); Some (VNumber "30")] ∧
  reads (cache_SetEnabled (kb_cache b) false) ["@kv.flags.limit"; "@kv.flags.limit"] =
    [Some (VNumber "30"); Some (obj [("max", VNumber "25")])].
Proof. vm_compute. done. Qed.

(** The filter of a watched bucket does the same to the keys it leaves out; and a
    text that is not JSON is found in the cache, and not without it. *)
Lemma plain_text_needs_the_cache :
  let c := foldl (handleKVUpdate "config") NewLocalKVCache [MkEntry "mode" "fast" KeyValuePut] in
  reads c ["@kv.config.mode"] = [Some (VStr "fast")] ∧ reads NewLocalKVCache ["@kv.config.mode"] = [None].
Proof. vm_compute. done. Qed.
