(* ===== verification/Connection.v ===== *)
(** * Connecting and closing (internal/broker/nats.go)

    The credentials and the bounded attempts of the first connection, the
    buckets that must be there, the broker made of them, and its shutdown.  The
    NATS client is a parameter: whether each call succeeds. *)

From S2P Require Import Prelude GoStrings GoFloat GoTime Value Types Env Demo KVContext Watch.
From S2P Require Import StreamResolver Net HttpClient Publisher Site Subscription Broker Config KVCache.
Local Open Scope string_scope.

Definition initialConnectMaxAttempts : nat := 10.
Definition initialConnectRetryWait : Z := 2 * Second.

(** ** Credentials *)

Inductive nats_auth := AuthCreds (file : string) | AuthNKey (file : string) | AuthToken (token : string) | AuthUser (user password : string).

Inductive connection_error :=
| NKeyNotLoaded | CertificateNotLoaded | NotConnected (attempts : nat) (authMethod : string)
| NoJetStream | StreamsNotDiscovered | KVBucketNotFound (name : string) | KVBucketFailed (name : string).

(** [nats.Option]: the handlers are modelled in Callbacks.v. *)
Inductive nats_option :=
| ReconnectWait (d : Z) | MaxReconnects (n : Z) | ReconnectJitter (min max : Z) | DrainTimeout (d : Z)
| ErrorHandler | ConnectHandler | DisconnectErrHandler | ReconnectHandler | ClosedHandler
| Auth (a : nats_auth) | RootCAs (file : string) | Secure (insecure : bool) (certificate : option (string * string)).

Definition reconnectJitterMin : Z := 100 * Millisecond.
Definition reconnectJitterMax : Z := 1 * Second.
Definition drainTimeout : Z := 10 * Second.

(** The credential of [buildNATSOptions]: [seed_ok] and, below, [cert_ok] say
    whether the files it reads can be used. *)
Definition auth_option (seed_ok : string → bool) (n : NATSConfig) : result connection_error (option nats_auth) :=
  let set s := negb (String.eqb s "") in
  if set (na_CredsFile n) then Ok (Some (AuthCreds (na_CredsFile n)))
  else if set (na_NKeySeedFile n) then
    if seed_ok (na_NKeySeedFile n) then Ok (Some (AuthNKey (na_NKeySeedFile n))) else Err NKeyNotLoaded
  else if set (na_Token n) then Ok (Some (AuthToken (na_Token n)))
  else if set (na_Username n) then Ok (Some (AuthUser (na_Username n) (na_Password n)))
  else Ok None.

Definition tls_option (cert_ok : string → string → bool) (t : TLSConfig) : result connection_error (list nats_option) :=
  if negb (tl_Enable t) then Ok []
  else
    let set s := negb (String.eqb s "") in
    certificate ← (if set (tl_CertFile t) && set (tl_KeyFile t) then
                     if cert_ok (tl_CertFile t) (tl_KeyFile t) then Ok (Some (tl_CertFile t, tl_KeyFile t))
                     else Err CertificateNotLoaded
                   else Ok None);
    Ok ((if set (tl_CAFile t) then [RootCAs (tl_CAFile t)] else []) ++ [Secure (tl_Insecure t) certificate])%list.

(** The options of every connection of the two programs: their own, then the
    credential, then the TLS configuration. *)
Definition with_credentials (own : list nats_option) (seed_ok : string → bool) (cert_ok : string → string → bool) (n : NATSConfig)
    : result connection_error (list nats_option) :=
  auth ← auth_option seed_ok n;
  tls ← tls_option cert_ok (na_TLS n);
  Ok (own ++ match auth with Some a => [Auth a] | None => [] end ++ tls)%list.

Definition buildNATSOptions (seed_ok : string → bool) (cert_ok : string → string → bool) (n : NATSConfig)
    : result connection_error (list nats_option) :=
  with_credentials
    [ReconnectWait (cn_ReconnectWait (na_Connection n)); MaxReconnects (cn_MaxReconnects (na_Connection n));
     ErrorHandler; ConnectHandler; DisconnectErrHandler; ReconnectHandler; ClosedHandler;
     ReconnectJitter reconnectJitterMin reconnectJitterMax; DrainTimeout drainTimeout] seed_ok cert_ok n.

Definition getAuthMethod (n : NATSConfig) : string :=
  let set s := negb (String.eqb s "") in
  if set (na_CredsFile n) then "creds_file" else if set (na_NKeySeedFile n) then "nkey"
  else if set (na_Token n) then "token" else if set (na_Username n) then "username/password" else "none".

(** ** The first connection *)

(** The loop from an attempt on, [None] when the fuel is spent: the number of the
    attempt that succeeded or the last one, and the waits. *)
Fixpoint connect (fuel attempt : nat) (connects : nat → bool) : option (result nat nat * list Z) :=
  match fuel with
  | O => None
  | S fuel =>
      if connects attempt then Some (Ok attempt, [])
      else if (initialConnectMaxAttempts <=? attempt)%nat then Some (Err attempt, [])
      else '(r, waits) ← connect fuel (S attempt) connects; Some (r, initialConnectRetryWait :: waits)
  end.

(** ** Buckets *)

Inductive kv_open := KVOpened | KVNotFound | KVFailed.

Fixpoint initializeKVStores (js_KeyValue : string → kv_open) (buckets : list KVBucketConfig) (stores : gset string)
    : result connection_error (gset string) :=
  match buckets with
  | [] => Ok stores
  | bucket :: rest =>
      match js_KeyValue (kb_Name bucket) with
      | KVOpened => initializeKVStores js_KeyValue rest ({[kb_Name bucket]} ∪ stores)
      | KVNotFound => Err (KVBucketNotFound (kb_Name bucket))
      | KVFailed => Err (KVBucketFailed (kb_Name bucket))
      end
  end.

(** ** The broker *)

(** What the server and the files make of a start; [ne_Connect urls options n]
    says whether the [n]th [nats.Connect] to these urls with these options
    succeeds. *)
Record nats_env := MkNatsEnv {
  ne_seed_ok : string → bool; ne_cert_ok : string → string → bool;
  ne_Connect : string → list nats_option → nat → bool; ne_jetStream : bool;
  ne_streams : list StreamConfig * bool;
  ne_KeyValue : string → kv_open;
}.

Definition initializeNATSConnection (e : nats_env) (n : NATSConfig) : result connection_error unit :=
  options ← buildNATSOptions (ne_seed_ok e) (ne_cert_ok e) n;
  match connect initialConnectMaxAttempts 1 (ne_Connect e (String.concat "," (na_URLs n)) options) with
  | Some (Ok _, _) => if ne_jetStream e then Ok tt else Err NoJetStream
  | Some (Err attempts, _) => Err (NotConnected attempts (getAuthMethod n))
  | None => Err (NotConnected 0 (getAuthMethod n))
  end.

Definition NewNATSBroker `{Net} `{SortSlice} (e : nats_env) (c : Config) : result connection_error (Broker * KVBroker) :=
  _ ← initializeNATSConnection e (cf_NATS c);
  match Discover NewStreamResolver (ne_streams e) with
  | (Err _, _) => Err StreamsNotDiscovered
  | (Ok _, resolver) =>
      stores ← (if kv_Enabled (cf_KV c) then initializeKVStores (ne_KeyValue e) (kv_Buckets (cf_KV c)) ∅ else Ok ∅);
      let co := na_Consumers (cf_NATS c) in
      Ok (MkBroker ∅ None resolver (co_ConsumerPrefix co) (co_DeliverPolicy co) (co_ReplayPolicy co) (co_WorkerCount co),
          MkKVBroker stores NewLocalKVCache [])
  end.

Definition InitializeSubscriptionManager `{Net} `{SortSlice} (c : Config) (b : Broker) : Broker :=
  with_manager b (MkSubscriptionManager (MkActionPublisher (na_Publish (cf_NATS c))) None
    (co_AckWaitTimeout (na_Consumers (cf_NATS c))) ∅).

(** ** Shutdown *)

Inductive close_step := CancelContext | StopSubscriptionManager | StopWatcher (h : kvWatchHandle) | StopService | DrainConnection.
Inductive close_error := WatcherNotStopped (i : nat) (bucket : string) | NotDrained.

(** [Close]: what is stopped, in order, and the errors it reports; [service] says
    whether the process is registered with the discovery service, which is left
    without an error, and [stop] is what stopping a watcher comes to. *)
Definition nats_Close `{Net} (b : Broker) (k : KVBroker) (service : bool) (stop : kvWatchHandle → stop_result) (drained : bool)
    : list close_step * list close_error :=
  ((CancelContext :: (match bk_subscriptionMgr b with Some _ => [StopSubscriptionManager] | None => [] end)
      ++ map StopWatcher (kb_watchers k) ++ (if service then [StopService] else []) ++ [DrainConnection])%list,
   (omap (λ ih, match stopKVWatcher (Some (stop ih.2)) with Some _ => Some (WatcherNotStopped ih.1 (kh_bucket ih.2)) | None => None end)
      (imap pair (kb_watchers k)) ++ if drained then [] else [NotDrained])%list).

(** ** Lemmas *)

Lemma connect_spec connects fuel attempt :
  (1 ≤ attempt)%nat → (initialConnectMaxAttempts - attempt < fuel)%nat → (attempt ≤ initialConnectMaxAttempts)%nat →
  ∃ r waits, connect fuel attempt connects = Some (r, waits) ∧
    Forall (λ d, d = initialConnectRetryWait) waits ∧
    match r with
    | Ok n => (attempt ≤ n ≤ initialConnectMaxAttempts)%nat ∧ connects n = true ∧
              (∀ k, (attempt ≤ k < n)%nat → connects k = false) ∧ length waits = (n - attempt)%nat
    | Err n => n = initialConnectMaxAttempts ∧
              (∀ k, (attempt ≤ k ≤ n)%nat → connects k = false) ∧ length waits = (n - attempt)%nat
    end.
Proof.
  revert attempt. induction fuel as [|fuel IH]; intros attempt H1 Hf Hm; [lia|]. cbn [connect].
  destruct (connects attempt) eqn:Hc.
  { exists (Ok attempt), []. split_and!; [done|constructor|lia|lia|done|intros; lia|cbn; lia]. }
  destruct (Nat.leb_spec initialConnectMaxAttempts attempt).
  { exists (Err attempt), []. split_and!; [done|constructor|lia| |cbn; lia].
    intros k Hk. by assert (k = attempt) as -> by lia. }
  destruct (IH (S attempt)) as (r & waits & Hr & Hw & Hs); [lia..|]. rewrite Hr.
  exists r, (initialConnectRetryWait :: waits). split; [done|]. split; [by constructor|].
  destruct r as [n|n]; cbn [length]; [destruct Hs as (? & ? & Hk & Hl)|destruct Hs as (? & Hk & Hl)]; split_and!; try done; try lia;
    intros k Hk'; (destruct (decide (k = attempt)) as [->|]; [done|apply Hk; lia]).
Qed.

Lemma initializeKVStores_spec js_KeyValue buckets stores :
  match initializeKVStores js_KeyValue buckets stores with
  | Ok stores' => Forall (λ k, js_KeyValue (kb_Name k) = KVOpened) buckets ∧
                  stores' = list_to_set (map kb_Name buckets) ∪ stores
  | Err e => ∃ bucket, bucket ∈ buckets ∧
      ((js_KeyValue (kb_Name bucket) = KVNotFound ∧ e = KVBucketNotFound (kb_Name bucket)) ∨
       (js_KeyValue (kb_Name bucket) = KVFailed ∧ e = KVBucketFailed (kb_Name bucket)))
  end.
Proof.
  revert stores. induction buckets as [|k rest IH]; intros stores; cbn [initializeKVStores].
  { split; [constructor|]. cbn. set_solver. }
  destruct (js_KeyValue (kb_Name k)) eqn:E.
  - specialize (IH ({[kb_Name k]} ∪ stores)). destruct (initializeKVStores _ rest _).
    + destruct IH as [Hall ->]. split; [by constructor|]. cbn. set_solver.
    + destruct IH as (bucket & Hb & Hc). exists bucket. split; [by right|done].
  - exists k. split; [by left|]. by left.
  - exists k. split; [by left|]. by right.
Qed.

(** The option that is used and the name that is logged are the same choice. *)
Lemma auth_method_named seed_ok n a : auth_option seed_ok n = Ok a →
  getAuthMethod n = match a with
    | Some (AuthCreds _) => "creds_file" | Some (AuthNKey _) => "nkey" | Some (AuthToken _) => "token"
    | Some (AuthUser _ _) => "username/password" | None => "none" end.
Proof.
  unfold auth_option, getAuthMethod. repeat (destruct (negb _); [by (intros [= <-] || (destruct (seed_ok _); by intros [= <-]))|]).
  by intros [= <-].
Qed.

(** With at most one method configured, none is passed over. *)
Lemma configured_auth_used seed_ok n a : (authCount n ≤ 1)%nat → auth_option seed_ok n = Ok a →
  (na_CredsFile n ≠ "" → a = Some (AuthCreds (na_CredsFile n))) ∧
  (na_NKeySeedFile n ≠ "" → a = Some (AuthNKey (na_NKeySeedFile n))) ∧
  (na_Token n ≠ "" → a = Some (AuthToken (na_Token n))) ∧
  (na_Username n ≠ "" → a = Some (AuthUser (na_Username n) (na_Password n))).
Proof.
  unfold authCount, auth_option. cbn [List.filter].
  destruct (String.eqb_spec (na_Username n) ""), (String.eqb_spec (na_Token n) ""),
    (String.eqb_spec (na_NKeySeedFile n) ""), (String.eqb_spec (na_CredsFile n) ""); cbn; try lia;
    intros _; try destruct (seed_ok _); intros [= <-]; split_and!; done.
Qed.

(** The credentials among the options of a connection. *)
Definition credentials (options : list nats_option) : list nats_auth :=
  omap (λ o, match o with Auth a => Some a | _ => None end) options.

(** The credential that a configuration names, when it names one. *)
Definition configured_credential (n : NATSConfig) (a : option nats_auth) : Prop :=
  (na_CredsFile n ≠ "" → a = Some (AuthCreds (na_CredsFile n))) ∧
  (na_NKeySeedFile n ≠ "" → a = Some (AuthNKey (na_NKeySeedFile n))) ∧
  (na_Token n ≠ "" → a = Some (AuthToken (na_Token n))) ∧
  (na_Username n ≠ "" → a = Some (AuthUser (na_Username n) (na_Password n))) ∧
  (na_CredsFile n = "" → na_NKeySeedFile n = "" → na_Token n = "" → na_Username n = "" → a = None).

Lemma no_auth_without seed_ok n a : auth_option seed_ok n = Ok a →
  na_CredsFile n = "" → na_NKeySeedFile n = "" → na_Token n = "" → na_Username n = "" → a = None.
Proof. unfold auth_option. intros Ha Hc Hs Ht Hu. rewrite Hc, Hs, Ht, Hu in Ha. by injection Ha. Qed.

Lemma tls_option_credentials cert_ok t l : tls_option cert_ok t = Ok l → credentials l = [].
Proof.
  unfold tls_option. destruct (negb (tl_Enable t)); [by intros [= <-]|]. cbv zeta.
  destruct (if (_ && _)%bool then _ else _) as [c|]; cbn [mbind result_bind]; [|done]. intros [= <-].
  by destruct (negb (String.eqb (tl_CAFile t) "")).
Qed.

Lemma buildNATSOptions_credentials seed_ok cert_ok n options : (authCount n ≤ 1)%nat →
  buildNATSOptions seed_ok cert_ok n = Ok options →
  ∃ auth, configured_credential n auth ∧ credentials options = match auth with Some a => [a] | None => [] end.
Proof.
  intros Hone. unfold buildNATSOptions, with_credentials.
  destruct (auth_option seed_ok n) as [auth|] eqn:Ha; cbn [mbind result_bind]; [|done].
  destruct (tls_option _ _) as [tls|] eqn:Ht; cbn [mbind result_bind]; [|done]. intros [= <-]. exists auth. split.
  - destruct (configured_auth_used _ _ _ Hone Ha) as (? & ? & ? & ?). split_and!; try done. by eapply no_auth_without.
  - apply tls_option_credentials in Ht. unfold credentials in *. cbn [omap list_omap].
    by destruct auth; cbn [app omap list_omap]; rewrite Ht.
Qed.

(** ** Properties *)

Section properties.
Context `{Net} `{SortSlice}.

(** C39: A broker is made of a configuration that passed its checks only when one of
    at most ten attempts to connect succeeded, to the configured urls and with the
    options made of the configuration: the credential among them is the one that
    is configured, and there is none when none is.  Its streams were discovered and
    are not none; if the key value store is enabled, every configured bucket could
    be opened and is there under its name, and if it is not, none is there; it has
    no consumer, no subscription and no watcher yet, and its policies are
    policies.  The attempts always come to an end, two seconds apart. *)
Theorem NewNATSBroker_correct e not_exist c :
  checked not_exist c →
  let urls := String.concat "," (na_URLs (cf_NATS c)) in
  (∀ options, ∃ r waits, connect initialConnectMaxAttempts 1 (ne_Connect e urls options) = Some (r, waits) ∧
     (length waits < initialConnectMaxAttempts)%nat ∧ Forall (λ d, d = initialConnectRetryWait) waits) ∧
  match NewNATSBroker e c with
  | Err _ => True
  | Ok (b, k) =>
      (∃ options n, buildNATSOptions (ne_seed_ok e) (ne_cert_ok e) (cf_NATS c) = Ok options ∧
         (1 ≤ n ≤ initialConnectMaxAttempts)%nat ∧ ne_Connect e urls options n = true ∧
         (∀ i, (1 ≤ i < n)%nat → ne_Connect e urls options i = false) ∧
         ∃ auth, configured_credential (cf_NATS c) auth ∧
           credentials options = match auth with Some a => [a] | None => [] end) ∧
      sr_streams (bk_resolver b) ≠ [] ∧
      (if kv_Enabled (cf_KV c) then
         Forall (λ name, ne_KeyValue e name = KVOpened) (BucketNames (cf_KV c)) ∧
         ∀ name, name ∈ kb_stores k ↔ name ∈ BucketNames (cf_KV c)
       else kb_stores k = ∅) ∧
      bk_consumers b = ∅ ∧ subs_of b = ∅ ∧ kb_watchers k = [] ∧
      parseDeliverPolicy (bk_DeliverPolicy b) ≠ None ∧ parseReplayPolicy (bk_ReplayPolicy b) ≠ None
  end.
Proof.
  intros Hck urls.
  assert (∀ options, ∃ r waits, connect initialConnectMaxAttempts 1 (ne_Connect e urls options) = Some (r, waits) ∧
    Forall (λ d, d = initialConnectRetryWait) waits ∧
    match r with
    | Ok n => (1 ≤ n ≤ initialConnectMaxAttempts)%nat ∧ ne_Connect e urls options n = true ∧
              (∀ k, (1 ≤ k < n)%nat → ne_Connect e urls options k = false) ∧ length waits = (n - 1)%nat
    | Err n => n = initialConnectMaxAttempts ∧
              (∀ k, (1 ≤ k ≤ n)%nat → ne_Connect e urls options k = false) ∧ length waits = (n - 1)%nat
    end) as Hconn.
  { intros options. apply connect_spec; unfold initialConnectMaxAttempts; lia. }
  split.
  { intros options. destruct (Hconn options) as (r & waits & Hr & Hw & Hs).
    exists r, waits. split_and!; [done| |done]. unfold initialConnectMaxAttempts in *. destruct r; lia. }
  unfold NewNATSBroker, initializeNATSConnection. fold urls.
  destruct (buildNATSOptions _ _ _) as [options|] eqn:Ho; cbn [mbind result_bind]; [|done].
  destruct (Hconn options) as (r & waits & Hr & _ & Hs). rewrite Hr. clear Hconn.
  destruct r as [n|n]; cbn [mbind result_bind]; [|done].
  destruct (ne_jetStream e); cbn [mbind result_bind]; [|done].
  unfold Discover. destruct (listStreams _) as [streams|]; [|done].
  destruct (Nat.eqb_spec (length streams) 0) as [|Hne]; [done|].
  assert (match (if kv_Enabled (cf_KV c) then initializeKVStores (ne_KeyValue e) (kv_Buckets (cf_KV c)) ∅ else Ok ∅) with
    | Ok stores => if kv_Enabled (cf_KV c) then Forall (λ name, ne_KeyValue e name = KVOpened) (BucketNames (cf_KV c)) ∧
         ∀ name, name ∈ stores ↔ name ∈ BucketNames (cf_KV c) else stores = ∅
    | Err _ => True end) as Hkv.
  { destruct (kv_Enabled (cf_KV c)); [|done]. pose proof (initializeKVStores_spec (ne_KeyValue e) (kv_Buckets (cf_KV c)) ∅) as Hi.
    destruct (initializeKVStores _ _ _); [|done]. destruct Hi as [Hall ->]. split.
    - unfold BucketNames. by apply Forall_fmap.
    - intros name. unfold BucketNames. rewrite union_empty_r_L. apply elem_of_list_to_set. }
  destruct (if kv_Enabled (cf_KV c) then initializeKVStores _ _ _ else _) as [stores|] eqn:Ek; cbn [mbind result_bind]; [|done].
  destruct Hs as (Hn & Hcn & Hlt & _). destruct (ck_policies _ _ Hck) as [Hp1 Hp2].
  split_and!; try done.
  - exists options, n. split_and!; try done; try lia. apply (buildNATSOptions_credentials (ne_seed_ok e) (ne_cert_ok e)); [apply Hck|done].
  - cbn. intros ->. by destruct Hne.
Qed.
End properties.

(** ** A concrete start *)

Definition demo_nats_env : nats_env :=
  MkNatsEnv (λ _, true) (λ _ _, true) (λ urls _ n, String.eqb urls "nats://localhost:4222" && (n =? 3)%nat) true
    ([MkStreamConfig "ALL" [">"] FileStorage None []], false) (λ _, KVOpened).
#[local] Notation demo_connects := (ne_Connect demo_nats_env "nats://localhost:4222" []).

Lemma NewNATSBroker_correct_witness :
  is_ok (@NewNATSBroker demo_net merge_SortSlice demo_nats_env default_config) = true ∧
  ∃ r waits, connect initialConnectMaxAttempts 1 demo_connects = Some (r, waits) ∧
     (length waits < initialConnectMaxAttempts)%nat ∧ Forall (λ d, d = initialConnectRetryWait) waits.
Proof.
  split; [vm_compute; reflexivity|].
  refine (proj1 (@NewNATSBroker_correct demo_net merge_SortSlice demo_nats_env (λ _, true) default_config _) []).
  apply validateConfig_spec. vm_compute. reflexivity.
Defined.

Example connects_at_the_third : connect initialConnectMaxAttempts 1 demo_connects =
  Some (Ok 3%nat, [initialConnectRetryWait; initialConnectRetryWait]).
Proof. reflexivity. Qed.
