(* ===== verification/App.v ===== *)
(** * Starting the features (internal/app/router.go, gateway.go, composite.go)

    With rules from files the router creates the consumers and subscriptions of
    the JetStream rules and the core subscriptions of the others, the gateway
    those of the rules that call out, and the composite starts them all; with
    rules from a bucket the router registers for its changes and subscribes to
    the core rules once the bucket is synchronised. *)

From S2P Require Import Prelude GoStrings GoFloat GoTime Value Types Env Demo Pattern Index Processor Loader.
From S2P Require Import StreamResolver Net HttpClient Publisher Site Subscription Responder Scheduler Broker RuleManager Config.
Local Open Scope string_scope.

Definition subscriptionSetupTimeout : Z := 60 * Second.

(** ** Subjects *)

Definition is_jetstream_rule_for (s : string) (r : Rule) : bool :=
  match tr_NATS (r_Trigger r) with Some t => negb (IsCore t) && String.eqb (nt_Subject t) s | None => false end.
Definition is_core_rule_for (s : string) (r : Rule) : bool :=
  match tr_NATS (r_Trigger r) with Some t => IsCore t && String.eqb (nt_Subject t) s | None => false end.

Definition jetStreamSubjects (p : Processor) : list string :=
  let needsJetStream s := existsb (is_jetstream_rule_for s) (AllRules p) in
  let coreOnly s := existsb (is_core_rule_for s) (AllRules p) in
  List.filter (λ s, negb (coreOnly s && negb (needsJetStream s))) (Subjects_ p).

(** The subjects of the rules that call out, each once, in the order of the rules. *)
Fixpoint outbound_subjects (seen : list string) (rules : list Rule) : list string :=
  match rules with
  | [] => []
  | r :: rest =>
      match tr_NATS (r_Trigger r), a_HTTP (r_Action r) with
      | Some t, Some _ =>
          if IsCore t then outbound_subjects seen rest
          else if mem (nt_Subject t) seen then outbound_subjects seen rest
          else nt_Subject t :: outbound_subjects (nt_Subject t :: seen) rest
      | _, _ => outbound_subjects seen rest
      end
  end.

(** ** Subscriptions *)

Inductive app_error :=
| StreamValidationFailed (e : resolver_error)
| SetupTimeout (subject : string)
| ConsumerSetupFailed (subject : string) (e : broker_error)
| SubscriptionSetupFailed (subject : string) (e : broker_error)
| StartFailed (e : subscription_error)
| ScheduleFailed (e : schedule_error).

Section app.
Context `{Env} `{Net} `{SortSlice} `{Cron}.

Definition setup_subject (b : Broker) (s : string) : NM (result app_error unit * Broker) :=
  created ← CreateConsumerForSubject b s;
  match created : result broker_error unit * Broker with
  | (Err e, b) => mret (Err (ConsumerSetupFailed s e), b)
  | (Ok _, b) =>
      added ← broker_AddSubscription b s;
      mret (map_err (SubscriptionSetupFailed s) added.1, added.2)
  end.

(** The loops of the two features; the gateway's has no deadline. *)
Fixpoint setup_all (deadline : option GoContext) (subjects : list string) (b : Broker)
    : NM (result app_error unit * Broker) :=
  match subjects with
  | [] => mret (Ok tt, b)
  | s :: rest =>
      w ← getN;
      if match deadline with Some ctx => ctx_Done ctx w | None => false end then mret (Err (SetupTimeout s), b)
      else
        out ← setup_subject b s;
        match out : result app_error unit * Broker with
        | (Err e, b) => mret (Err e, b)
        | (Ok _, b) => setup_all deadline rest b
        end
  end.

Definition setupSubscriptions (p : Processor) (b : Broker) : NM (result app_error unit * Broker) :=
  let subjects := jetStreamSubjects p in
  match ValidateSubjects (bk_resolver b) subjects with
  | Err e => mret (Err (StreamValidationFailed e), b)
  | Ok _ =>
      w ← getN;
      setup_all (Some (context_WithTimeout context_Background subscriptionSetupTimeout w)) subjects b
  end.

Definition setupOutboundSubscriptions (p : Processor) (b : Broker) : NM (result app_error unit * Broker) :=
  setup_all None (outbound_subjects [] (AllRules p)) b.

(** [NewRouterApp]; in the other mode the responder is registered with the
    manager of the bucket. *)
Definition NewRouterApp (kvRules : bool) (p : Processor) (re : Responder) (b : Broker)
    : NM (result app_error unit * Broker * Responder) :=
  if kvRules then mret (Ok tt, b, re)
  else
    out ← setupSubscriptions p b;
    match out : result app_error unit * Broker with
    | (Err e, b) => mret (Err e, b, re)
    | (Ok _, b) => re ← Rebuild re (AllRules p); mret (Ok tt, b, re)
    end.

Definition SetCoreRebuildFunc `{LoaderEnv} (c : Cluster) (re : Responder) : Cluster :=
  MkCluster (cl_loader c) (cl_currentRules c) (cl_processor c) (cl_st c) (cl_broker c) (cl_jobs c) (Some re) (cl_net c).
Definition SetScheduleRebuildFunc `{LoaderEnv} (c : Cluster) (jobs : list job) : Cluster :=
  MkCluster (cl_loader c) (cl_currentRules c) (cl_processor c) (cl_st c) (cl_broker c) (Some jobs) (cl_responder c) (cl_net c).

(** [RouterApp.Run] up to its wait: the bucket synchronised, the core rules are
    subscribed to whatever the callbacks saw. *)
Definition router_Run (c : Cluster) : Cluster :=
  match cl_responder c with
  | Some re => rebuild_core true (CoreRules c) c
  | None => c
  end.

(** [SetHTTPExecutor]: both transports carry out HTTP actions from now on. *)
Definition broker_SetHTTPExecutor (exec : HTTPActionExecutor) (b : Broker) (re : Responder) : Broker * Responder :=
  (match bk_subscriptionMgr b with
   | Some sm => with_manager b (SetHTTPExecutor sm (Some exec))
   | None => b
   end, MkResponder (re_publisher re) (Some exec) (re_subs re) (re_closed re)).

Definition NewGatewayApp (kvRules : bool) (exec : HTTPActionExecutor) (p : Processor) (re : Responder) (b : Broker)
    : NM (result app_error unit * Broker * Responder) :=
  let '(b, re) := broker_SetHTTPExecutor exec b re in
  if kvRules then mret (Ok tt, b, re)
  else out ← setupOutboundSubscriptions p b; mret (out.1, out.2, re).

(** The features of [createApp] that are on, in order; with rules from a bucket
    they wait for it afterwards.  The jobs are those of the scheduler. *)
Definition create_features (kvRules : bool) (fe : FeaturesConfig) (exec : HTTPActionExecutor)
    (p : Processor) (re : Responder) (b : Broker) : NM (result app_error (list job) * Broker * Responder) :=
  r ← (if fe_Router fe then NewRouterApp kvRules p re b else mret (Ok tt, b, re));
  match r : result app_error unit * Broker * Responder with
  | (Err e, b, re) => mret (Err e, b, re)
  | (Ok _, b, re) =>
      g ← (if fe_Gateway fe then NewGatewayApp kvRules exec p re b else mret (Ok tt, b, re));
      match g : result app_error unit * Broker * Responder with
      | (Err e, b, re) => mret (Err e, b, re)
      | (Ok _, b, re) =>
          mret (if fe_Scheduler fe then map_err ScheduleFailed (NewSchedulerApp kvRules (ScheduleRules p)) else Ok [], b, re)
      end
  end.

(** [CompositeApp.Run] up to the features' own loops: every subscription is
    started. *)
Definition composite_start (b : Broker) : NM (result app_error unit * Broker) :=
  match bk_subscriptionMgr b with
  | None => mret (Ok tt, b)
  | Some sm =>
      if (0 <? SubscriptionCount sm)%nat then
        out ← Start sm;
        mret (map_err StartFailed (out : result subscription_error unit * SubscriptionManager).1, with_manager b out.2)
      else mret (Ok tt, b)
  end.

(** [createApp] and then [Run], with rules from files. *)
Definition startup (fe : FeaturesConfig) (exec : HTTPActionExecutor) (p : Processor) (re : Responder) (b : Broker)
    : NM (result app_error (list job) * Broker * Responder) :=
  created ← create_features false fe exec p re b;
  match created : result app_error (list job) * Broker * Responder with
  | (Err e, b, re) => mret (Err e, b, re)
  | (Ok jobs, b, re) =>
      run ← composite_start b;
      mret (match (run : result app_error unit * Broker).1 with Ok _ => Ok jobs | Err e => Err e end, run.2, re)
  end.
End app.

(** The features' loops end in some order: the first error is the result, and
    cancels the others. *)
Fixpoint composite_wait {E} (ended : list (option E)) : option E :=
  match ended with
  | [] => None
  | Some e :: _ => Some e
  | None :: rest => composite_wait rest
  end.

(** [Close]: every feature and then what they share, each error kept. *)
Definition composite_Close {E} (features : list (option E)) (base : option E) : list E := omap id (features ++ [base])%list.

(** ** Specification *)

(** The rules a consumer serves, and those the gateway calls out for. *)
Definition jetstream_rule (s : string) (r : Rule) : Prop := is_jetstream_rule_for s r = true.
Definition outbound_rule (s : string) (r : Rule) : Prop := jetstream_rule s r ∧ a_HTTP (r_Action r) ≠ None.

(** The subjects the index can look up. *)
Definition indexable (r : Rule) (s : string) : Prop := ∃ t, tr_NATS (r_Trigger r) = Some t ∧ nt_Subject t = s ∧
  (containsWildcards s = true → is_ok (ValidatePattern s) = true).

Section specification.
Context `{Net} `{SortSlice}.

(** A subject has a consumer and a subscription to it, on its stream. *)
Definition served (b : Broker) (s : string) (running : bool) : Prop := ∃ name stream,
  bk_consumers b !! s = Some name ∧ FindStreamForSubject (bk_resolver b) s = Ok stream ∧
  subs_of b !! s = Some (MkSubscription s name stream (bk_WorkerCount b) running).

(** What setting up [subjects] keeps: what was served, and no subscription to
    anything else. *)
Record extends (subjects : list string) (b b' : Broker) : Prop := {
  ex_served : ∀ s, served b s false → served b' s false;
  ex_only : ∀ s, is_Some (subs_of b' !! s) → is_Some (subs_of b !! s) ∨ s ∈ subjects;
}.

(** The consumers that are created or updated, with their names and filters; and
    the filter that a durable consumer of a stream is left with. *)
Definition consumers_of (evs : list net_event) : list (string * string * string * bool) :=
  omap (λ ev, match ev with EvConsumer stream name filter_ ok => Some (stream, name, filter_, ok) | _ => None end) evs.
Definition keep_filter (stream name : string) (before : option string) (c : string * string * string * bool) : option string :=
  let '(st, n, f, ok) := c in if (ok && String.eqb st stream && String.eqb n name)%bool then Some f else before.
Definition filter_of (evs : list net_event) (stream name : string) : option string :=
  foldl (keep_filter stream name) None (consumers_of evs).

(** What is made of the consumers of [subjects]: each under the name of its
    subject, on the stream that captures it, filtered by it; and every name that
    is noted is that of a consumer that was there or was created. *)
Record makes (subjects : list string) (b b' : Broker) (evs : list net_event) : Prop := {
  mk_resolver : bk_resolver b' = bk_resolver b;
  mk_prefix : bk_ConsumerPrefix b' = bk_ConsumerPrefix b;
  mk_events : ∀ st n f ok, (st, n, f, ok) ∈ consumers_of evs →
    f ∈ subjects ∧ n = generateConsumerName (bk_ConsumerPrefix b) f ∧ FindStreamForSubject (bk_resolver b) f = Ok st;
  mk_table : ∀ k n, bk_consumers b' !! k = Some n →
    bk_consumers b !! k = Some n ∨ ∃ st, (st, n, k, true) ∈ consumers_of evs;
}.
End specification.

(** ** Lemmas *)

Lemma Add_subjects idx r now s :
  s ∈ Subjects (Add idx (Some r) now) ↔ s ∈ Subjects idx ∨ indexable r s.
Proof.
  unfold Subjects, indexable, Add. rewrite !elem_of_app.
  assert (∀ (m : gmap string (list Rule)), s ∈ map fst (map_to_list m) ↔ is_Some (m !! s)) as Hkeys.
  { intros m. rewrite list_elem_of_In, in_map_iff. split.
    - intros ([k l] & <- & Hin%list_elem_of_In%elem_of_map_to_list). cbn. eauto.
    - intros [l Hl]. exists (s, l). split; [done|]. by apply list_elem_of_In, elem_of_map_to_list. }
  destruct (tr_NATS (r_Trigger r)) as [t|] eqn:Et; [|naive_solver]. destruct (ix_stats idx) as [el pc m lu].
  destruct (containsWildcards (nt_Subject t)) eqn:Ew.
  - destruct (NewPatternMatcher (nt_Subject t)) as [pm|e] eqn:Epm.
    + assert (is_ok (ValidatePattern (nt_Subject t)) = true) as Hok
        by (unfold NewPatternMatcher in Epm; by destruct (ValidatePattern (nt_Subject t))).
      cbn [exactMatches patternRules]. rewrite map_app, elem_of_app. cbn.
      unfold rule_subject at 2. rewrite Et, list_elem_of_singleton. naive_solver.
    + assert (is_ok (ValidatePattern (nt_Subject t)) = false) as Hok
        by (unfold NewPatternMatcher in Epm; by destruct (ValidatePattern (nt_Subject t))).
      split; [naive_solver|]. intros [?|(t' & [= <-] & <- & Hv)]; [done|]. rewrite Hv in Hok; done.
  - cbn [exactMatches patternRules]. rewrite !Hkeys. destruct (decide (s = nt_Subject t)) as [->|Hne].
    + rewrite lookup_insert_eq. split; [|by left; eexists]. intros _. right. exists t. by rewrite Ew.
    + rewrite lookup_insert_ne by done. naive_solver.
Qed.

Lemma AddAll_subjects idx rules s :
  s ∈ Subjects (AddAll idx rules) ↔ s ∈ Subjects idx ∨ ∃ r, r ∈ map fst rules ∧ indexable r s.
Proof.
  revert idx. induction rules as [|[r now] rules IH]; intros idx; [cbn; set_solver|].
  change (AddAll idx ((r, now) :: rules)) with (AddAll (Add idx (Some r) now) rules).
  rewrite IH, Add_subjects. cbn. set_solver.
Qed.

(** The subjects of a processor whose rules were loaded. *)
Lemma LoadRules_subjects now p rules p' : LoadRules now p rules = Ok p' →
  AllRules p' = numbered_from 0 rules ∧
  ∀ s, s ∈ Subjects_ p' ↔ ∃ r, r ∈ AllRules p' ∧ indexable r s.
Proof.
  unfold LoadRules. set (q := MkProcessor _ _ _ _ _ _ _ _ _ _ _ _ _). intros Hl.
  assert (∀ path, default [] (p_httpExactPaths q !! path) = []) as Hx by (intros path; cbn; by rewrite lookup_empty).
  assert (holds_rules now q []) as Hq.
  { split; [done|done|done|]. intros path. unfold rules_in. by rewrite Hx. }
  pose proof (load_loop_spec now q 0 rules [] Hq Hx) as Hs. rewrite Hl in Hs.
  destruct Hs as (_ & [Ha _ Hi _]). unfold AllRules. rewrite Ha. split; [done|]. intros s.
  unfold Subjects_, SubscriptionSubjects. rewrite Hi, AddAll_subjects, map_map, map_id.
  split; [intros [Hn|?]; [by apply elem_of_nil in Hn|done]|by right].
Qed.

Lemma jetStreamSubjects_spec p s :
  s ∈ jetStreamSubjects p ↔ s ∈ Subjects_ p ∧
    ((∃ r, r ∈ AllRules p ∧ jetstream_rule s r) ∨ ∀ r, r ∈ AllRules p → is_core_rule_for s r = false).
Proof.
  unfold jetStreamSubjects. rewrite !list_elem_of_In, List.filter_In. apply and_iff_compat_l.
  destruct (existsb (is_jetstream_rule_for s) (AllRules p)) eqn:Ej.
  { rewrite andb_false_r. apply existsb_exists in Ej as (r & Hr%list_elem_of_In & Hj). naive_solver. }
  rewrite andb_true_r. destruct (existsb (is_core_rule_for s) (AllRules p)) eqn:Ec; cbn.
  - split; [done|]. apply existsb_exists in Ec as (r & Hr & Hc).
    intros [(r' & Hr'%list_elem_of_In & Hj)|Hall].
    + assert (existsb (is_jetstream_rule_for s) (AllRules p) = true) by (apply existsb_exists; eauto). congruence.
    + rewrite Hall in Hc by by apply list_elem_of_In. done.
  - split; [|done]. intros _. right. intros r Hr%list_elem_of_In. destruct (is_core_rule_for s r) eqn:E; [|done].
    assert (existsb (is_core_rule_for s) (AllRules p) = true) by (apply existsb_exists; eauto). congruence.
Qed.

Lemma jetStreamSubjects_loaded now p rules p' s : LoadRules now p rules = Ok p' →
  s ∈ jetStreamSubjects p' ↔ ∃ r, r ∈ numbered_from 0 rules ∧ jetstream_rule s r ∧ indexable r s.
Proof.
  intros [Ha Hs]%LoadRules_subjects. rewrite jetStreamSubjects_spec, Hs, <- Ha. unfold jetstream_rule, is_jetstream_rule_for, indexable.
  split.
  - intros [(r & Hr & t & Ht & <- & Hv) Hor]. destruct Hor as [(r' & Hr' & Hj)|Hall].
    + exists r'. split_and!; [done|done|]. destruct (tr_NATS (r_Trigger r')) as [t'|]; [|done].
      apply andb_prop in Hj as [_ Hj%String.eqb_eq]. eauto.
    + specialize (Hall r Hr). unfold is_core_rule_for in Hall. rewrite Ht, String.eqb_refl, andb_true_r in Hall.
      exists r. rewrite Ht, Hall, String.eqb_refl. eauto 10.
  - intros (r & Hr & Hj & Hi). split; [by exists r|]. left. by exists r.
Qed.

Lemma outbound_subjects_spec seen rules s :
  s ∈ outbound_subjects seen rules ↔ s ∉ seen ∧ ∃ r, r ∈ rules ∧ outbound_rule s r.
Proof.
  revert seen. induction rules as [|r rules IH]; intros seen; cbn [outbound_subjects].
  { split; [by intros ?%elem_of_nil|]. intros (_ & r & Hr%elem_of_nil & _). done. }
  assert ((∃ r', r' ∈ r :: rules ∧ outbound_rule s r') ↔ outbound_rule s r ∨ ∃ r', r' ∈ rules ∧ outbound_rule s r') as ->.
  { split; [intros (r' & [->|?]%elem_of_cons & ?); eauto|]. intros [?|(r' & ? & ?)]; [exists r|exists r'];
      (split; [apply elem_of_cons; auto|done]). }
  unfold outbound_rule at 1, jetstream_rule, is_jetstream_rule_for.
  destruct (tr_NATS (r_Trigger r)) as [t|]; [|rewrite IH; naive_solver].
  destruct (a_HTTP (r_Action r)); [|rewrite IH; naive_solver].
  destruct (IsCore t) eqn:Ec; [rewrite IH; cbn; naive_solver|]. cbn [negb andb].
  assert (mem (nt_Subject t) seen = true ↔ nt_Subject t ∈ seen) as Hm.
  { unfold mem. rewrite existsb_exists, list_elem_of_In.
    split; [by intros (x & Hx & ->%String.eqb_eq)|]. intros Hx. eexists. by rewrite String.eqb_refl. }
  destruct (mem (nt_Subject t) seen) eqn:Em.
  - rewrite IH. assert (nt_Subject t ∈ seen) as Hin by by apply Hm.
    split; [naive_solver|]. intros (Hs & [[Heq%String.eqb_eq _]|?]); [congruence|done].
  - rewrite elem_of_cons, IH, not_elem_of_cons.
    assert (nt_Subject t ∉ seen) as Hin by (intros Hin%Hm; congruence).
    destruct (decide (s = nt_Subject t)) as [->|Hne].
    + rewrite String.eqb_refl. naive_solver.
    + rewrite (proj2 (String.eqb_neq (nt_Subject t) s)) by congruence. naive_solver.
Qed.

Section setup.
Context `{Env} `{Net} `{SortSlice} `{Cron}.

Lemma extends_refl subjects b : extends subjects b b.
Proof. split; auto. Qed.

Lemma extends_trans l1 l2 b1 b2 b3 : extends l1 b1 b2 → extends l2 b2 b3 → extends (l1 ++ l2)%list b1 b3.
Proof. intros [Hs Ho] [Hs' Ho']. split; [auto|]. intros s [[?|?]%Ho|?]%Ho'; set_solver. Qed.

(** [setup_subject] changes only the tables, and in them only its subject. *)
Lemma broker_AddSubscription_spec b s :
  yields (broker_AddSubscription b s) (λ out evs,
    bk_resolver out.2 = bk_resolver b ∧ bk_WorkerCount out.2 = bk_WorkerCount b ∧
    bk_consumers out.2 = bk_consumers b ∧
    match out.1 with
    | Ok _ => ∃ name stream, bk_consumers b !! s = Some name ∧ FindStreamForSubject (bk_resolver b) s = Ok stream ∧
        subs_of out.2 = <[s := MkSubscription s name stream (bk_WorkerCount b) false]> (subs_of b)
    | Err _ => subs_of out.2 = subs_of b
    end).
Proof.
  unfold broker_AddSubscription, subs_of. destruct (bk_subscriptionMgr b) as [sm|] eqn:Hsm; [|by apply yields_ret; cbn; rewrite ?Hsm].
  destruct (bk_consumers b !! s) as [name|] eqn:Hc; [|by apply yields_ret; cbn; rewrite ?Hsm].
  destruct (FindStreamForSubject (bk_resolver b) s) as [stream|e] eqn:Hf; [|by apply yields_ret; cbn; rewrite ?Hsm].
  unfold AddSubscription. eapply (yields_bind _ _ (λ out evs, out = (Err (ConsumerUnavailable stream name), sm) ∨
    out = (Ok tt, with_subscriptions sm (<[s := MkSubscription s name stream (bk_WorkerCount b) false]> (sm_subscriptions sm))))).
  { eapply yields_bind; [by apply (yields_world _ (λ _, True))|]. intros [] ? _; apply yields_ret; auto. }
  intros out evs [->| ->]; apply yields_ret; cbn; eauto 10.
Qed.

Lemma setup_subject_spec b s :
  yields (setup_subject b s) (λ out evs, extends [s] b out.2 ∧ (is_ok out.1 = true → served out.2 s false)).
Proof.
  unfold setup_subject. eapply yields_bind; [apply CreateConsumerForSubject_spec|].
  intros [r b1] evs (Hm & Hr & Hw & _ & Hother & Hkeep & _). cbn [fst snd] in *.
  assert (∀ b2, bk_resolver b2 = bk_resolver b1 → bk_WorkerCount b2 = bk_WorkerCount b1 → bk_consumers b2 = bk_consumers b1 →
    (∀ k, subs_of b2 !! k = subs_of b1 !! k ∨ (k = s ∧ served b2 s false)) → extends [s] b b2) as Hext.
  { intros b2 Hr2 Hw2 Hc2 Hsub. assert (∀ k, subs_of b1 !! k = subs_of b !! k) as Hb1 by (intros k; unfold subs_of; by rewrite Hm).
    split.
    - intros k (name & stream & Hk & Hf & Hs). destruct (Hsub k) as [Hk'|[-> ?]]; [|done].
      exists name, stream. rewrite Hc2, Hr2, Hr, Hk', Hb1, Hw2, Hw. split_and!; try done.
      destruct (decide (k = s)) as [->|?]; [by apply Hkeep|by rewrite Hother].
    - intros k Hk. destruct (Hsub k) as [Hk'|[-> _]]; [left; by rewrite <- Hb1, <- Hk'|right; by apply list_elem_of_singleton]. }
  destruct r as [[]|e]; [|apply yields_ret; split; [by apply Hext; auto|done]].
  eapply yields_bind; [apply broker_AddSubscription_spec|].
  intros [r b2] evs' (Hr2 & Hw2 & Hc2 & Hs2). cbn [fst snd] in *. apply yields_ret. cbn [fst snd].
  destruct r as [[]|e]; cbn [map_err is_ok].
  - destruct Hs2 as (name & stream & Hn & Hf & Hs2).
    assert (served b2 s false) as Hserved.
    { exists name, stream. rewrite Hc2, Hr2, Hs2, Hw2, lookup_insert_eq. done. }
    split; [|done]. apply Hext; [done..|]. intros k. rewrite Hs2.
    destruct (decide (k = s)) as [->|?]; [by right|left]. by rewrite lookup_insert_ne.
  - split; [|done]. apply Hext; [done..|]. left. by rewrite Hs2.
Qed.

Lemma setup_all_spec deadline subjects b :
  yields (setup_all deadline subjects b) (λ out evs,
    extends subjects b out.2 ∧ (is_ok out.1 = true → ∀ s, s ∈ subjects → served out.2 s false)).
Proof.
  revert b. induction subjects as [|s rest IH]; intros b; cbn [setup_all].
  { apply yields_ret. split; [apply extends_refl|]. intros _ s Hs. by apply elem_of_nil in Hs. }
  eapply yields_bind; [apply yields_get|]. intros w evs ->.
  destruct (match deadline with Some ctx => ctx_Done ctx w | None => false end); [by apply yields_ret; split; [apply extends_refl|]|].
  eapply yields_bind; [apply setup_subject_spec|]. intros [[[]|e] b1] evs [He Hs]; cbn [fst snd] in *.
  - eapply yields_weaken; [apply IH|]. intros [r b2] evs' [He' Hs']. cbn [fst snd] in *.
    split; [by apply (extends_trans [s] rest b b1)|]. intros Hok k [->|Hk]%elem_of_cons; [|by apply Hs'].
    by apply (ex_served _ _ _ He'), Hs.
  - apply yields_ret. split; [|done]. destruct He as [Hs1 Ho]. split; [done|]. intros k [?|?]%Ho; set_solver.
Qed.

Lemma elem_of_if (c : bool) (l : list string) s : s ∈ (if c then l else []) ↔ c = true ∧ s ∈ l.
Proof. destruct c; [naive_solver|]. rewrite elem_of_nil. naive_solver. Qed.

(** The subjects the features set up. *)
Definition wanted (fe : FeaturesConfig) (p : Processor) : list string :=
  ((if fe_Router fe then jetStreamSubjects p else []) ++
   (if fe_Gateway fe then outbound_subjects [] (AllRules p) else []))%list.

(** What a feature that set up [subjects] comes to. *)
Definition set_up (subjects : list string) (b : Broker) {A} (r : result app_error A) (b' : Broker) : Prop :=
  extends subjects b b' ∧ (is_ok r = true → ∀ s, s ∈ subjects → served b' s false).

Lemma set_up_none b {A} (r : result app_error A) : set_up [] b r b.
Proof. split; [apply extends_refl|]. intros _ s Hs. by apply elem_of_nil in Hs. Qed.

Lemma set_up_failed subjects b {A} e : set_up subjects b (Err e : result app_error A) b.
Proof. split; [apply extends_refl|done]. Qed.

Lemma NewRouterApp_spec p re b :
  yields (NewRouterApp false p re b) (λ out evs,
    set_up (jetStreamSubjects p) b out.1.1 out.1.2 ∧
    (is_ok out.1.1 = true → re_closed re = false → ∀ s q, queue_of (AllRules p) s = Some q →
      MkCoreSubscription s q ∈ re_subs out.2 ∨ EvSubscribe s q false ∈ evs)).
Proof.
  unfold NewRouterApp.
  eapply (yields_bind _ _ (λ out evs, set_up (jetStreamSubjects p) b out.1 out.2)).
  { unfold setupSubscriptions. destruct (ValidateSubjects _ _); [|apply yields_ret, set_up_failed].
    eapply yields_bind; [apply yields_get|]. intros w evs ->. eapply yields_weaken; [apply setup_all_spec|done]. }
  intros [[[]|e] b'] evs Hs; [|by apply yields_ret].
  eapply yields_bind; [apply Rebuild_spec|]. intros re' evs' Hre. apply yields_ret. rewrite app_nil_r.
  split; [done|]. intros _ Hc s q Hq. rewrite Hc in Hre. destruct Hre as (_ & _ & _ & Hall & _). cbn [fst snd].
  destruct (Hall s q Hq); [by left|right]. apply elem_of_app. by right.
Qed.

Lemma NewGatewayApp_spec exec p re b :
  yields (NewGatewayApp false exec p re b) (λ out evs,
    set_up (outbound_subjects [] (AllRules p)) b out.1.1 out.1.2 ∧ re_subs out.2 = re_subs re).
Proof.
  unfold NewGatewayApp, setupOutboundSubscriptions.
  destruct (broker_SetHTTPExecutor exec b re) as [b1 re1] eqn:E.
  assert ((∀ s, served b s false → served b1 s false) ∧ subs_of b1 = subs_of b ∧ re_subs re1 = re_subs re) as (Hs & Hb & Hre).
  { unfold broker_SetHTTPExecutor in E. injection E as <- <-. unfold served, subs_of.
    destruct (bk_subscriptionMgr b) as [sm|] eqn:Hsm; cbn; rewrite ?Hsm; done. }
  eapply yields_bind; [apply setup_all_spec|]. intros [r b2] evs [[He Ho] Hok]. apply yields_ret.
  cbn [fst snd] in *. split; [|done]. split; [|done]. split; [auto|]. intros s Hk. rewrite <- Hb. by apply Ho.
Qed.

Lemma create_features_spec fe exec p re b :
  yields (create_features false fe exec p re b) (λ out evs,
    set_up (wanted fe p) b out.1.1 out.1.2 ∧
    (is_ok out.1.1 = true → fe_Router fe = true → re_closed re = false → ∀ s q, queue_of (AllRules p) s = Some q →
      MkCoreSubscription s q ∈ re_subs out.2 ∨ EvSubscribe s q false ∈ evs)).
Proof.
  unfold create_features, wanted.
  eapply (yields_bind _ _ (λ out evs, set_up (if fe_Router fe then jetStreamSubjects p else []) b out.1.1 out.1.2 ∧
    (is_ok out.1.1 = true → fe_Router fe = true → re_closed re = false → ∀ s q, queue_of (AllRules p) s = Some q →
      MkCoreSubscription s q ∈ re_subs out.2 ∨ EvSubscribe s q false ∈ evs))).
  { destruct (fe_Router fe); [eapply yields_weaken; [apply NewRouterApp_spec|]; naive_solver|].
    apply yields_ret. by split; [apply set_up_none|]. }
  intros [[[[]|e] b1] re1] evs [[He Hs] Hr]; cbn [fst snd] in *.
  2: { apply yields_ret. split; [|done]. split; [|done]. destruct He as [? Ho]. split; [done|]. intros s [?|?]%Ho; set_solver. }
  eapply (yields_bind _ _ (λ out evs, set_up (if fe_Gateway fe then outbound_subjects [] (AllRules p) else []) b1 out.1.1 out.1.2 ∧
    re_subs out.2 = re_subs re1)).
  { destruct (fe_Gateway fe); [apply NewGatewayApp_spec|]. by apply yields_ret; split; [apply set_up_none|]. }
  intros [[r b2] re2] evs' [[He' Hs'] Hre]; cbn [fst snd] in *. assert (extends ((if fe_Router fe then jetStreamSubjects p else []) ++
    (if fe_Gateway fe then outbound_subjects [] (AllRules p) else []))%list b b2) as Hext by by eapply extends_trans.
  destruct r as [[]|e]; apply yields_ret; cbn [fst snd]; [|by split].
  rewrite app_nil_r. split.
  - split; [done|]. intros _ s [Hin|Hin]%elem_of_app; [by apply (ex_served _ _ _ He'), Hs|by apply Hs'].
  - intros _ Hf Hc s q Hq. rewrite Hre. destruct (Hr eq_refl Hf Hc s q Hq); [by left|right]. apply elem_of_app. by left.
Qed.

Lemma start_all_spec sm subs : NoDup (map fst subs) →
  yields (start_all sm subs) (λ out evs,
    (∀ k, k ∉ map fst subs → sm_subscriptions out.2 !! k = sm_subscriptions sm !! k) ∧
    (∀ k sub, (k, sub) ∈ subs → sm_subscriptions sm !! k = Some sub → is_Some (sm_subscriptions out.2 !! k)) ∧
    (is_ok out.1 = true → ∀ k sub, (k, sub) ∈ subs →
       sm_subscriptions out.2 !! k = Some (started sub) ∧ EvStart (sub_Subject sub) ∈ evs)).
Proof.
  revert sm. induction subs as [|[k0 sub0] rest IH]; intros sm; cbn [start_all map fst].
  { intros _. apply yields_ret. split_and!; [done| |]; intros; by set_solver. }
  intros [Hni Hnd]%NoDup_cons. unfold startSubscription.
  eapply (yields_bind _ _ (λ r evs, (r = Ok (started sub0) ∧ evs = [EvStart (sub_Subject sub0)]) ∨
    (r = Err (IteratorFailed (sub_Subject sub0)) ∧ evs = []))).
  { eapply yields_bind; [by apply (yields_world _ (λ _, True))|]. intros [] ? [_ ->]; cbn [negb].
    - eapply yields_bind; [apply yields_emit|]. intros [] ? ->. apply yields_ret. auto.
    - apply yields_ret. auto. }
  intros r evs [[-> ->]|[-> ->]].
  2: { apply yields_ret. split_and!; [done| |done]. cbn. intros k sub _ ->. done. }
  eapply yields_weaken; [by apply IH|]. intros [r sm'] evs' (Hn & Hk & Hok). cbn [fst snd with_subscriptions sm_subscriptions] in *.
  split_and!.
  - intros k [Hne Hk']%not_elem_of_cons. rewrite Hn by done. by rewrite lookup_insert_ne.
  - intros k sub [[= -> ->]|Hin]%elem_of_cons Hs; [by rewrite Hn, lookup_insert_eq|].
    eapply Hk; [done|]. rewrite lookup_insert_ne; [done|]. intros <-. apply Hni.
    apply list_elem_of_fmap. by exists (k0, sub).
  - intros Hr k sub [[= -> ->]|Hin]%elem_of_cons.
    + rewrite Hn, lookup_insert_eq by done. split; [done|]. by apply elem_of_app; left; left.
    + destruct (Hok Hr k sub Hin) as [-> He]. split; [done|]. by apply elem_of_app; right.
Qed.

Lemma composite_start_spec b :
  yields (composite_start b) (λ out evs,
    (∀ s, is_Some (subs_of out.2 !! s) → is_Some (subs_of b !! s)) ∧
    (is_ok out.1 = true → ∀ s, served b s false → served out.2 s true ∧ EvStart s ∈ evs)).
Proof.
  unfold composite_start, served, subs_of. destruct (bk_subscriptionMgr b) as [sm|] eqn:Hsm.
  2: { apply yields_ret. cbn. rewrite Hsm. split; [done|]. intros _ s (? & ? & _ & _ & Hs). by rewrite lookup_empty in Hs. }
  unfold SubscriptionCount. destruct (Nat.ltb_spec 0 (size (sm_subscriptions sm))) as [Hpos|Hz].
  2: { apply yields_ret. cbn. rewrite Hsm. split; [done|]. intros _ s (? & ? & _ & _ & Hs).
       assert (sm_subscriptions sm = ∅) as He by (apply map_size_empty_inv; lia). by rewrite He, lookup_empty in Hs. }
  unfold Start. rewrite (proj2 (Nat.eqb_neq _ 0)) by lia.
  eapply (yields_bind _ _ (λ out evs,
    (∀ s, is_Some (sm_subscriptions out.2 !! s) → is_Some (sm_subscriptions sm !! s)) ∧
    (is_ok out.1 = true → ∀ s sub, sm_subscriptions sm !! s = Some sub →
       sm_subscriptions out.2 !! s = Some (started sub) ∧ EvStart (sub_Subject sub) ∈ evs))).
  { eapply yields_bind; [apply (yields_world _ (λ l, l ≡ₚ map_to_list (sm_subscriptions sm))), range_order_perm|].
    intros subs ? [Hp ->]. assert (NoDup (map fst subs)) as Hnd.
    { change (NoDup (subs.*1)). rewrite Hp. apply NoDup_fst_map_to_list. }
    eapply yields_weaken; [by apply start_all_spec|]. intros [r sm'] evs (Hn & _ & Hok). cbn [fst snd] in *. split.
    - intros s Hs. destruct (sm_subscriptions sm !! s) as [sub|] eqn:E; [done|]. rewrite Hn, E in Hs; [done|].
      intros ([k sub] & -> & Hin)%list_elem_of_fmap. rewrite Hp in Hin. apply elem_of_map_to_list in Hin. cbn in E. congruence.
    - intros Hr s sub Hs. apply Hok; [done|]. rewrite Hp. by apply elem_of_map_to_list. }
  intros [r sm'] evs [Hd Hok]. apply yields_ret. cbn [fst snd with_manager bk_subscriptionMgr bk_resolver bk_consumers bk_WorkerCount] in *.
  split; [done|]. destruct r as [[]|e]; cbn [map_err is_ok]; [|done]. intros _ s (name & stream & Hn & Hf & Hs).
  destruct (Hok eq_refl s _ Hs) as [Hs' He]. rewrite app_nil_r. split; [|done]. by exists name, stream.
Qed.

Lemma startup_spec fe exec p re b :
  yields (startup fe exec p re b) (λ out evs,
    (∀ s, is_Some (subs_of out.1.2 !! s) → is_Some (subs_of b !! s) ∨ s ∈ wanted fe p) ∧
    (is_ok out.1.1 = true →
       (∀ s, s ∈ wanted fe p → served out.1.2 s true ∧ EvStart s ∈ evs) ∧
       (fe_Router fe = true → re_closed re = false → ∀ s q, queue_of (AllRules p) s = Some q →
          MkCoreSubscription s q ∈ re_subs out.2 ∨ EvSubscribe s q false ∈ evs))).
Proof.
  unfold startup. eapply yields_bind; [apply create_features_spec|].
  intros [[[jobs|e] b1] re1] evs [[[_ Ho] Hs] Hc]; cbn [fst snd] in *; [|by apply yields_ret].
  eapply yields_bind; [apply composite_start_spec|]. intros [r b2] evs' [Hd Hr]. apply yields_ret. cbn [fst snd] in *.
  rewrite app_nil_r. split; [intros s Hk; by apply Ho, Hd|].
  destruct r as [[]|e]; [|done]. intros _. split.
  - intros s Hn. destruct (Hr eq_refl s (Hs eq_refl s Hn)). split; [done|]. apply elem_of_app. by right.
  - intros Hf Hre s q Hq. destruct (Hc eq_refl Hf Hre s q Hq); [by left|right]. apply elem_of_app. by left.
Qed.

(** *** The consumers that are made *)

Lemma makes_quiet subjects b b' evs :
  bk_resolver b' = bk_resolver b → bk_ConsumerPrefix b' = bk_ConsumerPrefix b → bk_consumers b' = bk_consumers b →
  consumers_of evs = [] → makes subjects b b' evs.
Proof.
  intros Hr Hp Hc He. split; [done|done| |].
  - intros st n f ok. rewrite He. by intros ?%elem_of_nil.
  - intros k n. rewrite Hc. by left.
Qed.

Lemma makes_trans l1 l2 b1 b2 b3 evs evs' :
  makes l1 b1 b2 evs → makes l2 b2 b3 evs' → makes (l1 ++ l2)%list b1 b3 (evs ++ evs')%list.
Proof.
  unfold consumers_of. intros [Hr Hp He Ht] [Hr' Hp' He' Ht']. rewrite Hr in *. rewrite Hp in *.
  split; [done|done| |]; unfold consumers_of in *; rewrite omap_app.
  - intros st n f ok [Hin|Hin]%elem_of_app; [destruct (He _ _ _ _ Hin) as (? & ? & ?)|destruct (He' _ _ _ _ Hin) as (? & ? & ?)];
      (split_and!; [set_solver|done|done]).
  - intros k n [Hk|[st Hin]]%Ht'; [|right; exists st; apply elem_of_app; by right].
    destruct (Ht _ _ Hk) as [?|[st Hin]]; [by left|right; exists st; apply elem_of_app; by left].
Qed.

Lemma makes_mono l l' b b' evs : l ⊆ l' → makes l b b' evs → makes l' b b' evs.
Proof. intros Hl [Hr Hp He Ht]. split; [done|done| |done]. intros st n f ok Hin. destruct (He _ _ _ _ Hin). set_solver. Qed.

Lemma CreateConsumerForSubject_makes b s : yields (CreateConsumerForSubject b s) (λ out evs, makes [s] b out.2 evs).
Proof.
  unfold CreateConsumerForSubject. destruct (bk_consumers b !! s) eqn:Hc; [by apply yields_ret, makes_quiet|].
  destruct (FindStreamForSubject (bk_resolver b) s) as [stream|e] eqn:Hf; [|by apply yields_ret, makes_quiet].
  destruct (parseDeliverPolicy _); [|by apply yields_ret, makes_quiet].
  destruct (parseReplayPolicy _); [|by apply yields_ret, makes_quiet].
  eapply yields_bind; [by apply (yields_world _ (λ _, True))|]. intros ok ? [_ ->].
  eapply yields_bind; [apply yields_emit|]. intros [] ? ->.
  assert (∀ st n f ok', (st, n, f, ok') ∈ consumers_of [EvConsumer stream (generateConsumerName (bk_ConsumerPrefix b) s) s ok] →
    f ∈ [s] ∧ n = generateConsumerName (bk_ConsumerPrefix b) f ∧ FindStreamForSubject (bk_resolver b) f = Ok st) as He.
  { intros st n f ok' Hin. cbn in Hin. apply list_elem_of_singleton in Hin as [= -> -> -> ->]. split_and!; [by left|done|done]. }
  destruct ok; cbn [negb]; apply yields_ret; cbn [app]; (split; [done|done|exact He|]).
  - intros k n. cbn. destruct (decide (k = s)) as [->|Hne]; [|rewrite lookup_insert_ne by done; by left].
    rewrite lookup_insert_eq. intros [= <-]. right. exists stream. by left.
  - by left.
Qed.

Lemma broker_AddSubscription_makes b s : yields (broker_AddSubscription b s) (λ out evs, makes [] b out.2 evs).
Proof.
  unfold broker_AddSubscription. destruct (bk_subscriptionMgr b) as [sm|]; [|by apply yields_ret, makes_quiet].
  destruct (bk_consumers b !! s) as [name|]; [|by apply yields_ret, makes_quiet].
  destruct (FindStreamForSubject (bk_resolver b) s) as [stream|e]; [|by apply yields_ret, makes_quiet].
  unfold AddSubscription. eapply (yields_bind _ _ (λ _ evs, evs = [])).
  { eapply yields_bind; [by apply (yields_world _ (λ _, True))|]. intros [] ? [_ ->]; by apply yields_ret. }
  intros out ? ->. by apply yields_ret, makes_quiet.
Qed.

Lemma setup_subject_makes b s : yields (setup_subject b s) (λ out evs, makes [s] b out.2 evs).
Proof.
  unfold setup_subject. eapply yields_bind; [apply CreateConsumerForSubject_makes|]. intros [r b1] evs Hm. cbn [snd] in Hm.
  destruct r as [[]|e]; [|apply yields_ret; by rewrite app_nil_r].
  eapply yields_bind; [apply broker_AddSubscription_makes|]. intros [r b2] evs' Hm'. cbn [snd] in Hm'.
  apply yields_ret. rewrite app_nil_r. by apply (makes_trans [s] [] b b1).
Qed.

Lemma setup_all_makes deadline subjects b : yields (setup_all deadline subjects b) (λ out evs, makes subjects b out.2 evs).
Proof.
  revert b. induction subjects as [|s rest IH]; intros b; cbn [setup_all]; [by apply yields_ret, makes_quiet|].
  eapply yields_bind; [apply yields_get|]. intros w evs ->.
  destruct (match deadline with Some ctx => ctx_Done ctx w | None => false end); [by apply yields_ret, makes_quiet|].
  eapply yields_bind; [apply setup_subject_makes|]. intros [[[]|e] b1] evs Hm; cbn [fst snd] in *.
  - eapply yields_weaken; [apply IH|]. intros out evs' Hm'.
    exact (makes_trans [s] rest b b1 _ evs evs' Hm Hm').
  - apply yields_ret. rewrite app_nil_r. eapply makes_mono; [|exact Hm]. set_solver.
Qed.

Lemma consumers_of_none {A} (f : A → net_event) l : (∀ x, match f x with EvConsumer _ _ _ _ => False | _ => True end) → consumers_of (map f l) = [].
Proof. intros Hf. induction l as [|x l IH]; [done|]. cbn. specialize (Hf x). by destruct (f x). Qed.

Lemma Rebuild_quiet re rules : yields (Rebuild re rules) (λ _ evs, consumers_of evs = []).
Proof.
  unfold Rebuild. destruct (re_closed re); [by apply yields_ret|].
  eapply yields_bind; [apply unsubscribeAll_spec|]. intros [] ? ->. destruct (foldl collect_core (∅, []) rules) as [queues order].
  eapply yields_bind; [apply subscribe_all_spec|]. intros subs evs (oks & _ & -> & _). apply yields_ret.
  unfold consumers_of. rewrite !omap_app. fold (consumers_of (map (λ s, EvUnsubscribe (cs_Subject s)) (re_subs re))).
  rewrite consumers_of_none by done. rewrite app_nil_r. cbn [app]. revert oks.
  induction order as [|s order IH]; intros [|ok oks]; [done..|]. cbn. apply IH.
Qed.

Lemma NewRouterApp_makes p re b : yields (NewRouterApp false p re b) (λ out evs, makes (jetStreamSubjects p) b out.1.2 evs).
Proof.
  unfold NewRouterApp. eapply (yields_bind _ _ (λ out evs, makes (jetStreamSubjects p) b out.2 evs)).
  { unfold setupSubscriptions. destruct (ValidateSubjects _ _); [|by apply yields_ret, makes_quiet].
    eapply yields_bind; [apply yields_get|]. intros w evs ->. apply setup_all_makes. }
  intros [[[]|e] b'] evs Hm; cbn [snd] in Hm; [|apply yields_ret; by rewrite app_nil_r].
  eapply yields_bind; [apply Rebuild_quiet|]. intros re' evs' He. apply yields_ret. rewrite app_nil_r.
  eapply makes_mono; [|apply (makes_trans (jetStreamSubjects p) [] b b'); [exact Hm|by apply makes_quiet]]. by rewrite app_nil_r.
Qed.

Lemma NewGatewayApp_makes exec p re b :
  yields (NewGatewayApp false exec p re b) (λ out evs, makes (outbound_subjects [] (AllRules p)) b out.1.2 evs).
Proof.
  unfold NewGatewayApp, setupOutboundSubscriptions. destruct (broker_SetHTTPExecutor exec b re) as [b1 re1] eqn:E.
  assert (makes [] b b1 []) as Hb.
  { unfold broker_SetHTTPExecutor in E. injection E as <- _. by destruct (bk_subscriptionMgr b); apply makes_quiet. }
  eapply yields_bind; [apply setup_all_makes|]. intros [r b2] evs Hm. apply yields_ret. rewrite app_nil_r.
  by apply (makes_trans [] (outbound_subjects [] (AllRules p)) b b1 b2 []).
Qed.

Lemma create_features_makes fe exec p re b :
  yields (create_features false fe exec p re b) (λ out evs, makes (wanted fe p) b out.1.2 evs).
Proof.
  unfold create_features, wanted.
  eapply (yields_bind _ _ (λ out evs, makes (if fe_Router fe then jetStreamSubjects p else []) b out.1.2 evs)).
  { destruct (fe_Router fe); [apply NewRouterApp_makes|by apply yields_ret, makes_quiet]. }
  intros [[[[]|e] b1] re1] evs Hm; cbn [fst snd] in *;
    [|apply yields_ret; rewrite app_nil_r; eapply makes_mono; [|exact Hm]; set_solver].
  eapply (yields_bind _ _ (λ out evs, makes (if fe_Gateway fe then outbound_subjects [] (AllRules p) else []) b1 out.1.2 evs)).
  { destruct (fe_Gateway fe); [apply NewGatewayApp_makes|by apply yields_ret, makes_quiet]. }
  intros [[r b2] re2] evs' Hm'; cbn [fst snd] in *.
  destruct r as [[]|e]; apply yields_ret; cbn [fst snd]; rewrite app_nil_r; by eapply makes_trans.
Qed.

Lemma composite_start_makes b : yields (composite_start b) (λ out evs, makes [] b out.2 evs).
Proof.
  unfold composite_start. destruct (bk_subscriptionMgr b) as [sm|]; [|by apply yields_ret, makes_quiet].
  destruct (0 <? SubscriptionCount sm)%nat; [|by apply yields_ret, makes_quiet].
  eapply (yields_bind _ _ (λ _ evs, consumers_of evs = [])); [|intros out evs He; apply yields_ret; rewrite app_nil_r; by apply makes_quiet].
  unfold Start. destruct (_ =? _)%nat; [by apply yields_ret|].
  eapply yields_bind; [by apply (yields_world _ (λ _, True))|]. intros subs ? [_ ->]. cbn [app].
  revert sm. induction subs as [|[k sub] rest IH]; intros sm; cbn [start_all]; [by apply yields_ret|].
  eapply (yields_bind _ _ (λ _ evs, consumers_of evs = [])).
  - unfold startSubscription. eapply yields_bind; [by apply (yields_world _ (λ _, True))|]. intros [] ? [_ ->]; cbn [negb]; [|by apply yields_ret].
    eapply yields_bind; [apply yields_emit|]. intros [] ? ->. by apply yields_ret.
  - intros [sub'|e] evs He; [|apply yields_ret; by rewrite app_nil_r].
    eapply yields_weaken; [apply IH|]. intros out evs' He'. unfold consumers_of in *. by rewrite omap_app, He, He'.
Qed.

Lemma startup_makes fe exec p re b : yields (startup fe exec p re b) (λ out evs, makes (wanted fe p) b out.1.2 evs).
Proof.
  unfold startup. eapply yields_bind; [apply create_features_makes|]. intros [[[jobs|e] b1] re1] evs Hm; cbn [fst snd] in *;
    [|apply yields_ret; by rewrite app_nil_r].
  eapply yields_bind; [apply composite_start_makes|]. intros [r b2] evs' Hm'. apply yields_ret. cbn [fst snd] in *.
  rewrite app_nil_r. eapply makes_mono; [|by apply (makes_trans (wanted fe p) [] b b1)]. by rewrite app_nil_r.
Qed.

(** A consumer that only one subject updates is left with that subject's filter. *)
Lemma filter_of_only evs stream name s : (stream, name, s, true) ∈ consumers_of evs →
  (∀ f ok, (stream, name, f, ok) ∈ consumers_of evs → f = s) → filter_of evs stream name = Some s.
Proof.
  unfold filter_of. intros Hin Hall. induction (consumers_of evs) as [|[[[st n] f] ok] l IH] using rev_ind; [by apply elem_of_nil in Hin|].
  rewrite foldl_app. cbn. destruct (ok && String.eqb st stream && String.eqb n name)%bool eqn:E.
  - apply andb_true_iff in E as [[-> ->%String.eqb_eq]%andb_true_iff ->%String.eqb_eq]. f_equal. apply (Hall f true).
    apply elem_of_app. right. by left.
  - apply IH; [|intros f' ok' Hf; apply (Hall f' ok'), elem_of_app; by left].
    apply elem_of_app in Hin as [?|[= <- <- <- <-]%list_elem_of_singleton]; [done|]. by rewrite !String.eqb_refl in E.
Qed.
End setup.

(** ** Properties *)

Section properties.
Context `{Env} `{Net} `{SortSlice} `{Cron}.

(** C14: A start with rules from files serves what its features need and nothing
    else.  Whatever comes of it, a subscription or a consumer is made only for the
    subject of a JetStream rule that the router is to serve or that calls out
    through the gateway; every consumer has the name of its subject, is on the
    stream that captures it, and is filtered by it.  When the start succeeds, of a
    broker that has no consumers yet, each of those subjects has had its durable
    consumer created and has a running subscription to it; the consumer is left with
    the filter of its subject if no other subject has the same consumer name (two
    can, [consumer_names_collide], and then the one created last has the
    filter); and with the router on every subject of a core rule has its core
    subscription unless the connection refused it. *)
Theorem startup_serves now p0 rules p fe exec re b :
  LoadRules now p0 rules = Ok p → re_closed re = false → bk_consumers b = ∅ →
  let needed s := ∃ r, r ∈ numbered_from 0 rules ∧
    ((fe_Router fe = true ∧ jetstream_rule s r ∧ indexable r s) ∨ (fe_Gateway fe = true ∧ outbound_rule s r)) in
  let consumer_name := generateConsumerName (bk_ConsumerPrefix b) in
  yields (startup fe exec p re b) (λ out evs,
    let b' := out.1.2 in
    (∀ s, is_Some (subs_of b' !! s) → is_Some (subs_of b !! s) ∨ needed s) ∧
    (∀ stream name s ok, (stream, name, s, ok) ∈ consumers_of evs →
       needed s ∧ name = consumer_name s ∧ FindStreamForSubject (bk_resolver b) s = Ok stream) ∧
    (is_ok out.1.1 = true →
       (∀ s, needed s → ∃ stream, FindStreamForSubject (bk_resolver b) s = Ok stream ∧
          (stream, consumer_name s, s, true) ∈ consumers_of evs ∧
          ((∀ s', needed s' → consumer_name s' = consumer_name s → s' = s) →
             filter_of evs stream (consumer_name s) = Some s) ∧
          subs_of b' !! s = Some (MkSubscription s (consumer_name s) stream (bk_WorkerCount b') true) ∧ EvStart s ∈ evs) ∧
       (fe_Router fe = true → ∀ s q, queue_of (numbered_from 0 rules) s = Some q →
          MkCoreSubscription s q ∈ re_subs out.2 ∨ EvSubscribe s q false ∈ evs))).
Proof.
  intros Hl Hre Hnone needed consumer_name. destruct (LoadRules_subjects _ _ _ _ Hl) as [Ha _].
  assert (∀ s, s ∈ wanted fe p ↔ needed s) as Hw.
  { intros s. unfold wanted, needed.
    rewrite elem_of_app, !elem_of_if, (jetStreamSubjects_loaded _ _ _ _ _ Hl), outbound_subjects_spec, Ha. split.
    - intros [(? & r & ? & ? & ?)|(? & _ & r & ? & ?)]; exists r; auto.
    - intros (r & Hr & [(? & ? & ?)|[? ?]]); [left; eauto 6|right]. split_and!; [done|by apply not_elem_of_nil|eauto]. }
  eapply yields_weaken; [apply (yields_conj _ _ _ (startup_spec fe exec p re b) (startup_makes fe exec p re b))|].
  intros out evs [(Ho & Hok) [Hmr Hmp Hme Hmt]]. cbn zeta. split_and!.
  - intros s Hs. destruct (Ho s Hs) as [?|?%Hw]; auto.
  - intros stream name s ok Hin. destruct (Hme _ _ _ _ Hin) as (?%Hw & ? & ?). done.
  - intros Hr. destruct (Hok Hr) as [Hs Hc]. split; [|intros Hf s q Hq; apply Hc; [done|done|by rewrite Ha]].
    intros s Hn. destruct (Hs s (proj2 (Hw s) Hn)) as [(name & stream & Hname & Hf & Hsub) Hstart].
    destruct (Hmt _ _ Hname) as [Hc'|[st Hin]]; [by rewrite Hnone, lookup_empty in Hc'|].
    destruct (Hme _ _ _ _ Hin) as (_ & -> & Hst). rewrite Hmr in Hf. rewrite Hf in Hst. injection Hst as ->.
    exists st. split_and!; try done. intros Honly. apply filter_of_only; [done|]. intros f ok' Hf'.
    destruct (Hme _ _ _ _ Hf') as (Hn' & Heq & _). apply Honly; [by apply Hw|done].
Qed.
End properties.

(** ** A concrete start *)

#[local] Instance start_cron : Cron := {| gocron_CronJob := λ s, negb (String.eqb s "") |}.
#[local] Existing Instances demo demo_net merge_SortSlice.

Definition demo_stream : StreamConfig := MkStreamConfig "ALL" [">"] FileStorage None [].

(** A broker that has discovered its streams and initialised its manager. *)
Definition demo_broker : Broker :=
  RefreshStreams (MkBroker ∅ (Some (MkSubscriptionManager demo_publisher None 0 ∅)) NewStreamResolver "rr" "all" "instant" 1)
    ([demo_stream], false).
Definition demo_rules : list Rule := [demo_rule].
Definition demo_features : FeaturesConfig := MkFeatures true false false.
Definition demo_processor : Processor :=
  match LoadRules (MkTime 0 0) (NewProcessor None None None (MkTime 0 0)) demo_rules with Ok p => p | Err _ => NewProcessor None None None (MkTime 0 0) end.
Definition demo_responder : Responder := NewResponder demo_publisher None.
Definition demo_executor : HTTPActionExecutor := Executor_HTTPActionExecutor (MkExecutor None).

Lemma startup_serves_witness :
  yields (startup demo_features demo_executor demo_processor demo_responder demo_broker)
    (λ out evs, is_ok out.1.1 = true → filter_of evs "ALL" "rr-sensors-wildcard" = Some "sensors.*" ∧ EvStart "sensors.*" ∈ evs) ∧
  is_ok (startup demo_features demo_executor demo_processor demo_responder demo_broker (demo_net_start [])).1.1.1 = true.
Proof.
  split; [|vm_compute; reflexivity].
  eapply yields_weaken.
  - apply (startup_serves (MkTime 0 0) (NewProcessor None None None (MkTime 0 0)) demo_rules);
      [vm_compute; reflexivity|reflexivity|reflexivity].
  - intros out evs (_ & _ & Hs) Hok. destruct (Hs Hok) as [Hs1 _]. destruct (Hs1 "sensors.*") as (stream & Hf & _ & Hfilter & _ & Hstart).
    + eexists. split; [by left|]. left. split_and!; [reflexivity|reflexivity|]. eexists.
      split_and!; [reflexivity|reflexivity|]. intros _. vm_compute. reflexivity.
    + split; [|exact Hstart].
      assert (stream = "ALL") as -> by (vm_compute in Hf; by injection Hf as <-). apply Hfilter.
      intros s' (r & Hr & Hor) _. apply list_elem_of_singleton in Hr as ->. destruct Hor as [(_ & Hj & _)|[Hg _]]; [|done].
      assert (String.eqb "sensors.*" s' = true) as Heq by exact Hj. by apply String.eqb_eq in Heq.
Defined.

(** With rules from a bucket the subscriptions already run when the composite
    starts them: each gets a second iterator, and removing the subscription
    stops only that one. *)
Lemma composite_starts_again :
  let b := demo_broker in
  let m := b ← (added ← broker_AddAndStartSubscription b "orders"; mret (M:=NM) added.2);
           run ← composite_start b;
           broker_RemoveSubscription run.2 "orders" in
  List.filter (λ e, match e with EvStart _ | EvStop _ => true | _ => false end) (n_log (m (demo_net_start [])).2) =
    [EvStart "orders"; EvStart "orders"; EvStop "orders"].
Proof. vm_compute. reflexivity. Qed.
