(* ===== verification/Lifecycle.v ===== *)
(** * Running and reloading (internal/lifecycle/lifecycle.go, cmd/rule-router/main.go)

    [RunWithReload] creates an application, runs it, waits for a signal or for
    the application's own end, stops and closes it, and after an accepted reload
    begins again.  What the environment does in each generation (the result of
    the factory, what the wait loop's [select] receives, in order, how the
    application stops and closes) is the input; the model computes what the
    function does and its result.  The rules that a reload is checked against
    are loaded by the same loader as those of the new application. *)

From S2P Require Import Prelude GoStrings GoFloat GoTime Value Types Env Demo KVContext Context Processor Loader.
From S2P Require Import StreamResolver Net HttpClient Publisher Site Subscription Responder Scheduler Broker Config App.
Local Open Scope string_scope.

Definition runStopTimeout : Z := 30 * Second.

(** ** The environment *)

Section lifecycle.
Context {error : Type}.

(** What the [select] of the wait loop receives; a reload with what validating
    the new rules comes to. *)
Inductive wait_event :=
| Shutdown
| Reload (validation : option error)
| RunReturned (err : option error).

(** How [Run] ends after its context is cancelled: with a result, or not before
    [runStopTimeout]. *)
Inductive unwinding := Unwound (err : option error) | StillRunning.

(** One turn of the loop. *)
Record generation := MkGeneration {
  gn_create : option error;
  gn_wait : list wait_event;
  gn_unwind : unwinding;
  gn_close : option error;
}.

(** ** The function *)

(** What it does to the application. *)
Inductive lifecycle_step :=
| Created                            (* and [Run] started *)
| Rejected (err : error)             (* a reload refused *)
| Cancelled
| Stopped (err : option error)       (* [Run] returned *)
| TimedOut                           (* it did not within [runStopTimeout] *)
| Closed (err : option error).

(** Where it is: waiting for a signal, returned, or at the next turn. *)
Inductive lifecycle_status := Waiting | Exited (result : option error) | Reloading.

(** How the wait loop ends. *)
Inductive wait_outcome := StillWaiting | LoopEnded (shouldReload : bool) (run : option (option error)).

(** [waitLoop], when there is something to validate with. *)
Fixpoint waitLoop (validate : bool) (events : list wait_event) : list lifecycle_step * wait_outcome :=
  match events with
  | [] => ([], StillWaiting)
  | Shutdown :: _ => ([], LoopEnded false None)
  | Reload (Some err) :: rest =>
      if validate then let '(steps, out) := waitLoop validate rest in (Rejected err :: steps, out)
      else ([], LoopEnded true None)
  | Reload None :: _ => ([], LoopEnded true None)
  | RunReturned err :: _ => ([], LoopEnded false (Some err))
  end.

(** From the cancellation to the end of the turn. *)
Definition tear_down (g : generation) (shouldReload : bool) (run : option (option error))
    : list lifecycle_step * lifecycle_status :=
  let stop := match run with
    | Some err => [Stopped err; Cancelled]
    | None => [Cancelled; match gn_unwind g with Unwound err => Stopped err | StillRunning => TimedOut end]
    end in
  ((stop ++ [Closed (gn_close g)])%list,
   if shouldReload then Reloading else Exited (default None run)).

Definition run_generation (validate : bool) (g : generation) : list lifecycle_step * lifecycle_status :=
  match gn_create g with
  | Some err => ([], Exited (Some err))
  | None =>
      let '(steps, out) := waitLoop validate (gn_wait g) in
      match out with
      | StillWaiting => (Created :: steps, Waiting)
      | LoopEnded shouldReload run =>
          let '(stop, status) := tear_down g shouldReload run in
          ((Created :: steps ++ stop)%list, status)
      end
  end.

Fixpoint RunWithReload (validate : bool) (gs : list generation) : list lifecycle_step * lifecycle_status :=
  match gs with
  | [] => ([], Reloading)
  | g :: rest =>
      let '(steps, status) := run_generation validate g in
      match status with
      | Reloading => let '(steps', status) := RunWithReload validate rest in ((steps ++ steps')%list, status)
      | _ => (steps, status)
      end
  end.

(** ** Specification *)

(** The life of the one application there is: a step its state does not allow is
    an error. *)
Inductive life := Gone | Up | Ended | Cancelling | Down.

Definition allowed (l : life) (s : lifecycle_step) : option life :=
  match l, s with
  | Gone, Created => Some Up
  | Up, Rejected _ => Some Up
  | Up, Stopped _ => Some Ended
  | Up, Cancelled => Some Cancelling
  | Ended, Cancelled => Some Down
  | Cancelling, (Stopped _ | TimedOut) => Some Down
  | Down, Closed _ => Some Gone
  | _, _ => None
  end.

Fixpoint live (l : life) (steps : list lifecycle_step) : option life :=
  match steps with
  | [] => Some l
  | s :: rest => l ← allowed l s; live l rest
  end.

(** What ends a generation that was created: the first event that is not a
    refused reload. *)
Definition refused (validate : bool) (e : wait_event) : bool :=
  match e with Reload (Some _) => validate | _ => false end.
Definition decisive (validate : bool) (g : generation) : option wait_event :=
  head (List.filter (λ e, negb (refused validate e)) (gn_wait g)).

Definition reloads (validate : bool) (g : generation) : bool :=
  match gn_create g, decisive validate g with None, Some (Reload _) => true | _, _ => false end.

(** The result of the generation that does not reload. *)
Definition last_status (validate : bool) (g : generation) : lifecycle_status :=
  match gn_create g with
  | Some err => Exited (Some err)
  | None =>
      match decisive validate g with
      | None => Waiting
      | Some (RunReturned err) => Exited err
      | Some _ => Exited None
      end
  end.
End lifecycle.

Arguments wait_event : clear implicits.
Arguments generation : clear implicits.
Arguments lifecycle_step : clear implicits.
Arguments lifecycle_status : clear implicits.

(** ** The rules of a reload *)

Section rules.
Context `{Env} `{LoaderEnv}.

Inductive rules_error := RulesNotLoaded (e : source_error) | RulesNotIndexed (e : load_error).

Definition kvBuckets (cfg : Config) : list string := if kv_Enabled (cf_KV cfg) then BucketNames (cf_KV cfg) else [].

(** Loading a directory into a processor. *)
Definition load_into (l : Loader) (root : option fs) (p : Processor) (now : Time) : M (result rules_error Processor) :=
  rules ← LoadFromDirectory l root;
  mret match rules with
       | Err e => Err (RulesNotLoaded e)
       | Ok rules => map_err RulesNotIndexed (LoadRules now p rules)
       end.

(** [validate] of main.go; the processor is thrown away. *)
Definition validate (cfg : Config) (root : option fs) (now : Time) : M (result rules_error unit) :=
  if kr_Enabled (kv_Rules (cf_KV cfg)) then mret (Ok tt)
  else
    loaded ← load_into (NewLoader (kvBuckets cfg)) root (NewProcessor None None None now) now;
    mret (match loaded with Ok _ => Ok tt | Err e => Err e end).

(** [WithRuleProcessor], with the buckets of the broker. *)
Definition WithRuleProcessor (cfg : Config) (kvStores : gset string) (root : option fs) (now : Time)
    : M (result rules_error Processor) :=
  let ve := cf_Security cfg in
  load_into (NewLoader (kvBuckets cfg)) root
    (NewProcessor (if kv_Enabled (cf_KV cfg) then Some (MkKVContext kvStores) else None)
       (if ve_Enabled ve then Some (NewSignatureVerification (ve_Enabled ve) (ve_PublicKeyHeader ve) (ve_SignatureHeader ve)) else None)
       (Some (fc_MaxIterations (cf_ForEach cfg))) now) now.
End rules.

(** ** Lemmas *)

Section lemmas.
Context {error : Type}.
Implicit Types (g : generation error) (l : life).

Lemma live_app l (s t : list (lifecycle_step error)) : live l (s ++ t)%list = (l' ← live l s; live l' t).
Proof. revert l. induction s as [|x s IH]; intros l; [done|]. cbn. destruct (allowed l x); [apply IH|done]. Qed.

(** The loop refuses reloads up to the decisive event. *)
Lemma waitLoop_spec v g :
  live Up (waitLoop v (gn_wait g)).1 = Some Up ∧
  (waitLoop v (gn_wait g)).2 = match decisive v g with
    | None => StillWaiting
    | Some Shutdown => LoopEnded false None
    | Some (Reload _) => LoopEnded true None
    | Some (RunReturned err) => LoopEnded false (Some err)
    end.
Proof.
  unfold decisive. induction (gn_wait g) as [|e rest IH]; [done|].
  destruct e as [|[err|]|err]; cbn; [done| |done|done].
  destruct v; cbn; [|done]. by destruct (waitLoop true rest).
Qed.

Lemma run_generation_spec v g :
  live Gone (run_generation v g).1 = Some (match (run_generation v g).2 with Waiting => Up | _ => Gone end) ∧
  (run_generation v g).2 = if reloads v g then Reloading else last_status v g.
Proof.
  unfold run_generation, reloads, last_status. destruct (gn_create g) as [err|]; [done|].
  destruct (waitLoop_spec v g) as [Hl Ho]. destruct (waitLoop v (gn_wait g)) as [steps out]. cbn [fst snd] in *. subst out.
  destruct (decisive v g) as [[|val|err]|]; [| | |done]; cbn [tear_down fst snd live allowed mbind option_bind];
    (split; [|done]); rewrite live_app, Hl; cbn; by destruct (gn_unwind g).
Qed.

(** A reload is refused exactly when the new application could not load the same
    directory. *)
Lemma validate_predicts_loading `{Env} `{LoaderEnv} cfg stores root now st :
  kr_Enabled (kv_Rules (cf_KV cfg)) = false →
  is_ok (validate cfg root now st).1 = is_ok (WithRuleProcessor cfg stores root now st).1.
Proof.
  intros Hkv. unfold validate, WithRuleProcessor, load_into. rewrite Hkv. unfold mbind, M_bind.
  destruct (LoadFromDirectory _ root st) as [[rules|e] st'] eqn:El; cbn; [|done].
  assert (∀ p, is_ok (LoadRules now p rules) = forallb loadable rules) as Hload.
  { intros p. destruct (forallb loadable rules) eqn:E; [by apply loadable_loads|].
    destruct (LoadRules now p rules) eqn:Ep; [|done]. exfalso. revert Ep. unfold LoadRules.
    set (q := MkProcessor _ _ _ _ _ _ _ _ _ _ _ _ _). intros Ep.
    pose proof (load_loop_spec now q 0 rules []) as Hs. rewrite Ep in Hs.
    destruct Hs as [Hs _]; [|intros path; cbn; by rewrite lookup_empty|congruence].
    split; [done|done|done|]. intros path. unfold rules_in. cbn. by rewrite lookup_empty. }
  pose proof (Hload (NewProcessor None None None now)) as H1.
  match goal with |- _ = is_ok (map_err _ ?r) => assert (is_ok r = forallb loadable rules) as H2 by apply Hload; destruct r end;
    destruct (LoadRules now (NewProcessor None None None now) rules); cbn in *; congruence.
Qed.
End lemmas.

(** ** Properties *)

(** C20: [RunWithReload] runs one application at a time and leaves none behind.
    Every application is created with none before it still open, is cancelled
    once, closed once and only after its [Run] returned or had its thirty
    seconds, and the next one is created after that; the function returns with
    nothing open.  It ends in the first generation that does not reload: with
    the error of the factory, with what [Run] returned, or without an error on a
    shutdown; a reload whose rules are refused ends nothing. *)
Theorem RunWithReload_correct {error} (v : bool) (gs : list (generation error)) :
  let '(steps, status) := RunWithReload v gs in
  live Gone steps = Some (match status with Waiting => Up | _ => Gone end) ∧
  status = match List.filter (λ g, negb (reloads v g)) gs with
    | g :: _ => last_status v g
    | [] => Reloading
    end.
Proof.
  induction gs as [|g rest IH]; cbn [RunWithReload]; [done|].
  destruct (run_generation_spec v g) as [Hl Hs]. destruct (run_generation v g) as [steps status]. cbn [fst snd] in *.
  destruct (reloads v g) eqn:Er; subst status; cbn [List.filter negb]; rewrite Er; cbn [negb].
  - destruct (RunWithReload v rest) as [steps' status']. destruct IH as [Hl' ->]. by rewrite live_app, Hl.
  - unfold reloads in Er. revert Hl. unfold last_status. destruct (gn_create g); [done|].
    destruct (decisive v g) as [[]|]; done.
Qed.

(** ** What the check of a reload does not see *)

#[local] Instance reload_loader : LoaderEnv := {|
  yaml_Unmarshal := λ s, if String.eqb s "rules" then Some [demo_rule] else None;
  cron_Parse := λ s, negb (String.eqb s "");
  time_LoadLocation := λ s, String.eqb s "UTC";
  os_Getenv := λ s, if String.eqb s "WINDOW" then "5s" else "";
|}.
#[local] Instance reload_cron : Cron := {| gocron_CronJob := λ s, negb (String.eqb s "") |}.
#[local] Existing Instances demo demo_net merge_SortSlice.

(** The application rebuilt from a directory, by the steps of [createApp]. *)
Definition restart (fe : FeaturesConfig) (root : option fs) (b : Broker) : option app_error :=
  match (WithRuleProcessor default_config ∅ root (MkTime 0 0) demo_start).1 with
  | Err _ => None
  | Ok p => match (create_features false fe demo_executor p demo_responder b (demo_net_start [])).1.1.1 with Err e => Some e | Ok _ => None end
  end.

(** Rules that pass the check need not start: a subject no stream captures fails
    the router, a directory without schedules the scheduler, after the running
    application is gone. *)
Lemma valid_rules_fail_to_start :
  let narrow := with_resolver demo_broker (Refresh NewStreamResolver ([MkStreamConfig "ORDERS" ["orders.>"] FileStorage None []], false)).2 in
  is_ok (validate default_config (Some demo_tree) (MkTime 0 0) demo_start).1 = true ∧
  (∃ e, restart (MkFeatures true false false) (Some demo_tree) narrow = Some (StreamValidationFailed e)) ∧
  restart (MkFeatures false false true) (Some demo_tree) demo_broker = Some (ScheduleFailed NoScheduleRules).
Proof. split_and!; [vm_compute; reflexivity| |vm_compute; reflexivity]. eexists. vm_compute. reflexivity. Qed.

(** ** Examples *)

Example refused_then_accepted :
  let g waits := MkGeneration (error := nat) None waits (Unwound None) None in
  RunWithReload true [g [Reload (Some 1); Reload None]%nat; g [RunReturned (Some 2)]%nat] =
    ([Created; Rejected 1%nat; Cancelled; Stopped None; Closed None; Created; Stopped (Some 2%nat); Cancelled; Closed None],
     Exited (Some 2%nat)).
Proof. reflexivity. Qed.
