(* ===== verification/Assembly.v ===== *)
(** * Assembling and closing the application (internal/app/builder.go, cmd/rule-router/main.go)

    The builder makes what the features share, a step at a time, and remembers
    the first error; closing takes it apart in the order in which the parts need
    each other.  The logger, the metrics registry, the HTTP server of the probes
    and the NATS client are parameters: whether their calls succeed. *)

From S2P Require Import Prelude GoStrings GoFloat GoTime Value Types Env Demo Pattern KVContext Context Index Processor Loader.
From S2P Require Import StreamResolver Net HttpClient Publisher Site Subscription Responder Scheduler Broker RuleManager Config.
From S2P Require Import Watch KVCache Connection App Lifecycle.
Local Open Scope string_scope.

Definition metricsShutdownTimeout : Z := 5 * Second.

(** ** Building *)

(** What the calls of a build come to. *)
Record build_env := MkBuildEnv {
  bu_logger : bool; bu_registered : bool;
  bu_nats : nats_env; bu_cache : watch_opens;
  bu_root : option fs; bu_now : Time;
  bu_store : store_open; bu_created : bool; bu_watching : bool;
}.

Inductive base_error :=
| LoggerFailed | MetricsFailed | BadUpdateInterval (text : string) | BrokerFailed (e : connection_error)
| RulesFailed (e : rules_error) | RuleWatcherFailed (e : watch_error).

Section builder.
Context `{Env} `{LoaderEnv} `{Net} `{SortSlice}.
Variables (cfg : Config) (e : build_env).

(** A pointer that is nil until its step is [None]; the collector carries its
    interval. *)
Record BaseApp := MkBaseApp {
  ba_Logger : option unit; ba_Metrics : option unit; ba_Collector : option Z; ba_MetricsServer : option unit;
  ba_Broker : option (Broker * KVBroker); ba_Processor : option Processor; ba_Loader : option Loader;
  ba_RuleKVManager : option unit;
}.
Record AppBuilder := MkAppBuilder { ab_base : BaseApp; ab_err : option base_error }.

Definition NewAppBuilder : AppBuilder := MkAppBuilder (MkBaseApp None None None None None None None None) None.

Definition with_metrics (b : BaseApp) (interval : option Z) : BaseApp :=
  MkBaseApp (ba_Logger b) (Some tt) interval ((λ _, tt) <$> interval) (ba_Broker b) (ba_Processor b) (ba_Loader b) (ba_RuleKVManager b).
Definition with_broker (b : BaseApp) (broker : Broker * KVBroker) : BaseApp :=
  MkBaseApp (ba_Logger b) (ba_Metrics b) (ba_Collector b) (ba_MetricsServer b) (Some broker) (ba_Processor b) (ba_Loader b) (ba_RuleKVManager b).
Definition with_processor (b : BaseApp) (p : Processor) (l : option Loader) : BaseApp :=
  MkBaseApp (ba_Logger b) (ba_Metrics b) (ba_Collector b) (ba_MetricsServer b) (ba_Broker b) (Some p) l (ba_RuleKVManager b).

(** Every method returns at once when an error is set. *)
Definition sticky (f : BaseApp → BaseApp * option base_error) (b : AppBuilder) : AppBuilder :=
  match ab_err b with
  | Some _ => b
  | None => let '(base, err) := f (ab_base b) in MkAppBuilder base err
  end.

Definition WithLogger : AppBuilder → AppBuilder := sticky (λ b,
  if bu_logger e then
    (MkBaseApp (Some tt) (ba_Metrics b) (ba_Collector b) (ba_MetricsServer b) (ba_Broker b) (ba_Processor b) (ba_Loader b) (ba_RuleKVManager b), None)
  else (b, Some LoggerFailed)).

Definition WithMetrics : AppBuilder → AppBuilder := sticky (λ b,
  let me := cf_Metrics cfg in
  if negb (me_Enabled me) then (b, None)
  else if negb (bu_registered e) then (b, Some MetricsFailed)
  else
    match ParseDuration (me_UpdateInterval me) with
    | None => (with_metrics b None, Some (BadUpdateInterval (me_UpdateInterval me)))
    | Some interval => (with_metrics b (Some interval), None)
    end).

(** A cache that cannot be when_started is only reported. *)
Definition WithNATSBroker : AppBuilder → AppBuilder := sticky (λ b,
  match NewNATSBroker (bu_nats e) cfg with
  | Err err => (b, Some (BrokerFailed err))
  | Ok (broker, k) =>
      let kv := cf_KV cfg in
      (with_broker b (broker, if kv_Enabled kv && kv_LocalCache kv then (InitializeKVCache (bu_cache e) kv k).2 else k), None)
  end).

Definition kv_stores (b : BaseApp) : gset string := match ba_Broker b with Some (_, k) => kb_stores k | None => ∅ end.

(** The rules of a directory; the files are read from the state of the engine. *)
Definition builder_WithRuleProcessor (b : AppBuilder) : M AppBuilder :=
  match ab_err b with
  | Some _ => mret b
  | None =>
      loaded ← WithRuleProcessor cfg (kv_stores (ab_base b)) (bu_root e) (bu_now e);
      mret (match loaded with
            | Err err => MkAppBuilder (ab_base b) (Some (RulesFailed err))
            | Ok p => MkAppBuilder (with_processor (ab_base b) p None) None
            end)
  end.

(** No rules yet, and a loader that leaves the environment alone. *)
Definition WithKVRuleProcessor (kvStores : gset string) (now : Time) : Processor :=
  let ve := cf_Security cfg in
  NewProcessor (if kv_Enabled (cf_KV cfg) then Some (MkKVContext kvStores) else None)
    (if ve_Enabled ve then Some (NewSignatureVerification (ve_Enabled ve) (ve_PublicKeyHeader ve) (ve_SignatureHeader ve)) else None)
    (Some (fc_MaxIterations (cf_ForEach cfg))) now.
Definition kv_loader : Loader := DisallowEnv (NewLoader (kvBuckets cfg)).

Definition builder_WithKVRuleProcessor : AppBuilder → AppBuilder := sticky (λ b,
  (with_processor b (WithKVRuleProcessor (kv_stores b) (bu_now e)) (Some kv_loader), None)).

Definition WithKVRuleManager : AppBuilder → AppBuilder := sticky (λ b,
  match (Watch None (kr_AutoProvision (kv_Rules (cf_KV cfg))) (bu_store e) (bu_created e) (bu_watching e)).1 with
  | Err err => (b, Some (RuleWatcherFailed err))
  | Ok _ => (MkBaseApp (ba_Logger b) (ba_Metrics b) (ba_Collector b) (ba_MetricsServer b) (ba_Broker b) (ba_Processor b) (ba_Loader b) (Some tt), None)
  end).

Definition Build (b : AppBuilder) : result base_error BaseApp :=
  match ab_err b with
  | Some err => Err err
  | None =>
      let base := ab_base b in
      Ok (match ba_Broker base, ba_Processor base with
          | Some (broker, k), Some _ => with_broker base (InitializeSubscriptionManager cfg broker, k)
          | _, _ => base
          end)
  end.

(** The first part of [createApp]. *)
Definition build_base : M (result base_error BaseApp) :=
  let b := WithNATSBroker (WithMetrics (WithLogger NewAppBuilder)) in
  b ← (if kr_Enabled (kv_Rules (cf_KV cfg)) then mret (WithKVRuleManager (builder_WithKVRuleProcessor b))
       else builder_WithRuleProcessor b);
  mret (Build b).

(** ** Closing *)

(** Whether the broker is registered with the discovery service, and what the
    calls of a shutdown come to: the metrics server refuses, or its goroutine
    outlives the wait; the watchers of the cache; the drain. *)
Inductive server_stop := ServerStopped | ServerNotShutDown | ServerStillRunning.
Record close_env := MkCloseEnv { ce_service : bool; ce_server : server_stop; ce_watcher : kvWatchHandle → stop_result; ce_drained : bool }.

Inductive app_step :=
| CloseResponder | FlushScheduler | StopCollector | StopMetricsServer | StopRuleManager | CloseBroker (s : close_step) | SyncLogger.
Inductive app_close_error := MetricsServerNotShutDown | MetricsServerTimeout | BrokerNotClosed (errs : list close_error).

Definition ShutdownMetricsServer (b : BaseApp) (s : server_stop) : option app_close_error :=
  match ba_MetricsServer b with
  | None => None
  | Some _ => match s with ServerStopped => None | ServerNotShutDown => Some MetricsServerNotShutDown | ServerStillRunning => Some MetricsServerTimeout end
  end.

Definition when_started (o : option unit) (s : app_step) : list app_step := match o with Some _ => [s] | None => [] end.

Definition close_broker (b : BaseApp) (c : close_env) : list close_step * list close_error :=
  match ba_Broker b with
  | Some (broker, k) => nats_Close broker k (ce_service c) (ce_watcher c) (ce_drained c)
  | None => ([], [])
  end.

(** [BaseApp.Close]. *)
Definition base_Close (b : BaseApp) (c : close_env) : list app_step * list app_close_error :=
  let '(broker_steps, broker_errs) := close_broker b c in
  ((when_started ((λ _, tt) <$> ba_Collector b) StopCollector ++ when_started (ba_MetricsServer b) StopMetricsServer ++
    when_started (ba_RuleKVManager b) StopRuleManager ++ map CloseBroker broker_steps ++ when_started (ba_Logger b) SyncLogger)%list,
   (match ShutdownMetricsServer b (ce_server c) with Some err => [err] | None => [] end ++
    match broker_errs with [] => [] | errs => [BrokerNotClosed errs] end)%list).

(** [CompositeApp.Close]: the features that hold batches first. *)
Definition app_Close (fe : FeaturesConfig) (b : BaseApp) (c : close_env) : list app_step * list app_close_error :=
  let '(steps, errs) := base_Close b c in
  (((if fe_Router fe then [CloseResponder] else []) ++ (if fe_Scheduler fe then [FlushScheduler] else []) ++ steps)%list, errs).
End builder.

Arguments BaseApp : clear implicits.
Arguments BaseApp {_}.

(** ** Specification *)

Section specification.
Context `{Env} `{LoaderEnv} `{Net} `{SortSlice}.
Variables (cfg : Config) (e : build_env).

(** What must be there before the rules: the interval of the collector when
    there is one, and the broker with its buckets. *)
Definition prerequisites : result base_error (option Z * (Broker * KVBroker)) :=
  _ ← (if bu_logger e then Ok tt else Err LoggerFailed);
  interval ← (if me_Enabled (cf_Metrics cfg) then
                if bu_registered e then
                  of_option (BadUpdateInterval (me_UpdateInterval (cf_Metrics cfg))) (Some <$> ParseDuration (me_UpdateInterval (cf_Metrics cfg)))
                else Err MetricsFailed
              else Ok None);
  '(broker, k) ← map_err BrokerFailed (NewNATSBroker (bu_nats e) cfg);
  Ok (interval, (InitializeSubscriptionManager cfg broker,
                 if kv_Enabled (cf_KV cfg) && kv_LocalCache (cf_KV cfg) then (InitializeKVCache (bu_cache e) (cf_KV cfg) k).2 else k)).

Definition built (interval : option Z) (broker : Broker * KVBroker) (p : Processor) (l : option Loader) (watching : option unit) : BaseApp :=
  MkBaseApp (Some tt) (if me_Enabled (cf_Metrics cfg) then Some tt else None) interval ((λ _, tt) <$> interval)
    (Some broker) (Some p) l watching.

(** The base in one go, each part made when those before it are. *)
Definition build_chain : M (result base_error BaseApp) :=
  match prerequisites with
  | Err err => mret (Err err)
  | Ok (interval, broker) =>
      if kr_Enabled (kv_Rules (cf_KV cfg)) then
        mret (_ ← map_err RuleWatcherFailed
                (open_watch (kr_AutoProvision (kv_Rules (cf_KV cfg))) (bu_store e) (bu_created e) (bu_watching e));
              Ok (built interval broker (WithKVRuleProcessor cfg (kb_stores broker.2) (bu_now e)) (Some (kv_loader cfg)) (Some tt)))
      else
        loaded ← WithRuleProcessor cfg (kb_stores broker.2) (bu_root e) (bu_now e);
        mret (p ← map_err RulesFailed loaded; Ok (built interval broker p None None))
  end.

(** What is running once [b] is built and its features created. *)
Definition running (fe : FeaturesConfig) (registered : bool) (b : BaseApp) (s : app_step) : Prop :=
  match s with
  | CloseResponder => fe_Router fe = true
  | FlushScheduler => fe_Scheduler fe = true
  | StopCollector => ba_Collector b ≠ None
  | StopMetricsServer => ba_MetricsServer b ≠ None
  | StopRuleManager => ba_RuleKVManager b ≠ None
  | CloseBroker CancelContext | CloseBroker DrainConnection => ba_Broker b ≠ None
  | CloseBroker StopService => ba_Broker b ≠ None ∧ registered = true
  | CloseBroker StopSubscriptionManager => ∃ broker k, ba_Broker b = Some (broker, k) ∧ bk_subscriptionMgr broker ≠ None
  | CloseBroker (StopWatcher h) => ∃ broker k, ba_Broker b = Some (broker, k) ∧ h ∈ kb_watchers k
  | SyncLogger => ba_Logger b ≠ None
  end.

(** The order in which the parts need each other: whoever publishes goes before
    the connection, and the logger last. *)
Definition phase (s : app_step) : nat :=
  match s with
  | CloseResponder | FlushScheduler => 0
  | StopCollector | StopMetricsServer => 1
  | StopRuleManager => 2
  | CloseBroker CancelContext => 3
  | CloseBroker StopSubscriptionManager => 4
  | CloseBroker (StopWatcher _) => 5
  | CloseBroker StopService => 6
  | CloseBroker DrainConnection => 7
  | SyncLogger => 8
  end.
End specification.

(** ** Lemmas *)

Section lemmas.
Context `{Env} `{LoaderEnv} `{Net} `{SortSlice}.

Lemma InitializeKVCache_stores opens kv k : kb_stores (InitializeKVCache opens kv k).2 = kb_stores k.
Proof.
  unfold InitializeKVCache, subscribeToKVChanges. rewrite watch_all_spec. by repeat case_match; simplify_eq.
Qed.

Lemma sticky_failed f b err : ab_err b = Some err → sticky f b = b.
Proof. unfold sticky. by intros ->. Qed.

Lemma when_started_elem o s x : x ∈ when_started o s ↔ o ≠ None ∧ x = s.
Proof. destruct o; cbn; [rewrite list_elem_of_singleton|rewrite elem_of_nil]; naive_solver. Qed.

(** Lists in blocks of one phase each. *)
Definition in_phase (n : nat) (l : list app_step) : Prop := Forall (λ s, phase s = n) l.
Definition ordered (n : nat) (l : list app_step) : Prop :=
  Forall (λ s, n ≤ phase s)%nat l ∧ StronglySorted (λ s s', phase s ≤ phase s')%nat l.

Lemma ordered_nil n : ordered n [].
Proof. split; constructor. Qed.

Lemma ordered_app m n l k : in_phase m l → (m ≤ n)%nat → ordered n k → ordered m (l ++ k).
Proof.
  intros Hl Hmn [Hb Hs]. split.
  - apply Forall_app. split; (eapply Forall_impl; [eassumption|cbn; lia]).
  - induction Hl as [|x l Hx Hl IH]; [done|]. cbn. constructor; [done|].
    apply Forall_app. split; (eapply Forall_impl; [eassumption|cbn; lia]).
Qed.

Lemma ordered_split n l l1 s l2 : ordered n l → l = (l1 ++ s :: l2)%list → Forall (λ s', phase s ≤ phase s')%nat l2.
Proof.
  intros [_ Hs] ->. induction l1 as [|x l1 IH]; cbn in Hs; inversion Hs; subst; auto.
Qed.

Lemma when_started_phase o s : in_phase (phase s) (when_started o s).
Proof. destruct o; repeat constructor. Qed.

Lemma elem_of_if_one (c : bool) (s x : app_step) : x ∈ (if c then [s] else []) ↔ c = true ∧ x = s.
Proof. destruct c; rewrite ?list_elem_of_singleton, ?elem_of_nil; naive_solver. Qed.

(** *** The broker's part *)

Lemma broker_steps_ordered b c tail : ordered 8 tail → ordered 3 (map CloseBroker (close_broker b c).1 ++ tail).
Proof.
  intros Ht. unfold close_broker. destruct (ba_Broker b) as [[broker k]|].
  2: { destruct Ht as [Hb Hs]. split; [eapply Forall_impl; [exact Hb|cbn; lia]|done]. }
  unfold nats_Close. cbn [fst]. rewrite app_comm_cons, !map_app, <- !app_assoc.
  apply (ordered_app 3 4 [_]); [by repeat constructor|lia|].
  apply (ordered_app 4 5); [by destruct (bk_subscriptionMgr broker); repeat constructor|lia|].
  apply (ordered_app 5 6); [unfold in_phase; rewrite !Forall_map; by apply Forall_true|lia|].
  apply (ordered_app 6 7); [by destruct (ce_service c); repeat constructor|lia|].
  by apply (ordered_app 7 8 [_]); [repeat constructor|lia|].
Qed.

Lemma broker_steps_elem fe b c s : s ∈ (close_broker b c).1 ↔ running fe (ce_service c) b (CloseBroker s).
Proof.
  unfold close_broker. destruct (ba_Broker b) as [[broker k]|] eqn:Eb.
  2: { cbn. rewrite Eb, elem_of_nil. destruct s; naive_solver. }
  unfold nats_Close. cbn [fst running]. rewrite Eb, elem_of_cons, !elem_of_app, list_elem_of_singleton, list_elem_of_fmap.
  assert (s ∈ match bk_subscriptionMgr broker with Some _ => [StopSubscriptionManager] | None => [] end ↔
    bk_subscriptionMgr broker ≠ None ∧ s = StopSubscriptionManager) as ->.
  { destruct (bk_subscriptionMgr broker); rewrite ?list_elem_of_singleton, ?elem_of_nil; naive_solver. }
  assert (s ∈ (if ce_service c then [StopService] else []) ↔ ce_service c = true ∧ s = StopService) as ->.
  { destruct (ce_service c); rewrite ?list_elem_of_singleton, ?elem_of_nil; naive_solver. }
  destruct s; naive_solver.
Qed.

Lemma broker_errs_nil b k service stop drained : (nats_Close b k service stop drained).2 = [] ↔
  drained = true ∧ ∀ h, h ∈ kb_watchers k → stop h ≠ StopFailed.
Proof.
  unfold nats_Close. cbn [snd]. rewrite app_nil.
  assert (∀ i, omap (λ ih : nat * kvWatchHandle, match stopKVWatcher (Some (stop ih.2)) with
      Some _ => Some (WatcherNotStopped ih.1 (kh_bucket ih.2)) | None => None end) (imap (λ n h, ((i + n)%nat, h)) (kb_watchers k)) = [] ↔
    ∀ h, h ∈ kb_watchers k → stop h ≠ StopFailed) as Ho.
  { induction (kb_watchers k) as [|h l IH]; intros i; [split; [by intros _ h ?%elem_of_nil|done]|].
    cbn [imap omap list_omap]. specialize (IH (S i)).
    replace (imap ((λ n h0, ((i + n)%nat, h0)) ∘ S) l) with (imap (λ n h0, ((S i + n)%nat, h0)) l)
      by (apply imap_ext; intros; cbn; by rewrite Nat.add_succ_r).
    cbn [snd fst]. rewrite Nat.add_0_r. destruct (stop h) eqn:E; cbn [stopKVWatcher].
    1-3: rewrite IH; split; [intros Hall h' [->|?]%elem_of_cons; [by rewrite E|auto]|intros Hall h' ?; apply Hall; by right].
    split; [done|]. intros Hall. by destruct (Hall h); [left|]. }
  specialize (Ho 0%nat). cbn [Nat.add] in Ho. rewrite Ho. destruct drained; split; by intros [? ?].
Qed.

Lemma close_broker_errs b c : (close_broker b c).2 = [] ↔
  ∀ broker k, ba_Broker b = Some (broker, k) → ce_drained c = true ∧ ∀ h, h ∈ kb_watchers k → ce_watcher c h ≠ StopFailed.
Proof.
  unfold close_broker. destruct (ba_Broker b) as [[broker k]|]; [|done]. rewrite broker_errs_nil.
  split; [by intros ? ? ? [= <- <-]|]. intros Hall. by apply (Hall broker k).
Qed.
End lemmas.

(** ** Properties *)

Section properties.
Context `{Env} `{LoaderEnv} `{Net} `{SortSlice}.

(** Building the base by the steps of the builder, each of which passes over
    everything once an error is set, is making its parts one after the other and
    stopping at the first that cannot be made: the error is that part's, and the
    rules are not even read when an earlier part failed.  A base that is built
    has its logger, the metrics and their server exactly when they are enabled,
    the broker with its subscription manager and buckets, and either the rules
    of the directory or an empty processor with a running watcher. *)
Theorem build_base_chain cfg e st : build_base cfg e st = build_chain cfg e st.
Proof.
  unfold build_base, build_chain, prerequisites, WithNATSBroker, WithMetrics, WithLogger, builder_WithRuleProcessor,
    builder_WithKVRuleProcessor, WithKVRuleManager, sticky, built.
  destruct (bu_logger e); cbn; [|by destruct (kr_Enabled _)].
  destruct (me_Enabled _); cbn; [destruct (bu_registered e); cbn; [destruct (ParseDuration _); cbn|]|];
    try (by destruct (kr_Enabled _));
    (destruct (NewNATSBroker (bu_nats e) cfg) as [[broker k]|err]; cbn; [|by destruct (kr_Enabled _)]);
    (destruct (kr_Enabled _); cbn; [unfold Watch; cbn; by destruct (open_watch _ _ _ _)|]);
    unfold mbind, M_bind; destruct (WithRuleProcessor _ _ _ _ st) as [[p|err] st']; done.
Qed.

(** Closing stops what runs and nothing else, in the order in which the parts
    need each other: the features that hold back batches flush them first, then
    the metrics, then the watcher of the rules, then the broker, where the
    subscriptions flush, the cache's watchers end and the process leaves discovery
    before the connection is drained; the logger is last.  It reports no error exactly when every part
    stopped. *)
Theorem app_Close_order fe b c :
  let '(steps, errs) := app_Close fe b c in
  (∀ s, s ∈ steps ↔ running fe (ce_service c) b s) ∧
  (∀ l1 s l2, steps = (l1 ++ s :: l2)%list → Forall (λ s', phase s ≤ phase s')%nat l2) ∧
  (errs = [] ↔ (ba_MetricsServer b ≠ None → ce_server c = ServerStopped) ∧
     ∀ broker k, ba_Broker b = Some (broker, k) →
       ce_drained c = true ∧ ∀ h, h ∈ kb_watchers k → ce_watcher c h ≠ StopFailed).
Proof.
  unfold app_Close, base_Close, ShutdownMetricsServer. pose proof (broker_steps_ordered b c) as Hord.
  pose proof (broker_steps_elem fe b c) as Hel. pose proof (close_broker_errs b c) as Herr.
  destruct (close_broker b c) as [broker_steps broker_errs]. cbn [fst snd] in *. split_and!.
  - intros s. rewrite !elem_of_app, !when_started_elem, !elem_of_if_one, list_elem_of_fmap.
    split.
    + by intros [[? ->]|[[? ->]|[[Hs ->]|[[? ->]|[[? ->]|[(x & -> & ?%Hel)|[? ->]]]]]]]; [..|cbn; intros Hn; apply Hs; rewrite Hn| | | |].
    + destruct s as [| | | | |x|]; cbn [running]; intros Hs; [by left|by right; left|do 2 right; left|by do 3 right; left|by do 4 right; left|do 5 right; left|by do 6 right].
      * split; [by intros ?%fmap_None|done].
      * exists x. split; [done|]. by apply Hel.
  - intros l1 s l2. eapply (ordered_split 0).
    apply (ordered_app 0 0); [by destruct (fe_Router fe); repeat constructor|lia|].
    apply (ordered_app 0 1); [by destruct (fe_Scheduler fe); repeat constructor|lia|].
    apply (ordered_app 1 1); [apply (when_started_phase _ StopCollector)|lia|].
    apply (ordered_app 1 2); [apply (when_started_phase _ StopMetricsServer)|lia|].
    apply (ordered_app 2 3); [apply (when_started_phase _ StopRuleManager)|lia|].
    apply Hord. destruct (ba_Logger b); repeat constructor.
  - rewrite app_nil, <- Herr. destruct (ba_MetricsServer b), (ce_server c), broker_errs; cbn; naive_solver.
Qed.
End properties.
