(* ===== verification/Metrics.v ===== *)
(** * Metrics (internal/metrics, internal/authmgr/metrics.go)

    The collectors, their registration, the calls that move them and the two
    counters kept beside them; the periodic collection; and the step of the
    builder that starts them.  The metrics library
    is a parameter, [Prometheus]: a registry, and calls that panic unless they fit
    the collector they are made on. *)

From S2P Require Import Prelude GoStrings GoFloat GoTime Value Types Env Demo Pattern KVContext Context Index Processor Loader.
From S2P Require Import StreamResolver Net HttpClient Publisher Site Subscription Responder Scheduler Broker RuleManager Config.
From S2P Require Import Watch KVCache Connection App Lifecycle Assembly.
Local Open Scope string_scope.

(** ** Collectors *)

Inductive metric_kind := CounterKind | GaugeKind | HistogramKind.
Record collector := MkCollector { co_Name : string; co_Kind : metric_kind; co_Labels : list string }.

#[export] Instance metric_kind_eq_dec : EqDecision metric_kind.
Proof. solve_decision. Defined.

Definition messagesTotal : collector := MkCollector "messages_total" CounterKind ["status"].
Definition messageProcessingBacklog : collector := MkCollector "message_processing_backlog" GaugeKind [].
Definition ruleMatches : collector := MkCollector "rule_matches_total" CounterKind ["trigger"].
Definition rulesActive : collector := MkCollector "rules_active" GaugeKind [].
Definition actionsTotal : collector := MkCollector "actions_total" CounterKind ["status"].
Definition actionsByType : collector := MkCollector "actions_by_type_total" CounterKind ["type"].
Definition actionPublishFailures : collector := MkCollector "action_publish_failures_total" CounterKind [].
Definition templateOpsTotal : collector := MkCollector "template_operations_total" CounterKind ["status"].
Definition natsConnectionStatus : collector := MkCollector "nats_connection_status" GaugeKind [].
Definition natsReconnects : collector := MkCollector "nats_reconnects_total" CounterKind [].
Definition natsAsyncErrors : collector := MkCollector "nats_async_errors_total" CounterKind ["kind"].
Definition signatureVerificationsTotal : collector := MkCollector "signature_verifications_total" CounterKind ["result"].
Definition signatureVerificationDuration : collector := MkCollector "signature_verification_duration_seconds" HistogramKind [].
Definition webhookHMACVerificationsTotal : collector := MkCollector "webhook_hmac_verifications_total" CounterKind ["result"].
Definition kvCacheHits : collector := MkCollector "kv_cache_hits_total" CounterKind [].
Definition kvCacheMisses : collector := MkCollector "kv_cache_misses_total" CounterKind [].
Definition kvCacheSize : collector := MkCollector "kv_cache_size" GaugeKind [].
Definition forEachIterationsTotal : collector := MkCollector "foreach_iterations_total" CounterKind ["rule_file"].
Definition forEachFilteredCount : collector := MkCollector "foreach_filtered_total" CounterKind ["rule_file"].
Definition forEachActionsGenerated : collector := MkCollector "foreach_actions_generated_total" CounterKind ["rule_file"].
Definition forEachElementErrors : collector := MkCollector "foreach_element_errors_total" CounterKind ["rule_file"; "error_type"].
Definition forEachDuration : collector := MkCollector "foreach_duration_seconds" HistogramKind ["rule_file"].
Definition throttleSuppressedTotal : collector := MkCollector "throttle_suppressed_total" CounterKind ["phase"].
Definition throttleDeferredTotal : collector := MkCollector "throttle_deferred_total" CounterKind ["outcome"].
Definition arrayOperatorEvaluations : collector := MkCollector "array_operator_evaluations_total" CounterKind ["operator"; "result"].
Definition schedulerJobRunsTotal : collector := MkCollector "scheduler_job_runs_total" CounterKind ["cron"; "status"].
Definition schedulerJobDuration : collector := MkCollector "scheduler_job_duration_seconds" HistogramKind ["cron"].
Definition goroutines : collector := MkCollector "process_goroutines" GaugeKind [].
Definition memoryBytes : collector := MkCollector "process_memory_bytes" GaugeKind [].
Definition httpInboundRequestsTotal : collector := MkCollector "http_inbound_requests_total" CounterKind ["path"; "method"; "status"].
Definition httpRequestDuration : collector := MkCollector "http_request_duration_seconds" HistogramKind ["path"; "method"].
Definition httpOutboundRequestsTotal : collector := MkCollector "http_outbound_requests_total" CounterKind ["status_code"].
Definition httpOutboundDuration : collector := MkCollector "http_outbound_duration_seconds" HistogramKind ["status_code"].

Definition collectors : list collector := [
  messagesTotal; messageProcessingBacklog; ruleMatches; rulesActive; actionsTotal; actionsByType; actionPublishFailures; templateOpsTotal;
  natsConnectionStatus; natsReconnects; natsAsyncErrors; signatureVerificationsTotal; signatureVerificationDuration;
  webhookHMACVerificationsTotal; kvCacheHits; kvCacheMisses; kvCacheSize; forEachIterationsTotal; forEachFilteredCount;
  forEachActionsGenerated; forEachElementErrors; forEachDuration; throttleSuppressedTotal; throttleDeferredTotal;
  arrayOperatorEvaluations; schedulerJobRunsTotal; schedulerJobDuration; goroutines; memoryBytes; httpInboundRequestsTotal;
  httpRequestDuration; httpOutboundRequestsTotal; httpOutboundDuration
].

(** ** The metrics library *)

Inductive measurement := Inc | Add (x : float64) | SetTo (x : float64) | Observe (x : float64).

Class Prometheus := {
  Registry : Type;
  NewRegistry : Registry;
  Register : collector → Registry → option Registry;        (* [None]: an error *)
  Values : Type;
  fresh_values : Values;
  measure : collector → list string → measurement → Values → option Values;   (* [None]: a panic *)
}.

(** What the library documents: a registry takes a collector with legal names
    whose name is new, and [WithLabelValues] with the call after it succeeds when
    there is a value for each label, the values are UTF-8, and a counter does not
    go down. *)
Definition name_char (c : ascii) : bool := is_alnum c || Ascii.eqb c "_" || Ascii.eqb c ":".
Definition label_char (c : ascii) : bool := is_alnum c || Ascii.eqb c "_".
Definition starts_well (s : string) : bool := match s with "" => false | String c _ => negb (is_digit c) end.

Definition legal (c : collector) : bool :=
  starts_well (co_Name c) && sforall name_char (co_Name c) &&
  forallb (λ l, starts_well l && sforall label_char l && negb (HasPrefix l "__") && negb (String.eqb l "le")) (co_Labels c) &&
  bool_decide (NoDup (co_Labels c)).

Definition kind_fits (k : metric_kind) (m : measurement) : bool :=
  match k, m with
  | CounterKind, Inc => true
  | CounterKind, Add x => negb (fltb x (float_of_Z 0))
  | GaugeKind, SetTo _ => true
  | HistogramKind, Observe _ => true
  | _, _ => false
  end.
Definition fits (c : collector) (labels : list string) (m : measurement) : bool :=
  (length labels =? length (co_Labels c))%nat && forallb utf8_Valid labels && kind_fits (co_Kind c) m.

Class PrometheusLaws `{Prometheus} := {
  registered : Registry → gset string;
  registered_new : registered NewRegistry = ∅;
  Register_fresh c r : legal c = true → co_Name c ∉ registered r →
    ∃ r', Register c r = Some r' ∧ registered r' = {[co_Name c]} ∪ registered r;
  Register_taken c r : co_Name c ∈ registered r → Register c r = None;
  measure_fits c labels m v : fits c labels m = true → is_Some (measure c labels m v);
}.

(** ** The metrics of the router *)

Section metrics.
Context `{Prometheus}.

Fixpoint register_collectors (cs : list collector) (r : Registry) : option Registry :=
  match cs with
  | [] => Some r
  | c :: rest => r ← Register c r; register_collectors rest r
  end.

(** The two counters are [uint64]. *)
Record Metrics := MkMetricSet { m_registry : Registry; m_values : Values; messagesReceived : Z; messagesError : Z }.

Definition NewMetrics (r : Registry) : option Metrics :=
  r ← register_collectors collectors r; Some (MkMetricSet r fresh_values 0 0).

(** A call on a collector; [None] is a panic. *)
Definition on (c : collector) (labels : list string) (x : measurement) (m : Metrics) : option Metrics :=
  v ← measure c labels x (m_values m);
  Some (MkMetricSet (m_registry m) v (messagesReceived m) (messagesError m)).

Definition AddUint64 (x delta : Z) : Z := (x + delta) mod 2 ^ 64.

Definition IncMessagesTotal (status : string) (m : Metrics) : option Metrics :=
  m ← on messagesTotal [status] Inc m;
  Some (if String.eqb status "received" then MkMetricSet (m_registry m) (m_values m) (AddUint64 (messagesReceived m) 1) (messagesError m)
        else if String.eqb status "error" then MkMetricSet (m_registry m) (m_values m) (messagesReceived m) (AddUint64 (messagesError m) 1)
        else m).
Definition SetMessageProcessingBacklog (count : float64) : Metrics → option Metrics := on messageProcessingBacklog [] (SetTo count).
Definition IncRuleMatches (trigger : string) : Metrics → option Metrics := on ruleMatches [trigger] Inc.
Definition SetRulesActive (count : float64) : Metrics → option Metrics := on rulesActive [] (SetTo count).
Definition IncActionsTotal (status : string) : Metrics → option Metrics := on actionsTotal [status] Inc.
Definition IncActionsByType (actionType : string) : Metrics → option Metrics := on actionsByType [actionType] Inc.
Definition IncActionPublishFailures : Metrics → option Metrics := on actionPublishFailures [] Inc.
Definition IncTemplateOpsTotal (status : string) : Metrics → option Metrics := on templateOpsTotal [status] Inc.
Definition SetNATSConnectionStatus (connected : bool) : Metrics → option Metrics :=
  if connected then on natsConnectionStatus [] (SetTo (float_of_Z 1)) else on natsConnectionStatus [] (SetTo (float_of_Z 0)).
Definition IncNATSAsyncErrors (kind : string) : Metrics → option Metrics := on natsAsyncErrors [kind] Inc.
Definition IncNATSReconnects : Metrics → option Metrics := on natsReconnects [] Inc.
Definition IncSignatureVerifications (res : string) : Metrics → option Metrics := on signatureVerificationsTotal [res] Inc.
Definition ObserveSignatureVerificationDuration (seconds : float64) : Metrics → option Metrics :=
  on signatureVerificationDuration [] (Observe seconds).
Definition IncWebhookHMACVerifications (res : string) : Metrics → option Metrics := on webhookHMACVerificationsTotal [res] Inc.
Definition IncKVCacheHits : Metrics → option Metrics := on kvCacheHits [] Inc.
Definition IncKVCacheMisses : Metrics → option Metrics := on kvCacheMisses [] Inc.
Definition SetKVCacheSize (size : float64) : Metrics → option Metrics := on kvCacheSize [] (SetTo size).
Definition IncForEachIterations (ruleFile : string) (count : Z) : Metrics → option Metrics :=
  on forEachIterationsTotal [ruleFile] (Add (float_of_Z count)).
Definition IncForEachFiltered (ruleFile : string) (count : Z) : Metrics → option Metrics :=
  on forEachFilteredCount [ruleFile] (Add (float_of_Z count)).
Definition IncForEachActionsGenerated (ruleFile : string) (count : Z) : Metrics → option Metrics :=
  on forEachActionsGenerated [ruleFile] (Add (float_of_Z count)).
Definition IncForEachElementErrors (ruleFile errorType : string) : Metrics → option Metrics :=
  on forEachElementErrors [ruleFile; errorType] Inc.
Definition ObserveForEachDuration (ruleFile : string) (seconds : float64) : Metrics → option Metrics :=
  on forEachDuration [ruleFile] (Observe seconds).
Definition IncThrottleSuppressed (phase : string) : Metrics → option Metrics := on throttleSuppressedTotal [phase] Inc.
Definition IncThrottleDeferred (outcome : string) : Metrics → option Metrics := on throttleDeferredTotal [outcome] Inc.
Definition IncArrayOperatorEvaluations (operator : string) (res : bool) : Metrics → option Metrics :=
  on arrayOperatorEvaluations [operator; if res then "true" else "false"] Inc.
Definition IncSchedulerJobRun (cronExpr status : string) : Metrics → option Metrics := on schedulerJobRunsTotal [cronExpr; status] Inc.
Definition ObserveSchedulerJobDuration (cronExpr : string) (seconds : float64) : Metrics → option Metrics :=
  on schedulerJobDuration [cronExpr] (Observe seconds).
(** What the runtime reports is passed. *)
Definition UpdateSystemMetrics (numGoroutine alloc : Z) (m : Metrics) : option Metrics :=
  m ← on goroutines [] (SetTo (float_of_Z numGoroutine)) m;
  on memoryBytes [] (SetTo (float_of_Z alloc)) m.
Definition IncHTTPInboundRequestsTotal (path method status : string) : Metrics → option Metrics :=
  on httpInboundRequestsTotal [path; method; status] Inc.
Definition ObserveHTTPRequestDuration (path method : string) (seconds : float64) : Metrics → option Metrics :=
  on httpRequestDuration [path; method] (Observe seconds).
Definition IncHTTPOutboundRequestsTotal (statusCode : string) : Metrics → option Metrics := on httpOutboundRequestsTotal [statusCode] Inc.
Definition ObserveHTTPOutboundDuration (statusCode : string) (seconds : float64) : Metrics → option Metrics :=
  on httpOutboundDuration [statusCode] (Observe seconds).

Definition Stats (m : Metrics) : Z * Z := (messagesReceived m, messagesError m).

(** *** Any call *)

Inductive metric_call :=
| CallMessages (status : string) | CallBacklog (count : float64) | CallRuleMatches (trigger : string) | CallRulesActive (count : float64)
| CallActions (status : string) | CallActionsByType (actionType : string) | CallPublishFailures | CallTemplateOps (status : string)
| CallConnection (connected : bool) | CallAsyncErrors (kind : string) | CallReconnects
| CallSignatures (res : string) | CallSignatureDuration (seconds : float64) | CallWebhookHMAC (res : string)
| CallCacheHits | CallCacheMisses | CallCacheSize (size : float64)
| CallForEachIterations (ruleFile : string) (count : Z) | CallForEachFiltered (ruleFile : string) (count : Z)
| CallForEachActions (ruleFile : string) (count : Z) | CallForEachErrors (ruleFile errorType : string)
| CallForEachDuration (ruleFile : string) (seconds : float64)
| CallSuppressed (phase : string) | CallDeferred (outcome : string) | CallArrayOperator (operator : string) (res : bool)
| CallJobRun (cronExpr status : string) | CallJobDuration (cronExpr : string) (seconds : float64)
| CallSystem (numGoroutine alloc : Z)
| CallInbound (path method status : string) | CallInboundDuration (path method : string) (seconds : float64)
| CallOutbound (statusCode : string) | CallOutboundDuration (statusCode : string) (seconds : float64).

Definition make_call (c : metric_call) : Metrics → option Metrics :=
  match c with
  | CallMessages s => IncMessagesTotal s
  | CallBacklog x => SetMessageProcessingBacklog x
  | CallRuleMatches t => IncRuleMatches t
  | CallRulesActive x => SetRulesActive x
  | CallActions s => IncActionsTotal s
  | CallActionsByType t => IncActionsByType t
  | CallPublishFailures => IncActionPublishFailures
  | CallTemplateOps s => IncTemplateOpsTotal s
  | CallConnection b => SetNATSConnectionStatus b
  | CallAsyncErrors k => IncNATSAsyncErrors k
  | CallReconnects => IncNATSReconnects
  | CallSignatures r => IncSignatureVerifications r
  | CallSignatureDuration x => ObserveSignatureVerificationDuration x
  | CallWebhookHMAC r => IncWebhookHMACVerifications r
  | CallCacheHits => IncKVCacheHits
  | CallCacheMisses => IncKVCacheMisses
  | CallCacheSize x => SetKVCacheSize x
  | CallForEachIterations f n => IncForEachIterations f n
  | CallForEachFiltered f n => IncForEachFiltered f n
  | CallForEachActions f n => IncForEachActionsGenerated f n
  | CallForEachErrors f e => IncForEachElementErrors f e
  | CallForEachDuration f x => ObserveForEachDuration f x
  | CallSuppressed p => IncThrottleSuppressed p
  | CallDeferred o => IncThrottleDeferred o
  | CallArrayOperator o b => IncArrayOperatorEvaluations o b
  | CallJobRun c s => IncSchedulerJobRun c s
  | CallJobDuration c x => ObserveSchedulerJobDuration c x
  | CallSystem n a => UpdateSystemMetrics n a
  | CallInbound p m s => IncHTTPInboundRequestsTotal p m s
  | CallInboundDuration p m x => ObserveHTTPRequestDuration p m x
  | CallOutbound s => IncHTTPOutboundRequestsTotal s
  | CallOutboundDuration s x => ObserveHTTPOutboundDuration s x
  end.

Fixpoint make_calls (cs : list metric_call) (m : Metrics) : option Metrics :=
  match cs with
  | [] => Some m
  | c :: rest => m ← make_call c m; make_calls rest m
  end.

(** The label values a caller chooses, and the counts it adds. *)
Definition given_labels (c : metric_call) : list string :=
  match c with
  | CallMessages s | CallRuleMatches s | CallActions s | CallActionsByType s | CallTemplateOps s | CallAsyncErrors s
  | CallSignatures s | CallWebhookHMAC s | CallSuppressed s | CallDeferred s | CallArrayOperator s _
  | CallForEachIterations s _ | CallForEachFiltered s _ | CallForEachActions s _ | CallForEachDuration s _
  | CallJobDuration s _ | CallOutbound s | CallOutboundDuration s _ => [s]
  | CallForEachErrors a b | CallJobRun a b | CallInboundDuration a b _ => [a; b]
  | CallInbound a b c => [a; b; c]
  | _ => []
  end.
Definition given_count (c : metric_call) : Z :=
  match c with CallForEachIterations _ n | CallForEachFiltered _ n | CallForEachActions _ n => n | _ => 0%Z end.

Definition call_fits (c : metric_call) : bool := forallb utf8_Valid (given_labels c) && (0 <=? given_count c)%Z.

Definition is_message (status : string) (c : metric_call) : bool :=
  match c with CallMessages s => String.eqb s status | _ => false end.
Definition messages_with (status : string) (cs : list metric_call) : Z := Z.of_nat (length (filter (is_message status) cs)).
End metrics.

(** ** The metrics of the authentication manager *)

Definition AuthSuccessTotal : collector := MkCollector "authmgr_auth_success_total" CounterKind ["provider"].
Definition AuthFailuresTotal : collector := MkCollector "authmgr_auth_failures_total" CounterKind ["provider"].
Definition AuthDuration : collector := MkCollector "authmgr_auth_duration_seconds" HistogramKind ["provider"].
Definition KVStoreFailuresTotal : collector := MkCollector "authmgr_kv_store_failures_total" CounterKind ["provider"].

Section auth_metrics.
Context `{Prometheus}.

Definition auth_NewMetrics (reg : Registry) : option Values :=
  _ ← register_collectors [AuthSuccessTotal; AuthFailuresTotal; AuthDuration; KVStoreFailuresTotal] reg; Some fresh_values.

Definition IncAuthSuccess (providerID : string) : Values → option Values := measure AuthSuccessTotal [providerID] Inc.
Definition IncAuthFailure (providerID : string) : Values → option Values := measure AuthFailuresTotal [providerID] Inc.
Definition ObserveAuthDuration (providerID : string) (seconds : float64) : Values → option Values :=
  measure AuthDuration [providerID] (Observe seconds).
Definition IncKVStoreFailure (providerID : string) : Values → option Values := measure KVStoreFailuresTotal [providerID] Inc.
End auth_metrics.

(** ** Collecting *)

Section collecting.
Context `{Prometheus}.

Record Collector := MkCollecting { cl_metrics : Metrics; cl_updateInterval : Z }.
Definition NewCollector (m : Metrics) (updateInterval : Z) : Collector := MkCollecting m updateInterval.

(** What the loop selects: the ticker, with what the runtime then reports, or
    the closed channel. *)
Inductive collector_event := Ticked (numGoroutine alloc : Z) | StopClosed.

(** The metrics, and whether the loop has returned; the ticker of an interval
    that is not positive panics. *)
Fixpoint collect_loop (events : list collector_event) (m : Metrics) : option (Metrics * bool) :=
  match events with
  | [] => Some (m, false)
  | StopClosed :: _ => Some (m, true)
  | Ticked n a :: rest => m ← UpdateSystemMetrics n a m; collect_loop rest m
  end.
Definition collect_metrics (mc : Collector) (events : list collector_event) : option (Metrics * bool) :=
  if (cl_updateInterval mc <=? 0)%Z then None else collect_loop events (cl_metrics mc).
End collecting.

(** ** Starting *)

Section starting.
Context `{Prometheus}.
Variable odd_pattern : string → bool.   (* whether the mux takes a pattern that is not a plain path beside the probes *)

Definition plain_char (c : ascii) : bool := negb (existsb (Ascii.eqb c) (chars "{% ") || Ascii.eqb c "009").
Definition plain_path (p : string) : bool := HasPrefix p "/" && sforall plain_char p.

(** [Handle] panics on a pattern that is registered already. *)
Fixpoint mux_Handle (patterns registered : list string) : bool :=
  match patterns with
  | [] => true
  | p :: rest => negb (existsb (String.eqb p) registered) && mux_Handle rest (p :: registered)
  end.
Definition probe_patterns : list string := ["/health"; "/ready"].
Definition metrics_mux (path : string) : bool :=
  if plain_path path then mux_Handle (path :: probe_patterns) [] else odd_pattern path.

Inductive metrics_start :=
| MetricsDisabled | MetricsNotRegistered | IntervalNotParsed | MetricsPanic
| MetricsStarted (mc : Collector).

(** [WithMetrics], up to the panic of the mux, or of the collector's ticker. *)
Definition start_metrics (cfg : MetricsConfig) : metrics_start :=
  if negb (me_Enabled cfg) then MetricsDisabled
  else match NewMetrics NewRegistry with
  | None => MetricsNotRegistered
  | Some m =>
      match ParseDuration (me_UpdateInterval cfg) with
      | None => IntervalNotParsed
      | Some interval =>
          let mc := NewCollector m interval in
          match collect_metrics mc [] with
          | None => MetricsPanic
          | Some _ => if metrics_mux (me_Path cfg) then MetricsStarted mc else MetricsPanic
          end
      end
  end.

(** The probes. *)
Definition health_probe : Z * string := (200, "{'status':'healthy'}")%Z.
Definition ready_probe (ready : bool) : Z * string :=
  if ready then (200, "{'status':'ready'}")%Z else (503, "{'status':'not ready'}")%Z.
End starting.

(** ** Lemmas *)

Lemma binary_round_nonneg m e : fltb (binary_round prec emax false m e) (S754_zero false) = false.
Proof.
  unfold binary_round, binary_round_aux. destruct (shl_align _ _ _) as [mz ez]. destruct (shr_fexp _ _ _ _ _) as [mrs e'].
  destruct (shr_fexp _ _ _ _ _) as [mrs' e'']. by destruct (shr_m mrs') as [|?|?]; [|case_match|].
Qed.

Lemma float_of_Z_nonneg n : (0 ≤ n)%Z → fltb (float_of_Z n) (float_of_Z 0) = false.
Proof. intros Hn. destruct n as [|p|p]; [done| |lia]. apply binary_round_nonneg. Qed.

Lemma collectors_legal : forallb legal collectors = true.
Proof. vm_compute. reflexivity. Qed.
Lemma collectors_distinct : NoDup (map co_Name collectors).
Proof. apply (bool_decide_unpack _). vm_compute. exact I. Qed.

Section laws.
Context `{PrometheusLaws}.

Lemma register_collectors_fresh cs r : forallb legal cs = true → NoDup (map co_Name cs) →
  Forall (λ c, co_Name c ∉ registered r) cs →
  ∃ r', register_collectors cs r = Some r' ∧ registered r' = list_to_set (map co_Name cs) ∪ registered r.
Proof.
  revert r. induction cs as [|c cs IH]; intros r Hl Hn Hf; [exists r; split; [done|set_solver]|].
  cbn in *. apply andb_prop in Hl as [Hc Hl]. apply NoDup_cons in Hn as [Hnot Hn]. apply Forall_cons in Hf as [Hfc Hf].
  destruct (Register_fresh c r Hc Hfc) as (r1 & -> & Hr1). cbn.
  destruct (IH r1 Hl Hn) as (r' & -> & Hr').
  { apply Forall_forall. intros c' Hc'. rewrite Hr1. apply not_elem_of_union. split; [|by eapply Forall_forall in Hf].
    apply not_elem_of_singleton. intros He. apply Hnot. rewrite <- He. apply list_elem_of_fmap. eauto. }
  exists r'. split; [done|]. rewrite Hr', Hr1. set_solver.
Qed.

Lemma register_collectors_taken cs r c : c ∈ cs → co_Name c ∈ registered r → forallb legal cs = true → register_collectors cs r = None.
Proof.
  revert r. induction cs as [|d cs IH]; intros r Hc Hr Hl; [by apply elem_of_nil in Hc|]. cbn in *.
  apply andb_prop in Hl as [Hd Hl]. destruct (decide (co_Name d ∈ registered r)) as [Hin|Hout]; [by rewrite Register_taken|].
  destruct (Register_fresh d r Hd Hout) as (r1 & -> & Hr1). cbn. apply elem_of_cons in Hc as [->|Hc]; [done|].
  apply IH; [done| |done]. rewrite Hr1. set_solver.
Qed.

Lemma on_fits c labels x m : fits c labels x = true →
  ∃ v, on c labels x m = Some (MkMetricSet (m_registry m) v (messagesReceived m) (messagesError m)).
Proof. intros Hf. unfold on. destruct (measure_fits c labels x (m_values m) Hf) as [v ->]. by exists v. Qed.

(** One call: it succeeds, and moves the two counters as its status says. *)
Definition stepped (status : string) (c : metric_call) (n : Z) : Z := if is_message status c then AddUint64 n 1 else n.

Lemma make_call_fits c m : call_fits c = true →
  ∃ v, make_call c m = Some (MkMetricSet (m_registry m) v (stepped "received" c (messagesReceived m)) (stepped "error" c (messagesError m))).
Proof.
  unfold call_fits, stepped. intros [Hl Hn%Z.leb_le]%andb_prop.
  assert (∀ cl x, fits cl (given_labels c) x = true → ∃ v, on cl (given_labels c) x m = Some (MkMetricSet (m_registry m) v (messagesReceived m) (messagesError m)))
    as Hon by (intros; by apply on_fits).
  assert (∀ n, (0 ≤ n)%Z → kind_fits CounterKind (Add (float_of_Z n)) = true) as Hadd
    by (intros n ?; cbn; by rewrite float_of_Z_nonneg).
  destruct c; cbn [given_labels given_count is_message make_call] in *;
    try (apply Hon; unfold fits; cbn [length co_Labels co_Kind]; rewrite Hl; first [done|by apply Hadd]).
  - unfold IncMessagesTotal. destruct (Hon messagesTotal Inc) as [v ->]; [unfold fits; by rewrite Hl|]. cbn. exists v.
    by destruct (String.eqb_spec status "received") as [->|?]; [|destruct (String.eqb_spec status "error")].
  - unfold SetNATSConnectionStatus. destruct connected; by apply Hon.
  - unfold IncArrayOperatorEvaluations. apply on_fits. unfold fits. cbn in *. rewrite andb_true_r in Hl. rewrite Hl. by destruct res.
  - unfold UpdateSystemMetrics. destruct (on_fits goroutines [] (SetTo (float_of_Z numGoroutine)) m eq_refl) as [v ->]. cbn.
    destruct (on_fits memoryBytes [] (SetTo (float_of_Z alloc)) (MkMetricSet (m_registry m) v (messagesReceived m) (messagesError m)) eq_refl) as [v' ->].
    by exists v'.
Qed.

Lemma make_calls_fit cs m : forallb call_fits cs = true →
  (0 ≤ messagesReceived m < 2 ^ 64)%Z → (0 ≤ messagesError m < 2 ^ 64)%Z →
  ∃ v, make_calls cs m = Some (MkMetricSet (m_registry m) v (AddUint64 (messagesReceived m) (messages_with "received" cs))
                                 (AddUint64 (messagesError m) (messages_with "error" cs))).
Proof.
  revert m. induction cs as [|c cs IH]; intros m Hf Hr He.
  - exists (m_values m). unfold AddUint64, messages_with. cbn. rewrite !Z.add_0_r, !Z.mod_small by lia. by destruct m.
  - cbn in Hf. apply andb_prop in Hf as [Hc Hf]. destruct (make_call_fits c m Hc) as [v Hv]. cbn [make_calls]. rewrite Hv.
    cbn [mbind option_bind].
    assert (∀ status n, 0 ≤ n < 2 ^ 64 → 0 ≤ stepped status c n < 2 ^ 64 ∧
      AddUint64 (stepped status c n) (messages_with status cs) = AddUint64 n (messages_with status (c :: cs)))%Z as Hs.
    { intros status n Hn. unfold stepped, messages_with, AddUint64. rewrite filter_cons.
      destruct (is_message status c) eqn:Em; case_decide as Hd; rewrite ?Em in Hd; try done.
      split; [apply Z.mod_pos_bound; lia|]. rewrite Zplus_mod_idemp_l. f_equal. cbn [length]. lia. }
    destruct (Hs "received" _ Hr) as [Hr' <-], (Hs "error" _ He) as [He' <-].
    destruct (IH (MkMetricSet (m_registry m) v (stepped "received" c (messagesReceived m)) (stepped "error" c (messagesError m))) Hf Hr' He')
      as [v' ->]. by exists v'.
Qed.

Lemma NewMetrics_fresh : ∃ r, NewMetrics NewRegistry = Some (MkMetricSet r fresh_values 0 0) ∧
  registered r = list_to_set (map co_Name collectors).
Proof.
  unfold NewMetrics. destruct (register_collectors_fresh collectors NewRegistry collectors_legal collectors_distinct) as (r & -> & Hr).
  - apply Forall_forall. intros c _. rewrite registered_new. set_solver.
  - exists r. split; [done|]. rewrite Hr, registered_new. apply (right_id_L _ _).
Qed.

(** The metrics fit their collectors.  On a new registry every collector is
    registered, and from then on no sequence of calls panics when the labels are
    text and no count is negative: each call gives as many label values as its
    collector declares and does only what its kind allows.  The two counters are
    the numbers of messages received and failed, modulo 2^64, and a second set on
    the same registry is refused. *)
Theorem metrics_fit cs : forallb call_fits cs = true →
  ∃ m0 m, NewMetrics NewRegistry = Some m0 ∧ make_calls cs m0 = Some m ∧
    Stats m = (messages_with "received" cs mod 2 ^ 64, messages_with "error" cs mod 2 ^ 64)%Z ∧
    NewMetrics (m_registry m) = None.
Proof.
  intros Hf. destruct NewMetrics_fresh as (r & Hnew & Hr).
  destruct (make_calls_fit cs (MkMetricSet r fresh_values 0 0) Hf) as [v Hv]; [done..|].
  eexists _, _. split; [exact Hnew|]. split; [exact Hv|]. split; [done|].
  unfold NewMetrics. cbn [m_registry]. rewrite (register_collectors_taken collectors r messagesTotal); [done| | |apply collectors_legal].
  - apply elem_of_cons. by left.
  - rewrite Hr. apply elem_of_list_to_set, elem_of_cons. by left.
Qed.

Lemma auth_metrics_register : is_Some (auth_NewMetrics NewRegistry).
Proof.
  unfold auth_NewMetrics. destruct (register_collectors_fresh [AuthSuccessTotal; AuthFailuresTotal; AuthDuration; KVStoreFailuresTotal] NewRegistry)
    as (r & -> & _); [vm_compute; reflexivity|apply (bool_decide_unpack _); vm_compute; exact I| |by eexists].
  apply Forall_forall. intros c _. rewrite registered_new. set_solver.
Qed.

(** *** Collecting *)

Lemma collect_keeps_counters events m :
  ∃ v ended, collect_loop events m = Some (MkMetricSet (m_registry m) v (messagesReceived m) (messagesError m), ended) ∧
    (ended = true ↔ StopClosed ∈ events).
Proof.
  revert m. induction events as [|[n a|] events IH]; intros m.
  - exists (m_values m), false. split; [by destruct m|]. split; [done|by intros ?%elem_of_nil].
  - cbn [collect_loop]. destruct (make_call_fits (CallSystem n a) m eq_refl) as [v Hv]. cbn [make_call] in Hv. rewrite Hv. cbn [mbind option_bind].
    destruct (IH (MkMetricSet (m_registry m) v (messagesReceived m) (messagesError m))) as (v' & ended & Hc & He). exists v', ended.
    split; [exact Hc|]. rewrite He, elem_of_cons. naive_solver.
  - exists (m_values m), true. split; [by destruct m|]. split; [|done]. intros _. apply elem_of_cons. by left.
Qed.

(** The collection of a positive interval never panics, touches neither counter,
    and ends exactly when it is stopped. *)
Lemma collect_correct mc events : (0 < cl_updateInterval mc)%Z →
  ∃ m ended, collect_metrics mc events = Some (m, ended) ∧ Stats m = Stats (cl_metrics mc) ∧ (ended = true ↔ StopClosed ∈ events).
Proof.
  intros Hi. unfold collect_metrics. rewrite (proj2 (Z.leb_gt _ _)) by done.
  destruct (collect_keeps_counters events (cl_metrics mc)) as (v & ended & -> & He). by exists (MkMetricSet (m_registry (cl_metrics mc)) v (messagesReceived (cl_metrics mc)) (messagesError (cl_metrics mc))), ended.
Qed.

(** *** Starting *)

Lemma metrics_mux_plain odd path : plain_path path = true → metrics_mux odd path = true ↔ path ∉ probe_patterns.
Proof.
  intros Hp. unfold metrics_mux, probe_patterns. rewrite Hp. cbn [mux_Handle existsb negb andb].
  destruct (String.eqb_spec "/health" path) as [<-|Hh]; [split; [done|set_solver]|].
  destruct (String.eqb_spec "/ready" path) as [<-|Hr]; [split; [done|set_solver]|]. split; [set_solver|done].
Qed.

(** A start that is not disabled gives metrics at once, whose registration cannot
    fail; it panics exactly when the interval is not positive or the path is one
    of the probes'. *)
Lemma start_metrics_correct odd cfg interval : me_Enabled cfg = true →
  ParseDuration (me_UpdateInterval cfg) = Some interval → plain_path (me_Path cfg) = true →
  if decide (0 < interval ∧ me_Path cfg ∉ probe_patterns)%Z
  then ∃ m, NewMetrics NewRegistry = Some m ∧ start_metrics odd cfg = MetricsStarted (NewCollector m interval)
  else start_metrics odd cfg = MetricsPanic.
Proof.
  intros He Hi Hp. unfold start_metrics. rewrite He, Hi. cbn [negb]. destruct NewMetrics_fresh as (r & -> & _).
  pose proof (metrics_mux_plain odd _ Hp) as Hmux. unfold collect_metrics. cbn [NewCollector cl_updateInterval cl_metrics collect_loop].
  destruct (Z.leb_spec interval 0) as [Hle|Hlt]; case_decide as Hd; try done; [destruct Hd; lia| |].
  - destruct Hd as [_ Hd]. rewrite (proj2 Hmux Hd). eauto.
  - destruct (metrics_mux odd (me_Path cfg)); [|done]. destruct Hd. split; [done|by apply Hmux].
Qed.

(** The builder never fails for the registration of its metrics. *)
Lemma metrics_always_register `{Env} `{Net} cfg e : bu_registered e = bool_decide (is_Some (NewMetrics NewRegistry)) →
  ab_err (WithMetrics cfg e NewAppBuilder) ≠ Some MetricsFailed.
Proof.
  destruct NewMetrics_fresh as (r & -> & _). rewrite bool_decide_true by done. intros Hb.
  unfold WithMetrics, sticky. cbn. rewrite Hb. destruct (me_Enabled _); cbn; [|done]. by destruct (ParseDuration _).
Qed.

End laws.

(** ** A registry *)

#[local] Instance counted : Prometheus := {|
  Registry := gset string; NewRegistry := ∅;
  Register := λ c r, if decide (co_Name c ∈ r) then None else if legal c then Some ({[co_Name c]} ∪ r) else None;
  Values := list (string * list string); fresh_values := [];
  measure := λ c labels m v, if fits c labels m then Some ((co_Name c, labels) :: v) else None;
|}.
#[local] Instance counted_laws : PrometheusLaws.
Proof.
  refine {| registered := λ r : Registry (Prometheus := counted), r : gset string |}; cbn.
  - done.
  - intros c r Hl Hr. rewrite decide_False, Hl by done. eauto.
  - intros c r Hr. by rewrite decide_True.
  - intros c labels m v ->. by eexists.
Qed.

Lemma metrics_fit_witness :
  let cs := [CallMessages "received"; CallMessages "received"; CallMessages "error"; CallForEachIterations "nats" 3; CallConnection true] in
  ∃ m0 m, NewMetrics NewRegistry = Some m0 ∧ make_calls cs m0 = Some m ∧ Stats m = (2, 1)%Z.
Proof.
  intros cs. destruct (metrics_fit cs) as (m0 & m & H0 & Hm & Hs & _); [vm_compute; reflexivity|].
  exists m0, m. split; [exact H0|]. split; [exact Hm|]. rewrite Hs. vm_compute. reflexivity.
Defined.

(** The metrics on the path of a probe: the configuration loads, and the start
    panics. *)
Definition health_path (c : Config) : Config :=
  MkConfig (cf_Features c) (cf_NATS c) (cf_Server c) (cf_Client c) (cf_Logging c) (Config.MkMetrics true "" "/health" "15s")
    (cf_KV c) (cf_Security c) (cf_ForEach c).
Lemma health_path_panics odd :
  ∃ c, @Load (edited_by health_path) = Ok c ∧ start_metrics odd (cf_Metrics c) = MetricsPanic.
Proof.
  exists (@dependent_defaults (edited_by health_path) (health_path (setDefaults zero_config))).
  split; [vm_compute; reflexivity|].
  pose proof (start_metrics_correct odd (Config.MkMetrics true ":2112" "/health" "15s") (15 * Second) eq_refl) as Hs.
  rewrite decide_False in Hs; [apply Hs; vm_compute; reflexivity|]. intros [_ Hn]. apply Hn. cbn. set_solver.
Qed.
