(* ===== verification/Callbacks.v ===== *)
(** * The callbacks of the connection (internal/broker/nats.go)

    The client library reports what happens to the connection, and what fails
    outside any request, by callbacks that it runs one at a time.  Each moves the
    metrics, and a reconnection stops the watchers of the cache so that their
    loops make them anew. *)

From S2P Require Import Prelude GoStrings GoFloat GoTime Value Types Env KVContext Watch.
From S2P Require Import StreamResolver Net HttpClient Publisher Site Subscription Broker Config KVCache Connection App Lifecycle Assembly Metrics.
Local Open Scope string_scope.

(** ** The callbacks *)

(** An error: whether it wraps the client's [ErrSlowConsumer], and its text. *)
Record nats_error := MkNatsError { er_slow : bool; er_text : string }.

Definition asyncErrorKind (err : option nats_error) : string :=
  match err with
  | None => "other"
  | Some err =>
      if er_slow err then "slow_consumer"
      else if Contains (ToLower (er_text err)) "permissions violation" then "permissions_violation"
      else "other"
  end.

(** What the client reports; a subscription may be missing from an error. *)
Inductive client_event :=
| ClientConnected | ClientDisconnected | ClientReconnected | ClientClosed
| ClientError (sub : option string) (err : option nats_error)
| ClientPublishFailed.

(** What a callback does: the calls on the metrics, the line that reports an
    error, and the watchers it stops. *)
Inductive callback_effect :=
| Measured (c : metric_call) | Reported (kind subject : string) | StoppedWatcher (h : kvWatchHandle).

Definition measured (metrics : bool) (cs : list metric_call) : list callback_effect := if metrics then map Measured cs else [].

Definition handleAsyncError (metrics : bool) (sub : option string) (err : option nats_error) : list callback_effect :=
  let subject := match sub with Some s => s | None => "" end in
  let kind := asyncErrorKind err in
  (Reported kind subject :: measured metrics [CallAsyncErrors kind])%list.

(** The handlers that [buildNATSOptions] installs, and the one of [New] for
    asynchronous publishes; [closing] says whether the broker's context is
    cancelled. *)
Definition callback (metrics : bool) (kv : KVConfig) (closing : bool) (k : KVBroker) (ev : client_event) : list callback_effect :=
  match ev with
  | ClientConnected => measured metrics [CallConnection true]
  | ClientDisconnected => measured metrics [CallConnection false]
  | ClientReconnected =>
      (measured metrics [CallConnection true; CallReconnects] ++ map StoppedWatcher (restartKVWatchers kv closing k))%list
  | ClientClosed => measured metrics [CallConnection false]
  | ClientError sub err => handleAsyncError metrics sub err
  | ClientPublishFailed => measured metrics [CallPublishFailures]
  end.

(** The callbacks of a run, each with whether the broker was closing. *)
Definition callbacks (metrics : bool) (kv : KVConfig) (k : KVBroker) (evs : list (bool * client_event)) : list callback_effect :=
  evs ≫= λ e, callback metrics kv e.1 k e.2.

Definition calls_of (effects : list callback_effect) : list metric_call :=
  omap (λ e, match e with Measured c => Some c | _ => None end) effects.
Definition stopped_of (effects : list callback_effect) : list kvWatchHandle :=
  omap (λ e, match e with StoppedWatcher h => Some h | _ => None end) effects.

(** ** Specification *)

(** What a gauge of the connection shows after the calls: nothing before the
    first. *)
Definition gauge (cs : list metric_call) : option bool :=
  foldl (λ g c, match c with CallConnection b => Some b | _ => g end) None cs.

(** The states of the connection, and the events the client documents in each:
    a connection that is lost is found again or given up, and a closed one stays
    closed; errors are reported at any time. *)
Inductive link := LinkNew | LinkUp | LinkDown | LinkClosed.

Definition is_report (ev : client_event) : bool :=
  match ev with ClientError _ _ | ClientPublishFailed => true | _ => false end.

Inductive link_history : list client_event → link → Prop :=
| history_new : link_history [] LinkNew
| history_connected evs : link_history evs LinkNew → link_history (evs ++ [ClientConnected]) LinkUp
| history_disconnected evs : link_history evs LinkUp → link_history (evs ++ [ClientDisconnected]) LinkDown
| history_reconnected evs : link_history evs LinkDown → link_history (evs ++ [ClientReconnected]) LinkUp
| history_closed evs l : l ≠ LinkClosed → link_history evs l → link_history (evs ++ [ClientClosed]) LinkClosed
| history_report evs l ev : is_report ev = true → link_history evs l → link_history (evs ++ [ev]) l.

Definition shown (l : link) : option bool :=
  match l with LinkNew => None | LinkUp => Some true | LinkDown | LinkClosed => Some false end.

Definition error_kinds : list string := ["slow_consumer"; "permissions_violation"; "other"].

Definition is_reconnect (ev : client_event) : bool := match ev with ClientReconnected => true | _ => false end.
Definition is_kind (kind : string) (ev : client_event) : bool :=
  match ev with ClientError _ err => String.eqb (asyncErrorKind err) kind | _ => false end.
Definition is_publish_failure (ev : client_event) : bool := match ev with ClientPublishFailed => true | _ => false end.

Definition count {A} (p : A → bool) (l : list A) : nat := length (List.filter p l).
Definition counts_reconnect (c : metric_call) : bool := match c with CallReconnects => true | _ => false end.
Definition counts_kind (kind : string) (c : metric_call) : bool := match c with CallAsyncErrors k => String.eqb k kind | _ => false end.
Definition counts_publish (c : metric_call) : bool := match c with CallPublishFailures => true | _ => false end.

(** ** Lemmas *)

Lemma asyncErrorKind_kind err : asyncErrorKind err ∈ error_kinds.
Proof. unfold asyncErrorKind, error_kinds. repeat case_match; set_solver. Qed.

Lemma count_app {A} (p : A → bool) l k : count p (l ++ k) = (count p l + count p k)%nat.
Proof. unfold count. by rewrite List.filter_app, length_app. Qed.

Section callbacks.
Variables (kv : KVConfig) (k : KVBroker).

Lemma calls_app e1 e2 : calls_of (e1 ++ e2) = (calls_of e1 ++ calls_of e2)%list.
Proof. apply omap_app. Qed.
Lemma stopped_app e1 e2 : stopped_of (e1 ++ e2) = (stopped_of e1 ++ stopped_of e2)%list.
Proof. apply omap_app. Qed.
Lemma calls_stopped hs : calls_of (map StoppedWatcher hs) = [].
Proof. by induction hs. Qed.
Lemma stopped_stopped hs : stopped_of (map StoppedWatcher hs) = hs.
Proof. induction hs as [|h hs IH]; [done|]. cbn. by f_equal. Qed.

(** The calls of one callback. *)
Definition event_calls (ev : client_event) : list metric_call :=
  match ev with
  | ClientConnected => [CallConnection true]
  | ClientDisconnected | ClientClosed => [CallConnection false]
  | ClientReconnected => [CallConnection true; CallReconnects]
  | ClientError _ err => [CallAsyncErrors (asyncErrorKind err)]
  | ClientPublishFailed => [CallPublishFailures]
  end.

Lemma callback_calls closing ev : calls_of (callback true kv closing k ev) = event_calls ev.
Proof. destruct ev; try done. cbn [callback measured]. rewrite calls_app, calls_stopped. done. Qed.

Lemma callbacks_calls evs : calls_of (callbacks true kv k evs) = (evs.*2 ≫= event_calls).
Proof.
  induction evs as [|[c ev] evs IH]; [done|]. unfold callbacks in *. cbn [mbind list_bind fmap list_fmap].
  by rewrite calls_app, callback_calls, IH.
Qed.

Lemma callbacks_silent evs : calls_of (callbacks false kv k evs) = [].
Proof.
  induction evs as [|[c ev] evs IH]; [done|]. unfold callbacks in *. cbn [mbind list_bind]. rewrite calls_app, IH, app_nil_r.
  destruct ev; try done. apply calls_stopped.
Qed.

Lemma callbacks_stopped metrics evs :
  stopped_of (callbacks metrics kv k evs) = (evs ≫= λ e, if is_reconnect e.2 then restartKVWatchers kv e.1 k else []).
Proof.
  induction evs as [|[c ev] evs IH]; [done|]. unfold callbacks in *. cbn [mbind list_bind]. rewrite stopped_app, IH. f_equal.
  destruct ev, metrics; try done; cbn [callback measured snd fst is_reconnect]; by rewrite stopped_app, stopped_stopped.
Qed.

Lemma gauge_app cs ds : gauge (cs ++ ds) = match gauge ds with Some b => Some b | None => gauge cs end.
Proof.
  unfold gauge. rewrite foldl_app. generalize (foldl (λ g c, match c with CallConnection b => Some b | _ => g end) None cs) as g. intros g.
  induction ds as [|c ds IH] using rev_ind; [by destruct g|]. rewrite !foldl_app. cbn [foldl]. by destruct c.
Qed.

(** The calls fit their collectors: three kinds of error, all text. *)
Lemma event_calls_fit ev : forallb call_fits (event_calls ev) = true.
Proof.
  destruct ev as [| | | |sub err|]; try reflexivity. cbn [event_calls forallb]. rewrite andb_true_r.
  pose proof (asyncErrorKind_kind err) as Hk. unfold error_kinds in Hk.
  repeat (apply elem_of_cons in Hk as [->|Hk]; [vm_compute; reflexivity|]). by apply elem_of_nil in Hk.
Qed.

Lemma callbacks_fit evs : forallb call_fits (evs ≫= event_calls) = true.
Proof.
  induction evs as [|ev evs IH]; [done|]. cbn [mbind list_bind]. rewrite forallb_app. by rewrite event_calls_fit, IH.
Qed.

Lemma callbacks_count (p : client_event → bool) (q : metric_call → bool) evs :
  (∀ ev, count q (event_calls ev) = if p ev then 1%nat else 0%nat) → count q (evs ≫= event_calls) = count p evs.
Proof.
  intros Hpq. induction evs as [|ev evs IH]; [done|]. cbn [mbind list_bind]. rewrite count_app, IH, Hpq.
  unfold count. cbn [List.filter]. by destruct (p ev).
Qed.

Lemma gauge_shown evs l : link_history evs l → gauge (evs ≫= event_calls) = shown l.
Proof.
  induction 1 as [|evs _ IH|evs _ IH|evs _ IH|evs l _ _ IH|evs l ev Hr _ IH]; [done|..];
    rewrite bind_app, gauge_app; try done. rewrite IH. by destruct ev.
Qed.
End callbacks.

(** ** The metrics of the connection *)

Section metrics.
Context `{PrometheusLaws}.

(** No callback panics, whatever the client reports and in whatever order, and
    with metrics or without; an error is of one of three kinds; and the counters
    of reconnections, of asynchronous errors and of failed publishes have gone up
    by the events of their sort.  In a history the client can report, the gauge
    shows at every point whether the connection is up, and a reconnection stops
    every watcher of the cache, unless the broker is closing. *)
Theorem callbacks_correct kv k evs :
  (∃ m0 m, NewMetrics NewRegistry = Some m0 ∧ make_calls (calls_of (callbacks true kv k evs)) m0 = Some m ∧ Stats m = (0, 0)%Z) ∧
  calls_of (callbacks false kv k evs) = [] ∧
  (let calls := calls_of (callbacks true kv k evs) in
   count counts_reconnect calls = count is_reconnect evs.*2 ∧
   (∀ kind, count (counts_kind kind) calls = count (is_kind kind) evs.*2) ∧
   count counts_publish calls = count is_publish_failure evs.*2 ∧
   (∀ l, link_history evs.*2 l → gauge calls = shown l)) ∧
  (∀ metrics, kv_Enabled kv = true → kv_LocalCache kv = true →
     stopped_of (callbacks metrics kv k evs) =
       (evs ≫= λ e, if is_reconnect e.2 && negb e.1 then kb_watchers k else [])).
Proof.
  split_and!.
  - destruct NewMetrics_fresh as (r & Hnew & _). rewrite callbacks_calls.
    destruct (make_calls_fit (evs.*2 ≫= event_calls) (MkMetricSet r fresh_values 0 0) (callbacks_fit _)) as [v Hv]; [done..|].
    eexists _, _. split; [exact Hnew|]. split; [exact Hv|]. unfold Stats. cbn [messagesReceived messagesError].
    assert (∀ status, messages_with status (evs.*2 ≫= event_calls) = 0%Z) as Hn; [|by rewrite !Hn].
    intros status. unfold messages_with. generalize (evs.*2) as l. intros l. induction l as [|ev l IH]; [done|].
    cbn [mbind list_bind]. rewrite filter_app, length_app, Nat2Z.inj_add, IH. by destruct ev.
  - apply callbacks_silent.
  - cbn zeta. rewrite callbacks_calls. split_and!.
    + apply callbacks_count. by intros [].
    + intros kind. apply callbacks_count. intros [| | | |sub err|]; try done. unfold count. cbn. by destruct (String.eqb _ kind).
    + apply callbacks_count. by intros [].
    + apply gauge_shown.
  - intros metrics He Hc. rewrite callbacks_stopped. induction evs as [|[c ev] evs IH]; [done|]. cbn [mbind list_bind fst snd].
    rewrite IH. f_equal. unfold restartKVWatchers. rewrite He, Hc. cbn. by destruct ev, c.
Qed.
End metrics.

(** ** Examples *)

(** A connection that is lost twice, once with a slow consumer in between, and
    then closed by the broker. *)
Definition demo_events : list (bool * client_event) := [
  (false, ClientConnected); (false, ClientDisconnected);
  (false, ClientError None (Some (MkNatsError false "nats: Permissions Violation for Subscription to '$SRV.>'")));
  (false, ClientReconnected); (false, ClientError (Some "orders") (Some (MkNatsError true "nats: slow consumer, messages dropped")));
  (true, ClientDisconnected); (true, ClientReconnected); (true, ClientClosed)
].
Example demo_callbacks :
  let k := MkKVBroker ∅ NewLocalKVCache [MkHandle "state" ">"] in
  let kv := cf_KV (setDefaults zero_config) in
  let effects := callbacks true (MkKV true (kv_Buckets kv) (kv_Rules kv) true) k demo_events in
  gauge (calls_of effects) = Some false ∧ length (stopped_of effects) = 1%nat ∧
  omap (λ e, match e with Reported kind subject => Some (kind, subject) | _ => None end) effects =
    [("permissions_violation", ""); ("slow_consumer", "orders")].
Proof. vm_compute. done. Qed.
