(* ===== verification/Account.v ===== *)
(** * The account of an evaluation (internal/rule/processor.go)

    The calls that an evaluation makes on the metrics, rule by rule and element by
    element, and the statistics of the processor.  The evaluation with its calls is
    shown to be the evaluation of [Processor]; the calls that conditions, templates
    and signatures make on their own are not part of it. *)

From S2P Require Import Prelude GoStrings GoFloat GoTime Value Types TimeContext Traversal Env Demo.
From S2P Require Import Pattern PathMatcher KVContext Context Conditions Evaluator Random Template Throttle Index Hmac Actions Processor.
From S2P Require Import Loader StreamResolver Net HttpClient Publisher Site Subscription Responder Scheduler Broker RuleManager Config.
From S2P Require Import Watch KVCache Connection App Lifecycle Assembly Metrics Callbacks.
Local Open Scope string_scope.

(** ** The calls *)

(** The label of a rule on [rule_matches_total]. *)
Definition triggerLabel (r : Rule) : string :=
  match tr_NATS (r_Trigger r), tr_HTTP (r_Trigger r), tr_Schedule (r_Trigger r) with
  | Some t, _, _ => nt_Subject t
  | None, Some t, _ => ht_Path t
  | None, None, Some t => "schedule:" ++ st_Cron t
  | None, None, None => "unknown"
  end.

Definition payload_mode (merge passthrough : bool) : string :=
  if merge then "merge" else if passthrough then "passthrough" else "templated".

Definition action_calls (rule : Rule) (action : Action) : list metric_call :=
  ([CallTemplateOps "success"; CallRuleMatches (triggerLabel rule)] ++
   match a_NATS action, a_HTTP action with
   | Some n, _ => [CallActionsByType (payload_mode (na_Merge n) (na_Passthrough n))]
   | None, Some h => [CallActionsByType (payload_mode (ha_Merge h) (ha_Passthrough h))]
   | None, None => []
   end)%list.

Section measured.
Context `{Env}.
Variable elapsed : float64.   (* the seconds a loop took *)

(** The calls after a loop over elements. *)
Definition forEach_calls (metricsType : string) (r : ForEachResult) : list metric_call :=
  ([CallForEachIterations metricsType (Z.of_nat (fe_Total r)); CallForEachFiltered metricsType (Z.of_nat (fe_Filtered r));
    CallForEachActions metricsType (Z.of_nat (fe_Processed r)); CallForEachDuration metricsType elapsed] ++
   map (λ e, CallForEachErrors metricsType (ee_ErrorType e)) (fe_Errors r))%list.

Definition measured_loop (metricsType : string) (m : AM (list Action * ForEachResult)) : M (result action_error (list Action) * list metric_call) :=
  r ← m;
  mret match r with
       | Ok (actions, res) => (Ok actions, forEach_calls metricsType res)
       | Err e => (Err e, [])
       end.

Definition without_calls {A} (m : M A) : M (A * list metric_call) := λ st, let '(a, st) := m st in ((a, []), st).

Definition measured_action (max : Z) (action : Action) (context : EvaluationContext) : M (result action_error (list Action) * list metric_call) :=
  let plain := without_calls (processAction max action context) in
  match a_NATS action, a_HTTP action with
  | Some nats, _ =>
      if negb (String.eqb (na_ForEach nats) "") then measured_loop "nats" (nats_forEach max nats context) else plain
  | None, Some http =>
      if negb (String.eqb (ha_ForEach http) "") then measured_loop "http" (http_forEach max http context) else plain
  | None, None => plain
  end.

Definition measured_rule (rule : Rule) (ctx : EvaluationContext) (triggerType : string)
    : PM (option (option DeferSpec * list Action) * list metric_call) :=
  go ← trigger_allows rule ctx triggerType;
  if negb go then mret (None, [CallSuppressed "trigger"])
  else
    holds ← lift (EvaluateOpt ctx (r_Conditions rule));
    if negb holds then mret (None, [])
    else
      gate ← action_gate rule ctx triggerType;
      match gate with
      | None => mret (None, [CallSuppressed "action"])
      | Some deferSpec =>
          p ← getP;
          r ← lift (measured_action (p_maxForEachIters p) (r_Action rule) ctx);
          let '(actionResults, calls) := r : result action_error (list Action) * list metric_call in
          match actionResults with
          | Err _ => mret (None, (calls ++ [CallTemplateOps "error"])%list)
          | Ok [] => mret (None, calls)
          | Ok results => mret (Some (deferSpec, results), (calls ++ (results ≫= action_calls rule))%list)
          end
      end.

Fixpoint measured_rules (rules : list Rule) (ctx : EvaluationContext) (triggerType : string)
    (out : Outcome) (matched : bool) (calls : list metric_call) : PM (Outcome * bool * list metric_call) :=
  match rules with
  | [] => mret (out, matched, calls)
  | rule :: rest =>
      r ← measured_rule rule ctx triggerType;
      let '(res, c) := r : option (option DeferSpec * list Action) * list metric_call in
      let calls := (calls ++ c)%list in
      match res with
      | None => measured_rules rest ctx triggerType out matched calls
      | Some (deferSpec, results) => measured_rules rest ctx triggerType (add_results out deferSpec results) true calls
      end
  end.

Definition measured_evaluation (rules : list Rule) (ctx : EvaluationContext) (triggerType : string) : PM (Outcome * list metric_call) :=
  r ← measured_rules rules ctx triggerType (MkOutcome [] []) false [];
  let '(out, matched, calls) := r : Outcome * bool * list metric_call in
  p ← getP;
  let '(MkProcessorStats pr ma er) := p_stats p in
  _ ← putP (set_stats p (MkProcessorStats (incr pr 1) (if matched then incr ma 1 else ma) er));
  mret (out, calls).
End measured.

(** The processor's statistics, as they are read. *)
Definition processor_Stats (p : Processor) : ProcessorStats := p_stats p.

(** ** Specification *)


Definition routed (a : Action) : bool := match a_NATS a, a_HTTP a with None, None => false | _, _ => true end.

Definition is_match (c : metric_call) : bool := match c with CallRuleMatches _ => true | _ => false end.
Definition is_success (c : metric_call) : bool := match c with CallTemplateOps s => String.eqb s "success" | _ => false end.
Definition is_typed (c : metric_call) : bool := match c with CallActionsByType _ => true | _ => false end.

(** The elements that loops took in, and what became of them. *)
Definition elements_in (c : metric_call) : Z := match c with CallForEachIterations _ n => n | _ => 0%Z end.
Definition elements_out (c : metric_call) : Z :=
  match c with CallForEachFiltered _ n | CallForEachActions _ n => n | CallForEachErrors _ _ => 1%Z | _ => 0%Z end.
Fixpoint sum (f : metric_call → Z) (calls : list metric_call) : Z :=
  match calls with [] => 0 | c :: rest => f c + sum f rest end.

(** The calls account for so many actions of some rules, so many of them to be
    sent somewhere. *)
Record accounted (rules : list Rule) (n m : nat) (calls : list metric_call) : Prop := {
  ac_matches : count is_match calls = n;
  ac_success : count is_success calls = n;
  ac_types : count is_typed calls = m;
  ac_elements : sum elements_in calls = sum elements_out calls;
  ac_labels : ∀ l, CallRuleMatches l ∈ calls → ∃ r, r ∈ rules ∧ l = triggerLabel r;
  ac_fits : Forall (λ r, utf8_Valid (triggerLabel r) = true) rules → forallb call_fits calls = true;
}.

(** ** Lemmas *)

Lemma sum_app f l k : sum f (l ++ k) = (sum f l + sum f k)%Z.
Proof. induction l as [|c l IH]; [done|]. cbn [app sum]. rewrite IH. lia. Qed.

Lemma accounted_nil rules : accounted rules 0 0 [].
Proof. split; try done. by intros l ?%elem_of_nil. Qed.

Lemma accounted_app rules n m c n' m' c' :
  accounted rules n m c → accounted rules n' m' c' → accounted rules (n + n') (m + m') (c ++ c').
Proof.
  intros [A1 A2 A3 A4 A5 A6] [B1 B2 B3 B4 B5 B6]. split; rewrite ?count_app, ?sum_app; try lia.
  - intros l [?|?]%elem_of_app; auto.
  - intros Hr. by rewrite forallb_app, A6, B6.
Qed.

Lemma accounted_weaken rules rules' n m c : rules ⊆ rules' → accounted rules n m c → accounted rules' n m c.
Proof.
  intros Hs [A1 A2 A3 A4 A5 A6]. split; try done.
  - intros l Hl. destruct (A5 l Hl) as (r & Hr & ->). exists r. split; [by apply Hs|done].
  - intros Hr. apply A6. apply Forall_forall. intros r Hin. apply (proj1 (Forall_forall _ _) Hr). by apply Hs.
Qed.

(** Calls of other kinds, which fit, account for nothing. *)
Lemma accounted_other rules calls :
  Forall (λ c, is_match c = false ∧ is_success c = false ∧ is_typed c = false ∧ elements_in c = 0%Z ∧ elements_out c = 0%Z ∧ call_fits c = true) calls →
  accounted rules 0 0 calls.
Proof.
  induction 1 as [|c calls (H1 & H2 & H3 & H4 & H5 & H6) _ [A1 A2 A3 A4 A5 A6]]; [apply accounted_nil|].
  unfold count in *. split; unfold count; cbn [List.filter sum forallb]; rewrite ?H1, ?H2, ?H3, ?H4, ?H5, ?H6; try done; try lia.
  - intros l [Hl|Hl]%elem_of_cons; [by subst c|auto].
Qed.

Lemma payload_mode_text merge passthrough : utf8_Valid (payload_mode merge passthrough) = true.
Proof. by destruct merge, passthrough. Qed.

Lemma fits_text c : given_count c = 0%Z → forallb utf8_Valid (given_labels c) = true → call_fits c = true.
Proof. intros Hn Hl. unfold call_fits. by rewrite Hl, Hn. Qed.

(** The calls of a rule's actions. *)
Lemma action_calls_accounted rule actions :
  accounted [rule] (length actions) (length (List.filter routed actions)) (actions ≫= action_calls rule).
Proof.
  induction actions as [|a actions IH]; [apply accounted_nil|]. cbn [mbind list_bind length].
  assert (accounted [rule] 1 (if routed a then 1 else 0) (action_calls rule a)) as Ha.
  { unfold action_calls, routed.
    destruct (a_NATS a) as [n|]; [|destruct (a_HTTP a) as [h|]]; (split; [reflexivity..| |]); cbn [app].
    1,3,5: intros l Hl; exists rule; (split; [by left|]); repeat (apply elem_of_cons in Hl as [Hl|Hl]; [by try injection Hl as ->|]); by apply elem_of_nil in Hl.
    all: intros Hr%Forall_inv; cbn [forallb]; rewrite !fits_text; try done; cbn [given_labels forallb]; by rewrite ?payload_mode_text, ?Hr. }
  replace (length (List.filter routed (a :: actions))) with ((if routed a then 1 else 0) + length (List.filter routed actions))%nat
    by (cbn [List.filter]; by destruct (routed a)).
  by apply (accounted_app _ 1).
Qed.

Section measured.
Context `{Env}.
Variable elapsed : float64.

(** *** The loops *)

Lemma element_loop_account process : (∀ item st e, (process item st).1 = Failed e → utf8_Valid e = true) →
  ∀ items i actions t p f e errs st, Forall (λ x, utf8_Valid (ee_ErrorType x) = true) errs →
  let r := (element_loop process i items (actions, MkForEachResult t p f e errs) st).1.2 in
  fe_Total r = t ∧ (fe_Processed r + fe_Filtered r + length (fe_Errors r) = p + f + length errs + length items)%nat ∧
  Forall (λ x, utf8_Valid (ee_ErrorType x) = true) (fe_Errors r).
Proof.
  intros Hp items. induction items as [|item items IH]; intros i actions t p f e errs st He; cbn [element_loop].
  { cbn. rewrite Nat.add_0_r. done. }
  unfold mbind, M_bind. specialize (Hp item st). destruct (process item st) as [o st1]. cbn [fst] in Hp.
  destruct o as [|err|a]; cbn [record_outcome].
  - destruct (IH (S i) actions t p (S f) e errs st1 He) as (-> & Hn & Hv). split_and!; [done|cbn [length]; lia|done].
  - destruct (IH (S i) actions t p f (S e) (errs ++ [MkElementError i err])%list st1) as (-> & Hn & Hv).
    { apply Forall_app. split; [done|]. constructor; [by apply Hp|constructor]. }
    rewrite length_app in Hn. split_and!; [done|cbn [length] in *; lia|done].
  - destruct (IH (S i) (actions ++ [a])%list t (S p) f e errs st1 He) as (-> & Hn & Hv). split_and!; [done|cbn [length]; lia|done].
Qed.

(** Errors that are named by a text. *)
Definition text_errors {A} (m : M (result string A)) : Prop := ∀ st e, (m st).1 = Err e → utf8_Valid e = true.

Lemma execute_text {A} t ec name (f : string → A) : utf8_Valid name = true →
  text_errors (r ← Execute t ec; mret (x ← map_err (λ _ : template_error, name) r; Ok (f x))).
Proof.
  intros Hn st e. unfold mbind, M_bind. destruct (Execute t ec st) as [[x|err] st']; cbn; [done|]. by intros [= <-].
Qed.

Lemma then_text {A B} (m : M (result string A)) (f : A → M (result string B)) :
  text_errors m → (∀ a, text_errors (f a)) → text_errors (then_ m f).
Proof.
  intros Hm Hf st e. unfold then_, mbind, M_bind. specialize (Hm st). destruct (m st) as [[a|err] st']; cbn in *; [apply Hf|].
  intros [= <-]. by apply Hm.
Qed.

Lemma element_payload_text cfg item ec : text_errors (element_payload cfg item ec).
Proof.
  unfold element_payload. destruct (fc_Passthrough cfg); [|destruct (fc_Merge cfg)]; [| |by apply execute_text].
  - intros st e. cbn. unfold safeMarshal. destruct (json_marshal _); cbn; [done|]. by intros [= <-].
  - intros st e. unfold mbind at 1, M_bind. destruct (applyMerge _ _ _ _) as [[x|err] st']; cbn; [done|]. by intros [= <-].
Qed.

Lemma process_element_errors cfg context build : (∀ ec pl hs, text_errors (build ec pl hs)) →
  ∀ item st e, (process_element cfg context build item st).1 = Failed e → utf8_Valid e = true.
Proof.
  intros Hb item st e. unfold process_element, on_copy. set (ec := WithElement context (ensureObject item)).
  unfold mbind, M_bind, get. cbn [fst snd]. destruct (EvaluateOpt ec (fc_Filter cfg) st) as [[] st1]; cbn [negb]; [|done].
  pose proof (element_payload_text cfg (ensureObject item) ec st1) as Hp.
  destruct (element_payload cfg (ensureObject item) ec st1) as [[pl|err] st2]; cbn [fst snd] in *; [|intros [= <-]; by apply Hp].
  destruct (templateHeaders (fc_Headers cfg) ec st2) as [[hs|err] st3]; [|by intros [= <-]].
  specialize (Hb ec pl hs st3). destruct (build ec pl hs st3) as [[a|err] st4]; cbn [fst snd] in *; [done|]. intros [= <-]. by apply Hb.
Qed.

(** *** The account of a loop *)

Lemma loop_account max metricsType cfg context build st :
  utf8_Valid metricsType = true → (∀ ec pl hs, text_errors (build ec pl hs)) →
  accounted [] 0 0 (measured_loop elapsed metricsType (processActionForEach max cfg context build) st).1.2.
Proof.
  intros Hm Hb. unfold measured_loop, processActionForEach, then_, mbind, M_bind.
  destruct (extractForEachArray _ _ _ _ st) as [[items|e] st1]; [|apply accounted_nil].
  pose proof (element_loop_account _ (process_element_errors cfg context build Hb) items 0 [] (length items) 0 0 0 [] st1 ltac:(constructor)) as Hl.
  destruct (element_loop _ _ _ _ st1) as [[actions r] st2]. cbn in Hl. destruct Hl as (Ht & Hn & Hv).
  change (accounted [] 0 0 (forEach_calls elapsed metricsType r)).
  unfold forEach_calls.
  assert (∀ l, Forall (λ x, utf8_Valid (ee_ErrorType x) = true) l →
    forallb call_fits (map (λ e, CallForEachErrors metricsType (ee_ErrorType e)) l) = true) as Hfit.
  { induction 1 as [|x l Hx _ IH]; [done|]. cbn [map forallb]. rewrite fits_text, IH; [done..|]. cbn. by rewrite Hm, Hx. }
  assert (∀ l, sum elements_out (map (λ e, CallForEachErrors metricsType (ee_ErrorType e)) l) = Z.of_nat (length l) ∧
    sum elements_in (map (λ e, CallForEachErrors metricsType (ee_ErrorType e)) l) = 0%Z ∧
    (∀ p, (∀ a b, p (CallForEachErrors a b) = false) → count p (map (λ e, CallForEachErrors metricsType (ee_ErrorType e)) l) = 0%nat)) as Hs.
  { induction l as [|x l (IH1 & IH2 & IH3)]; [done|]. cbn [map sum elements_in elements_out length]. rewrite IH1, IH2.
    split_and!; [lia|done|]. intros p Hp. unfold count in *. cbn [List.filter]. rewrite Hp. by apply IH3. }
  destruct (Hs (fe_Errors r)) as (Ho & Hi & Hc). split.
  1-3: rewrite count_app, Hc by done; done.
  - rewrite !sum_app, Ho, Hi. cbn. lia.
  - intros l [Hl|Hl]%elem_of_app; [repeat (apply elem_of_cons in Hl as [Hl|Hl]; [done|]); by apply elem_of_nil in Hl|].
    by apply list_elem_of_fmap in Hl as (x & ? & _).
  - intros _. rewrite forallb_app, Hfit by done. rewrite andb_true_r. cbn [forallb].
    unfold call_fits. cbn [given_labels given_count forallb]. rewrite Hm. cbn.
    rewrite !(proj2 (Z.leb_le _ _)) by lia. done.
Qed.

Lemma measured_action_account max action context st :
  accounted [] 0 0 (measured_action elapsed max action context st).1.2.
Proof.
  assert (accounted [] 0 0 (without_calls (processAction max action context) st).1.2) as Hplain.
  { unfold without_calls. destruct (processAction max action context st). apply accounted_nil. }
  unfold measured_action. destruct (a_NATS action) as [n|]; [|destruct (a_HTTP action) as [h|]; [|done]].
  - destruct (negb _); [|done]. apply loop_account; [done|]. intros. by apply execute_text.
  - destruct (negb _); [|done]. apply loop_account; [done|]. intros ec pl hs.
    assert (∀ name t, utf8_Valid name = true → text_errors (r ← Execute t ec; mret (map_err (λ _ : template_error, name) r))) as Hrun.
    { intros name t Hn st' e. unfold mbind, M_bind. destruct (Execute t ec st') as [[x|err] st'']; cbn; [done|]. by intros [= <-]. }
    apply then_text; [by apply Hrun|]. intros url. apply then_text; [by apply Hrun|]. intros method.
    apply then_text; [|by intros publish st' e [= ]]. unfold template_publish. destruct (ha_PublishResponse h) as [spec|]; [|by intros st' e [= ]].
    apply then_text; [by apply Hrun|]. by intros subj st' e [= ].
Qed.

(** *** The calls change nothing *)

Lemma measured_action_erases max action context st :
  processAction max action context st = ((measured_action elapsed max action context st).1.1, (measured_action elapsed max action context st).2).
Proof.
  assert (processAction max action context st =
    ((without_calls (processAction max action context) st).1.1, (without_calls (processAction max action context) st).2)) as Hplain.
  { unfold without_calls. by destruct (processAction max action context st). }
  assert (∀ mt m, then_ m (λ r : list Action * ForEachResult, mret (Ok (E:=action_error) r.1)) st =
    ((measured_loop elapsed mt m st).1.1, (measured_loop elapsed mt m st).2)) as Hloop.
  { intros mt m. unfold measured_loop, then_, mbind, M_bind. by destruct (m st) as [[[actions r]|e] st']. }
  unfold measured_action. destruct (a_NATS action) as [n|] eqn:En; [|destruct (a_HTTP action) as [h|] eqn:Eh; [|done]].
  - destruct (negb _) eqn:Ef; [|done]. unfold processAction, processNATSAction. rewrite En, Ef. apply Hloop.
  - destruct (negb _) eqn:Ef; [|done]. unfold processAction, processHTTPAction. rewrite En, Eh, Ef. apply Hloop.
Qed.

Lemma measured_rule_erases rule ctx triggerType s :
  evaluate_rule rule ctx triggerType s = ((measured_rule elapsed rule ctx triggerType s).1.1, (measured_rule elapsed rule ctx triggerType s).2).
Proof.
  unfold evaluate_rule, measured_rule, mbind, PM_bind, lift, getP.
  destruct (trigger_allows rule ctx triggerType s) as [[] s1]; cbn [negb]; [|done].
  destruct (EvaluateOpt ctx (r_Conditions rule) s1.2) as [[] st2]; cbn [negb]; [|done].
  destruct (action_gate rule ctx triggerType (s1.1, st2)) as [[spec|] s3]; [|done].
  rewrite measured_action_erases. destruct (measured_action _ _ _ _ _) as [[r calls] st4]. cbn [fst snd].
  by destruct r as [[|a l]|e].
Qed.

Lemma measured_rules_erases rules ctx triggerType : ∀ out matched calls s,
  let r := measured_rules elapsed rules ctx triggerType out matched calls s in
  evaluate_loop rules ctx triggerType out matched s = (r.1.1, r.2).
Proof.
  induction rules as [|rule rules IH]; intros out matched calls s; [done|]. cbn [evaluate_loop measured_rules].
  unfold mbind, PM_bind. rewrite measured_rule_erases.
  destruct (measured_rule elapsed rule ctx triggerType s) as [[res c] s']. cbn [fst snd]. destruct res as [[spec results]|]; apply IH.
Qed.

(** *** The account of the rules *)

Lemma allow_stats key window s : p_stats (allow key window s).2.1 = p_stats s.1.
Proof. unfold allow, mbind, PM_bind, lift, getP. destruct (lift_world time_Now s.2) as [now st]. cbn. by destruct (Allow _ _ _ _). Qed.

Lemma trigger_allows_stats rule ctx triggerType s : p_stats (trigger_allows rule ctx triggerType s).2.1 = p_stats s.1.
Proof.
  unfold trigger_allows. destruct (getTriggerThrottle rule) as [cfg|]; [|done]. unfold mbind, PM_bind, lift.
  destruct (throttle_args _ _ _ _ _ _) as [[key window] st]. by rewrite allow_stats.
Qed.

Lemma action_gate_stats rule ctx triggerType s : p_stats (action_gate rule ctx triggerType s).2.1 = p_stats s.1.
Proof.
  unfold action_gate. destruct (getActionThrottle rule) as [cfg|]; [|done]. unfold mbind, PM_bind, lift.
  destruct (throttle_args _ _ _ _ _ _) as [[key window] st]. destruct (IsTrailing _); [done|].
  pose proof (allow_stats key window (s.1, st)) as Ha. destruct (allow key window (s.1, st)) as [[] s']; exact Ha.
Qed.

Definition rule_actions (res : option (option DeferSpec * list Action)) : list Action :=
  match res with Some (_, results) => results | None => [] end.

Lemma measured_rule_account rule ctx triggerType s :
  let '((res, calls), s') := measured_rule elapsed rule ctx triggerType s in
  accounted [rule] (length (rule_actions res)) (length (List.filter routed (rule_actions res))) calls ∧
  p_stats s'.1 = p_stats s.1 ∧ (res = None ∨ rule_actions res ≠ []).
Proof.
  unfold measured_rule, mbind, PM_bind, lift, getP.
  pose proof (trigger_allows_stats rule ctx triggerType s) as Ht.
  assert (∀ phase, utf8_Valid phase = true → accounted [rule] 0 0 [CallSuppressed phase]) as Hsup.
  { intros phase Hp. apply accounted_other. repeat constructor. apply fits_text; [done|]. cbn. by rewrite Hp. }
  destruct (trigger_allows rule ctx triggerType s) as [[] s1]; cbn [negb fst snd] in *; [|split_and!; [by apply Hsup|done|by left]].
  destruct (EvaluateOpt ctx (r_Conditions rule) s1.2) as [[] st2]; cbn [negb]; [|split_and!; [apply accounted_nil|done|by left]].
  pose proof (action_gate_stats rule ctx triggerType (s1.1, st2)) as Hg. rewrite <- Ht.
  destruct (action_gate rule ctx triggerType (s1.1, st2)) as [[spec|] s3]; cbn [fst snd] in *; [|split_and!; [by apply Hsup|done|by left]].
  pose proof (measured_action_account (p_maxForEachIters s3.1) (r_Action rule) ctx s3.2) as Ha.
  apply (accounted_weaken [] [rule]) in Ha; [|set_solver].
  destruct (measured_action _ _ _ _ _) as [[r calls] st4]. cbn [fst snd] in *.
  destruct r as [[|a l]|e]; cbn [fst snd rule_actions]; (split_and!; [|done|first [by left|by right]]).
  - exact Ha.
  - apply (accounted_app [rule] 0 0); [exact Ha|apply (action_calls_accounted rule (a :: l))].
  - apply (accounted_app [rule] 0 0 _ 0 0); [exact Ha|]. apply accounted_other. repeat constructor.
Qed.

Lemma All_eq out : All out = (o_Immediate out ++ concat (map db_Actions (o_Deferred out)))%list.
Proof. unfold All. destruct (o_Deferred out); cbn; [by rewrite app_nil_r|done]. Qed.

Lemma filter_stamp spec actions : length (List.filter routed (map (stamp spec) actions)) = length (List.filter routed actions).
Proof.
  induction actions as [|a actions IH]; [done|]. cbn [map List.filter]. change (routed (stamp spec a)) with (routed a).
  destruct (routed a); cbn [length]; by rewrite IH.
Qed.

Lemma add_results_size out spec results :
  length (All (add_results out spec results)) = (length (All out) + length results)%nat ∧
  length (List.filter routed (All (add_results out spec results))) =
    (length (List.filter routed (All out)) + length (List.filter routed results))%nat.
Proof.
  rewrite !All_eq. destruct spec as [spec|]; cbn [add_results o_Immediate o_Deferred].
  - rewrite map_app, concat_app. cbn [map concat db_Actions]. rewrite app_nil_r, !List.filter_app, !length_app, length_map, filter_stamp. lia.
  - rewrite !List.filter_app, !length_app. lia.
Qed.

Lemma measured_rules_account rules ctx triggerType : ∀ before out matched calls s,
  accounted before (length (All out)) (length (List.filter routed (All out))) calls → (matched = false ↔ All out = []) →
  let '((out', matched', calls'), s') := measured_rules elapsed rules ctx triggerType out matched calls s in
  accounted (before ++ rules) (length (All out')) (length (List.filter routed (All out'))) calls' ∧
  (matched' = false ↔ All out' = []) ∧ p_stats s'.1 = p_stats s.1.
Proof.
  induction rules as [|rule rules IH]; intros before out matched calls s Ha Hm; cbn [measured_rules].
  { rewrite app_nil_r. done. }
  unfold mbind, PM_bind. pose proof (measured_rule_account rule ctx triggerType s) as Hr.
  destruct (measured_rule elapsed rule ctx triggerType s) as [[res c] s']. destruct Hr as (Hc & Hst & Hne). rewrite <- Hst.
  assert (accounted (before ++ [rule]) (length (All out) + length (rule_actions res))
    (length (List.filter routed (All out)) + length (List.filter routed (rule_actions res))) (calls ++ c)) as Hac.
  { apply accounted_app; [by eapply accounted_weaken, Ha; set_solver|by eapply accounted_weaken, Hc; set_solver]. }
  replace (before ++ rule :: rules)%list with ((before ++ [rule]) ++ rules)%list by (by rewrite <- app_assoc).
  destruct res as [[spec results]|].
  - destruct Hne as [?|Hne]; [done|]. destruct (add_results_size out spec results) as [H1 H2]. apply IH.
    + rewrite H1, H2. exact Hac.
    + split; [done|]. intros He. rewrite He in H1. cbn in H1. destruct results; [done|]. cbn in H1. lia.
  - apply IH; [|done]. cbn in Hac. by rewrite !Nat.add_0_r in Hac.
Qed.

(** ** Properties *)

(** An evaluation makes its calls without changing its result, and they account
    for it: every action it returns, held or not, was counted once as a success
    and once under its rule's label, and by the mode of its payload when it is
    sent somewhere; every element a loop took in was counted as filtered, as an
    action or as an error; and the calls fit their collectors when the rules'
    subjects and paths are text.  The processor's statistics count the evaluation,
    and a match exactly when there is an action. *)
Theorem measured_evaluation_correct rules ctx triggerType s :
  let '((out, calls), s') := measured_evaluation elapsed rules ctx triggerType s in
  evaluateRules rules ctx triggerType s = (out, s') ∧
  accounted rules (length (All out)) (length (List.filter routed (All out))) calls ∧
  processor_Stats s'.1 =
    (let '(MkProcessorStats pr ma er) := processor_Stats s.1 in
     MkProcessorStats (incr pr 1) (match All out with [] => ma | _ => incr ma 1 end) er).
Proof.
  unfold measured_evaluation, evaluateRules, processor_Stats, mbind, PM_bind, getP, putP.
  rewrite (measured_rules_erases rules ctx triggerType _ _ [] s).
  pose proof (measured_rules_account rules ctx triggerType [] (MkOutcome [] []) false [] s (accounted_nil _) ltac:(done)) as Ha.
  destruct (measured_rules elapsed rules ctx triggerType (MkOutcome [] []) false [] s) as [[[out matched] calls] s']. cbn [fst snd] in *.
  destruct Ha as (Ha & Hm & Hst). rewrite Hst. destruct (p_stats s.1) as [pr ma er]. cbn [fst snd set_stats p_stats].
  split_and!; [done|exact Ha|]. f_equal. destruct matched, (All out) eqn:E; try done; [by destruct Hm as [_ Hm]; discriminate Hm|by destruct Hm as [Hm _]; discriminate Hm].
Qed.
End measured.

(** An evaluation never panics over its metrics. *)
Lemma measured_evaluation_fits `{Env} `{PrometheusLaws} elapsed rules ctx triggerType s m :
  Forall (λ r, utf8_Valid (triggerLabel r) = true) rules → (0 ≤ messagesReceived m < 2 ^ 64)%Z → (0 ≤ messagesError m < 2 ^ 64)%Z →
  is_Some (make_calls (measured_evaluation elapsed rules ctx triggerType s).1.2 m).
Proof.
  intros Hr Hrec Herr. pose proof (measured_evaluation_correct elapsed rules ctx triggerType s) as Hm.
  destruct (measured_evaluation elapsed rules ctx triggerType s) as [[out calls] s']. destruct Hm as (_ & Ha & _).
  destruct (make_calls_fit calls m (ac_fits _ _ _ _ Ha Hr) Hrec Herr) as [v Hv]. by eexists.
Qed.

(** ** An example *)

(** A rule whose loop filters one element and makes an action of the other, and a
    rule whose conditions fail. *)
Definition loop_rule : Rule :=
  MkRule "" (MkTrigger (Some (MkNATSTrigger "a.b" None None ModeCore false "")) None None) None
    (MkAction (Some (MkNATSAction "out" "" "{v}" false false ∅ "" false "" "{readings}"
       (Some (MkConditions "and" [cond "{v}" "gt" (VInt 5)] [])) None None None)) None None None) 0.
Definition other_rule : Rule :=
  MkRule "" (MkTrigger (Some (MkNATSTrigger "a.>" None None ModeCore false "")) None None)
    (Some (MkConditions "and" [cond "{v}" "gt" (VInt 5)] [])) (r_Action loop_rule) 1.

Example loop_rule_calls :
  (@measured_evaluation demo (float_of_Z 1) [loop_rule; other_rule] demo_context "nats"
     (NewProcessor None None None (MkTime 0 0), demo_start)).1.2 =
  [CallForEachIterations "nats" 2; CallForEachFiltered "nats" 1; CallForEachActions "nats" 1; CallForEachDuration "nats" (float_of_Z 1);
   CallTemplateOps "success"; CallRuleMatches "a.b"; CallActionsByType "templated"].
Proof. vm_compute. reflexivity. Qed.
