(* ===== verification/KVStart.v ===== *)
(** * Starting with rules from a bucket (cmd/rule-router/main.go, internal/app)

    With rules from a bucket the watcher runs from [WithKVRuleManager] on, while
    the main goroutine still builds the features, registers their callbacks and
    waits for the bucket: a start is an interleaving of the two.  An update is
    one step, for the manager holds its lock while it exchanges the rules and
    reads the callbacks; the snapshots the main goroutine takes outside that
    lock are steps of their own. *)

From S2P Require Import Prelude GoStrings GoFloat GoTime Value Types Env Demo Pattern KVContext Context Index Processor Loader.
From S2P Require Import StreamResolver Net HttpClient Publisher Site Subscription Responder Scheduler Broker RuleManager Config.
From S2P Require Import Connection App Lifecycle Assembly.
Local Open Scope string_scope.

Section start.
Context `{Env} `{LoaderEnv} `{Cron} `{Net} `{SortSlice}.
Variables (cfg : Config) (exec : HTTPActionExecutor).

(** ** What runs *)

(** [NewRuleKVManager], of a base that was built: no rules, no callbacks, and a
    loader that leaves the environment alone. *)
Definition NewRuleKVManager (kvStores : gset string) (now : Time) (st : St) (b : Broker) (n : NSt) : Cluster :=
  MkCluster (kv_loader cfg) ∅ (WithKVRuleProcessor cfg kvStores now) st b None None n.

(** What is left of [createApp] and of [Run] up to the features' waits.  A
    snapshot becomes part of the step that uses it. *)
Inductive main_step :=
| InitSubscriptions                      (* Build *)
| RegisterCore                           (* NewRouterApp *)
| RegisterExecutor                       (* NewGatewayApp *)
| SnapshotSchedule                       (* NewSchedulerApp: the rules it finds *)
| RegisterSchedule (jobs : list job)     (* and its callback *)
| AwaitSync                              (* WaitReady *)
| MarkReady
| StartSubscriptions                     (* CompositeApp.Run *)
| ReadCore                               (* RouterApp.Run: CoreRules *)
| RebuildCore (core : list Rule).        (* and the rebuild from them *)

Definition main_program (fe : FeaturesConfig) : list main_step :=
  ([InitSubscriptions] ++
   (if fe_Router fe then [RegisterCore] else []) ++
   (if fe_Gateway fe then [RegisterExecutor] else []) ++
   (if fe_Scheduler fe then [SnapshotSchedule] else []) ++
   [AwaitSync; MarkReady; StartSubscriptions] ++
   (if fe_Router fe then [ReadCore] else []))%list.

Inductive start_error := FeatureFailed (e : app_error) | SyncTimeout.

(** [None] in what the watcher has still to give is the end of the initial
    values. *)
Record KVStart := MkKVStart {
  kv_cluster : Cluster;
  kv_pending : list (option rule_update);
  kv_synced : bool;                      (* the manager's [ready] is closed *)
  kv_main : list main_step;
  kv_ready : bool;                       (* the base's [ready] *)
  kv_error : option start_error;
}.

Definition on_cluster (s : KVStart) (c : Cluster) : KVStart :=
  MkKVStart c (kv_pending s) (kv_synced s) (kv_main s) (kv_ready s) (kv_error s).
Definition then_main (s : KVStart) (rest : list main_step) : KVStart :=
  MkKVStart (kv_cluster s) (kv_pending s) (kv_synced s) rest (kv_ready s) (kv_error s).
(** [createApp] or [Run] returns an error; the watcher goes on. *)
Definition fail_start (s : KVStart) (e : start_error) : KVStart :=
  MkKVStart (kv_cluster s) (kv_pending s) (kv_synced s) [] (kv_ready s) (Some e).

Definition fresh_responder : Responder := NewResponder (MkActionPublisher (na_Publish (cf_NATS cfg))) None.

Definition register_executor (c : Cluster) : Cluster :=
  let '(b, re) := broker_SetHTTPExecutor exec (cl_broker c) (default fresh_responder (cl_responder c)) in
  match cl_responder c with
  | Some _ => SetCoreRebuildFunc (set_broker c b) re
  | None => set_broker c b
  end.

(** A step of the main goroutine, [rest] being what follows it. *)
Definition main_run (m : main_step) (rest : list main_step) (s : KVStart) : KVStart :=
  let c := kv_cluster s in
  match m with
  | InitSubscriptions => then_main (on_cluster s (set_broker c (InitializeSubscriptionManager cfg (cl_broker c)))) rest
  | RegisterCore => then_main (on_cluster s (SetCoreRebuildFunc c fresh_responder)) rest
  | RegisterExecutor => then_main (on_cluster s (register_executor c)) rest
  | SnapshotSchedule =>
      match NewSchedulerApp true (ScheduleRules (cl_processor c)) with
      | Ok jobs => then_main s (RegisterSchedule jobs :: rest)
      | Err e => fail_start s (FeatureFailed (ScheduleFailed e))
      end
  | RegisterSchedule jobs => then_main (on_cluster s (SetScheduleRebuildFunc c jobs)) rest
  | AwaitSync => then_main s rest
  | MarkReady => MkKVStart c (kv_pending s) (kv_synced s) rest true (kv_error s)
  | StartSubscriptions =>
      let '(out, c) := with_net (composite_start (cl_broker c)) c in
      let s := on_cluster s (set_broker c out.2) in
      match out.1 with Ok _ => then_main s rest | Err e => fail_start s (FeatureFailed e) end
  | ReadCore => then_main s (RebuildCore (CoreRules c) :: rest)
  | RebuildCore core => then_main (on_cluster s (rebuild_core true core c)) rest
  end.

(** [WaitReady] holds the main goroutine until the initial values are in; the
    deadline of [createApp] may pass instead. *)
Inductive turn := Watcher | MainLine | Deadline.

Definition turn_step (t : turn) (s : KVStart) : option KVStart :=
  match t with
  | Watcher =>
      match kv_pending s with
      | [] => None
      | None :: rest => Some (MkKVStart (kv_cluster s) rest true (kv_main s) (kv_ready s) (kv_error s))
      | Some u :: rest => Some (MkKVStart (consume (kv_cluster s) u) rest (kv_synced s) (kv_main s) (kv_ready s) (kv_error s))
      end
  | MainLine =>
      match kv_main s with
      | [] => None
      | AwaitSync :: rest => if kv_synced s then Some (main_run AwaitSync rest s) else None
      | m :: rest => Some (main_run m rest s)
      end
  | Deadline => match kv_main s with AwaitSync :: _ => Some (fail_start s SyncTimeout) | _ => None end
  end.

Fixpoint run_turns (ts : list turn) (s : KVStart) : option KVStart :=
  match ts with
  | [] => Some s
  | t :: ts => s ← turn_step t s; run_turns ts s
  end.

Definition kv_start (c : Cluster) (updates : list (option rule_update)) : KVStart :=
  MkKVStart c updates false (main_program (cf_Features cfg)) false None.

(** [IsReady], behind the /ready probe. *)
Definition IsReady (s : KVStart) (connected : bool) : bool := kv_ready s && connected.

(** ** Specification *)

(** The main goroutine is between a snapshot and its use. *)
Definition holding (s : KVStart) : bool :=
  match kv_main s with RegisterSchedule _ :: _ | RebuildCore _ :: _ => true | _ => false end.

(** No update is handled meanwhile. *)
Fixpoint undisturbed (ts : list turn) (s : KVStart) : bool :=
  match ts with
  | [] => true
  | t :: ts =>
      negb (match t with Watcher => holding s | _ => false end) &&
      match turn_step t s with Some s => undisturbed ts s | None => true end
  end.

(** What is left to do, a snapshot counting for its use too. *)
Definition step_cost (m : main_step) : nat := match m with SnapshotSchedule | ReadCore => 2 | _ => 1 end.
Definition work (s : KVStart) : nat := length (kv_pending s) + sum_list_with step_cost (kv_main s).
End start.

Arguments KVStart : clear implicits.
Arguments KVStart {_ _}.

#[export] Instance turn_eq_dec : EqDecision turn.
Proof. solve_decision. Defined.

(** ** Lemmas: the updates do not depend on the start *)

Section updates.
Context `{Env} `{LoaderEnv} `{Cron} `{Net} `{SortSlice}.
Implicit Types c : Cluster.

(** What the verdict on an update reads, and the schedule rules of files. *)
Definition footprint c : Loader * St * StreamResolver * list Rule :=
  (cl_loader c, cl_st c, bk_resolver (cl_broker c), p_scheduleRules (cl_processor c)).

Lemma with_net_footprint {A} (m : NM A) c : footprint (with_net m c).2 = footprint c.
Proof. unfold with_net. by destruct (m (cl_net c)). Qed.

Lemma with_net_broker {A} (m : NM A) c : cl_broker (with_net m c).2 = cl_broker c.
Proof. unfold with_net. by destruct (m (cl_net c)). Qed.

Lemma set_broker_footprint c b : bk_resolver b = bk_resolver (cl_broker c) → footprint (set_broker c b) = footprint c.
Proof. intros Hb. unfold footprint. cbn. by rewrite Hb. Qed.

Lemma in_range_order_footprint subjects c : footprint (in_range_order subjects c).2 = footprint c.
Proof. apply with_net_footprint. Qed.

Lemma subject_step_footprint {A} (m : NM A) (b : A → Broker) c :
  yields m (λ out _, bk_resolver (b out) = bk_resolver (cl_broker c)) →
  footprint (set_broker (with_net m c).2 (b (with_net m c).1)) = footprint c.
Proof.
  intros Hm. destruct (with_net_spec _ _ c Hm) as (? & Hb & _).
  rewrite set_broker_footprint; [apply with_net_footprint|]. by rewrite with_net_broker.
Qed.

Lemma start_subjects_footprint subjects c : footprint (start_subjects subjects c) = footprint c.
Proof.
  revert c. induction subjects as [|s rest IH]; intros c; cbn [start_subjects]; [done|].
  pose proof (subject_step_footprint (broker_AddAndStartSubscription (cl_broker c) s) snd c) as Hs.
  destruct (with_net _ c) as [out c1]. rewrite IH. apply Hs.
  eapply yields_weaken; [apply broker_AddAndStartSubscription_spec|]. by intros ? ? (? & _).
Qed.

Lemma remove_subjects_footprint subjects c : footprint (remove_subjects subjects c) = footprint c.
Proof.
  revert c. induction subjects as [|s rest IH]; intros c; cbn [remove_subjects]; [done|].
  pose proof (subject_step_footprint (broker_RemoveSubscription (cl_broker c) s) id c) as Hs.
  destruct (with_net _ c) as [b c1]. rewrite IH. apply Hs.
  eapply yields_weaken; [apply broker_RemoveSubscription_spec|]. by intros ? ? (? & _).
Qed.

Lemma push_footprint c : footprint (push c).1.1 = footprint c.
Proof.
  unfold push. pose proof (with_net_footprint (with_world (range_order (map_to_list (cl_currentRules c)))) c) as Hf.
  destruct (with_net _ c) as [order c1]. cbn [snd] in Hf. rewrite <- Hf. unfold pushRulesToProcessor, ReplaceKVRuleSet.
  by repeat case_match; simplify_eq.
Qed.

Lemma rebuild_schedule_footprint w rules c : footprint (rebuild_schedule w rules c) = footprint c.
Proof. unfold rebuild_schedule. by repeat case_match. Qed.

Lemma rebuild_core_footprint w rules c : footprint (rebuild_core w rules c) = footprint c.
Proof.
  unfold rebuild_core. destruct (cl_responder c) as [re|]; [|done]. destruct w; [|done].
  pose proof (with_net_footprint (Rebuild re rules) c) as Hf. destruct (with_net _ c) as [re' c1]. exact Hf.
Qed.

(** An update does to the footprint what it says there. *)
Definition footprint_step (f : Loader * St * StreamResolver * list Rule) (u : rule_update) : Loader * St * StreamResolver * list Rule :=
  match f, u with
  | (l, st, sr, rs), RulePut lister key val =>
      let '(parsed, st) := ParseAndValidateYAML l val st in
      (l, st, if is_ok parsed then (Refresh sr lister).2 else sr, rs)
  | _, RuleDelete _ => f
  end.

Lemma consume_footprint c u : footprint (consume c u) = footprint_step (footprint c) u.
Proof.
  destruct u as [lister key val|key]; cbn [consume].
  - change (footprint c) with (cl_loader c, cl_st c, bk_resolver (cl_broker c), p_scheduleRules (cl_processor c)).
    unfold handleRulePut, footprint_step.
    destruct (ParseAndValidateYAML (cl_loader c) val (cl_st c)) as [[rules|e] st]; [|done].
    match goal with |- context [set_broker (set_st c st) ?b] => set (c0 := set_broker (set_st c st) b) end.
    transitivity (footprint c0); [|done]. destruct (0 <? _)%nat; [done|].
    pose proof (push_footprint (set_rules c0 (<[key:=rules]> (cl_currentRules c0)))) as Hp.
    destruct (push _) as [[c1 schedule] core]. cbn [fst] in Hp.
    match goal with |- context [in_range_order ?l ?c] => pose proof (in_range_order_footprint l c) as Hr; destruct (in_range_order l c) as [subjects c4] end.
    cbn [snd] in Hr. by rewrite start_subjects_footprint, Hr, rebuild_core_footprint, rebuild_schedule_footprint, Hp.
  - destruct (footprint c) as [[[l st] sr] rs] eqn:Ef. rewrite <- Ef. unfold handleRuleDelete.
    destruct (cl_currentRules c !! key) as [old|]; [|done].
    pose proof (push_footprint (set_rules c (delete key (cl_currentRules c)))) as Hp.
    destruct (push _) as [[c1 schedule] core]. cbn [fst] in Hp.
    match goal with |- context [in_range_order ?l ?c] => pose proof (in_range_order_footprint l c) as Hr; destruct (in_range_order l c) as [subjects c4] end.
    cbn [snd] in Hr. by rewrite remove_subjects_footprint, Hr, rebuild_core_footprint, rebuild_schedule_footprint, Hp.
Qed.

Lemma spec_step_footprint c c' u b : footprint c = footprint c' → spec_step c u b = spec_step c' u b.
Proof.
  intros Hf. destruct u as [lister key val|key]; [|done]. unfold spec_step, put_verdict, RefreshStreams, footprint in *.
  cbn. injection Hf as -> -> -> _. done.
Qed.

Lemma consumeUpdates_snoc c us u : consumeUpdates c (us ++ [u]) = consume (consumeUpdates c us) u.
Proof. unfold consumeUpdates. by rewrite foldl_app. Qed.

Lemma spec_run_snoc c us u b : spec_run c (us ++ [u]) b = spec_step (consumeUpdates c us) u (spec_run c us b).
Proof. revert c b. induction us as [|v us IH]; intros c b; [done|]. cbn. apply IH. Qed.
End updates.

(** ** Lemmas: the steps *)

Section steps.
Context `{Env} `{LoaderEnv} `{Cron} `{Net} `{SortSlice}.
Variables (cfg : Config) (exec : HTTPActionExecutor).
Implicit Types (c : Cluster) (s : KVStart).

Notation rules_of c := (all_current (cl_currentRules c)).
Notation main_run := (main_run cfg exec).
Notation turn_step := (turn_step cfg exec).
Notation run_turns := (run_turns cfg exec).
Notation undisturbed := (undisturbed cfg exec).

(** What the main goroutine never touches. *)
Record beside c c' : Prop := {
  be_rules : cl_currentRules c' = cl_currentRules c;
  be_processor : cl_processor c' = cl_processor c;
  be_footprint : footprint c' = footprint c;
  be_log : ∃ evs, n_log (cl_net c') = (n_log (cl_net c) ++ evs)%list;
}.

Lemma beside_same c c' : cl_loader c' = cl_loader c → cl_currentRules c' = cl_currentRules c →
  cl_processor c' = cl_processor c → cl_st c' = cl_st c → bk_resolver (cl_broker c') = bk_resolver (cl_broker c) →
  (∃ evs, n_log (cl_net c') = (n_log (cl_net c) ++ evs)%list) → beside c c'.
Proof. intros El Er Ep Es Eb Hl. split; try done. unfold footprint. congruence. Qed.

Lemma no_log c : ∃ evs, n_log (cl_net c) = (n_log (cl_net c) ++ evs)%list.
Proof. exists []. by rewrite app_nil_r. Qed.

Lemma beside_refl c : beside c c.
Proof. apply beside_same; auto using no_log. Qed.

Lemma composite_start_resolver b n : bk_resolver (composite_start b n).1.2 = bk_resolver b.
Proof.
  unfold composite_start. destruct (bk_subscriptionMgr b) as [sm|]; [|done]. destruct (0 <? _)%nat; [|done].
  unfold mbind, NM_bind, mret, NM_ret. by destruct (Start sm n).
Qed.

Lemma main_run_beside m rest s :
  beside (kv_cluster s) (kv_cluster (main_run m rest s)) ∧
  kv_pending (main_run m rest s) = kv_pending s ∧ kv_synced (main_run m rest s) = kv_synced s.
Proof.
  destruct m; cbn [KVStart.main_run]; try (split_and!; try done; apply beside_refl).
  - split_and!; try done. apply beside_same; try done. exact (no_log (kv_cluster s)).
  - split_and!; try done. apply beside_same; try done. exact (no_log (kv_cluster s)).
  - split_and!; try done. cbn. unfold register_executor, broker_SetHTTPExecutor.
    destruct (cl_responder _), (bk_subscriptionMgr _) as [sm|]; apply beside_same; try done; exact (no_log (kv_cluster s)).
  - destruct (NewSchedulerApp true _); (split_and!; try done; apply beside_refl).
  - split_and!; try done. apply beside_same; try done. exact (no_log (kv_cluster s)).
  - destruct (with_net_spec _ _ (kv_cluster s) (composite_start_spec (cl_broker (kv_cluster s)))) as (evs & _ & Hf & _ & Hl).
    pose proof (composite_start_resolver (cl_broker (kv_cluster s)) (cl_net (kv_cluster s))) as Hr.
    unfold with_net in *. destruct (composite_start _ _) as [[r b] n]. cbn [fst snd] in *.
    destruct r; (split_and!; try done; apply beside_same; try done; by eexists).
  - split_and!; try done. cbn. pose proof (rebuild_core_footprint true core (kv_cluster s)) as Hf.
    destruct (rebuild_core_frame true core (kv_cluster s)) as (? & ? & ? & ? & ? & ?). by split.
Qed.

(** *** The rules *)

Variables (c0 : Cluster) (updates : list (option rule_update)).

Record updates_inv (taken : list (option rule_update)) s : Prop := {
  uv_taken : updates = (taken ++ kv_pending s)%list;
  uv_synced : kv_synced s = true ↔ None ∈ taken;
  uv_footprint : footprint (kv_cluster s) = footprint (consumeUpdates c0 (omap id taken));
  uv_pushed : pushed (kv_cluster s);
  uv_files : p_scheduleRules (cl_processor (kv_cluster s)) = [];
  uv_represents : represents (kv_cluster s) (spec_run c0 (omap id taken) ∅);
}.

Lemma beside_pushed c c' : beside c c' → pushed c → pushed c'.
Proof. intros [Er Ep _ _]. unfold pushed. by rewrite Er, Ep. Qed.

Lemma main_turn m rest s s' : kv_main s = m :: rest → turn_step MainLine s = Some s' → s' = main_run m rest s.
Proof. intros Hm. cbn [KVStart.turn_step]. rewrite Hm. destruct m; try destruct (kv_synced s); by intros [= <-]. Qed.

Lemma main_turn_nonempty s s' : turn_step MainLine s = Some s' → ∃ m rest, kv_main s = m :: rest.
Proof. cbn [KVStart.turn_step]. destruct (kv_main s) as [|m rest]; [done|eauto]. Qed.

(** A turn of the main goroutine, or its deadline, leaves the watcher's side. *)
Lemma other_turn t s s' : t ≠ Watcher → turn_step t s = Some s' →
  beside (kv_cluster s) (kv_cluster s') ∧ kv_pending s' = kv_pending s ∧ kv_synced s' = kv_synced s.
Proof.
  intros Ht Hs. destruct t; [done| |].
  - destruct (main_turn_nonempty _ _ Hs) as (m & rest & Hm). rewrite (main_turn _ _ _ _ Hm Hs). apply main_run_beside.
  - cbn in Hs. destruct (kv_main s) as [|[]]; try done. injection Hs as <-. split_and!; [apply beside_refl|done|done].
Qed.

Lemma consume_files c u : p_scheduleRules (cl_processor (consume c u)) = p_scheduleRules (cl_processor c).
Proof.
  pose proof (consume_footprint c u) as Hf. unfold footprint, footprint_step in Hf.
  destruct u; [|by injection Hf]. destruct (ParseAndValidateYAML _ _ _). by injection Hf.
Qed.

Lemma updates_inv_step taken t s s' : updates_inv taken s → turn_step t s = Some s' →
  ∃ taken', updates_inv taken' s'.
Proof.
  intros [Ht Hy Hf Hp Hfi Hr] Hs. destruct (decide (t = Watcher)) as [->|Hne].
  2: { destruct (other_turn _ _ _ Hne Hs) as ([Er Ep Ef El] & Epe & Esy). exists taken.
       split; [by rewrite Epe|by rewrite Esy|by rewrite Ef|by apply (beside_pushed (kv_cluster s))|by rewrite Ep|].
       unfold represents. by rewrite Er. }
  cbn in Hs. destruct (kv_pending s) as [|[u|] rest] eqn:Epe; [done| |]; injection Hs as <-.
  - exists (taken ++ [Some u])%list. assert (omap id (taken ++ [Some u]) = omap id taken ++ [u])%list as Eo by by rewrite omap_app.
    destruct (consume_follows (kv_cluster s) u Hp) as (Hfo & _ & Hrep).
    split; rewrite ?Eo; cbn [kv_pending kv_cluster kv_synced].
    + by rewrite <- app_assoc.
    + rewrite Hy, elem_of_app, list_elem_of_singleton. naive_solver.
    + by rewrite consumeUpdates_snoc, !consume_footprint, Hf.
    + apply Hfo.
    + by rewrite consume_files.
    + rewrite spec_run_snoc, <- (spec_step_footprint (kv_cluster s)) by done. by apply Hrep.
  - exists (taken ++ [None])%list. assert (omap id (taken ++ [@None rule_update]) = omap id taken)%list as Eo
      by by rewrite omap_app, app_nil_r.
    split; rewrite ?Eo; cbn [kv_pending kv_cluster kv_synced]; try done.
    + by rewrite <- app_assoc.
    + rewrite elem_of_app, list_elem_of_singleton. naive_solver.
Qed.

(** *** The main goroutine *)

Definition uses_snapshot (m : main_step) : bool :=
  match m with RegisterSchedule _ | RebuildCore _ => true | _ => false end.

(** What the order of the program gives. *)
Lemma program_order fe l1 m l2 : main_program fe = (l1 ++ m :: l2)%list →
  uses_snapshot m = false ∧ (m = MarkReady → AwaitSync ∉ l2) ∧ (m = RegisterCore → ReadCore ∈ l2).
Proof.
  unfold main_program. destruct fe as [[] [] []]; cbn [fe_Router fe_Gateway fe_Scheduler app]; intros Hp;
    repeat (destruct l1 as [|? l1]; cbn [app] in Hp;
      [injection Hp as <- <-; split_and!; [done|intros; set_solver|intros; set_solver]|injection Hp as _ Hp]);
    by destruct l1.
Qed.

Record main_inv s : Prop := {
  mv_shape : ∃ l, l `suffix_of` main_program (cf_Features cfg) ∧
    (kv_main s = l ∨ ∃ m, uses_snapshot m = true ∧ kv_main s = m :: l);
  mv_running : kv_main s ≠ [] → kv_error s = None;
  mv_sync : kv_error s = None → AwaitSync ∈ kv_main s ∨ kv_synced s = true;
  mv_ready : kv_error s = None → MarkReady ∈ kv_main s ∨ kv_ready s = true;
  mv_ready_synced : kv_ready s = true → kv_synced s = true;
}.

(** The rest of the program, and where its first step is in it. *)
Lemma main_inv_rest s m rest : main_inv s → kv_main s = m :: rest →
  rest `suffix_of` main_program (cf_Features cfg) ∧
  (uses_snapshot m = false → ∃ l1, main_program (cf_Features cfg) = (l1 ++ m :: rest)%list).
Proof.
  intros [(l & Hl & Hm) _ _ _ _] Hs. rewrite Hs in Hm. destruct Hm as [<-|(m' & Hu & [= <- <-])].
  - split; [by eapply suffix_cons_l|]. intros _. destruct Hl as [l1 ->]. by exists l1.
  - split; [done|]. congruence.
Qed.

Lemma main_inv_failed s e : main_inv s → main_inv (fail_start s e).
Proof. intros [? ? ? ? ?]. split; cbn; try done. exists []. split; [apply suffix_nil|by left]. Qed.

Lemma main_inv_then s s' m rest : main_inv s → kv_main s = m :: rest → m ≠ AwaitSync → m ≠ MarkReady →
  kv_main s' = rest ∨ (∃ m', uses_snapshot m' = true ∧ kv_main s' = m' :: rest) →
  kv_error s' = kv_error s → kv_ready s' = kv_ready s → kv_synced s' = kv_synced s → main_inv s'.
Proof.
  intros Hi Hm Ha Hr Hs' Ee Er Es. destruct (main_inv_rest s m rest Hi Hm) as [Hsuf _].
  assert (∀ x, x ∈ kv_main s → x = m ∨ x ∈ kv_main s') as Hin.
  { intros x. rewrite Hm. intros [->|Hx]%elem_of_cons; [by left|right]. destruct Hs' as [->|(m' & _ & ->)]; [done|by right]. }
  destruct Hi as [_ Hrun Hsync Hready Hrs]. split; rewrite ?Ee, ?Er, ?Es.
  - exists rest. split; [done|]. destruct Hs' as [?|(m' & ? & ?)]; [by left|right; by exists m'].
  - intros _. apply Hrun. by rewrite Hm.
  - intros He. destruct (Hsync He) as [[?|?]%Hin|?]; [congruence|by left|by right].
  - intros He. destruct (Hready He) as [[?|?]%Hin|?]; [congruence|by left|by right].
  - done.
Qed.

Lemma main_inv_step t s s' : main_inv s → turn_step t s = Some s' → main_inv s'.
Proof.
  intros Hi Hs. destruct t.
  - cbn in Hs. destruct Hi as [? ? ? ? Hrs]. destruct (kv_pending s) as [|[u|] rest]; [done| |]; injection Hs as <-;
      split; cbn; try done; auto.
  - destruct (main_turn_nonempty _ _ Hs) as (m & rest & Hm). pose proof (main_turn _ _ _ _ Hm Hs) as ->.
    destruct (main_inv_rest s m rest Hi Hm) as [Hsuf Hpos]. pose proof Hi as [_ Hrun Hsync Hready Hrs].
    assert (kv_error s = None) as He0 by (apply Hrun; by rewrite Hm).
    destruct m; cbn [KVStart.main_run];
      try (eapply main_inv_then; [exact Hi|exact Hm|done|done|by left|done..]).
    + destruct (NewSchedulerApp true _) as [jobs|e]; [|by apply main_inv_failed].
      eapply main_inv_then; [exact Hi|exact Hm|done|done| |done..]. right. by exists (RegisterSchedule jobs).
    + assert (kv_synced s = true) as Hy by (cbn in Hs; rewrite Hm in Hs; by destruct (kv_synced s)).
      split; cbn; rewrite ?Hy; auto; [by exists rest; split; [|left]|].
      intros He. destruct (Hready He) as [Hr|?]; [|by right]. rewrite Hm in Hr. left. by apply elem_of_cons in Hr as [?|?].
    + destruct (Hpos eq_refl) as [l1 Hp]. destruct (program_order _ _ _ _ Hp) as (_ & Hno & _).
      assert (kv_synced s = true) as Hy.
      { destruct (Hsync He0) as [Hin|?]; [|done]. rewrite Hm in Hin.
        apply elem_of_cons in Hin as [?|Hin]; [done|]. by destruct Hno. }
      split; cbn; auto. by exists rest; split; [|left].
    + destruct (with_net _ _) as [[[[]|e] b] c].
      * by eapply main_inv_then; [exact Hi|exact Hm|done|done|left|..].
      * apply main_inv_failed. by destruct Hi.
    + eapply main_inv_then; [exact Hi|exact Hm|done|done| |done..]. right. by exists (RebuildCore (CoreRules (kv_cluster s))).
  - cbn in Hs. destruct (kv_main s) as [|[]]; try done. injection Hs as <-. by apply main_inv_failed.
Qed.

(** *** The jobs and the core subscriptions *)

Definition bootstraps (m : main_step) : bool := match m with ReadCore | RebuildCore _ => true | _ => false end.

Definition core_follows c : Prop := core_ok (rules_of c) (cl_responder c) (n_log (cl_net c)).

Record follow_inv s : Prop := {
  gv_jobs : jobs_ok (rules_of (kv_cluster s)) (cl_jobs (kv_cluster s));
  gv_snapshot : ∀ jobs rest, kv_main s = RegisterSchedule jobs :: rest → jobs_ok (rules_of (kv_cluster s)) (Some jobs);
  gv_core : kv_error s = None → core_follows (kv_cluster s) ∨ ∃ m, m ∈ kv_main s ∧ bootstraps m = true;
  gv_read : ∀ core rest, kv_main s = RebuildCore core :: rest → core ≡ₚ List.filter is_core_rule (rules_of (kv_cluster s));
}.

Lemma at_place_schedule rules : Forall single rules → at_place PSchedule rules = List.filter is_schedule_rule rules.
Proof.
  induction 1 as [|r rules [Hone Hp] _ IH]; [done|]. rewrite at_place_cons, IH.
  assert (bool_decide (place_of r = PSchedule) = is_schedule_rule r) as ->; [|done].
  unfold is_schedule_rule, place_of in *.
  destruct (tr_NATS (r_Trigger r)), (tr_HTTP (r_Trigger r)), (tr_Schedule (r_Trigger r)); cbn in Hone; try lia;
    repeat case_match; by case_bool_decide.
Qed.

(** The jobs of a start are those of the rules it found. *)
Lemma snapshot_jobs c jobs : pushed c → p_scheduleRules (cl_processor c) = [] →
  NewSchedulerApp true (ScheduleRules (cl_processor c)) = Ok jobs → jobs_ok (rules_of c) (Some jobs).
Proof.
  intros (_ & Hs & _ & Hl) Hf Hn js [= <-].
  destruct (rebuildCronJobs_spec jobs (ScheduleRules (cl_processor c))) as (_ & Ho & _ & Hsame).
  rewrite (Hsame Hn) in Ho. rewrite Ho.
  assert (ScheduleRules (cl_processor c) ≡ₚ List.filter is_schedule_rule (rules_of c)) as ->.
  { rewrite <- at_place_schedule, <- Hl by done. unfold ScheduleRules, kv_lists. destruct (p_kvRuleSet _); [done|by rewrite Hf]. }
  by rewrite job_of_filter.
Qed.

Lemma core_follows_beside c c' : beside c c' →
  (∀ re', cl_responder c' = Some re' → ∃ re, cl_responder c = Some re ∧ re_subs re' = re_subs re ∧ re_closed re' = re_closed re) →
  core_follows c → core_follows c'.
Proof.
  intros [Er _ _ (evs & El)] Hre Hc. unfold core_follows. rewrite Er, El. apply core_ok_log.
  intros re' Hre' Hcl s. destruct (Hre re' Hre') as (re & Hr & Esub & Ecl). rewrite Esub. apply (Hc re Hr). congruence.
Qed.

(** Steps that leave the jobs and the subscriptions of the responder. *)
Lemma follow_inv_then s s' m rest : follow_inv s → kv_main s = m :: rest → bootstraps m = false →
  beside (kv_cluster s) (kv_cluster s') → cl_jobs (kv_cluster s') = cl_jobs (kv_cluster s) →
  (∀ re', cl_responder (kv_cluster s') = Some re' →
     ∃ re, cl_responder (kv_cluster s) = Some re ∧ re_subs re' = re_subs re ∧ re_closed re' = re_closed re) →
  kv_main s' = rest → kv_error s' = kv_error s → Forall (λ m, uses_snapshot m = false) rest → follow_inv s'.
Proof.
  intros [Hj _ Hc _] Hm Hb Hbe Ej Hre Em Ee Hplain. pose proof (be_rules _ _ Hbe) as Er.
  split; rewrite ?Er, ?Ej, ?Em, ?Ee; [done| | |].
  - intros jobs l ->. by inversion Hplain.
  - intros He. destruct (Hc He) as [Hok|(x & Hx & Hbx)]; [left; by apply (core_follows_beside (kv_cluster s))|right].
    exists x. split; [|done]. rewrite Hm in Hx. apply elem_of_cons in Hx as [->|?]; [congruence|done].
  - intros core l ->. by inversion Hplain.
Qed.

Lemma follow_inv_failed s e : jobs_ok (rules_of (kv_cluster s)) (cl_jobs (kv_cluster s)) → follow_inv (fail_start s e).
Proof. by split. Qed.

Lemma same_responder c c' : cl_responder c' = cl_responder c → ∀ re', cl_responder c' = Some re' →
  ∃ re, cl_responder c = Some re ∧ re_subs re' = re_subs re ∧ re_closed re' = re_closed re.
Proof. intros -> re'. eauto. Qed.

Lemma program_plain fe : Forall (λ m, uses_snapshot m = false) (main_program fe).
Proof. unfold main_program. destruct fe as [[] [] []]; cbn; repeat constructor. Qed.

Lemma suffix_plain (l : list main_step) : l `suffix_of` main_program (cf_Features cfg) → Forall (λ m, uses_snapshot m = false) l.
Proof. intros [l1 Hl]. pose proof (program_plain (cf_Features cfg)) as Hp. rewrite Hl in Hp. by apply Forall_app in Hp as [_ ?]. Qed.

Lemma follow_inv_main taken s s' : updates_inv taken s → main_inv s → follow_inv s →
  turn_step MainLine s = Some s' → follow_inv s'.
Proof.
  intros Hu Hi Hf Hs. destruct (main_turn_nonempty _ _ Hs) as (m & rest & Hm). pose proof (main_turn _ _ _ _ Hm Hs) as ->.
  destruct (main_inv_rest s m rest Hi Hm) as [Hsuf%suffix_plain Hpos].
  destruct (main_run_beside m rest s) as (Hbe & _). destruct m; cbn [KVStart.main_run] in *.
  all: try by eapply follow_inv_then; [exact Hf|exact Hm|done|exact Hbe|done|by apply same_responder|..].
  - destruct (Hpos eq_refl) as [l1 Hp]. destruct (program_order _ _ _ _ Hp) as (_ & _ & Hread). destruct Hf as [Hj _ _ _].
    split; cbn; [done|intros jobs l ->; by inversion Hsuf| |intros core l ->; by inversion Hsuf].
    intros _. right. exists ReadCore. auto.
  - eapply follow_inv_then; [exact Hf|exact Hm|done|exact Hbe|..|done|done|done]; cbn; unfold register_executor, broker_SetHTTPExecutor;
      destruct (cl_responder (kv_cluster s)) eqn:Ere; cbn; rewrite ?Ere; [done|done| |done]. intros re' [= <-]. eauto.
  - destruct (NewSchedulerApp true _) as [jobs|e] eqn:En; [|by apply follow_inv_failed, Hf].
    destruct Hu as [_ _ _ Hp Hfi _]. pose proof (snapshot_jobs _ _ Hp Hfi En) as Hjobs. destruct Hf as [Hj _ Hc _].
    split; cbn; [done|by intros ? ? [= <- <-]| |done]. intros He. destruct (Hc He) as [?|(x & Hx & Hb)]; [by left|right].
    exists x. split; [|done]. rewrite Hm in Hx. apply elem_of_cons in Hx as [->|?]; [done|by right].
  - pose proof (gv_snapshot _ Hf _ _ Hm) as Hjobs. destruct Hf as [_ _ Hc _].
    split; cbn; [exact Hjobs|intros ? ? ->; by inversion Hsuf| |intros ? ? ->; by inversion Hsuf].
    intros He. destruct (Hc He) as [?|(x & Hx & Hb)]; [by left|right]. exists x. split; [|done].
    rewrite Hm in Hx. apply elem_of_cons in Hx as [->|?]; done.
  - destruct (with_net_spec _ _ (kv_cluster s) (composite_start_spec (cl_broker (kv_cluster s)))) as (evs & _ & [_ _ _ Ej Ere _] & _).
    destruct (with_net _ (kv_cluster s)) as [[[[]|e] b] c]; cbn [fst snd] in *.
    + eapply follow_inv_then; [exact Hf|exact Hm|done|exact Hbe|exact Ej|by apply same_responder|done..].
    + apply follow_inv_failed. cbn. pose proof (be_rules _ _ Hbe) as Er. cbn in Er. rewrite Ej, Er. apply Hf.
  - destruct Hf as [Hj _ _ _]. split; cbn; [done|done| |by intros ? ? [= <- <-]].
    intros _. right. exists (RebuildCore (CoreRules (kv_cluster s))). split; [by left|done].
  - pose proof (gv_read _ Hf _ _ Hm) as Hcore. destruct Hf as [Hj _ _ _].
    destruct (rebuild_core_frame true core (kv_cluster s)) as (_ & Er & _ & Ej & _).
    split; cbn; rewrite ?Er, ?Ej; [done|intros ? ? ->; by inversion Hsuf| |intros ? ? ->; by inversion Hsuf].
    intros _. left. unfold core_follows. rewrite Er. by apply rebuild_core_wanted.
Qed.

Lemma follow_inv_step taken t s s' : updates_inv taken s → main_inv s → follow_inv s →
  (t = Watcher → holding s = false) → turn_step t s = Some s' → follow_inv s'.
Proof.
  intros Hu Hi Hf Hq Hs. destruct t; [|by eapply follow_inv_main|].
  - specialize (Hq eq_refl). unfold holding in Hq.
    assert (∀ c', follows (kv_cluster s) c' → ∀ s', kv_cluster s' = c' → kv_main s' = kv_main s → kv_error s' = kv_error s →
      follow_inv s') as Hstep.
    { intros c' [_ Hjo Hco] s1 Ec Em Ee. destruct Hf as [Hj _ Hc _]. split; rewrite ?Ec, ?Em, ?Ee; [by apply Hjo| | |].
      - intros ? ? Em'. by rewrite Em' in Hq.
      - intros He. destruct (Hc He); [left; by apply Hco|by right].
      - intros ? ? Em'. by rewrite Em' in Hq. }
    cbn in Hs. destruct (kv_pending s) as [|[u|] rest]; [done| |]; injection Hs as <-.
    + eapply Hstep; [|done..]. by apply consume_follows, (uv_pushed _ _ Hu).
    + eapply Hstep; [|done..]. apply frame_follows; [by apply (uv_pushed _ _ Hu)|apply frame_refl].
  - cbn in Hs. destruct (kv_main s) as [|[]]; try done. injection Hs as <-. by apply follow_inv_failed, Hf.
Qed.

(** *** Runs *)

Lemma run_inv ts : ∀ taken s s', updates_inv taken s → main_inv s → run_turns ts s = Some s' →
  (∃ taken', updates_inv taken' s') ∧ main_inv s' ∧ (undisturbed ts s = true → follow_inv s → follow_inv s').
Proof.
  induction ts as [|t ts IH]; intros taken s s' Hu Hi; cbn [KVStart.run_turns KVStart.undisturbed].
  { intros [= <-]. split_and!; [by exists taken|done|done]. }
  destruct (turn_step t s) as [s1|] eqn:Et; [|done]. cbn [mbind option_bind]. intros Hr.
  destruct (updates_inv_step _ _ _ _ Hu Et) as [taken1 Hu1].
  destruct (IH taken1 s1 s' Hu1 (main_inv_step _ _ _ Hi Et) Hr) as (Hu' & Hi' & Hf'). split_and!; [done|done|].
  intros [Hq%negb_true_iff Hun]%andb_prop Hf. apply Hf'; [done|]. apply (follow_inv_step taken t s s1); [done..| |done].
  by intros ->.
Qed.

(** A turn uses up some of the work, and until all is done there is one that can
    be taken. *)
Lemma turn_work t s s' : turn_step t s = Some s' → (work s' < work s)%nat.
Proof.
  unfold work. intros Hs. destruct t.
  - cbn in Hs. destruct (kv_pending s) as [|[u|] rest]; [done| |]; injection Hs as <-; cbn; lia.
  - destruct (main_turn_nonempty _ _ Hs) as (m & rest & Hm). rewrite (main_turn _ _ _ _ Hm Hs), Hm.
    destruct m; cbn [KVStart.main_run]; try (cbn; lia).
    + destruct (NewSchedulerApp true _); cbn; lia.
    + destruct (with_net _ _) as [[[]] c]; cbn; lia.
  - cbn in Hs. destruct (kv_main s) as [|[]]; try done. injection Hs as <-. cbn. lia.
Qed.

Lemma turn_enabled taken s : updates_inv taken s → None ∈ updates →
  kv_main s ≠ [] ∨ kv_pending s ≠ [] → ∃ t s', turn_step t s = Some s'.
Proof.
  intros [Ht Hy _ _ _ _] Hnone Hwork. destruct (kv_pending s) as [|o rest] eqn:Ep.
  - assert (kv_synced s = true) as Es by (apply Hy; by rewrite Ht, app_nil_r in Hnone).
    exists MainLine. cbn [KVStart.turn_step]. destruct (kv_main s) as [|[]]; rewrite ?Es; [by destruct Hwork|eauto..].
  - exists Watcher. cbn [KVStart.turn_step]. rewrite Ep. destruct o; eauto.
Qed.

Lemma run_work ts : ∀ s s', run_turns ts s = Some s' → (length ts + work s' ≤ work s)%nat.
Proof.
  induction ts as [|t ts IH]; intros s s'; cbn [KVStart.run_turns length]; [intros [= <-]; lia|].
  destruct (turn_step t s) as [s1|] eqn:Et; [|done]. cbn. intros Hr%IH. apply turn_work in Et. lia.
Qed.

Lemma run_finishes : None ∈ updates → ∀ taken s, updates_inv taken s →
  ∃ ts s', run_turns ts s = Some s' ∧ kv_main s' = [] ∧ kv_pending s' = [].
Proof.
  intros Hnone taken s. remember (work s) as n eqn:En. revert taken s En.
  induction n as [n IH] using lt_wf_ind. intros taken s -> Hu.
  destruct (decide (kv_main s = [] ∧ kv_pending s = [])) as [[]|Hleft]; [by exists [], s|].
  destruct (turn_enabled taken s Hu Hnone) as (t & s1 & Et).
  { destruct (kv_main s); [right; intros ?; by destruct Hleft|by left]. }
  destruct (updates_inv_step _ _ _ _ Hu Et) as [taken1 Hu1].
  destruct (IH (work s1) (turn_work _ _ _ Et) taken1 s1 eq_refl Hu1) as (ts & s' & Hr & Hdone).
  exists (t :: ts), s'. split; [|done]. cbn [KVStart.run_turns]. by rewrite Et.
Qed.
End steps.

(** ** Properties *)

Section properties.
Context `{Env} `{LoaderEnv} `{Cron} `{Net} `{SortSlice}.

Lemma kv_start_invs cfg kvStores now st b n updates :
  let c0 := NewRuleKVManager cfg kvStores now st b n in
  updates_inv c0 updates [] (kv_start cfg c0 updates) ∧ main_inv cfg (kv_start cfg c0 updates) ∧ follow_inv (kv_start cfg c0 updates).
Proof.
  intros c0. assert (synced c0) as (Hp & Hj & Hc)%synced_parts by (apply fresh_synced; cbn; done || (intros; congruence)).
  split_and!.
  - split; cbn; try done; [split; [done|]; intros Hn; by apply elem_of_nil in Hn|]. intros k. rewrite !lookup_empty. constructor.
  - split; cbn; try done; [by exists (main_program (cf_Features cfg)); split; [|left]| |]; intros _; left;
      unfold main_program; set_solver.
  - split; cbn; try done. by left.
Qed.

(** C23: A start with rules from a bucket, in every interleaving of the watcher with
    the main goroutine.  Whatever has run, the engine holds the rules that the
    updates handled so far leave in the bucket, in the order in which they came
    and whatever the main goroutine did in between; the process reports ready
    only when the bucket's initial values are in.  A start that comes to its end
    without an error is ready, and if no update was handled between a snapshot
    of the rules and its use, the cron jobs and the core subscriptions are those
    of the rules.  No interleaving gets stuck: as long as the initial values end,
    some turn can be taken until all is done, after a bounded number of turns. *)
Theorem kv_start_correct cfg exec kvStores now st b n updates ts s :
  let c0 := NewRuleKVManager cfg kvStores now st b n in
  run_turns cfg exec ts (kv_start cfg c0 updates) = Some s →
  (∃ taken, updates = (taken ++ kv_pending s)%list ∧
     let bucket := spec_run c0 (omap id taken) ∅ in
     represents (kv_cluster s) bucket ∧
     (∀ pl, pl ≠ PNowhere → map (λ r, set_rule_index r 0) (kv_lists (cl_processor (kv_cluster s)) pl) ≡ₚ
                            map (λ r, set_rule_index r 0) (at_place pl (all_current bucket))) ∧
     (∀ connected, IsReady s connected = true → None ∈ taken)) ∧
  (kv_main s = [] → kv_error s = None →
     kv_ready s = true ∧ (undisturbed cfg exec ts (kv_start cfg c0 updates) = true → synced (kv_cluster s))) ∧
  (None ∈ updates → ∃ ts' s', run_turns cfg exec ts' s = Some s' ∧ kv_main s' = [] ∧ kv_pending s' = []) ∧
  (length ts ≤ length updates + 10)%nat.
Proof.
  intros c0 Hr. destruct (kv_start_invs cfg kvStores now st b n updates) as (Hu0 & Hi0 & Hf0).
  destruct (run_inv cfg exec c0 updates ts [] _ _ Hu0 Hi0 Hr) as ([taken Hu] & Hi & Hf). split_and!.
  - exists taken. pose proof Hu as [Ht Hy _ (_ & _ & _ & Hl) _ Hrep]. split; [done|]. cbv zeta. split_and!; [done| |].
    + intros pl Hpl. rewrite (Hl pl Hpl). symmetry. by apply represents_places.
    + intros connected [Hready _]%andb_prop. by apply Hy, (mv_ready_synced _ _ Hi).
  - intros Hm He. split.
    + destruct (mv_ready _ _ Hi He) as [Hin|?]; [|done]. rewrite Hm in Hin. by apply elem_of_nil in Hin.
    + intros Hun. destruct (Hf Hun Hf0) as [Hj _ Hc _]. apply synced_parts. split_and!; [apply Hu|done|].
      destruct (Hc He) as [?|(m & Hin & _)]; [done|]. rewrite Hm in Hin. by apply elem_of_nil in Hin.
  - intros Hn. by apply (run_finishes cfg exec c0 updates Hn taken s).
  - apply run_work in Hr. assert (work (kv_start cfg c0 updates) ≤ length updates + 10)%nat; [|lia].
    unfold work, kv_start. cbn [kv_pending kv_main]. apply Nat.add_le_mono_l.
    unfold main_program. destruct (cf_Features cfg) as [[] [] []]; cbn; lia.
Qed.
End properties.

(** ** Concrete starts *)

Definition core_demo_rule : Rule :=
  MkRule "live" (MkTrigger (Some (MkNATSTrigger "live" None None ModeCore false "")) None None) None
    (MkAction (Some (MkNATSAction "alerts" "" "x" false false ∅ "" false "" "" None None None None)) None None None) 0.
Definition cron_demo_rule : Rule :=
  MkRule "tick" (MkTrigger None None (Some (MkScheduleTrigger "* * * * *" ""))) None (r_Action core_demo_rule) 0.

#[local] Instance kv_start_loader : LoaderEnv := {|
  yaml_Unmarshal := λ s, if String.eqb s "core" then Some [core_demo_rule] else if String.eqb s "cron" then Some [cron_demo_rule] else None;
  cron_Parse := λ s, negb (String.eqb s "");
  time_LoadLocation := λ s, String.eqb s "UTC";
  os_Getenv := λ _, "";
|}.
#[local] Instance kv_start_cron : Cron := {| gocron_CronJob := λ s, negb (String.eqb s "") |}.
#[local] Existing Instances demo demo_net merge_SortSlice.

Definition kv_start_config : Config :=
  MkConfig (MkFeatures true false true) (cf_NATS default_config) (cf_Server default_config) (cf_Client default_config)
    (cf_Logging default_config) (cf_Metrics default_config) (cf_KV default_config) (cf_Security default_config) (cf_ForEach default_config).

Notation demo_manager := (NewRuleKVManager kv_start_config ∅ (MkTime 0 0) demo_start demo_broker (demo_net_start [])).
Definition demo_put (val : string) : option rule_update := Some (RulePut ([demo_stream], false) val val).
Notation demo_kv_start updates ts := (run_turns kv_start_config demo_executor ts (kv_start kv_start_config demo_manager updates)).

(** What serves the rules at the end. *)
Definition served_by (s : KVStart) : option (list string * list string) :=
  match cl_jobs (kv_cluster s), cl_responder (kv_cluster s) with
  | Some jobs, Some re => Some (map jb_Name jobs, map cs_Subject (re_subs re))
  | _, _ => None
  end.

(** The watcher first. *)
Definition orderly : list turn := ([Watcher; Watcher; Watcher] ++ repeat MainLine 9)%list.

Example everything_served :
  (demo_kv_start [demo_put "core"; demo_put "cron"; None] orderly ≫= served_by) = Some (["* * * * *"], ["live"]).
Proof. vm_compute. reflexivity. Qed.

(** A schedule rule that arrives between the scheduler's look at the rules and
    its registration gets no job, though the start succeeds: the registration
    does not look again, and nothing does until another schedule rule changes. *)
Lemma cron_rule_missed :
  (demo_kv_start [None; demo_put "cron"] ([Watcher] ++ repeat MainLine 3 ++ [Watcher] ++ repeat MainLine 6)%list ≫= served_by) =
    Some ([], []).
Proof. vm_compute. reflexivity. Qed.

(** A core rule that arrives between the router's look at the rules and the
    rebuild from them loses the subscription that the manager's callback had
    just made for it. *)
Lemma core_rule_dropped :
  (demo_kv_start [None; demo_put "core"] ([Watcher] ++ repeat MainLine 8 ++ [Watcher] ++ [MainLine])%list ≫= served_by) =
    Some ([], []).
Proof. vm_compute. reflexivity. Qed.

Definition demo_bucket : list (option rule_update) := [demo_put "core"; demo_put "cron"; None].

Lemma orderly_ends : ((λ s, (kv_main s, kv_error s)) <$> demo_kv_start demo_bucket orderly) = Some ([], None).
Proof. vm_compute. reflexivity. Qed.

Lemma orderly_undisturbed :
  undisturbed kv_start_config demo_executor orderly (kv_start kv_start_config demo_manager demo_bucket) = true.
Proof. vm_compute. reflexivity. Qed.

Lemma kv_start_correct_witness :
  ∃ s, demo_kv_start demo_bucket orderly = Some s ∧ kv_ready s = true ∧ synced (kv_cluster s).
Proof.
  destruct (demo_kv_start demo_bucket orderly) as [s|] eqn:E; [exists s|].
  - pose proof orderly_ends as Hend. rewrite E in Hend. injection Hend as Hm He. split; [reflexivity|].
    destruct (proj1 (proj2 (kv_start_correct kv_start_config demo_executor ∅ (MkTime 0 0) demo_start demo_broker (demo_net_start [])
      demo_bucket orderly s E)) Hm He) as [Hready Hsync].
    split; [exact Hready|exact (Hsync orderly_undisturbed)].
  - pose proof orderly_ends as Hend. rewrite E in Hend. discriminate Hend.
Defined.
