(* ===== verification/AuthConfig.v ===== *)
(** * The configuration of the authentication manager (internal/authmgr/config.go)

    Loading: the defaults, the expansion of ${VAR} references in every string of
    the configuration, which must all be set, and the checks, which also fill in
    a provider's key and method.  Viper and the environment are parameters. *)

From S2P Require Import Prelude GoStrings GoFloat GoTime Value Types Env Expand.
From S2P Require Import StreamResolver Net HttpClient Publisher Site Subscription Broker Config.
Local Open Scope string_scope.

Record AuthNATSConfig := MkAuthNATS {
  an_URLs : list string; an_Username : string; an_Password : string; an_Token : string;
  an_NKeySeedFile : string; an_CredsFile : string; an_TLS : TLSConfig;
}.
Record AuthMetricsConfig := MkAuthMetrics { am_Enabled : bool; am_Address : string }.
Record ProviderConfig := MkProviderConfig {
  pv_ID : string; pv_Type : string; pv_KVKey : string; pv_RefreshBefore : string; pv_RefreshEvery : string;
  pv_TokenURL : string; pv_ClientID : string; pv_ClientSecret : string; pv_Scopes : list string;
  pv_AuthURL : string; pv_Method : string; pv_Headers : gmap string string; pv_Body : string; pv_TokenPath : string;
}.
Record AuthConfig := MkAuthConfig {
  ac_NATS : AuthNATSConfig; ac_Bucket : string; ac_Logging : LogConfig; ac_Metrics : AuthMetricsConfig;
  ac_Providers : list ProviderConfig;
}.

Inductive auth_config_error :=
| AuthReadFailed | AuthUnmarshalFailed | MissingVariables (names : list string)
| AuthNoURL | AuthManyMethods | NoProvider
| NoID (i : nat) | DuplicateID (i : nat) (id : string) | InvalidType (id type : string)
| NoTokenURL (id : string) | NoClientID (id : string) | NoClientSecret (id : string)
| NoRefreshBefore (id : string) | BadRefreshBefore (id : string)
| NoAuthURL (id : string) | NoTokenPath (id : string) | NoRefreshEvery (id : string) | BadRefreshEvery (id : string)
| NoBucket | AuthNoKeyFile | AuthNoCertFile | AuthNoCredsFile (path : string).

(** ** Expansion *)

Section expansion.
Variable os_Getenv : string → string.

(** [expandString]; the names that are unset are those of [unset_names]. *)
Definition expandString (s : string) : string := replace_all env_match 3 os_Getenv 0 s.
Definition unset_names (s : string) : list string := List.filter (λ n, String.eqb (os_Getenv n) "") (env_names s).

(** Every string the reflection reaches: fields, elements of lists, values of
    maps. *)
Definition map_tls (f : string → string) (t : TLSConfig) : TLSConfig :=
  MkTLS (tl_Enable t) (f (tl_CertFile t)) (f (tl_KeyFile t)) (f (tl_CAFile t)) (tl_Insecure t).
Definition map_auth_nats (f : string → string) (n : AuthNATSConfig) : AuthNATSConfig :=
  MkAuthNATS (map f (an_URLs n)) (f (an_Username n)) (f (an_Password n)) (f (an_Token n))
    (f (an_NKeySeedFile n)) (f (an_CredsFile n)) (map_tls f (an_TLS n)).
Definition map_provider (f : string → string) (p : ProviderConfig) : ProviderConfig :=
  MkProviderConfig (f (pv_ID p)) (f (pv_Type p)) (f (pv_KVKey p)) (f (pv_RefreshBefore p)) (f (pv_RefreshEvery p))
    (f (pv_TokenURL p)) (f (pv_ClientID p)) (f (pv_ClientSecret p)) (map f (pv_Scopes p))
    (f (pv_AuthURL p)) (f (pv_Method p)) (f <$> pv_Headers p) (f (pv_Body p)) (f (pv_TokenPath p)).
Definition map_auth_config (f : string → string) (c : AuthConfig) : AuthConfig :=
  MkAuthConfig (map_auth_nats f (ac_NATS c)) (f (ac_Bucket c))
    (MkLog (f (lo_Level (ac_Logging c))) (f (lo_Encoding (ac_Logging c))) (f (lo_OutputPath (ac_Logging c))))
    (MkAuthMetrics (am_Enabled (ac_Metrics c)) (f (am_Address (ac_Metrics c)))) (map (map_provider f) (ac_Providers c)).

Definition nats_strings (n : AuthNATSConfig) : list string :=
  (an_URLs n ++ [an_Username n; an_Password n; an_Token n; an_NKeySeedFile n; an_CredsFile n;
    tl_CertFile (an_TLS n); tl_KeyFile (an_TLS n); tl_CAFile (an_TLS n)])%list.
Definition provider_strings (p : ProviderConfig) : list string :=
  ([pv_ID p; pv_Type p; pv_KVKey p; pv_RefreshBefore p; pv_RefreshEvery p; pv_TokenURL p; pv_ClientID p; pv_ClientSecret p]
    ++ pv_Scopes p ++ [pv_AuthURL p; pv_Method p] ++ map snd (map_to_list (pv_Headers p)) ++ [pv_Body p; pv_TokenPath p])%list.
Definition config_strings (c : AuthConfig) : list string :=
  (nats_strings (ac_NATS c) ++ [ac_Bucket c; lo_Level (ac_Logging c); lo_Encoding (ac_Logging c); lo_OutputPath (ac_Logging c);
    am_Address (ac_Metrics c)] ++ concat (map provider_strings (ac_Providers c)))%list.

(** Each name once, in the order in which it was met. *)
Fixpoint dedup (seen names : list string) : list string :=
  match names with
  | [] => []
  | n :: rest => if mem n seen then dedup seen rest else n :: dedup (n :: seen) rest
  end.

Definition expandEnvVars (c : AuthConfig) : result auth_config_error AuthConfig :=
  let unsetEnvVars := dedup [] (concat (map unset_names (config_strings c))) in
  if (0 <? length unsetEnvVars)%nat then Err (MissingVariables unsetEnvVars) else Ok (map_auth_config expandString c).
End expansion.

(** ** Defaults *)

Definition auth_setDefaults (c : AuthConfig) : AuthConfig :=
  let n := ac_NATS c in
  MkAuthConfig
    (MkAuthNATS (if (length (an_URLs n) =? 0)%nat then ["nats://localhost:4222"] else an_URLs n)
       (an_Username n) (an_Password n) (an_Token n) (an_NKeySeedFile n) (an_CredsFile n) (an_TLS n))
    (or_else (ac_Bucket c) "tokens") (default_log (ac_Logging c))
    (MkAuthMetrics (am_Enabled (ac_Metrics c)) (or_else (am_Address (ac_Metrics c)) ":2113")) (ac_Providers c).

Definition zero_auth_config : AuthConfig :=
  MkAuthConfig (MkAuthNATS [] "" "" "" "" "" (MkTLS false "" "" "" false)) "" (MkLog "" "" "") (MkAuthMetrics false "") [].

(** ** Checks *)

Definition empty_string (s : string) : bool := String.eqb s "".
Definition valid_duration (s : string) : bool := match ParseDuration s with Some _ => true | None => false end.

(** A provider that passes, with its key and its method filled in. *)
Definition fill_provider (p : ProviderConfig) : ProviderConfig :=
  MkProviderConfig (pv_ID p) (pv_Type p) (or_else (pv_KVKey p) (pv_ID p)) (pv_RefreshBefore p) (pv_RefreshEvery p)
    (pv_TokenURL p) (pv_ClientID p) (pv_ClientSecret p) (pv_Scopes p) (pv_AuthURL p)
    (if String.eqb (pv_Type p) "custom-http" then or_else (pv_Method p) "POST" else pv_Method p)
    (pv_Headers p) (pv_Body p) (pv_TokenPath p).

Definition check_provider (i : nat) (seenIDs : list string) (p : ProviderConfig) : result auth_config_error unit :=
  let id := pv_ID p in
  _ ← guard_err (empty_string id) (NoID i);
  _ ← guard_err (mem id seenIDs) (DuplicateID i id);
  _ ← guard_err (negb (String.eqb (pv_Type p) "oauth2") && negb (String.eqb (pv_Type p) "custom-http")) (InvalidType id (pv_Type p));
  if String.eqb (pv_Type p) "oauth2" then
    _ ← guard_err (empty_string (pv_TokenURL p)) (NoTokenURL id);
    _ ← guard_err (empty_string (pv_ClientID p)) (NoClientID id);
    _ ← guard_err (empty_string (pv_ClientSecret p)) (NoClientSecret id);
    _ ← guard_err (empty_string (pv_RefreshBefore p)) (NoRefreshBefore id);
    guard_err (negb (valid_duration (pv_RefreshBefore p))) (BadRefreshBefore id)
  else
    _ ← guard_err (empty_string (pv_AuthURL p)) (NoAuthURL id);
    _ ← guard_err (empty_string (pv_TokenPath p)) (NoTokenPath id);
    _ ← guard_err (empty_string (pv_RefreshEvery p)) (NoRefreshEvery id);
    guard_err (negb (valid_duration (pv_RefreshEvery p))) (BadRefreshEvery id).

Fixpoint check_providers (i : nat) (seenIDs : list string) (ps : list ProviderConfig)
    : result auth_config_error (list ProviderConfig) :=
  match ps with
  | [] => Ok []
  | p :: rest =>
      _ ← check_provider i seenIDs p;
      rest ← check_providers (S i) (pv_ID p :: seenIDs) rest;
      Ok (fill_provider p :: rest)
  end.

Definition auth_methods (n : AuthNATSConfig) : nat :=
  length (List.filter (λ s, negb (empty_string s)) [an_Username n; an_Token n; an_NKeySeedFile n; an_CredsFile n]).

Definition auth_validate (not_exist : string → bool) (c : AuthConfig) : result auth_config_error AuthConfig :=
  let n := ac_NATS c in
  let tls := an_TLS n in
  _ ← guard_err (length (an_URLs n) =? 0)%nat AuthNoURL;
  _ ← guard_err (1 <? auth_methods n)%nat AuthManyMethods;
  _ ← guard_err (length (ac_Providers c) =? 0)%nat NoProvider;
  providers ← check_providers 0 [] (ac_Providers c);
  _ ← guard_err (empty_string (ac_Bucket c)) NoBucket;
  _ ← guard_err (tl_Enable tls && (negb (empty_string (tl_CertFile tls)) && empty_string (tl_KeyFile tls))) AuthNoKeyFile;
  _ ← guard_err (tl_Enable tls && (negb (empty_string (tl_KeyFile tls)) && empty_string (tl_CertFile tls))) AuthNoCertFile;
  _ ← guard_err (negb (empty_string (an_CredsFile n)) && not_exist (an_CredsFile n)) (AuthNoCredsFile (an_CredsFile n));
  Ok (MkAuthConfig n (ac_Bucket c) (ac_Logging c) (ac_Metrics c) providers).

(** ** Loading *)

(** Viper's reading of the file, which fails only with another error than that
    the file was not found, and of its values over the defaults. *)
Class AuthViper := {
  av_ReadInConfig : bool;
  av_Unmarshal : AuthConfig → option AuthConfig;
  av_Getenv : string → string;
  av_IsNotExist : string → bool;
}.

Definition auth_Load `{AuthViper} : result auth_config_error AuthConfig :=
  if negb av_ReadInConfig then Err AuthReadFailed
  else
    match av_Unmarshal (auth_setDefaults zero_auth_config) with
    | None => Err AuthUnmarshalFailed
    | Some c => c ← expandEnvVars av_Getenv c; auth_validate av_IsNotExist c
    end.

(** ** Specification *)

(** A provider that can be made and run. *)
Definition provider_ok (p : ProviderConfig) : Prop :=
  pv_ID p ≠ "" ∧ pv_KVKey p ≠ "" ∧
  ((pv_Type p = "oauth2" ∧ pv_TokenURL p ≠ "" ∧ pv_ClientID p ≠ "" ∧ pv_ClientSecret p ≠ "" ∧
      is_Some (ParseDuration (pv_RefreshBefore p))) ∨
   (pv_Type p = "custom-http" ∧ pv_AuthURL p ≠ "" ∧ pv_Method p ≠ "" ∧ pv_TokenPath p ≠ "" ∧
      is_Some (ParseDuration (pv_RefreshEvery p)))).

Record auth_checked (not_exist : string → bool) (c : AuthConfig) : Prop := {
  ak_urls : an_URLs (ac_NATS c) ≠ [];
  ak_methods : (auth_methods (ac_NATS c) ≤ 1)%nat;
  ak_providers : ac_Providers c ≠ [] ∧ Forall provider_ok (ac_Providers c) ∧ NoDup (map pv_ID (ac_Providers c));
  ak_bucket : ac_Bucket c ≠ "";
  ak_tls : tl_Enable (an_TLS (ac_NATS c)) = true →
    (tl_CertFile (an_TLS (ac_NATS c)) = "" ↔ tl_KeyFile (an_TLS (ac_NATS c)) = "");
  ak_creds : an_CredsFile (ac_NATS c) ≠ "" → not_exist (an_CredsFile (ac_NATS c)) = false;
}.

(** ** Lemmas *)

Lemma guard_err_ok {E} (bad : bool) (e : E) : guard_err bad e = Ok tt ↔ bad = false.
Proof. unfold guard_err. by destruct bad. Qed.

Lemma guard_then {E A} (bad : bool) (e : E) (m : result E A) a :
  (_ ← guard_err bad e; m) = Ok a ↔ bad = false ∧ m = Ok a.
Proof. unfold guard_err. destruct bad; cbn; naive_solver. Qed.

Lemma empty_string_false s : empty_string s = false ↔ s ≠ "".
Proof. apply String.eqb_neq. Qed.

Lemma valid_duration_spec s : negb (valid_duration s) = false ↔ is_Some (ParseDuration s).
Proof. unfold valid_duration. destruct (ParseDuration s); cbn; split; try done; intros []; done. Qed.

Lemma check_provider_ok i seen p : check_provider i seen p = Ok tt →
  provider_ok (fill_provider p) ∧ pv_ID p ∉ seen.
Proof.
  unfold check_provider. rewrite !guard_then, empty_string_false. intros (Hid & Hm & Ht & Hrest).
  split.
  2: { intros Hin. unfold mem in Hm. assert (existsb (String.eqb (pv_ID p)) seen = true) as Hc; [|congruence].
       apply existsb_exists. exists (pv_ID p). split; [by apply list_elem_of_In|apply String.eqb_refl]. }
  unfold provider_ok, fill_provider. cbn [pv_ID pv_KVKey pv_Type pv_TokenURL pv_ClientID pv_ClientSecret pv_RefreshBefore pv_AuthURL pv_Method pv_TokenPath pv_RefreshEvery].
  split_and!; [done|by apply or_else_ne|]. destruct (String.eqb_spec (pv_Type p) "oauth2") as [Ho|Ho].
  - left. rewrite !guard_then, guard_err_ok, !empty_string_false, valid_duration_spec in Hrest. naive_solver.
  - right. cbn [negb andb] in Ht. apply negb_false_iff in Ht. rewrite Ht. apply String.eqb_eq in Ht.
    rewrite !guard_then, guard_err_ok, !empty_string_false, valid_duration_spec in Hrest. destruct Hrest as (? & ? & _ & ?).
    split_and!; [done|done|by apply or_else_ne|done|done].
Qed.

Lemma check_providers_ok i seen ps ps' : check_providers i seen ps = Ok ps' →
  ps' = map fill_provider ps ∧ Forall provider_ok ps' ∧ NoDup (map pv_ID ps') ∧ ∀ id, id ∈ map pv_ID ps' → id ∉ seen.
Proof.
  revert i seen ps'. induction ps as [|p rest IH]; intros i seen ps'; cbn [check_providers].
  { intros [= <-]. split_and!; [done|constructor|constructor|]. by intros id Hid%elem_of_nil. }
  destruct (check_provider i seen p) as [[]|e] eqn:Hp; cbn [mbind result_bind]; [|done].
  destruct (check_providers _ _ rest) as [rest'|e] eqn:Hr; cbn [mbind result_bind]; [|done]. intros [= <-].
  destruct (check_provider_ok _ _ _ Hp) as [Hok Hni]. destruct (IH _ _ _ Hr) as (-> & Hall & Hnd & Hseen).
  cbn [map fill_provider pv_ID]. split_and!; [done|by constructor| |].
  - constructor; [|done]. intros Hin. apply (Hseen _ Hin). by left.
  - intros id [->|Hin]%elem_of_cons; [done|]. intros Hs. apply (Hseen _ Hin). by right.
Qed.

Lemma auth_validate_ok not_exist c c' : auth_validate not_exist c = Ok c' →
  auth_checked not_exist c' ∧ ac_Providers c' = map fill_provider (ac_Providers c) ∧ ac_NATS c' = ac_NATS c ∧ ac_Bucket c' = ac_Bucket c.
Proof.
  unfold auth_validate. rewrite !guard_then. intros (Hu & Hm & Hp & H).
  destruct (check_providers 0 [] (ac_Providers c)) as [ps|e] eqn:Hc; cbn [mbind result_bind] in H; [|done].
  rewrite !guard_then, empty_string_false in H. destruct H as (Hb & Hk & Hf & Hcr & [= <-]).
  destruct (check_providers_ok _ _ _ _ Hc) as (-> & Hall & Hnd & _). split; [|done].
  split; cbn [ac_NATS ac_Providers ac_Bucket].
  - intros Hn. by rewrite Hn in Hu.
  - apply Nat.ltb_ge in Hm. done.
  - split_and!; [|done|done]. intros Hn. apply map_eq_nil in Hn. by rewrite Hn in Hp.
  - done.
  - unfold empty_string in *. intros He. rewrite He in Hk, Hf. cbn [andb] in *.
    destruct (String.eqb_spec (tl_CertFile (an_TLS (ac_NATS c))) ""), (String.eqb_spec (tl_KeyFile (an_TLS (ac_NATS c))) ""); naive_solver.
  - intros Hne. unfold empty_string in Hcr. rewrite (proj2 (String.eqb_neq _ _) Hne) in Hcr. by destruct (not_exist _).
Qed.

Lemma dedup_nil seen names : dedup seen names = [] ↔ ∀ n, n ∈ names → n ∈ seen.
Proof.
  induction names as [|n rest IH]; cbn [dedup]; [split; [by intros _ n Hn%elem_of_nil|done]|].
  assert (mem n seen = true ↔ n ∈ seen) as Hm by apply mem_spec.
  destruct (mem n seen) eqn:E.
  - rewrite IH. assert (n ∈ seen) as Hin by by apply Hm.
    split; [intros H m [->|?]%elem_of_cons; auto|intros H m ?; apply H; by right].
  - split; [done|]. intros H. assert (n ∈ seen) as Hin by (apply H; by left). apply Hm in Hin. congruence.
Qed.

(** ** Loaded configurations *)

Section properties.
Context `{AuthViper}.

(** A configuration that loads can be run, and every variable a string of the
    sources refers to is set, so no reference was replaced by nothing. *)
Lemma auth_Load_sound c : auth_Load = Ok c →
  auth_checked av_IsNotExist c ∧ ∃ raw, av_Unmarshal (auth_setDefaults zero_auth_config) = Some raw ∧
    (∀ s n, s ∈ config_strings raw → n ∈ env_names s → av_Getenv n ≠ "") ∧
    ac_Providers c = map (λ p, fill_provider (map_provider (expandString av_Getenv) p)) (ac_Providers raw).
Proof.
  unfold auth_Load. destruct (negb av_ReadInConfig); [done|]. destruct (av_Unmarshal _) as [raw|]; [|done].
  unfold expandEnvVars. destruct (dedup [] _) as [|n l] eqn:Hd; [|done]. cbn [length Nat.ltb Nat.leb mbind result_bind].
  intros Hv. destruct (auth_validate_ok _ _ _ Hv) as (Hc & Hp & _). split; [done|]. exists raw. split; [done|]. split.
  - intros s n Hs Hn He. apply dedup_nil with (n := n) in Hd; [by apply elem_of_nil in Hd|].
    apply list_elem_of_In, in_concat. exists (unset_names av_Getenv s). split.
    + apply in_map_iff. exists s. split; [done|]. by apply list_elem_of_In.
    + unfold unset_names. apply filter_In. split; [by apply list_elem_of_In|]. by rewrite He.
  - rewrite Hp. cbn. by rewrite map_map.
Qed.

Lemma auth_Load_checked c : auth_Load = Ok c → auth_checked av_IsNotExist c.
Proof. intros Hl. by destruct (auth_Load_sound c Hl). Qed.
End properties.
