(* ===== verification/AuthManager.v ===== *)
(** * The authentication manager (internal/authmgr, cmd/nats-auth-manager)

    The two kinds of provider, one attempt to fetch a token and to store it, the
    refresh loops, one per provider, as turns that a schedule interleaves, and
    the start of the program.  The OAuth2 library, the JSON decoder and the
    bucket are parameters; a panic of one loop is the end of the process, hence
    of every loop. *)

From S2P Require Import Prelude GoStrings GoFloat GoTime Value Types Env Traversal Expand.
From S2P Require Import StreamResolver Net HttpClient Publisher Site Subscription Broker Config KVCache Connection AuthConfig.
Local Open Scope string_scope.

Definition startupJitterMax : Z := 5000.
Definition tokenStoreTimeout : Z := 30 * Second.
Definition minRefreshInterval : Z := 1 * Minute.

(** ** Providers *)

(** [cachedExpiry] is absent when it is the zero time; times are nanoseconds. *)
Record OAuth2Provider := MkOAuth2 {
  oa_id : string; oa_TokenURL : string; oa_ClientID : string; oa_ClientSecret : string; oa_Scopes : list string;
  oa_refreshBuffer : Z; oa_cachedExpiry : option Z;
}.
Record CustomHTTPProvider := MkCustomHTTP {
  ch_id : string; ch_authURL : string; ch_method : string; ch_headers : gmap string string; ch_bodyTemplate : string;
  ch_tokenPath : string; ch_refreshEvery : Z;
}.

(** The interface [Provider] and its implementations. *)
Inductive Provider := OAuth2 (p : OAuth2Provider) | CustomHTTP (p : CustomHTTPProvider).

Definition provider_ID (p : Provider) : string := match p with OAuth2 p => oa_id p | CustomHTTP p => ch_id p end.

Inductive path_error :=
| EmptyTokenPath | TokenKeyNotFound (key : string) (i : nat) | TokenCannotTraverse (typ : string) (i : nat) | TokenNotScalar (typ : string).

Inductive token_error :=
| OAuth2Failed | EmptyAccessToken
| TokenRequestNotCreated | TokenRequestFailed | TokenStatus (code : Z) | TokenNotJSON
| TokenNotExtracted (path : string) (e : path_error) | ExtractedEmpty.

Inductive refresh_error := TokenNotFetched (e : token_error) | TokenNotStored.

(** [extractJSONPath]: the walk, and the text of what it ends at. *)
Fixpoint walk_object (i : nat) (current : value) (parts : list string) : result path_error value :=
  match parts with
  | [] => Ok current
  | part :: rest =>
      match current with
      | VObj m => next ← of_option (TokenKeyNotFound part i) (m !! part); walk_object (S i) next rest
      | _ => Err (TokenCannotTraverse (type_name current) i)
      end
  end.

Definition token_text (v : value) : result path_error string :=
  match v with
  | VStr s => Ok s
  | VFloat f => Ok (FormatFixed f 0)
  | VBool b => Ok (FormatBool b)
  | _ => Err (TokenNotScalar (type_name v))
  end.

Definition extractJSONPath (data : value) (path : string) : result path_error string :=
  if String.eqb path "" then Err EmptyTokenPath
  else current ← walk_object 0 data (Split "." path); token_text current.

(** The identity provider's libraries and the bucket of the tokens. *)
Class AuthNet `{Net} := {
  (** [clientcredentials.Config.Token]: an access token and its expiry *)
  oauth2_Token : GoContext → OAuth2Provider → NWorld → option (string * option Z) * NWorld;
  (** the first value [json.NewDecoder] finds in a body *)
  decode_body : string → option value;
  (** [jetstream.KeyValue.Put]: success *)
  kv_Put : GoContext → string → string → NWorld → bool * NWorld;
}.

Section manager.
Context `{AuthNet}.

(** [OAuth2Provider.Token] *)
Definition oauth2_fetch (ctx : GoContext) (p : OAuth2Provider) : NM (result token_error string * OAuth2Provider) :=
  token ← with_world (oauth2_Token ctx p);
  match token with
  | None => mret (Err OAuth2Failed, p)
  | Some (accessToken, expiry) =>
      if String.eqb accessToken "" then mret (Err EmptyAccessToken, p)
      else mret (Ok accessToken,
        MkOAuth2 (oa_id p) (oa_TokenURL p) (oa_ClientID p) (oa_ClientSecret p) (oa_Scopes p) (oa_refreshBuffer p) expiry)
  end.

(** [CustomHTTPProvider.Token] *)
Definition custom_fetch (ctx : GoContext) (p : CustomHTTPProvider) : NM (result token_error string) :=
  let m := request_method (ch_method p) in
  if negb (sforall header_byte m) || negb (url_Parse (ch_authURL p)) then mret (Err TokenRequestNotCreated)
  else
    headers ← with_world (range_order (map_to_list (ch_headers p)));
    let req := MkRequest m (ch_authURL p) (set_headers headers) (ch_bodyTemplate p) in
    resp ← with_world (client_Do ctx req);
    _ ← emit_event (EvRequest req resp);
    match resp with
    | None => mret (Err TokenRequestFailed)
    | Some resp =>
        if ((rs_StatusCode resp <? 200) || (300 <=? rs_StatusCode resp))%Z then mret (Err (TokenStatus (rs_StatusCode resp)))
        else
          match decode_body (rs_Body resp) with
          | None => mret (Err TokenNotJSON)
          | Some doc =>
              match extractJSONPath doc (ch_tokenPath p) with
              | Err e => mret (Err (TokenNotExtracted (ch_tokenPath p) e))
              | Ok token => if String.eqb token "" then mret (Err ExtractedEmpty) else mret (Ok token)
              end
          end
    end.

Definition Token (ctx : GoContext) (p : Provider) : NM (result token_error string * Provider) :=
  match p with
  | OAuth2 p => '(r, p) ← oauth2_fetch ctx p; mret (r, OAuth2 p)
  | CustomHTTP p => r ← custom_fetch ctx p; mret (r, CustomHTTP p)
  end.

(** [time.Until] saturates, the subtraction wraps around. *)
Definition oauth2_interval (refreshBuffer expiry now : Z) : Z :=
  let refreshInterval := wrap64 (sat64 (expiry - now) - refreshBuffer) in
  if (refreshInterval <? minRefreshInterval)%Z then minRefreshInterval else refreshInterval.

Definition RefreshInterval (p : Provider) : NM Z :=
  match p with
  | OAuth2 p =>
      match oa_cachedExpiry p with
      | Some expiry => w ← getN; mret (oauth2_interval (oa_refreshBuffer p) expiry (net_Now w))
      | None => mret (oa_refreshBuffer p)
      end
  | CustomHTTP p => mret (ch_refreshEvery p)
  end.

Definition StoreToken (ctx : GoContext) (key token : string) : NM bool :=
  ok ← with_world (kv_Put ctx key token);
  _ ← emit_event (EvStore key token ok);
  mret ok.

Definition authenticate (mctx : GoContext) (p : Provider) : NM (result refresh_error unit * Provider) :=
  w ← getN;
  let ctx := context_WithTimeout mctx tokenStoreTimeout w in
  '(token, p) ← Token ctx p;
  match token with
  | Err e => mret (Err (TokenNotFetched e), p)
  | Ok token =>
      ok ← StoreToken ctx (provider_ID p) token;
      if (ok : bool) then mret (Ok tt, p) else mret (Err TokenNotStored, p)
  end.

(** ** The loops *)

(** Where the goroutine of a provider stands: before its jitter, at the [select]
    with a ticker of an interval, or returned. *)
Inductive loop_state := NotStarted (p : Provider) | Ticking (p : Provider) (interval : Z) | LoopStopped (p : Provider).

(** [time.NewTicker] and [Ticker.Reset] panic when the interval is not positive:
    [None]. *)
Definition set_ticker (p : Provider) (interval : Z) : option loop_state :=
  if (interval <=? 0)%Z then None else Some (Ticking p interval).

(** What a goroutine does until its next [select] on the ticker. *)
Definition loop_turn (mctx : GoContext) (s : loop_state) : NM (option loop_state) :=
  match s with
  | NotStarted p =>
      n ← with_world (rand_Intn startupJitterMax);
      let jitter := (n * Millisecond)%Z in
      _ ← emit_event (EvWait jitter);
      cancelled ← with_world (select_After mctx jitter);
      if (cancelled : bool) then mret (Some (LoopStopped p))
      else
        '(_, p) ← authenticate mctx p;
        interval ← RefreshInterval p;
        mret (set_ticker p interval)
  | Ticking p interval =>
      _ ← emit_event (EvWait interval);
      cancelled ← with_world (select_After mctx interval);
      if (cancelled : bool) then mret (Some (LoopStopped p))
      else
        '(r, p) ← authenticate mctx p;
        match r with
        | Err _ => mret (Some (Ticking p interval))
        | Ok _ =>
            newInterval ← RefreshInterval p;
            mret (if (newInterval =? interval)%Z then Some (Ticking p interval) else set_ticker p newInterval)
        end
  | LoopStopped p => mret (Some (LoopStopped p))
  end.

(** [Manager.Start]: one goroutine per provider. *)
Definition manager_Start (ps : list Provider) : list loop_state := map NotStarted ps.

(** A run: the turns of the loops in the order of a schedule, [None] when the
    process has panicked. *)
Definition manager_turn (mctx : GoContext) (i : nat) (loops : list loop_state) : NM (option (list loop_state)) :=
  match loops !! i with
  | None => mret (Some loops)
  | Some s => s' ← loop_turn mctx s; mret ((λ s', <[i := s']> loops) <$> s')
  end.

Fixpoint manager_run (mctx : GoContext) (schedule : list nat) (loops : list loop_state) : NM (option (list loop_state)) :=
  match schedule with
  | [] => mret (Some loops)
  | i :: rest =>
      loops ← manager_turn mctx i loops;
      match loops with Some loops => manager_run mctx rest loops | None => mret None end
  end.
End manager.

(** ** The program *)

Inductive auth_start_error :=
| AuthConfigRejected (e : auth_config_error) | AuthNotConnected | AuthNoJetStream
| AuthOptionsFailed (e : connection_error) | AuthBucketNotFound (name : string) | AuthBucketFailed (name : string)
| UnknownProviderType (typ : string) | ProviderDuration (id : string).

(** [NewNATSClient]: its credential and TLS options are made as the broker makes
    its own. *)
Definition to_nats_config (n : AuthNATSConfig) : NATSConfig :=
  let z := cf_NATS zero_config in
  MkNATS (an_URLs n) (an_Username n) (an_Password n) (an_Token n) (an_NKeySeedFile n) (an_CredsFile n)
    (an_TLS n) (na_Consumers z) (na_Connection z) (na_Publish z).

Record auth_env := MkAuthEnv {
  ae_seed_ok : string → bool; ae_cert_ok : string → string → bool;
  ae_Connect : string → list nats_option → bool; ae_jetStream : bool; ae_KeyValue : string → kv_open;
}.

Definition natsReconnectWait : Z := 50 * Millisecond.

Definition auth_buildNATSOptions (e : auth_env) (n : AuthNATSConfig) : result connection_error (list nats_option) :=
  with_credentials [DisconnectErrHandler; ReconnectHandler; ClosedHandler; ErrorHandler; MaxReconnects (-1);
                    ReconnectWait natsReconnectWait]
    (ae_seed_ok e) (ae_cert_ok e) (to_nats_config n).

Definition NewNATSClient (e : auth_env) (c : AuthConfig) : result auth_start_error unit :=
  match auth_buildNATSOptions e (ac_NATS c) with
  | Err err => Err (AuthOptionsFailed err)
  | Ok opts =>
      _ ← guard_err (negb (ae_Connect e (String.concat "," (an_URLs (ac_NATS c))) opts)) AuthNotConnected;
      _ ← guard_err (negb (ae_jetStream e)) AuthNoJetStream;
      match ae_KeyValue e (ac_Bucket c) with
      | KVOpened => Ok tt
      | KVNotFound => Err (AuthBucketNotFound (ac_Bucket c))
      | KVFailed => Err (AuthBucketFailed (ac_Bucket c))
      end
  end.

Definition createProvider (cfg : ProviderConfig) : result auth_start_error Provider :=
  if String.eqb (pv_Type cfg) "oauth2" then
    refreshBefore ← of_option (ProviderDuration (pv_ID cfg)) (ParseDuration (pv_RefreshBefore cfg));
    Ok (OAuth2 (MkOAuth2 (pv_KVKey cfg) (pv_TokenURL cfg) (pv_ClientID cfg) (pv_ClientSecret cfg) (pv_Scopes cfg) refreshBefore None))
  else if String.eqb (pv_Type cfg) "custom-http" then
    refreshEvery ← of_option (ProviderDuration (pv_ID cfg)) (ParseDuration (pv_RefreshEvery cfg));
    Ok (CustomHTTP (MkCustomHTTP (pv_KVKey cfg) (pv_AuthURL cfg) (pv_Method cfg) (pv_Headers cfg) (pv_Body cfg) (pv_TokenPath cfg) refreshEvery))
  else Err (UnknownProviderType (pv_Type cfg)).

Fixpoint createProviders (configs : list ProviderConfig) : result auth_start_error (list Provider) :=
  match configs with
  | [] => Ok []
  | cfg :: rest => p ← createProvider cfg; ps ← createProviders rest; Ok (p :: ps)
  end.

(** The loops that [run] has started, and the identity it then registers: the
    keys of its tokens. *)
Definition auth_run `{AuthViper} (e : auth_env) : result auth_start_error (list loop_state * list string) :=
  match auth_Load with
  | Err err => Err (AuthConfigRejected err)
  | Ok cfg =>
      _ ← NewNATSClient e cfg;
      ps ← createProviders (ac_Providers cfg);
      Ok (manager_Start ps, map provider_ID ps)
  end.

(** ** Specification *)

(** A provider less what it learns while it runs. *)
Definition base (p : Provider) : Provider :=
  match p with
  | OAuth2 p => OAuth2 (MkOAuth2 (oa_id p) (oa_TokenURL p) (oa_ClientID p) (oa_ClientSecret p) (oa_Scopes p) (oa_refreshBuffer p) None)
  | p => p
  end.

(** The duration it is configured with. *)
Definition configured_interval (p : Provider) : Z :=
  match p with OAuth2 p => oa_refreshBuffer p | CustomHTTP p => ch_refreshEvery p end.

Definition interval_ok (p : Provider) (d : Z) : Prop :=
  d = configured_interval p ∨ match p with OAuth2 _ => (minRefreshInterval ≤ d)%Z | CustomHTTP _ => False end.

Definition loop_provider (s : loop_state) : Provider := match s with NotStarted p | Ticking p _ | LoopStopped p => p end.

Definition loop_ok (p0 : Provider) (s : loop_state) : Prop :=
  base (loop_provider s) = base p0 ∧
  match s with Ticking p d => (0 < d)%Z ∧ interval_ok p d | _ => True end.

(** The request of a provider is the one it is configured with. *)
Definition asks (p : CustomHTTPProvider) (req : http_request) : Prop :=
  rq_Method req = request_method (ch_method p) ∧ rq_URL req = ch_authURL p ∧ rq_Body req = ch_bodyTemplate p ∧
  (∀ k v, rq_Header req !! k = Some v → ∃ k', ch_headers p !! k' = Some v ∧ CanonicalMIMEHeaderKey k' = k) ∧
  (∀ k, is_Some (ch_headers p !! k) → is_Some (rq_Header req !! CanonicalMIMEHeaderKey k)).

(** A provider that has learnt when its token ends. *)
Definition with_expiry (p : OAuth2Provider) (expiry : option Z) : OAuth2Provider :=
  MkOAuth2 (oa_id p) (oa_TokenURL p) (oa_ClientID p) (oa_ClientSecret p) (oa_Scopes p) (oa_refreshBuffer p) expiry.

Section specification.
Context `{AuthNet}.

(** The token a reply holds. *)
Definition reply_token (p : CustomHTTPProvider) (resp : option http_response) (token : string) : Prop :=
  token ≠ "" ∧ ∃ rs doc, resp = Some rs ∧ succeeded resp = true ∧ decode_body (rs_Body rs) = Some doc ∧
    extractJSONPath doc (ch_tokenPath p) = Ok token.

(** What a provider fetches in a world, and what it learns: the reply of the
    OAuth2 library, unless the token is empty; or the token in the reply to its
    request, unless that cannot be sent. *)
Inductive fetched (ctx : GoContext) : Provider → NWorld → result token_error string → Provider → list net_event → NWorld → Prop :=
| oauth2_replied p w token expiry w' :
    oauth2_Token ctx p w = (Some (token, expiry), w') → token ≠ "" →
    fetched ctx (OAuth2 p) w (Ok token) (OAuth2 (with_expiry p expiry)) [] w'
| oauth2_empty p w expiry w' :
    oauth2_Token ctx p w = (Some ("", expiry), w') → fetched ctx (OAuth2 p) w (Err EmptyAccessToken) (OAuth2 p) [] w'
| oauth2_failed p w w' :
    oauth2_Token ctx p w = (None, w') → fetched ctx (OAuth2 p) w (Err OAuth2Failed) (OAuth2 p) [] w'
| custom_not_sent p w :
    sforall header_byte (request_method (ch_method p)) = false ∨ url_Parse (ch_authURL p) = false →
    fetched ctx (CustomHTTP p) w (Err TokenRequestNotCreated) (CustomHTTP p) [] w
| custom_replied p w w1 req resp w' r :
    w1 = (range_order (map_to_list (ch_headers p)) w).2 → asks p req → client_Do ctx req w1 = (resp, w') →
    match r with Ok token => reply_token p resp token | Err _ => ∀ token, ¬ reply_token p resp token end →
    fetched ctx (CustomHTTP p) w r (CustomHTTP p) [EvRequest req resp] w'.

(** One attempt: what was fetched is stored under the provider's key, and nothing
    else is. *)
Inductive attempted (mctx : GoContext) (p : Provider) (w : NWorld) :
    result refresh_error unit → Provider → list net_event → NWorld → Prop :=
| attempt_failed e p' evs w' :
    fetched (context_WithTimeout mctx tokenStoreTimeout w) p w (Err e) p' evs w' →
    attempted mctx p w (Err (TokenNotFetched e)) p' evs w'
| attempt_stored token p' evs w1 ok w' :
    fetched (context_WithTimeout mctx tokenStoreTimeout w) p w (Ok token) p' evs w1 →
    kv_Put (context_WithTimeout mctx tokenStoreTimeout w) (provider_ID p) token w1 = (ok, w') →
    attempted mctx p w (if ok then Ok tt else Err TokenNotStored) p' (evs ++ [EvStore (provider_ID p) token ok]) w'.

(** The time to the next attempt: the configured one, or what the expiry leaves,
    a minute at least. *)
Definition next_interval (p : Provider) (w : NWorld) : Z :=
  match p with
  | OAuth2 p => match oa_cachedExpiry p with
                | Some expiry => oauth2_interval (oa_refreshBuffer p) expiry (net_Now w)
                | None => oa_refreshBuffer p
                end
  | CustomHTTP p => ch_refreshEvery p
  end.

(** A turn of a loop, from where it stands to where it stands then: the first one
    waits for a random time, the others for the interval of the ticker; unless the
    wait is cut short an attempt follows it; the interval is set by the first
    attempt and by those that succeed, and kept by those that fail. *)
Inductive turn (mctx : GoContext) : loop_state → NWorld → list net_event → option loop_state → NWorld → Prop :=
| turn_returned p w : turn mctx (LoopStopped p) w [] (Some (LoopStopped p)) w
| turn_first p w n w1 w2 r p' evs w' :
    rand_Intn startupJitterMax w = (n, w1) → select_After mctx (n * Millisecond) w1 = (false, w2) →
    attempted mctx p w2 r p' evs w' →
    turn mctx (NotStarted p) w (EvWait (n * Millisecond) :: evs) (set_ticker p' (next_interval p' w')) w'
| turn_first_cancelled p w n w1 w' :
    rand_Intn startupJitterMax w = (n, w1) → select_After mctx (n * Millisecond) w1 = (true, w') →
    turn mctx (NotStarted p) w [EvWait (n * Millisecond)] (Some (LoopStopped p)) w'
| turn_refreshed p d w w1 p' evs w' :
    select_After mctx d w = (false, w1) → attempted mctx p w1 (Ok tt) p' evs w' →
    turn mctx (Ticking p d) w (EvWait d :: evs)
      (if (next_interval p' w' =? d)%Z then Some (Ticking p' d) else set_ticker p' (next_interval p' w')) w'
| turn_failed p d w w1 e p' evs w' :
    select_After mctx d w = (false, w1) → attempted mctx p w1 (Err e) p' evs w' →
    turn mctx (Ticking p d) w (EvWait d :: evs) (Some (Ticking p' d)) w'
| turn_cancelled p d w w' :
    select_After mctx d w = (true, w') → turn mctx (Ticking p d) w [EvWait d] (Some (LoopStopped p)) w'.

(** Turns of the loops a schedule names, one after the other, up to a panic. *)
Inductive turns (mctx : GoContext) : list nat → list loop_state → NWorld → list net_event → option (list loop_state) → NWorld → Prop :=
| turns_done loops w : turns mctx [] loops w [] (Some loops) w
| turns_none i rest loops w evs r w' :
    loops !! i = None → turns mctx rest loops w evs r w' → turns mctx (i :: rest) loops w evs r w'
| turns_next i rest loops s w evs s' w1 evs' r w' :
    loops !! i = Some s → turn mctx s w evs (Some s') w1 → turns mctx rest (<[i := s']> loops) w1 evs' r w' →
    turns mctx (i :: rest) loops w (evs ++ evs') r w'
| turns_panic i rest loops s w evs w' :
    loops !! i = Some s → turn mctx s w evs None w' → turns mctx (i :: rest) loops w evs None w'.
End specification.

(** ** Lemmas *)

Lemma base_ID p : provider_ID (base p) = provider_ID p.
Proof. by destruct p. Qed.

Lemma base_interval p : configured_interval (base p) = configured_interval p.
Proof. by destruct p. Qed.

Lemma oauth2_interval_min buffer expiry now : (minRefreshInterval ≤ oauth2_interval buffer expiry now)%Z.
Proof. unfold oauth2_interval. destruct (Z.ltb_spec (wrap64 (sat64 (expiry - now) - buffer)) minRefreshInterval); lia. Qed.

(** When a minute or more is left before the buffer, the next attempt falls
    exactly at the start of the buffer. *)
Lemma oauth2_interval_exact buffer expiry now :
  (0 ≤ buffer)%Z → (buffer + minRefreshInterval ≤ expiry - now ≤ int64_max)%Z →
  (now + oauth2_interval buffer expiry now = expiry - buffer)%Z.
Proof.
  intros Hb He. unfold oauth2_interval, minRefreshInterval in *.
  assert (sat64 (expiry - now) = (expiry - now)%Z) as ->.
  { unfold sat64, int64_min, int64_max, Minute, Second in *. lia. }
  rewrite wrap64_id.
  - destruct (Z.ltb_spec (expiry - now - buffer) (1 * Minute)); lia.
  - apply in_int64_spec. unfold int64_min, int64_max, Minute, Second in *. lia.
Qed.

Section lemmas.
Context `{AuthNet}.

Lemma asks_set p headers : headers ≡ₚ map_to_list (ch_headers p) →
  asks p (MkRequest (request_method (ch_method p)) (ch_authURL p) (set_headers headers) (ch_bodyTemplate p)).
Proof.
  intros Hp. split_and!; try done.
  - intros k v Hk. apply set_headers_from in Hk as [Hk|(k' & Hin & ?)]; [by rewrite lookup_empty in Hk|].
    exists k'. split; [|done]. by rewrite Hp, elem_of_map_to_list in Hin.
  - intros k [v Hk]. apply set_headers_sent. right. exists k, v. by rewrite Hp, elem_of_map_to_list.
Qed.

Lemma custom_fetch_spec ctx p w :
  runs w (custom_fetch ctx p) (λ r evs w', fetched ctx (CustomHTTP p) w r (CustomHTTP p) evs w').
Proof.
  unfold custom_fetch. destruct (_ || _) eqn:Hsend.
  { apply runs_ret, custom_not_sent. apply orb_true_iff in Hsend as [?%negb_true_iff|?%negb_true_iff]; auto. }
  destruct (range_order (map_to_list (ch_headers p)) w) as [headers w1] eqn:Hh.
  eapply runs_bind; [by eapply (runs_world _ _ _ _ (λ a evs w', a = headers ∧ evs = [] ∧ w' = w1))|].
  intros ? ? ? (-> & -> & ->).
  assert (headers ≡ₚ map_to_list (ch_headers p)) as Hperm.
  { change headers with (headers, w1).1. rewrite <- Hh. apply range_order_perm. }
  pose proof (asks_set p headers Hperm) as Hasks. set (req := MkRequest _ _ _ _) in *. cbv zeta.
  destruct (client_Do ctx req w1) as [resp w2] eqn:Hd.
  eapply runs_bind; [by eapply (runs_world _ _ _ _ (λ a evs w', a = resp ∧ evs = [] ∧ w' = w2))|].
  intros ? ? ? (-> & -> & ->).
  eapply runs_bind; [by apply (runs_emit _ _ (λ _ evs w', evs = [EvRequest req resp] ∧ w' = w2))|].
  intros [] ? ? (-> & ->). cbn [app].
  assert (∀ r, match r with Ok token => reply_token p resp token | Err _ => ∀ token, ¬ reply_token p resp token end →
    runs w2 (mret r) (λ r evs w', fetched ctx (CustomHTTP p) w r (CustomHTTP p) (EvRequest req resp :: evs) w')) as Hret.
  { intros r Hr. apply runs_ret. eapply custom_replied; [|done|exact Hd|done]. by rewrite Hh. }
  destruct resp as [rs|]; [|apply Hret; by intros ? (_ & ? & ? & ? & _)].
  clear Hsend. destruct ((rs_StatusCode rs <? 200) || (300 <=? rs_StatusCode rs))%Z eqn:Hs.
  { apply Hret. intros token (_ & rs' & doc & [= <-] & Hok & _). unfold succeeded in Hok.
    apply andb_true_iff in Hok as [?%Z.leb_le ?%Z.ltb_lt]. apply orb_true_iff in Hs as [?%Z.ltb_lt|?%Z.leb_le]; lia. }
  apply orb_false_iff in Hs as [Hlo%Z.ltb_ge Hhi%Z.leb_gt].
  destruct (decode_body (rs_Body rs)) as [doc|] eqn:Hdec; [|apply Hret; intros ? (_ & ? & ? & [= <-] & _ & ? & _); congruence].
  destruct (extractJSONPath doc (ch_tokenPath p)) as [token|e] eqn:Ht;
    [|apply Hret; intros ? (_ & ? & ? & [= <-] & _ & ? & ?); congruence].
  destruct (String.eqb_spec token "") as [->|Hne];
    [apply Hret; intros ? (? & ? & ? & [= <-] & _ & ? & ?); congruence|].
  apply Hret. split; [done|]. exists rs, doc. split_and!; try done. unfold succeeded.
  apply andb_true_iff. split; [by apply Z.leb_le|by apply Z.ltb_lt].
Qed.

Lemma oauth2_fetch_spec ctx p w :
  runs w (oauth2_fetch ctx p) (λ rp evs w', fetched ctx (OAuth2 p) w rp.1 (OAuth2 rp.2) evs w').
Proof.
  unfold oauth2_fetch. destruct (oauth2_Token ctx p w) as [token w1] eqn:Ht.
  eapply runs_bind; [by eapply (runs_world _ _ _ _ (λ a evs w', a = token ∧ evs = [] ∧ w' = w1))|].
  intros ? ? ? (-> & -> & ->). destruct token as [[accessToken expiry]|].
  - destruct (String.eqb_spec accessToken "") as [->|Hne]; apply runs_ret; [by eapply oauth2_empty|by eapply oauth2_replied].
  - by apply runs_ret, oauth2_failed.
Qed.

Lemma Token_spec ctx p w : runs w (Token ctx p) (λ rp evs w', fetched ctx p w rp.1 rp.2 evs w').
Proof.
  destruct p as [p|p]; cbn [Token].
  - eapply runs_bind; [apply oauth2_fetch_spec|]. intros [r p'] evs w' Hf. apply runs_ret. by rewrite app_nil_r.
  - eapply runs_bind; [apply custom_fetch_spec|]. intros r evs w' Hf. apply runs_ret. by rewrite app_nil_r.
Qed.

(** Fetching leaves a provider as it is configured. *)
Lemma fetched_base ctx p w r p' evs w' : fetched ctx p w r p' evs w' → base p' = base p.
Proof. by destruct 1. Qed.

Lemma attempt_base mctx p w r p' evs w' : attempted mctx p w r p' evs w' → base p' = base p.
Proof. by destruct 1 as [???? ?%fetched_base|?????? ?%fetched_base]. Qed.

Lemma authenticate_spec mctx p w :
  runs w (authenticate mctx p) (λ rp evs w', attempted mctx p w rp.1 rp.2 evs w').
Proof.
  unfold authenticate. eapply runs_bind; [by apply (runs_get _ (λ a evs w', a = w ∧ evs = [] ∧ w' = w))|].
  intros ? ? ? (-> & -> & ->). eapply runs_bind; [apply Token_spec|]. intros [t p'] evs w1 Hf. cbn [fst snd] in Hf.
  assert (provider_ID p' = provider_ID p) as Hid by (rewrite <- (base_ID p'), <- (base_ID p); f_equal; by eapply fetched_base).
  destruct t as [token|e].
  2: { apply runs_ret. cbn. rewrite app_nil_r. by apply attempt_failed. }
  unfold StoreToken. rewrite Hid.
  destruct (kv_Put (context_WithTimeout mctx tokenStoreTimeout w) (provider_ID p) token w1) as [ok w2] eqn:Hk.
  eapply (runs_bind _ _ _ (λ a evs w', a = ok ∧ evs = [EvStore (provider_ID p) token ok] ∧ w' = w2)).
  - eapply runs_bind; [by eapply (runs_world _ _ _ _ (λ a evs w', a = ok ∧ evs = [] ∧ w' = w2))|].
    intros ? ? ? (-> & -> & ->). eapply runs_bind; [by apply (runs_emit _ _ (λ _ evs w', evs = [EvStore (provider_ID p) token ok] ∧ w' = w2))|].
    intros [] ? ? (-> & ->). by apply runs_ret.
  - intros ? ? ? (-> & -> & ->). pose proof (attempt_stored mctx p w token p' evs w1 ok w2 Hf Hk) as Ha.
    destruct ok; by apply runs_ret.
Qed.

Lemma RefreshInterval_spec p w : runs w (RefreshInterval p) (λ d evs w', d = next_interval p w ∧ evs = [] ∧ w' = w).
Proof.
  destruct p as [p|p]; cbn [RefreshInterval next_interval]; [|by apply runs_ret].
  destruct (oa_cachedExpiry p) as [expiry|]; [|by apply runs_ret].
  eapply runs_bind; [by apply (runs_get _ (λ a evs w', a = w ∧ evs = [] ∧ w' = w))|].
  intros ? ? ? (-> & -> & ->). by apply runs_ret.
Qed.

Lemma next_interval_ok p w : interval_ok p (next_interval p w).
Proof.
  unfold interval_ok, next_interval. destruct p as [p|p]; [|by left]. destruct (oa_cachedExpiry p); [|by left].
  right. apply oauth2_interval_min.
Qed.

Lemma set_ticker_spec p0 p d : base p = base p0 → interval_ok p d →
  match set_ticker p d with Some s => loop_ok p0 s | None => (configured_interval p0 ≤ 0)%Z end.
Proof.
  intros Hb Hd. unfold set_ticker. destruct (Z.leb_spec d 0) as [Hle|Hlt]; [|done].
  rewrite <- base_interval, <- Hb, base_interval. destruct Hd as [->|Hd]; [done|].
  destruct p; [unfold minRefreshInterval, Minute, Second in Hd; lia|done].
Qed.

Lemma loop_turn_spec mctx s w : runs w (loop_turn mctx s) (λ s' evs w', turn mctx s w evs s' w').
Proof.
  destruct s as [p|p d|p]; cbn [loop_turn]; [| |by apply runs_ret, turn_returned].
  - destruct (rand_Intn startupJitterMax w) as [n w1] eqn:Hn.
    eapply runs_bind; [by eapply (runs_world _ _ _ _ (λ a evs w', a = n ∧ evs = [] ∧ w' = w1))|].
    intros ? ? ? (-> & -> & ->). cbv zeta.
    eapply runs_bind; [by apply (runs_emit _ _ (λ _ evs w', evs = [EvWait (n * Millisecond)] ∧ w' = w1))|].
    intros [] ? ? (-> & ->). destruct (select_After mctx (n * Millisecond) w1) as [c w2] eqn:Hc.
    eapply runs_bind; [by eapply (runs_world _ _ _ _ (λ a evs w', a = c ∧ evs = [] ∧ w' = w2))|].
    intros ? ? ? (-> & -> & ->). destruct c; [apply runs_ret; by eapply turn_first_cancelled|].
    eapply runs_bind; [apply authenticate_spec|]. intros [r p'] evs w' Ha. cbn [fst snd] in Ha.
    eapply runs_bind; [apply RefreshInterval_spec|]. intros ? ? ? (-> & -> & ->). apply runs_ret.
    cbn [app]. rewrite app_nil_r. by eapply turn_first.
  - eapply runs_bind; [by apply (runs_emit _ _ (λ _ evs w', evs = [EvWait d] ∧ w' = w))|].
    intros [] ? ? (-> & ->). destruct (select_After mctx d w) as [c w1] eqn:Hc.
    eapply runs_bind; [by eapply (runs_world _ _ _ _ (λ a evs w', a = c ∧ evs = [] ∧ w' = w1))|].
    intros ? ? ? (-> & -> & ->). destruct c; [apply runs_ret; by eapply turn_cancelled|].
    eapply runs_bind; [apply authenticate_spec|]. intros [r p'] evs w' Ha. cbn [fst snd] in Ha. destruct r as [[]|e].
    + eapply runs_bind; [apply RefreshInterval_spec|]. intros ? ? ? (-> & -> & ->). apply runs_ret.
      cbn [app]. rewrite app_nil_r. by eapply turn_refreshed.
    + apply runs_ret. cbn [app]. rewrite app_nil_r. by eapply turn_failed.
Qed.

(** A run is the turns of its schedule. *)
Lemma manager_run_spec mctx schedule loops w :
  runs w (manager_run mctx schedule loops) (λ r evs w', turns mctx schedule loops w evs r w').
Proof.
  revert loops w. induction schedule as [|i rest IH]; intros loops w; cbn [manager_run]; [apply runs_ret, turns_done|].
  unfold manager_turn. destruct (loops !! i) as [s|] eqn:Hi.
  - eapply (runs_bind _ _ _ (λ r evs w', ∃ s', turn mctx s w evs s' w' ∧ r = (λ s', <[i := s']> loops) <$> s')).
    { eapply runs_bind; [apply loop_turn_spec|]. intros s' evs w' Ht. apply runs_ret. rewrite app_nil_r. by exists s'. }
    intros ? evs w' (s' & Ht & ->). destruct s' as [s'|]; cbn [fmap option_fmap option_map].
    + eapply runs_weaken; [apply IH|]. cbn. intros r evs' w'' Hr. by eapply turns_next.
    + apply runs_ret. rewrite app_nil_r. by eapply turns_panic.
  - eapply runs_bind; [by apply (runs_ret _ _ (λ a evs w', a = Some loops ∧ evs = [] ∧ w' = w))|].
    intros ? ? ? (-> & -> & ->). eapply runs_weaken; [apply IH|]. cbn. intros r evs' w'' Hr. by eapply turns_none.
Qed.

(** Where a loop stands after a turn; its interval is not changed by an attempt
    that failed. *)
Lemma turn_loop_ok mctx p0 s w evs s' w' : loop_ok p0 s → turn mctx s w evs s' w' →
  match s' with Some s' => loop_ok p0 s' | None => (configured_interval p0 ≤ 0)%Z end.
Proof.
  intros [Hb Hs]. destruct 1 as [p|p w n w1 w2 r p' evs w' _ _ Ha|p|p d w w1 p' evs w' _ Ha|p d w w1 e p' evs w' _ Ha|p d];
    cbn [loop_provider] in Hb; try done; apply attempt_base in Ha.
  - apply set_ticker_spec; [congruence|apply next_interval_ok].
  - destruct (Z.eqb_spec (next_interval p' w') d) as [<-|]; [|apply set_ticker_spec; [congruence|apply next_interval_ok]].
    split; [cbn; congruence|]. split; [apply Hs|apply next_interval_ok].
  - split; [cbn; congruence|]. destruct Hs as [Hd Hi]. split; [done|]. revert Hi. unfold interval_ok.
    rewrite <- (base_interval p), <- Ha, base_interval. by destruct p, p'.
Qed.

Lemma turns_loops_ok mctx ps schedule loops w evs r w' : Forall2 loop_ok ps loops → turns mctx schedule loops w evs r w' →
  match r with
  | Some loops' => Forall2 loop_ok ps loops'
  | None => ∃ p, p ∈ ps ∧ (configured_interval p ≤ 0)%Z
  end.
Proof.
  intros Hl Ht. induction Ht as [|? ? ? ? ? ? ? ? _ IH|i rest loops s w evs s' w1 evs' r w' Hi Ht _ IH|i rest loops s w evs w' Hi Ht];
    [done|by apply IH| |]; destruct (Forall2_lookup_r _ _ _ _ _ Hl Hi) as (p0 & Hp0 & Hs);
    pose proof (turn_loop_ok _ _ _ _ _ _ _ Hs Ht) as Hs'.
  - apply IH. rewrite <- (list_insert_id ps i p0 Hp0). by apply Forall2_insert.
  - exists p0. split; [by eapply list_elem_of_lookup_2|done].
Qed.
End lemmas.

(** Where a token path has no empty segment, what it finds is what a rule would
    find at that path in the reply. *)
Lemma walk_object_traverses i current parts v :
  Forall (λ part, part ≠ "") parts → walk_object i current parts = Ok v → traverse_from i current parts = Ok v.
Proof.
  intros Hp. revert i current. induction Hp as [|part rest Hne _ IH]; intros i current; cbn [walk_object traverse_from]; [by intros [= ->]|].
  destruct current; try done. rewrite (proj2 (String.eqb_neq _ _) Hne). cbn [traverseSegment].
  destruct (m !! part) as [next|]; cbn [of_option mbind result_bind]; [apply IH|done].
Qed.

Lemma extractJSONPath_traverses data path token :
  Forall (λ part, part ≠ "") (Split "." path) → extractJSONPath data path = Ok token →
  ∃ v, TraversePathString data path = Ok v ∧ token_text v = Ok token.
Proof.
  intros Hp. unfold extractJSONPath, TraversePathString. destruct (String.eqb path ""); [done|].
  destruct (walk_object 0 data (Split "." path)) as [v|e] eqn:Hw; cbn [mbind result_bind]; [|done].
  intros Ht. exists v. split; [by apply walk_object_traverses|done].
Qed.

(** The duration a provider needs, by its kind. *)
Definition duration_setting (pc : ProviderConfig) : string :=
  if String.eqb (pv_Type pc) "oauth2" then pv_RefreshBefore pc else pv_RefreshEvery pc.

Lemma createProvider_total pc : provider_ok pc → ∃ p, createProvider pc = Ok p ∧ provider_ID p = pv_KVKey pc ∧
  ParseDuration (duration_setting pc) = Some (configured_interval p).
Proof.
  intros (_ & _ & [(Ht & _ & _ & _ & [d Hd])|(Ht & _ & _ & _ & [d Hd])]); unfold createProvider, duration_setting; rewrite Ht; cbn; rewrite Hd; eauto.
Qed.

(** What the checks accept, the program can make. *)
Lemma createProviders_total configs : Forall provider_ok configs → ∃ ps, createProviders configs = Ok ps ∧
  map provider_ID ps = map pv_KVKey configs ∧
  Forall2 (λ pc p, createProvider pc = Ok p ∧ ParseDuration (duration_setting pc) = Some (configured_interval p)) configs ps.
Proof.
  induction 1 as [|pc rest Hp _ (ps & Hps & Hk & Hall)]; [by exists []|].
  destruct (createProvider_total _ Hp) as (p & Hc & Hid & Hd). exists (p :: ps). cbn [createProviders map].
  rewrite Hc. cbn. rewrite Hps. cbn. rewrite Hid, Hk. split_and!; [done|done|]. by constructor.
Qed.

Lemma start_ok ps : Forall2 loop_ok ps (manager_Start ps).
Proof. unfold manager_Start. induction ps; by constructor. Qed.

(** ** Properties *)

Section properties.
Context `{AuthNet} `{AuthViper}.

(** C37: A configuration of the authentication manager that loads can be run.  Its
    providers are all made, each with a key, and the program starts a loop for
    each as soon as the server and the bucket are there.  However the loops
    interleave and whatever the servers answer, every turn is one of the loop the
    schedule names: it waits, a random time first ([rand.Intn] of 5000
    milliseconds) and then the interval of its ticker, and unless the wait is cut
    short it makes one attempt.  An attempt asks what its provider is configured
    to ask, and stores what it was given, one token that is not empty, under its
    provider's key: the one in the reply of the OAuth2 library, or the one a
    successful reply holds at the configured path; it stores nothing when it was
    given none.  The interval of a ticker is positive, and either the configured
    duration or, for OAuth2, a minute or more; the process only dies if a
    configured duration is not positive. *)
Theorem auth_manager_correct e cfg : auth_Load = Ok cfg →
  ∃ ps, Forall2 (λ pc p, createProvider pc = Ok p) (ac_Providers cfg) ps ∧
    Forall (λ key, key ≠ "") (map provider_ID ps) ∧
    auth_run e = (_ ← NewNATSClient e cfg; Ok (manager_Start ps, map pv_KVKey (ac_Providers cfg))) ∧
    ∀ mctx schedule w, runs w (manager_run mctx schedule (manager_Start ps)) (λ r evs w',
      turns mctx schedule (manager_Start ps) w evs r w' ∧
      match r with
      | Some loops => Forall2 loop_ok ps loops
      | None => ∃ pc d, pc ∈ ac_Providers cfg ∧ ParseDuration (duration_setting pc) = Some d ∧ (d ≤ 0)%Z
      end).
Proof.
  intros Hl. destruct (auth_Load_checked _ Hl) as [_ _ (_ & Hall & _) _ _ _].
  destruct (createProviders_total _ Hall) as (ps & Hps & Hk & H2). exists ps. split_and!.
  - eapply Forall2_impl; [exact H2|]. by intros ? ? [? _].
  - rewrite Hk. apply Forall_fmap. eapply Forall_impl; [exact Hall|]. by intros pc (_ & ? & _).
  - unfold auth_run. rewrite Hl, Hps. cbn. by rewrite Hk.
  - intros mctx schedule w. eapply runs_weaken; [apply manager_run_spec|]. cbn. intros r evs w' Ht. split; [done|].
    apply (turns_loops_ok _ ps) in Ht; [|apply start_ok]. destruct r; [done|]. destruct Ht as (p & Hin & Hd).
    apply list_elem_of_lookup in Hin as [i Hi]. destruct (Forall2_lookup_r _ _ _ _ _ H2 Hi) as (pc & Hpc & _ & Hpd).
    exists pc, (configured_interval p). split_and!; [by eapply list_elem_of_lookup_2|done|done].
Qed.
End properties.

(** ** A concrete manager *)

Definition demo_provider : ProviderConfig :=
  MkProviderConfig "crm" "custom-http" "" "" "30m" "" "" "" [] "https://id.example/token" "" ∅
    "user=${CRM_USER}" "access_token".

(** Sources that configure providers, and one variable that is set. *)
Definition sources_with (ps : list ProviderConfig) : AuthViper := {|
  av_ReadInConfig := true;
  av_Unmarshal := λ c, Some (MkAuthConfig (ac_NATS c) (ac_Bucket c) (ac_Logging c) (ac_Metrics c) ps);
  av_Getenv := λ n, if String.eqb n "CRM_USER" then "joe" else "";
  av_IsNotExist := λ _, true;
|}.

Definition loaded (ps : list ProviderConfig) : AuthConfig :=
  match @auth_Load (sources_with ps) with Ok c => c | Err _ => zero_auth_config end.

(** Every reply's body is its access token; an OAuth2 token lives an hour. *)
Definition demo_auth_net : @AuthNet demo_net := @Build_AuthNet demo_net
  (λ _ _ w, match sp_replies w with
            | Some r :: l => (Some (rs_Body r, Some (sp_now w + Hour)%Z), MkScript (sp_now w) l)
            | _ => (None, MkScript (sp_now w) (tail (sp_replies w)))
            end)
  (λ body, Some (VObj {["access_token" := VStr body]}))
  (λ _ _ _ w, (true, w)).

Definition demo_auth_env : auth_env := MkAuthEnv (λ _, true) (λ _ _, true) (λ _ _, true) true (λ _, KVOpened).

#[local] Existing Instances demo_net demo_auth_net.

Lemma auth_manager_correct_witness :
  is_ok (@auth_run (sources_with [demo_provider]) demo_auth_env) = true ∧
  ∃ ps, Forall2 (λ pc p, createProvider pc = Ok p) (ac_Providers (loaded [demo_provider])) ps ∧
    Forall (λ key, key ≠ "") (map provider_ID ps).
Proof.
  split; [vm_compute; reflexivity|].
  destruct (@auth_manager_correct demo_net demo_auth_net (sources_with [demo_provider]) demo_auth_env (loaded [demo_provider]))
    as (ps & H1 & H2 & _); [vm_compute; reflexivity|]. by exists ps.
Defined.

(** Two turns of that loop: the reference is expanded, the token stored, and then
    stored again half an hour later. *)
Definition stored (evs : list net_event) : list (string * string) :=
  omap (λ e, match e with EvStore k t true => Some (k, t) | _ => None end) evs.
Definition waits (evs : list net_event) : list Z := omap (λ e, match e with EvWait d => Some d | _ => None end) evs.

Definition run_log (ps : list ProviderConfig) (schedule : list nat) (replies : list (option http_response)) :
    option (list loop_state) * list net_event :=
  match createProviders (ac_Providers (loaded ps)) with
  | Ok ps => let '(r, st) := manager_run (None : GoContext) schedule (manager_Start ps) (demo_net_start replies) in (r, n_log st)
  | Err _ => (Some [], [])
  end.

Example keeps_a_token :
  let r := run_log [demo_provider] [0; 0]%nat [Some (MkResponse 200 "t1"); Some (MkResponse 201 "t2")] in
  stored r.2 = [("crm", "t1"); ("crm", "t2")] ∧ waits r.2 = [0; 30 * Minute]%Z ∧
  omap (λ e, match e with EvRequest q _ => Some (rq_Body q) | _ => None end) r.2 = ["user=joe"; "user=joe"].
Proof. vm_compute. done. Qed.

(** An interval of zero passes the checks, and the panic of the ticker it makes
    ends the process, with the loops of the other providers. *)
Definition with_every (id d : string) : ProviderConfig :=
  MkProviderConfig id "custom-http" "" "" d "" "" "" [] "https://id.example/token" "" ∅ "" "access_token".

Lemma zero_refresh_panics :
  is_ok (@auth_Load (sources_with [demo_provider; with_every "erp" "0s"])) = true ∧
  (run_log [demo_provider; with_every "erp" "0s"] [0; 1; 0]%nat
     [Some (MkResponse 200 "t1"); Some (MkResponse 200 "t2"); Some (MkResponse 200 "t3")]).1 = None.
Proof. split; vm_compute; reflexivity. Qed.

(** Only the identifiers have to differ: two providers with one key are accepted
    and each replaces the other's token. *)
Definition with_key (key : string) (p : ProviderConfig) : ProviderConfig :=
  MkProviderConfig (pv_ID p) (pv_Type p) key (pv_RefreshBefore p) (pv_RefreshEvery p) (pv_TokenURL p) (pv_ClientID p)
    (pv_ClientSecret p) (pv_Scopes p) (pv_AuthURL p) (pv_Method p) (pv_Headers p) (pv_Body p) (pv_TokenPath p).

Lemma shared_key_overwritten :
  let ps := [with_key "api" demo_provider; with_key "api" (with_every "erp" "1h")] in
  is_ok (@auth_Load (sources_with ps)) = true ∧
  stored (run_log ps [0; 1]%nat [Some (MkResponse 200 "for crm"); Some (MkResponse 200 "for erp")]).2 =
    [("api", "for crm"); ("api", "for erp")].
Proof. split; vm_compute; reflexivity. Qed.

(** A token that lives an hour is fetched again five minutes before its end; when
    that attempt fails the next comes a whole interval later, and in between the
    bucket holds a token that has expired. *)
Definition oauth2_provider : ProviderConfig :=
  MkProviderConfig "idp" "oauth2" "" "5m" "" "https://id.example/token" "id" "secret" [] "" "" ∅ "" "".

Lemma failed_refresh_outlives_the_token :
  let r := run_log [oauth2_provider] [0; 0; 0]%nat [Some (MkResponse 200 "t1"); None; Some (MkResponse 200 "t2")] in
  stored r.2 = [("idp", "t1"); ("idp", "t2")] ∧ waits r.2 = [0; 55 * Minute; 55 * Minute]%Z ∧ (Hour < 55 * Minute + 55 * Minute)%Z.
Proof. vm_compute. done. Qed.
