(* ===== verification/Discovery.v ===== *)
(** * The discovery service (internal/natsservice, internal/broker/service.go)

    Both programs announce themselves under a name and a version.  The version
    must be a semantic one, which the program checks with the expression semver.org
    publishes: the expression is written here as it stands, matched by its
    derivatives, and shown to accept exactly what a reader that splits the version
    at its signs accepts.  The micro library is a parameter: whether a registration
    succeeds.  The calls on the metrics and the shutdown of the authentication
    manager, the other program, are here too. *)

From S2P Require Import Prelude GoStrings GoFloat GoTime Value Types Env.
From S2P Require Import StreamResolver Net HttpClient Publisher Site Subscription Broker Config KVCache Connection Metrics AuthConfig AuthManager.
Local Open Scope string_scope.

(** ** Regular expressions *)

(** What the pattern uses of the language's regular expressions, which match a
    whole text when they are anchored at both ends. *)
Inductive regexp :=
| RVoid | REmpty | RClass (p : ascii → bool) | RCat (r1 r2 : regexp) | RAlt (r1 r2 : regexp) | RStar (r : regexp).

Fixpoint nullable (r : regexp) : bool :=
  match r with
  | RVoid | RClass _ => false
  | REmpty | RStar _ => true
  | RCat r1 r2 => nullable r1 && nullable r2
  | RAlt r1 r2 => nullable r1 || nullable r2
  end.

Fixpoint derivative (c : ascii) (r : regexp) : regexp :=
  match r with
  | RVoid | REmpty => RVoid
  | RClass p => if p c then REmpty else RVoid
  | RCat r1 r2 =>
      if nullable r1 then RAlt (RCat (derivative c r1) r2) (derivative c r2) else RCat (derivative c r1) r2
  | RAlt r1 r2 => RAlt (derivative c r1) (derivative c r2)
  | RStar r => RCat (derivative c r) (RStar r)
  end.

Fixpoint MatchString (r : regexp) (s : string) : bool :=
  match s with "" => nullable r | String c t => MatchString (derivative c r) t end.

Definition RChar (c : ascii) : regexp := RClass (Ascii.eqb c).
Definition RPlus (r : regexp) : regexp := RCat r (RStar r).
Definition ROpt (r : regexp) : regexp := RAlt r REmpty.

(** The words of an expression. *)
Inductive word : regexp → string → Prop :=
| word_empty : word REmpty ""
| word_class p c : p c = true → word (RClass p) (String c "")
| word_cat r1 r2 s t : word r1 s → word r2 t → word (RCat r1 r2) (s ++ t)
| word_left r1 r2 s : word r1 s → word (RAlt r1 r2) s
| word_right r1 r2 s : word r2 s → word (RAlt r1 r2) s
| word_stop r : word (RStar r) ""
| word_more r s t : word r s → word (RStar r) t → word (RStar r) (s ++ t).

(** ** Versions *)

(** The pattern, class by class: [0-9a-zA-Z-], [a-zA-Z-], [1-9]. *)
Definition is_nonzero : ascii → bool := in_range 49 57.
Definition id_char (c : ascii) : bool := is_alnum c || Ascii.eqb c "-".
Definition id_letter (c : ascii) : bool := is_lower c || is_upper c || Ascii.eqb c "-".

Definition numeric_re : regexp := RAlt (RChar "0") (RCat (RClass is_nonzero) (RStar (RClass is_digit))).
Definition prerelease_re : regexp :=
  RAlt numeric_re (RCat (RStar (RClass is_digit)) (RCat (RClass id_letter) (RStar (RClass id_char)))).
Definition build_re : regexp := RPlus (RClass id_char).
Definition dotted_re (r : regexp) : regexp := RCat r (RStar (RCat (RChar ".") r)).

Definition semverPattern : regexp :=
  RCat (RCat (RCat numeric_re (RCat (RChar ".") (RCat numeric_re (RCat (RChar ".") numeric_re))))
             (ROpt (RCat (RChar "-") (dotted_re prerelease_re))))
       (ROpt (RCat (RChar "+") (dotted_re build_re))).

Definition Version (v : string) : string :=
  let v := TrimPrefix v "v" in
  if MatchString semverPattern v then v else "0.0.0-dev".

(** Its first part. *)
Definition core_re : regexp := RCat numeric_re (RCat (RChar ".") (RCat numeric_re (RCat (RChar ".") numeric_re))).

(** A reader of versions: the build after the first plus, the pre-release after
    the first hyphen of the rest, and three numbers. *)
Definition all_digits : string → bool := sforall is_digit.
Definition numeric_id (s : string) : bool :=
  match s with "" => false | String c t => if Ascii.eqb c "0" then String.eqb t "" else is_digit c && all_digits t end.
Definition build_id (s : string) : bool := negb (String.eqb s "") && sforall id_char s.
Definition prerelease_id (s : string) : bool := build_id s && (negb (all_digits s) || numeric_id s).
Definition core_version (s : string) : bool :=
  let ids := Split "." s in (length ids =? 3)%nat && forallb numeric_id ids.
Definition semver (s : string) : bool :=
  let '(rest, build, has_build) := Cut "+" s in
  let '(core, pre, has_pre) := Cut "-" rest in
  core_version core && implb has_pre (forallb prerelease_id (Split "." pre)) &&
  implb has_build (forallb build_id (Split "." build)).

(** ** Registration *)

(** [micro.Config] *)
Record service_config := MkServiceConfig {
  sv_Name : string; sv_Version : string; sv_Description : string; sv_Metadata : gmap string string;
}.

(** The metadata are copied, and the host is put over a key of that name. *)
Definition Add (hostname : option string) (name version description : string) (metadata : gmap string string) : service_config :=
  MkServiceConfig name (Version version) description
    (match hostname with Some host => <["host" := host]> metadata | None => metadata end).

(** A registration that fails leaves the process without a service. *)
Definition RegisterService (AddService : service_config → bool) (hostname : option string) (version : string)
    (features : list string) : option service_config :=
  let config := Add hostname "rule-router" version "Rule-based message routing for NATS" {["features" := Join "," features ]} in
  if AddService config then Some config else None.

Definition auth_RegisterService (AddService : service_config → bool) (hostname : option string) (bucket version : string)
    (kvKeys : list string) : option service_config :=
  let config := Add hostname "nats-auth-manager" version "Keeps API tokens fresh in a NATS KV bucket"
    {["bucket" := bucket; "kvKeys" := Join "," kvKeys ]} in
  if AddService config then Some config else None.

(** [NATSClient.Close]: leaving discovery is tried first and not reported. *)
Definition auth_Close (service : option service_config) (drained : bool) : list close_step * list close_error :=
  (((match service with Some _ => [StopService] | None => [] end) ++ [DrainConnection])%list,
   if drained then [] else [NotDrained]).

(** ** The metrics of an attempt *)

Inductive auth_call :=
| CallAuthSuccess (provider : string) | CallAuthFailure (provider : string) | CallKVStoreFailure (provider : string)
| CallAuthDuration (provider : string) (seconds : float64).

Definition make_auth_call `{Prometheus} (c : auth_call) : Values → option Values :=
  match c with
  | CallAuthSuccess p => IncAuthSuccess p
  | CallAuthFailure p => IncAuthFailure p
  | CallKVStoreFailure p => IncKVStoreFailure p
  | CallAuthDuration p x => ObserveAuthDuration p x
  end.
Fixpoint make_auth_calls `{Prometheus} (cs : list auth_call) (v : Values) : option Values :=
  match cs with [] => Some v | c :: rest => v ← make_auth_call c v; make_auth_calls rest v end.

Definition call_provider (c : auth_call) : string :=
  match c with CallAuthSuccess p | CallAuthFailure p | CallKVStoreFailure p | CallAuthDuration p _ => p end.

(** The calls of [authenticate], by its result. *)
Definition authenticate_calls (provider : string) (r : result refresh_error unit) (seconds : float64) : list auth_call :=
  match r with
  | Err (TokenNotFetched _) => [CallAuthFailure provider]
  | Err TokenNotStored => [CallKVStoreFailure provider]
  | Ok _ => [CallAuthSuccess provider; CallAuthDuration provider seconds]
  end.

(** What the library documents: it takes a name of letters, digits, underscores
    and hyphens, and a semantic version. *)
Definition name_ok (s : string) : bool :=
  negb (String.eqb s "") && sforall (λ c, is_alnum c || Ascii.eqb c "_" || Ascii.eqb c "-") s.
Definition acceptable (c : service_config) : bool := name_ok (sv_Name c) && semver (sv_Version c).

(** [Manager.Stop] cancels the context of the loops: no wait outlives it. *)
Definition is_cancelled `{Net} (ctx : GoContext) : Prop := ∀ d w, (select_After ctx d w).1 = true.
Definition is_wait (e : net_event) : Prop := match e with EvWait _ => True | _ => False end.

(** ** Lemmas *)

(** *** Matching *)

Lemma word_empty_inv s : word REmpty s ↔ s = "".
Proof. split; [by inversion 1|intros ->; constructor]. Qed.
Lemma word_class_inv p s : word (RClass p) s ↔ ∃ c, s = String c "" ∧ p c = true.
Proof. split; [inversion 1; eauto|intros (c & -> & Hp); by constructor]. Qed.
Lemma word_char_inv c s : word (RChar c) s ↔ s = String c "".
Proof.
  unfold RChar. rewrite word_class_inv. split; [by intros (d & -> & ->%Ascii.eqb_eq)|].
  intros ->. exists c. by rewrite Ascii.eqb_refl.
Qed.
Lemma word_cat_inv r1 r2 s : word (RCat r1 r2) s ↔ ∃ s1 s2, s = s1 ++ s2 ∧ word r1 s1 ∧ word r2 s2.
Proof. split; [inversion 1; subst; eauto|intros (s1 & s2 & -> & ? & ?); by constructor]. Qed.
Lemma word_alt_inv r1 r2 s : word (RAlt r1 r2) s ↔ word r1 s ∨ word r2 s.
Proof. split; [inversion 1; auto|intros [?|?]; [by apply word_left|by apply word_right]]. Qed.
Lemma word_void s : ¬ word RVoid s.
Proof. by inversion 1. Qed.

Lemma nullable_word r : nullable r = true ↔ word r "".
Proof.
  induction r as [| |p|r1 IH1 r2 IH2|r1 IH1 r2 IH2|r IH]; cbn [nullable].
  - split; [done|by intros ?%word_void].
  - split; [intros _; constructor|done].
  - rewrite word_class_inv. split; [done|by intros (? & ? & _)].
  - rewrite andb_true_iff, IH1, IH2, word_cat_inv. split; [intros [? ?]; by exists "", ""|].
    intros ([] & [] & Hs & H1 & H2); [by split|done..].
  - rewrite orb_true_iff, IH1, IH2, word_alt_inv. done.
  - split; [intros _; constructor|done].
Qed.

(** A word of an iteration that is not empty starts with a piece that is not. *)
Lemma word_star_inv r c s : word (RStar r) (String c s) ↔
  ∃ s1 s2, s = s1 ++ s2 ∧ word r (String c s1) ∧ word (RStar r) s2.
Proof.
  split; [|intros (s1 & s2 & -> & ? & ?); by apply (word_more _ (String c s1))].
  remember (RStar r) as e eqn:He. remember (String c s) as w eqn:Hw. intros Hwd. revert r c s He Hw.
  induction Hwd as [| | | | | |r' w1 w2 H1 _ H2 IH2]; intros r0 c0 s0 He Hw; try done. injection He as ->.
  destruct w1 as [|c' w1]; [by apply IH2|]. injection Hw as -> <-. by exists w1, w2.
Qed.

Lemma derivative_word c r : ∀ s, word (derivative c r) s ↔ word r (String c s).
Proof.
  induction r as [| |p|r1 IH1 r2 IH2|r1 IH1 r2 IH2|r IH]; intros s; cbn [derivative].
  - split; [by intros ?%word_void|by inversion 1].
  - rewrite word_empty_inv. split; [by intros ?%word_void|done].
  - rewrite word_class_inv. destruct (p c) eqn:Hp.
    + rewrite word_empty_inv. split; [intros ->; eauto|by intros (d & [= _ ->] & _)].
    + split; [by intros ?%word_void|intros (d & [= -> _] & ?); congruence].
  - assert (word (RCat (derivative c r1) r2) s ↔ ∃ s1 s2, s = s1 ++ s2 ∧ word r1 (String c s1) ∧ word r2 s2) as Hd.
    { rewrite word_cat_inv. by setoid_rewrite IH1. }
    assert (word (RCat r1 r2) (String c s) ↔
      (∃ s1 s2, s = s1 ++ s2 ∧ word r1 (String c s1) ∧ word r2 s2) ∨ (word r1 "" ∧ word r2 (String c s))) as ->.
    { rewrite word_cat_inv. split.
      - intros ([|c' s1] & s2 & Hs & H1 & H2); [right; by rewrite Hs|]. injection Hs as <- ->. left. eauto.
      - intros [(s1 & s2 & -> & H1 & H2)|[H1 H2]]; [by exists (String c s1), s2|by exists "", (String c s)]. }
    pose proof (nullable_word r1) as Hn. destruct (nullable r1).
    + rewrite word_alt_inv, Hd, IH2. tauto.
    + rewrite Hd. intuition discriminate.
  - rewrite !word_alt_inv, IH1, IH2. done.
  - rewrite word_cat_inv, word_star_inv. by setoid_rewrite IH.
Qed.

Lemma MatchString_word r s : MatchString r s = true ↔ word r s.
Proof.
  revert r. induction s as [|c s IH]; intros r; cbn [MatchString]; [apply nullable_word|]. by rewrite IH, derivative_word.
Qed.

(** *** Shapes *)

Lemma word_star_class p s : word (RStar (RClass p)) s ↔ sforall p s = true.
Proof.
  induction s as [|c s IH]; cbn [sforall]; [split; [done|constructor]|].
  rewrite word_star_inv, andb_true_iff, <- IH. split.
  - intros (s1 & s2 & -> & (d & [= <- ->] & Hp)%word_class_inv & Hs). done.
  - intros [Hp Hs]. exists "", s. split_and!; [done|by constructor|done].
Qed.

Lemma word_plus_class p s : word (RPlus (RClass p)) s ↔ negb (String.eqb s "") && sforall p s = true.
Proof.
  unfold RPlus. rewrite word_cat_inv. split.
  - intros (s1 & s2 & -> & (c & -> & Hp)%word_class_inv & Hs%word_star_class). change (p c && sforall p s2 = true). by rewrite Hp, Hs.
  - destruct s as [|c s]; [done|]. cbn. intros [Hp Hs]%andb_true_iff. exists (String c ""), s.
    split_and!; [done|by constructor|by apply word_star_class].
Qed.

(** A tail set off by a sign that the words before it do not hold is what follows
    the first such sign. *)
Lemma word_opt_tail c r1 r2 s : (∀ w, word r1 w → has_char c w = false) →
  word (RCat r1 (ROpt (RCat (RChar c) r2))) s ↔
    let '(before, after, found) := Cut c s in word r1 before ∧ (found = true → word r2 after).
Proof.
  intros Hfree. unfold ROpt. rewrite word_cat_inv. split.
  - intros (a & b & -> & Ha & [(x & y & -> & ->%word_char_inv & Hb)%word_cat_inv| ->%word_empty_inv]%word_alt_inv).
    + change (a ++ String c "" ++ y) with (a ++ String c y). by rewrite Cut_app by auto.
    + rewrite app_nil_r_str, Cut_no_sep by auto. done.
  - destruct (Cut c s) as [[a b] f] eqn:E. apply Cut_spec in E as [Ha Hs]. intros [Hw Hf]. destruct f.
    + exists a, (String c b). split_and!; [done|done|]. apply word_left. apply (word_cat _ _ (String c "")); [by apply word_char_inv|auto].
    + destruct Hs as [-> ->]. exists a, "". rewrite app_nil_r_str. split_and!; [done..|]. apply word_right. constructor.
Qed.

(** Words joined by dots are the pieces between them. *)
Lemma word_dotted r : (∀ w, word r w → has_char "." w = false) → ∀ s, word (dotted_re r) s ↔ Forall (word r) (Split "." s).
Proof.
  intros Hfree.
  assert (∀ s, word (RStar (RCat (RChar ".") r)) s ↔
    s = "" ∨ ∃ t, s = String "." t ∧ word (dotted_re r) t) as Hstar.
  { intros [|c s]; [split; [by left|constructor]|]. rewrite word_star_inv. unfold dotted_re. split.
    - intros (s1 & s2 & -> & (x & y & Hxy & ->%word_char_inv & Hy)%word_cat_inv & Hs2). injection Hxy as -> ->. right.
      exists (y ++ s2). split; [done|]. by constructor.
    - intros [?|(t & [= -> ->] & (y & s2 & -> & Hy & Hs2)%word_cat_inv)]; [done|]. exists y, s2. split_and!; [done| |done].
      apply (word_cat _ _ (String "." "")); [by apply word_char_inv|done]. }
  intros s. remember (slen s) as n eqn:Hn. revert s Hn. induction n as [n IH] using lt_wf_ind. intros s ->.
  unfold dotted_re at 1. rewrite word_cat_inv. split.
  - intros (a & b & -> & Ha & Hb%Hstar). destruct Hb as [->|(t & -> & Ht)].
    + rewrite app_nil_r_str, Split_single by auto. by repeat constructor.
    + rewrite Split_app_sep by auto. constructor; [done|]. apply (IH (slen t)); [|done..].
      rewrite slen_app. unfold slen. cbn. lia.
  - intros Hall. rewrite <- (Join_Split "." s). pose proof (Split_ne "." s) as Hne.
    destruct (Split "." s) as [|a l] eqn:E; [done|]. apply Forall_cons in Hall as [Ha Hl]. destruct l as [|b l].
    + exists a, "". cbn. rewrite app_nil_r_str. split_and!; [done..|constructor].
    + exists a, (String "." (Join "." (b :: l))). split_and!; [done|done|]. apply Hstar. right.
      eexists. split; [done|]. apply (IH (slen (Join "." (b :: l)))); [|done|].
      * rewrite <- (Join_Split "." s), E.
        change (Join (String "." "") (a :: b :: l)) with (a ++ "." ++ Join "." (b :: l)). rewrite !slen_app. unfold slen. cbn. lia.
      * rewrite Split_Join; [done..|]. intros tok Ht. apply (Split_no_sep _ s). rewrite E. by right.
Qed.

(** *** Identifiers *)

Lemma is_nonzero_digit c : is_nonzero c = is_digit c && negb (Ascii.eqb c "0").
Proof. by destruct c as [[] [] [] [] [] [] [] []]. Qed.
Lemma digit_id_char c : is_digit c = true → id_char c = true.
Proof. by destruct c as [[] [] [] [] [] [] [] []]. Qed.
Lemma id_letter_digit c : id_letter c = id_char c && negb (is_digit c).
Proof. by destruct c as [[] [] [] [] [] [] [] []]. Qed.

Lemma sforall_impl (p q : ascii → bool) s : (∀ c, p c = true → q c = true) → sforall p s = true → sforall q s = true.
Proof. intros Hpq. induction s as [|c s IH]; cbn; [done|]. intros [Hc Hs]%andb_true_iff. by rewrite Hpq, IH. Qed.
Lemma sforall_app p s t : sforall p (s ++ t) = sforall p s && sforall p t.
Proof. induction s as [|c s IH]; [done|]. change (String c s ++ t) with (String c (s ++ t)). cbn [sforall]. by rewrite IH, andb_assoc. Qed.

Lemma word_numeric s : word numeric_re s ↔ numeric_id s = true.
Proof.
  unfold numeric_re, numeric_id. rewrite word_alt_inv, word_char_inv, word_cat_inv. split.
  - intros [->|(x & y & -> & (c & -> & Hc)%word_class_inv & Hy%word_star_class)]; [done|].
    rewrite is_nonzero_digit in Hc. apply andb_true_iff in Hc as [Hc Hz]. change (String c "" ++ y) with (String c y). cbn [numeric_id]. destruct (Ascii.eqb c "0"); [done|]. by rewrite Hc.
  - destruct s as [|c t]; [done|]. destruct (Ascii.eqb_spec c "0") as [->|Hz].
    + intros ->%String.eqb_eq. by left.
    + intros [Hc Ht]%andb_true_iff. right. exists (String c ""), t. split_and!; [done| |by apply word_star_class].
      constructor. rewrite is_nonzero_digit, Hc. by apply Ascii.eqb_neq in Hz as ->.
Qed.

Lemma word_build s : word build_re s ↔ build_id s = true.
Proof. apply word_plus_class. Qed.

(** The alternative of a pre-release that is not a number. *)
Lemma word_alphanumeric s :
  word (RCat (RStar (RClass is_digit)) (RCat (RClass id_letter) (RStar (RClass id_char)))) s ↔
    sforall id_char s = true ∧ all_digits s = false.
Proof.
  rewrite word_cat_inv. split.
  - intros (d & x & -> & Hd%word_star_class & (y & z & -> & (c & -> & Hc)%word_class_inv & Hz%word_star_class)%word_cat_inv).
    rewrite id_letter_digit in Hc. apply andb_true_iff in Hc as [Hc Hn%negb_true_iff]. unfold all_digits.
    rewrite !sforall_app. cbn [sforall]. rewrite Hc, Hn, Hz, andb_false_r, (sforall_impl is_digit id_char d digit_id_char Hd). done.
  - induction s as [|c s IH]; [by intros [_ ?]|]. cbn [sforall all_digits]. unfold all_digits in *. cbn [sforall]. intros [[Hc Hs]%andb_true_iff Ha]. destruct (is_digit c) eqn:Hdc.
    + destruct IH as (d & x & -> & Hd & Hx); [done|]. exists (String c d), x. split_and!; [done| |done].
      apply word_star_class. cbn [sforall]. rewrite Hdc. by apply word_star_class.
    + exists "", (String c s). split_and!; [done|constructor|]. apply (word_cat _ _ (String c "")); [|by apply word_star_class].
      constructor. by rewrite id_letter_digit, Hc, Hdc.
Qed.

Lemma numeric_build s : numeric_id s = true → build_id s = true.
Proof.
  destruct s as [|c t]; [done|]. unfold build_id. cbn [numeric_id String.eqb negb andb sforall]. destruct (Ascii.eqb_spec c "0") as [->|_]; [by intros ->%String.eqb_eq|].
  intros [Hc Ht]%andb_true_iff. rewrite (digit_id_char _ Hc). cbn [andb]. by eapply sforall_impl; [apply digit_id_char|].
Qed.

Lemma word_prerelease s : word prerelease_re s ↔ prerelease_id s = true.
Proof.
  unfold prerelease_re, prerelease_id. rewrite word_alt_inv, word_numeric, word_alphanumeric, andb_true_iff, orb_true_iff, negb_true_iff.
  pose proof (numeric_build s). unfold build_id in *. rewrite andb_true_iff, negb_true_iff, String.eqb_neq in *.
  split; [|tauto]. intros [?|[? Hd]]; [tauto|]. split; [|by left]. split; [|done]. by intros ->.
Qed.

Lemma numeric_digits s : numeric_id s = true → all_digits s = true.
Proof.
  destruct s as [|c t]; [done|]. cbn. destruct (Ascii.eqb_spec c "0") as [->|_]; [by intros ->%String.eqb_eq|done].
Qed.

(** The signs between the parts are in none of them. *)
Lemma numeric_free d s : is_digit d = false → word numeric_re s → has_char d s = false.
Proof. intros Hd Hw%word_numeric%numeric_digits. by apply (sforall_has_char is_digit). Qed.
Lemma prerelease_free d s : id_char d = false → word prerelease_re s → has_char d s = false.
Proof.
  intros Hd Hw%word_prerelease. unfold prerelease_id, build_id in Hw. apply andb_true_iff in Hw as [[_ Hw]%andb_true_iff _].
  by apply (sforall_has_char id_char).
Qed.
Lemma build_free d s : id_char d = false → word build_re s → has_char d s = false.
Proof. intros Hd Hw%word_build. unfold build_id in Hw. apply andb_true_iff in Hw as [_ Hw]. by apply (sforall_has_char id_char). Qed.

Lemma dotted_free r d s : d ≠ "."%char → (∀ w, word r w → has_char "." w = false) → (∀ w, word r w → has_char d w = false) →
  word (dotted_re r) s → has_char d s = false.
Proof.
  intros Hd Hdot Hfree Hw%(word_dotted r Hdot). rewrite (has_char_Split "."%char d s Hd). apply not_true_iff_false.
  intros (w & Hin%list_elem_of_In & Hc)%existsb_exists. apply (proj1 (Forall_forall _ _) Hw) in Hin as Hf. apply Hfree in Hf. congruence.
Qed.

Lemma Forall_word r p l : (∀ w, word r w ↔ p w = true) → Forall (word r) l ↔ forallb p l = true.
Proof. intros Hr. induction l as [|x l IH]; cbn; [done|]. by rewrite Forall_cons, Hr, IH, andb_true_iff. Qed.

Lemma word_core s : word core_re s ↔ core_version s = true.
Proof.
  assert (∀ w, word numeric_re w → has_char "." w = false) as Hfree by (intros w; by apply numeric_free).
  unfold core_re, core_version. rewrite word_cat_inv. split.
  - intros (a & x & -> & Ha & (x1 & y & -> & ->%word_char_inv & (b & z & -> & Hb & (x2 & c & -> & ->%word_char_inv & Hc)%word_cat_inv)%word_cat_inv)%word_cat_inv).
    change (a ++ String "." "" ++ b ++ String "." "" ++ c) with (a ++ String "." (b ++ String "." c)).
    rewrite !Split_app_sep, Split_single by auto. cbn. rewrite word_numeric in Ha, Hb, Hc. by rewrite Ha, Hb, Hc.
  - rewrite andb_true_iff, Nat.eqb_eq, <- (Forall_word numeric_re) by apply word_numeric. intros [Hlen Hall].
    pose proof (Join_Split "." s) as Hj. destruct (Split "." s) as [|a [|b [|c [|]]]]; try discriminate Hlen.
    cbn [Join] in Hj. subst s. apply Forall_cons in Hall as [Ha [Hb [Hc _]%Forall_cons]%Forall_cons].
    exists a, ("." ++ b ++ "." ++ c). split_and!; [done|done|].
    apply (word_cat _ _ "."); [by apply word_char_inv|]. constructor; [done|]. apply (word_cat _ _ "."); [by apply word_char_inv|done].
Qed.

Lemma core_free d s : is_digit d = false → d ≠ "."%char → word core_re s → has_char d s = false.
Proof.
  intros Hd Hdot. unfold core_re.
  assert (has_char d "." = false) as Hs by (cbn [has_char]; rewrite orb_false_r; apply Ascii.eqb_neq; congruence).
  intros (a & x & -> & Ha & (x1 & y & -> & ->%word_char_inv & (b & z & -> & Hb & (x2 & c & -> & ->%word_char_inv & Hc)%word_cat_inv)%word_cat_inv)%word_cat_inv)%word_cat_inv.
  rewrite !has_char_app, Hs, !(numeric_free d) by done. done.
Qed.

(** The published expression accepts exactly the versions that can be read. *)
Lemma semver_matches s : MatchString semverPattern s = semver s.
Proof.
  apply eq_true_iff_eq. rewrite MatchString_word. unfold semverPattern, semver. fold core_re.
  assert (∀ w, word (dotted_re prerelease_re) w ↔ forallb prerelease_id (Split "." w) = true) as Hpre.
  { intros w. rewrite word_dotted by (intros; by apply prerelease_free). apply Forall_word, word_prerelease. }
  assert (∀ w, word (dotted_re build_re) w ↔ forallb build_id (Split "." w) = true) as Hbuild.
  { intros w. rewrite word_dotted by (intros; by apply build_free). apply Forall_word, word_build. }
  assert (∀ w, word (RCat core_re (ROpt (RCat (RChar "-") (dotted_re prerelease_re)))) w ↔
    let '(core, pre, has_pre) := Cut "-" w in core_version core = true ∧ (has_pre = true → forallb prerelease_id (Split "." pre) = true)) as Hcore.
  { intros w. rewrite word_opt_tail by (intros; by apply core_free). destruct (Cut "-" w) as [[core pre] f]. by rewrite word_core, Hpre. }
  rewrite word_opt_tail.
  - destruct (Cut "+" s) as [[rest build] has_build]. specialize (Hcore rest). rewrite Hcore, Hbuild.
    destruct (Cut "-" rest) as [[core pre] has_pre]. rewrite !andb_true_iff. by destruct has_build, has_pre; cbn; intuition.
  - intros w (a & x & -> & Ha & Hx)%word_cat_inv. rewrite has_char_app, (core_free "+" a) by done. unfold ROpt in Hx.
    apply word_alt_inv in Hx as [(y & z & -> & ->%word_char_inv & Hz)%word_cat_inv| ->%word_empty_inv]; [|done].
    rewrite has_char_app, (dotted_free prerelease_re "+" z); [done|done| |intros; by apply prerelease_free|done]. intros; by apply prerelease_free.
Qed.

(** ** Versions and identities *)

(** A version starts with a digit. *)
Lemma semver_no_v s : semver s = true → TrimPrefix s "v" = s.
Proof.
  rewrite <- semver_matches, MatchString_word. unfold semverPattern. fold core_re.
  intros (x & y & -> & (a & z & -> & Ha & _)%word_cat_inv & _)%word_cat_inv. unfold TrimPrefix.
  destruct (HasPrefix _ "v") eqn:Hv; [|done]. exfalso. pose proof (core_free "v"%char a eq_refl ltac:(done) Ha) as Hf.
  apply HasPrefix_spec in Hv as [t Ht]. destruct a as [|c a]; [by apply word_core in Ha|]. by injection Ht as -> _.
Qed.

(** What a process reports as its version is always semantic: the one it was built
    with, less a leading v, or the one of a development build; and reporting it
    again changes nothing. *)
Theorem Version_semver v :
  semver (Version v) = true ∧ Version v = (if semver (TrimPrefix v "v") then TrimPrefix v "v" else "0.0.0-dev") ∧
  Version (Version v) = Version v.
Proof.
  assert (∀ v, Version v = if semver (TrimPrefix v "v") then TrimPrefix v "v" else "0.0.0-dev") as Hv
    by (intros w; unfold Version; by rewrite semver_matches).
  assert (semver (Version v) = true) as Hs by (rewrite Hv; by destruct (semver (TrimPrefix v "v")) eqn:E).
  split_and!; [done|apply Hv|]. rewrite (Hv (Version v)), semver_no_v by done. by rewrite Hs.
Qed.

(** Whatever the build and the host, both programs hand the library a
    registration it accepts, so that one is only refused for what the server or
    the connection does; the host is among the metadata exactly when it is known,
    beside what describes the instance, and a refusal leaves no service. *)
Theorem services_acceptable (AddService : service_config → bool) hostname version features bucket kvKeys :
  let accepted (config : service_config) (service : option service_config) :=
    acceptable config = true ∧ sv_Version config = Version version ∧ sv_Metadata config !! "host" = hostname ∧
    service = (if AddService config then Some config else None) in
  (∃ config, accepted config (RegisterService AddService hostname version features) ∧
     sv_Name config = "rule-router" ∧ sv_Metadata config !! "features" = Some (Join "," features)) ∧
  (∃ config, accepted config (auth_RegisterService AddService hostname bucket version kvKeys) ∧
     sv_Name config = "nats-auth-manager" ∧ sv_Metadata config !! "bucket" = Some bucket ∧
     sv_Metadata config !! "kvKeys" = Some (Join "," kvKeys)).
Proof.
  pose proof (Version_semver version) as (Hs & _ & _). cbn zeta.
  assert (∀ name description metadata, name_ok name = true → metadata !! "host" = None →
    acceptable (Add hostname name version description metadata) = true ∧
    sv_Metadata (Add hostname name version description metadata) !! "host" = hostname ∧
    ∀ k, k ≠ "host" → sv_Metadata (Add hostname name version description metadata) !! k = metadata !! k) as Hadd.
  { intros name description metadata Hn Hm. unfold acceptable, Add. cbn. rewrite Hn, Hs. split; [done|].
    destruct hostname; [|done]. split; [apply lookup_insert_eq|]. intros k Hk. by apply lookup_insert_ne. }
  split.
  - destruct (Hadd "rule-router" "Rule-based message routing for NATS" {["features" := Join "," features ]} eq_refl) as (Ha & Hh & Hk);
      [by rewrite lookup_singleton_ne|].
    eexists. split; [split_and!; [exact Ha|done|exact Hh|reflexivity]|]. split; [done|]. rewrite Hk by done. apply lookup_singleton_eq.
  - destruct (Hadd "nats-auth-manager" "Keeps API tokens fresh in a NATS KV bucket" {["bucket" := bucket; "kvKeys" := Join "," kvKeys ]}
      eq_refl) as (Ha & Hh & Hk); [by rewrite !lookup_insert_ne|].
    eexists. split; [split_and!; [exact Ha|done|exact Hh|reflexivity]|]. split_and!; [done|rewrite Hk by done; by rewrite lookup_insert_eq|rewrite Hk by done; by rewrite lookup_insert_ne, lookup_singleton_eq].
Qed.

Lemma make_auth_calls_fit `{PrometheusLaws} cs v : Forall (λ c, utf8_Valid (call_provider c) = true) cs →
  is_Some (make_auth_calls cs v).
Proof.
  intros Hc. revert v. induction Hc as [|c cs Hc _ IH]; intros v; [by eexists|]. cbn [make_auth_calls].
  assert (is_Some (make_auth_call c v)) as [v' ->]; [|apply IH].
  destruct c; apply measure_fits; unfold fits; cbn [call_provider] in Hc; cbn [length forallb]; by rewrite Hc.
Qed.

(** However the attempts of the providers end, their calls fit the collectors of
    a new registry when the keys are text. *)
Lemma authenticate_calls_fit `{PrometheusLaws} (attempts : list (string * result refresh_error unit * float64)) :
  Forall (λ a, utf8_Valid a.1.1 = true) attempts →
  ∃ v, auth_NewMetrics NewRegistry = Some v ∧
    is_Some (make_auth_calls (attempts ≫= λ a, authenticate_calls a.1.1 a.1.2 a.2) v).
Proof.
  intros Ha. destruct auth_metrics_register as [v Hv]. exists v. split; [done|]. apply make_auth_calls_fit.
  induction Ha as [|[[p r] x] attempts Hp _ IH]; [constructor|]. cbn [mbind list_bind fst snd]. apply Forall_app. split; [|done].
  destruct r as [[]|[e|]]; by repeat constructor.
Qed.

(** ** Leaving *)

Section stopping.
Context `{AuthNet}.

Lemma cancelled_turn mctx s : is_cancelled mctx →
  yields (loop_turn mctx s) (λ s' evs, s' = Some (LoopStopped (loop_provider s)) ∧ Forall is_wait evs).
Proof.
  intros Hc. destruct s as [p|p d|p]; cbn [loop_turn loop_provider].
  - eapply yields_bind; [apply (yields_world _ (λ _, True)); done|]. intros n ? [_ ->].
    eapply yields_bind; [apply yields_emit|]. intros [] ? ->.
    eapply yields_bind; [apply (yields_world _ (λ b, b = true)), Hc|]. intros ? ? [-> ->]. apply yields_ret. cbn. repeat constructor.
  - eapply yields_bind; [apply yields_emit|]. intros [] ? ->.
    eapply yields_bind; [apply (yields_world _ (λ b, b = true)), Hc|]. intros ? ? [-> ->]. apply yields_ret. cbn. repeat constructor.
  - apply yields_ret. repeat constructor.
Qed.

Lemma cancelled_run mctx schedule loops : is_cancelled mctx →
  (∀ i s, loops !! i = Some s → i ∈ schedule ∨ s = LoopStopped (loop_provider s)) →
  yields (manager_run mctx schedule loops) (λ r evs,
    r = Some (map (λ s, LoopStopped (loop_provider s)) loops) ∧ Forall is_wait evs).
Proof.
  intros Hc. revert loops. induction schedule as [|i rest IH]; intros loops Hl; cbn [manager_run].
  { apply yields_ret. split; [|done]. f_equal. symmetry. rewrite <- (map_id loops) at 2. apply list_eq. intros i.
    rewrite !list_lookup_fmap. destruct (loops !! i) as [s|] eqn:Hi; [|done]. cbn. f_equal. destruct (Hl i s Hi) as [?%elem_of_nil|Hs]; [done|congruence]. }
  eapply (yields_bind _ _ (λ r evs, r = Some (alter (λ s, LoopStopped (loop_provider s)) i loops) ∧ Forall is_wait evs)).
  - unfold manager_turn. destruct (loops !! i) as [s|] eqn:Hi.
    + eapply yields_bind; [by apply cancelled_turn|]. intros s' evs [-> He]. apply yields_ret. rewrite app_nil_r. split; [|done].
      cbn [fmap option_fmap option_map]. f_equal. apply list_eq. intros j.
      rewrite list_lookup_alter. case_decide as Hd; [subst j; rewrite Hi; apply list_lookup_insert_eq; by eapply lookup_lt_Some|by apply list_lookup_insert_ne].
    + apply yields_ret. split; [|done]. f_equal. symmetry. apply list_eq. intros j. destruct (decide (i = j)) as [->|Hne].
      * rewrite list_lookup_alter_eq, Hi. done.
      * by rewrite list_lookup_alter_ne.
  - intros r evs [-> He]. eapply yields_weaken; [apply IH|].
    + intros j s Hj. destruct (decide (i = j)) as [->|Hne].
      * rewrite list_lookup_alter_eq in Hj. apply fmap_Some in Hj as (s0 & _ & ->). by right.
      * rewrite list_lookup_alter_ne in Hj by done. destruct (Hl j s Hj) as [[->|?]%elem_of_cons|?]; auto. done.
    + cbn. intros r evs' [-> He']. split; [|by apply Forall_app]. f_equal. apply list_eq. intros j. rewrite !list_lookup_fmap.
      destruct (decide (i = j)) as [->|Hne]; [|by rewrite list_lookup_alter_ne]. rewrite list_lookup_alter_eq. by destruct (loops !! j).
Qed.

(** Stopping the manager ends: once the context is cancelled every loop that gets
    a turn returns in that turn, without an attempt and without a panic, so the
    wait for them is over as soon as each has had one; closing then leaves
    discovery, if the process is there, and drains the connection in any case. *)
Theorem auth_shutdown mctx schedule loops service drained : is_cancelled mctx →
  (∀ i, (i < length loops)%nat → i ∈ schedule) →
  yields (manager_run mctx schedule loops) (λ r evs,
    r = Some (map (λ s, LoopStopped (loop_provider s)) loops) ∧ Forall is_wait evs) ∧
  (∃ first, (auth_Close service drained).1 = (first ++ [DrainConnection])%list ∧ (first = [StopService] ↔ service ≠ None)) ∧
  ((auth_Close service drained).2 = [] ↔ drained = true).
Proof.
  intros Hc Hs. split_and!.
  - apply cancelled_run; [done|]. intros i s Hi. left. by eapply Hs, lookup_lt_Some.
  - eexists. split; [reflexivity|]. by destruct service.
  - by destruct drained.
Qed.
End stopping.

(** ** Examples *)

Definition versions_read : list (string * string) := [
  ("1.2.3", "1.2.3"); ("v1.2.3", "1.2.3"); ("1.2.3-rc.1", "1.2.3-rc.1"); ("dev", "0.0.0-dev"); ("1.2", "0.0.0-dev"); ("", "0.0.0-dev");
  ("vv1.2.3", "0.0.0-dev"); ("1.02.3", "0.0.0-dev"); ("v1.2.3-0a.--+b-1.x", "1.2.3-0a.--+b-1.x"); ("1.2.3-01", "0.0.0-dev")
].
Example versions : forallb (λ v, String.eqb (Version v.1) v.2) versions_read = true.
Proof. vm_compute. reflexivity. Qed.
