(* ===== verification/Tester.v ===== *)
(** * The rule tester (internal/tester/tester.go, types.go)

    Test suites beside rule files: how they are found, the processor a suite is
    run with, one test case and what it expects of the actions, the batches run
    one after the other or by workers, and the quick check of one rule.  The file
    tree is that of the loader; the JSON of configurations and expectations is a
    parameter.  Durations and what is printed are left out. *)

From S2P Require Import Prelude GoStrings GoFloat GoTime Value Types TimeContext Traversal Env Demo.
From S2P Require Import Pattern PathMatcher KVContext Context Conditions Evaluator Random Template Throttle Index Hmac Actions.
From S2P Require Import Expand Processor Loader.
Local Open Scope string_scope.

(** ** Data *)

Record MockSignatureConfig := MkMockSignature { ms_Valid : bool; ms_PublicKey : string }.

(** [Config] with its [MockTrigger]; the headers in the order in which [range]
    visits them. *)
Record TestConfig := MkTestConfig {
  tc_NATS : option NATSTrigger; tc_HTTP : option HTTPTrigger;
  tc_MockTime : string; tc_Headers : list (string * string); tc_Query : QueryParams;
  tc_MockSignature : option MockSignatureConfig;
}.

(** A payload is the raw JSON, absent when nil. *)
Record ExpectedOutput := MkExpected {
  eo_Subject : string; eo_URL : string; eo_Method : string; eo_StatusCode : Z;
  eo_Payload : option string; eo_Headers : gmap string string;
}.

(** [encoding/json] on the documents the tester reads. *)
Class TestCodec := {
  (** [Unmarshal] over a configuration, an error being ignored; [None] when the
      document is [null], which makes the pointer nil *)
  config_Unmarshal : string → TestConfig → option TestConfig;
  (** what [Unmarshal] leaves in a map of buckets, nil included *)
  kv_Unmarshal : string → option (gmap string (gmap string value));
  outputs_Unmarshal : string → option (list ExpectedOutput);
  output_Unmarshal : string → option ExpectedOutput;
  (** a document in canonical form: [Unmarshal] into an [any], then [Marshal] *)
  canonical_JSON : string → option string;
}.

Inductive mismatch :=
| SubjectMismatch (got want : string) | URLMismatch (got want : string) | MethodMismatch (got want : string)
| StatusMismatch (got want : Z)
| ActualNotJSON | ExpectedNotJSON | PayloadMismatch (got want : string)
| MissingHeader (key : string) | HeaderMismatch (key : string)
| NoActionKind.

Inductive output_error :=
| OutputNotRead | OutputNotParsed | ActionCount (got want : nat) | ActionMismatch (i : nat) (e : mismatch).

Inductive setup_error :=
| RuleNotLoaded (e : source_error) | RuleIndexOutOfRange (index : Z) (rules : nat) | BadMockTime (s : string)
| RulesRejected (e : load_error).

Inductive case_error :=
| MessageNotRead | NoMockTrigger | ProcessingError (e : context_error) | WrongMatch (expected got : bool)
| OutputInvalid (e : output_error) | SetupFailed (e : setup_error).

(** [Result]; it has passed when it has no error. *)
Record Result := MkResult { rs_File : string; rs_Passed : bool; rs_Error : option case_error; rs_Details : option (string * nat) }.
Record Summary := MkSummary { su_Total : nat; su_Passed : nat; su_Failed : nat; su_Results : list Result }.

(** A suite: the rule file, the name of its directory and its entries, the names
    of its test files, its mocks, and the rule of the file it is for, -1 for all. *)
Record Group := MkGroup {
  gr_Rule : string * option string; gr_Dir : string; gr_Entries : list fs; gr_TestFiles : list string;
  gr_KVData : option (gmap string (gmap string value)); gr_Config : TestConfig; gr_Index : Z;
}.

(** ** Expected outputs *)

Section outputs.
Context `{TestCodec}.

Definition validatePayload (payload : string) (passthrough : bool) (rawPayload expectedPayload : string) : result mismatch unit :=
  actual ← of_option ActualNotJSON (canonical_JSON (if passthrough then rawPayload else payload));
  expected ← of_option ExpectedNotJSON (canonical_JSON expectedPayload);
  guard_err (negb (String.eqb actual expected)) (PayloadMismatch actual expected).

(** The header an error names is the first that [range] comes to. *)
Fixpoint validate_headers_loop (actual : gmap string string) (expected : list (string * string)) : result mismatch unit :=
  match expected with
  | [] => Ok tt
  | (key, want) :: rest =>
      match actual !! key with
      | None => Err (MissingHeader key)
      | Some got => if String.eqb got want then validate_headers_loop actual rest else Err (HeaderMismatch key)
      end
  end.
Definition validateHeaders (actual expected : gmap string string) : result mismatch unit :=
  validate_headers_loop actual (map_to_list expected).

(** The part that is the same for the three kinds of action. *)
Definition validate_body (payload : string) (passthrough : bool) (rawPayload : string) (headers : gmap string string)
    (expected : ExpectedOutput) : result mismatch unit :=
  _ ← match eo_Payload expected with
      | Some want => validatePayload payload passthrough rawPayload want
      | None => Ok tt
      end;
  if (0 <? size (eo_Headers expected))%nat then validateHeaders headers (eo_Headers expected) else Ok tt.

Definition differs (want got : string) : bool := negb (String.eqb want "") && negb (String.eqb got want).

Definition validateNATSOutput (action : NATSAction) (expected : ExpectedOutput) : result mismatch unit :=
  _ ← guard_err (differs (eo_Subject expected) (na_Subject action)) (SubjectMismatch (na_Subject action) (eo_Subject expected));
  validate_body (na_Payload action) (na_Passthrough action) (na_RawPayload action) (na_Headers action) expected.

Definition validateHTTPOutput (action : HTTPAction) (expected : ExpectedOutput) : result mismatch unit :=
  _ ← guard_err (differs (eo_URL expected) (ha_URL action)) (URLMismatch (ha_URL action) (eo_URL expected));
  _ ← guard_err (differs (eo_Method expected) (ha_Method action)) (MethodMismatch (ha_Method action) (eo_Method expected));
  validate_body (ha_Payload action) (ha_Passthrough action) (ha_RawPayload action) (ha_Headers action) expected.

Definition shown_status (code : Z) : Z := if (code =? 0)%Z then 200%Z else code.
Definition validateRespondOutput (action : RespondAction) (expected : ExpectedOutput) : result mismatch unit :=
  let got := shown_status (ra_StatusCode action) in
  _ ← guard_err (negb (eo_StatusCode expected =? 0)%Z && negb (got =? eo_StatusCode expected)%Z)
        (StatusMismatch got (eo_StatusCode expected));
  validate_body (ra_Payload action) (ra_Passthrough action) (ra_RawPayload action) (ra_Headers action) expected.

Definition validateSingleOutput (action : Action) (expected : ExpectedOutput) : result mismatch unit :=
  match a_NATS action, a_HTTP action, a_Respond action with
  | Some a, _, _ => validateNATSOutput a expected
  | None, Some a, _ => validateHTTPOutput a expected
  | None, None, Some a => validateRespondOutput a expected
  | None, None, None => Err NoActionKind
  end.

Fixpoint validate_each (i : nat) (actions : list Action) (expected : list ExpectedOutput) : result output_error unit :=
  match actions, expected with
  | a :: actions, e :: expected =>
      match validateSingleOutput a e with
      | Ok _ => validate_each (S i) actions expected
      | Err err => Err (ActionMismatch i err)
      end
  | _, _ => Ok tt
  end.

(** [content]: what reading the output file gives; a list of outputs first, then
    a single one. *)
Definition validateOutputMultiple (actions : list Action) (content : option string) : result output_error unit :=
  match content with
  | None => Err OutputNotRead
  | Some bytes =>
      match outputs_Unmarshal bytes with
      | Some expected =>
          _ ← guard_err (negb (length actions =? length expected)%nat) (ActionCount (length actions) (length expected));
          validate_each 1 actions expected
      | None =>
          match output_Unmarshal bytes with
          | None => Err OutputNotParsed
          | Some expected =>
              match actions with
              | [a] => map_err (ActionMismatch 1) (validateSingleOutput a expected)
              | _ => Err (ActionCount (length actions) 1)
              end
          end
      end
  end.
End outputs.

(** ** Finding the suites *)

Definition fs_name (f : fs) : string := match f with FsFile n _ | FsDir n _ => n end.
Definition is_dir (f : fs) : bool := match f with FsDir _ _ => true | FsFile _ _ => false end.
(** [os.Stat] and [os.ReadFile] of a name in a directory. *)
Definition dir_entry (entries : list fs) (name : string) : option fs := List.find (λ f, String.eqb (fs_name f) name) entries.
Definition read_file (entries : list fs) (name : string) : option string :=
  match dir_entry entries name with Some (FsFile _ content) => content | _ => None end.

Definition TrimExt (name : string) : string := stake (slen name - slen (Ext name)) name.
Definition TrimSuffix (s suffix : string) : string := if HasSuffix s suffix then stake (slen s - slen suffix) s else s.

Definition rule_prefix : string := "_rule_".
Definition parseRuleIndex (name : string) : Z :=
  match CutPrefix name rule_prefix with
  | None => (-1)%Z
  | Some rest => match Atoi rest with Some n => if (n <? 0)%Z then (-1)%Z else n | None => (-1)%Z end
  end.

Definition findRuleSubDirs (entries : list fs) : list string :=
  merge_sort String.le
    (map fs_name (List.filter (λ e, is_dir e && HasPrefix (fs_name e) rule_prefix && (0 <=? parseRuleIndex (fs_name e))%Z) entries)).

(** The pattern [*.json] in a directory whose path has no special character. *)
Definition is_test_file (name : string) : bool :=
  negb (HasSuffix name "_output.json") && negb (String.eqb name "mock_kv_data.json") && negb (String.eqb name "_test_config.json").
Definition collectTestFiles (entries : list fs) : list string :=
  List.filter is_test_file (List.filter (λ n, HasSuffix n ".json") (map fs_name entries)).

Definition testDisplayName (dir file : string) : string :=
  if (0 <=? parseRuleIndex dir)%Z then dir ++ "/" ++ file else file.

Section collect.
Context `{TestCodec}.

Definition empty_config : TestConfig := MkTestConfig None None "" [] ∅ None.

(** [None]: the configuration is nil when its headers are read, a panic. *)
Definition loadTestConfig (content : option string) : option TestConfig :=
  match content with
  | None => Some empty_config
  | Some bytes =>
      c ← config_Unmarshal bytes empty_config;
      Some (MkTestConfig (tc_NATS c) (tc_HTTP c) (tc_MockTime c) (map_to_list (canonical_headers (tc_Headers c)))
              (tc_Query c) (tc_MockSignature c))
  end.

Definition loadMockKV (content : option string) : option (gmap string (gmap string value)) := content ≫= kv_Unmarshal.

(** A suite in a directory, if it has test files. *)
Definition group_in (rule : string * option string) (dir : string) (entries : list fs) (index : Z) : option (list Group) :=
  let validTests := collectTestFiles entries in
  if (length validTests =? 0)%nat then Some []
  else
    config ← loadTestConfig (read_file entries "_test_config.json");
    Some [MkGroup rule dir entries validTests (loadMockKV (read_file entries "mock_kv_data.json")) config index].

Fixpoint concat_groups (l : list (option (list Group))) : option (list Group) :=
  match l with
  | [] => Some []
  | g :: rest => g ← g; rest ← concat_groups rest; Some (g ++ rest)%list
  end.

Definition suite_of (rule : string * option string) (testDir : option fs) : option (list Group) :=
  match testDir with
  | Some (FsDir name entries) =>
      match findRuleSubDirs entries with
      | [] => group_in rule name entries (-1)
      | dirs => concat_groups (map (λ d, group_in rule d
                  (match dir_entry entries d with Some (FsDir _ es) => es | _ => [] end) (parseRuleIndex d)) dirs)
      end
  | _ => Some []
  end.

(** The walk: [around] holds the entries beside [f]. *)
Fixpoint collect (around : list fs) (path : string) (f : fs) : option (list Group) :=
  match f with
  | FsFile name content =>
      if is_yaml name then suite_of (path ++ "/" ++ name, content) (dir_entry around (TrimExt name ++ "_test")) else Some []
  | FsDir name entries =>
      if HasSuffix name "_test" then Some []
      else concat_groups (map (collect entries (path ++ "/" ++ name)) entries)
  end.
End collect.

(** ** Running *)

Section run.
Context `{LoaderEnv} `{Env} `{TestCodec}.

(** A state with these mocks: a cache that holds them, when there are any. *)
Definition mock_cache (kvData : gmap string (gmap string value)) : LocalKVCache :=
  map_fold (λ bucket keys c, map_fold (λ key v c, cache_Set c bucket key v) c keys) NewLocalKVCache kvData.
Definition mock_state (kvData : option (gmap string (gmap string value))) (w : World) : St :=
  MkSt (MkSig false false "") ∅ (mock_cache <$> kvData) 0 w.

Definition buckets_of (kvData : option (gmap string (gmap string value))) : list string :=
  match kvData with Some m => map fst (map_to_list m) | None => [] end.

(** The rules of a file that a suite is for. *)
Definition select_rule (ruleIndex : Z) (rules : list Rule) : result setup_error (list Rule) :=
  if (0 <=? ruleIndex)%Z then
    if (Z.of_nat (length rules) <=? ruleIndex)%Z then Err (RuleIndexOutOfRange ruleIndex (length rules))
    else Ok (take 1 (drop (Z.to_nat ruleIndex) rules))
  else Ok rules.

Definition mock_time (s : string) : result setup_error (list Option) :=
  if String.eqb s "" then Ok []
  else match ParseRFC3339 s with None => Err (BadMockTime s) | Some t => Ok [WithTimeProvider (MockTimeProvider t)] end.

(** The options, in order. *)
Definition test_options (kvData : option (gmap string (gmap string value))) (config : TestConfig) : result setup_error (list Option) :=
  clock ← mock_time (tc_MockTime config);
  Ok ((match kvData with Some _ => [WithKVContext (MkKVContext ∅)] | None => [] end)
      ++ (match tc_MockSignature config with
          | Some _ => [WithSignatureVerification (NewSignatureVerification true "Nats-Public-Key" "Nats-Signature")]
          | None => [] end)
      ++ clock)%list.

Definition with_options (p : Processor) (opts : list Option) : Processor := foldl (λ p o, o p) p opts.

(** The processor and the state it starts in, and the world after it. *)
Definition setupTestProcessor (rule : string * option string) (ruleIndex : Z)
    (kvData : option (gmap string (gmap string value))) (config : TestConfig) (w : World)
    : result setup_error (Processor * St) * World :=
  let '(loaded, st) := LoadFromFile (NewLoader (buckets_of kvData)) rule (mock_state None w) in
  let '(now, w) := time_Now (st_world st) in
  (rules ← map_err RuleNotLoaded loaded;
   rules ← select_rule ruleIndex rules;
   opts ← test_options kvData config;
   p ← map_err RulesRejected (LoadRules now (with_options (NewProcessor None None None now) opts) rules);
   Ok (p, mock_state kvData w), w).

(** A message through the processor, by the trigger that is mocked. *)
Definition dispatch (config : TestConfig) (message : string) : option (PM (result context_error Outcome)) :=
  match tc_NATS config, tc_HTTP config with
  | Some t, _ => Some (ProcessNATS (nt_Subject t) message (tc_Headers config))
  | None, Some t => Some (ProcessHTTP (ht_Path t) (ht_Method t) message (tc_Headers config) (tc_Query config))
  | None, None => None
  end.

Definition output_name (file : string) : string := TrimSuffix file ".json" ++ "_output.json".

(** What the outcome of a case comes to. *)
Definition case_verdict (entries : list fs) (file : string) (outcome : result context_error Outcome) : option case_error :=
  match outcome with
  | Err e => Some (ProcessingError e)
  | Ok outcome =>
      let shouldMatch := HasPrefix file "match_" in
      let matched := (0 <? length (All outcome))%nat in
      if negb (Bool.eqb matched shouldMatch) then Some (WrongMatch shouldMatch matched)
      else if matched then
        match dir_entry entries (output_name file) with
        | None => None
        | Some _ =>
            match validateOutputMultiple (All outcome) (read_file entries (output_name file)) with
            | Ok _ => None
            | Err e => Some (OutputInvalid e)
            end
        end
      else None
  end.

Definition verdict_details (verbose : bool) (file : string) (outcome : result context_error Outcome) (e : option case_error) : option (string * nat) :=
  match e, outcome with
  | Some (OutputInvalid _), Ok outcome => if verbose then Some (output_name file, length (All outcome)) else None
  | _, _ => None
  end.

Definition failed (name : string) (e : case_error) : Result := MkResult name false (Some e) None.

Definition runSingleTestCase (verbose : bool) (g : Group) (file : string) : PM Result :=
  let name := testDisplayName (gr_Dir g) file in
  match read_file (gr_Entries g) file with
  | None => mret (failed name MessageNotRead)
  | Some message =>
      match dispatch (gr_Config g) message with
      | None => mret (failed name NoMockTrigger)
      | Some process =>
          outcome ← process;
          let e := case_verdict (gr_Entries g) file outcome in
          mret (MkResult name (match e with None => true | Some _ => false end) e (verdict_details verbose file outcome e))
      end
  end.

(** *** One after the other *)

Definition add_result (s : Summary) (r : Result) : Summary :=
  MkSummary (S (su_Total s)) (if rs_Passed r then S (su_Passed s) else su_Passed s)
    (if rs_Passed r then su_Failed s else S (su_Failed s)) (su_Results s ++ [r])%list.
Definition no_results : Summary := MkSummary 0 0 0 [].

Fixpoint run_cases (verbose : bool) (g : Group) (files : list string) (s : Summary) : PM Summary :=
  match files with
  | [] => mret s
  | file :: rest => r ← runSingleTestCase verbose g file; run_cases verbose g rest (add_result s r)
  end.

(** The results of a suite whose rule does not load. *)
Definition load_failures (g : Group) (e : setup_error) : list Result :=
  map (λ file, failed (testDisplayName (gr_Dir g) file) (SetupFailed e)) (gr_TestFiles g).

Definition run_group (verbose : bool) (g : Group) (s : Summary) (w : World) : Summary * World :=
  match setupTestProcessor (gr_Rule g) (gr_Index g) (gr_KVData g) (gr_Config g) w with
  | (Err e, w) => (foldl add_result s (load_failures g e), w)
  | (Ok ps, w) => let '(s, ps) := run_cases verbose g (gr_TestFiles g) s ps in (s, st_world ps.2)
  end.

Fixpoint runTestsSequential (verbose : bool) (groups : list Group) (s : Summary) (w : World) : Summary * World :=
  match groups with
  | [] => (s, w)
  | g :: rest => let '(s, w) := run_group verbose g s w in runTestsSequential verbose rest s w
  end.

(** *** By workers

    The goroutine that feeds the queue, the queue of at most 100 jobs, the
    workers, each idle or with a job, and the results the main goroutine has
    received.  A case runs in one step, the last of its job: what the cases of a
    suite share, the throttle table and the caches, is behind locks. *)

(** A job: the suite, the number of its processor, the file. *)
Record Job := MkJob { jb_Group : Group; jb_Processor : nat; jb_File : string }.
Definition maxJobs : nat := 100.

(** What the feeder still has to do. *)
Inductive feed := FeedGroup (g : Group) | FeedJob (j : Job) | FeedFailure (r : Result).

Record pool := MkPool {
  po_feed : list feed; po_queue : list Job; po_workers : list (option Job);
  po_processors : list (Processor * St); po_world : World; po_summary : Summary;
}.

Definition runTestsParallel (workers : nat) (groups : list Group) (w : World) : pool :=
  MkPool (map FeedGroup groups) [] (replicate workers None) [] w no_results.

(** One world is threaded through the processors. *)
Definition in_world (w : World) (st : St) : St :=
  MkSt (st_sig st) (st_parseCache st) (st_localCache st) (st_verifications st) w.

Inductive pool_step (verbose : bool) : pool → pool → Prop :=
| step_setup g rest q ws ps w s w' ps' todo :
    setupTestProcessor (gr_Rule g) (gr_Index g) (gr_KVData g) (gr_Config g) w = (ps', w') →
    todo = match ps' with
      | Ok _ => map (λ file, FeedJob (MkJob g (length ps) file)) (gr_TestFiles g)
      | Err e => map FeedFailure (load_failures g e)
      end →
    pool_step verbose (MkPool (FeedGroup g :: rest) q ws ps w s)
      (MkPool (todo ++ rest)%list q ws (match ps' with Ok p => ps ++ [p] | Err _ => ps end)%list w' s)
| step_enqueue j rest q ws ps w s :
    (length q < maxJobs)%nat →
    pool_step verbose (MkPool (FeedJob j :: rest) q ws ps w s) (MkPool rest (q ++ [j])%list ws ps w s)
| step_failure r rest q ws ps w s :
    pool_step verbose (MkPool (FeedFailure r :: rest) q ws ps w s) (MkPool rest q ws ps w (add_result s r))
| step_take i j f q ws ps w s :
    ws !! i = Some None →
    pool_step verbose (MkPool f (j :: q) ws ps w s) (MkPool f q (<[i := Some j]> ws) ps w s)
| step_finish i j f q ws ps w s p st r p' st' :
    ws !! i = Some (Some j) → ps !! jb_Processor j = Some (p, st) →
    runSingleTestCase verbose (jb_Group j) (jb_File j) (p, in_world w st) = (r, (p', st')) →
    pool_step verbose (MkPool f q ws ps w s)
      (MkPool f q (<[i := None]> ws) (<[jb_Processor j := (p', st')]> ps) (st_world st') (add_result s r)).

(** The results are all in: nothing is fed, queued or running. *)
Definition pool_done (p : pool) : Prop := po_feed p = [] ∧ po_queue p = [] ∧ Forall (λ x, x = None) (po_workers p).

(** *** Batches *)

Inductive walk_error := RootNotFound | ConfigIsNil.

(** A trigger in a word. *)
Definition triggerSummary (r : Rule) : string :=
  match tr_NATS (r_Trigger r), tr_HTTP (r_Trigger r), tr_Schedule (r_Trigger r) with
  | Some t, _, _ => "NATS " ++ nt_Subject t
  | None, Some t, _ => "HTTP " ++ (if String.eqb (ht_Method t) "" then "*" else ht_Method t) ++ " " ++ ht_Path t
  | None, None, Some t => "Schedule " ++ st_Cron t
  | None, None, None => "unknown"
  end.

(** [collectTestGroups]: what the path of the rules is, and what lies beside it. *)
Definition collectTestGroups (around : list fs) (root : option fs) : result walk_error (list Group) :=
  f ← of_option RootNotFound root;
  of_option ConfigIsNil (collect around "" f).

(** Without workers; with workers the groups go to [runTestsParallel]. *)
Definition RunBatchTest (verbose : bool) (around : list fs) (root : option fs) (w : World) : result walk_error Summary :=
  groups ← collectTestGroups around root;
  Ok (runTestsSequential verbose groups no_results w).1.

(** *** One rule and one message *)

Inductive check_error :=
| RuleFileNotLoaded | ManyRules (n : nat) | CheckIndex (index : Z) (rules : nat) | NoValidTrigger
| CheckSetup (e : setup_error) | CheckMessage | CheckProcessing (e : context_error).

Definition loadSingleRuleFile (content : option string) : option (list Rule) := content ≫= yaml_Unmarshal.

(** The rule an index selects, -1 being the only one. *)
Definition resolve_index (ruleIndex : Z) (rules : list Rule) : result check_error Z :=
  let n := length rules in
  if (ruleIndex =? -1)%Z then if (1 <? n)%nat then Err (ManyRules n) else Ok 0%Z
  else if ((ruleIndex <? 0) || (Z.of_nat n <=? ruleIndex))%Z then Err (CheckIndex ruleIndex n) else Ok ruleIndex.

Definition check_config (r : Rule) (subjectOverride : string) (headers : list (string * string)) (query : QueryParams)
    : result check_error TestConfig :=
  match tr_NATS (r_Trigger r), tr_HTTP (r_Trigger r) with
  | Some t, _ =>
      let subject := if String.eqb subjectOverride "" then nt_Subject t else subjectOverride in
      Ok (MkTestConfig (Some (MkNATSTrigger subject (nt_Throttle t) (nt_Debounce t) (nt_Mode t) (nt_Reply t) (nt_Queue t)))
            None "" headers query None)
  | None, Some t => Ok (MkTestConfig None (Some t) "" headers query None)
  | None, None => Err NoValidTrigger
  end.

(** [QuickCheck]: the actions it would show. *)
Definition QuickCheck (rule : string * option string) (message : option string) (subjectOverride : string)
    (kvMock : option string) (ruleIndex : Z) (headers : list (string * string)) (query : QueryParams) (w : World)
    : result check_error (list Action) :=
  match loadSingleRuleFile rule.2 with
  | None | Some [] => Err RuleFileNotLoaded
  | Some rules =>
      i ← resolve_index ruleIndex rules;
      r ← of_option (CheckIndex i (length rules)) (rules !! Z.to_nat i);
      config ← check_config r subjectOverride headers query;
      let '(ps, _) := setupTestProcessor rule i (loadMockKV kvMock) config w in
      ps ← map_err CheckSetup ps;
      message ← of_option CheckMessage message;
      process ← of_option NoValidTrigger (dispatch config message);
      outcome ← map_err CheckProcessing (process ps).1;
      Ok (All outcome)
  end.

(** *** Linting *)

Fixpoint lint_files (files : list (string * option string)) (st : St) : list (string * bool) :=
  match files with
  | [] => []
  | f :: rest => let '(r, st) := LoadFromFile (NewLoader []) f st in (f.1, is_ok r) :: lint_files rest st
  end.

(** Every file with whether it passes; the command fails if one does not. *)
Definition Lint (root : fs) (w : World) : list (string * bool) := lint_files (yaml_files "" root) (mock_state None w).
Definition lint_fails (report : list (string * bool)) : bool := existsb (λ r, negb r.2) report.
End run.

(** ** Specification *)

(** What a file expects of a payload, of headers, of an action. *)
Section specification.
Context `{TestCodec}.

Definition body_meets (payload : string) (headers : gmap string string) (e : ExpectedOutput) : Prop :=
  (∀ want, eo_Payload e = Some want → is_Some (canonical_JSON payload) ∧ canonical_JSON payload = canonical_JSON want) ∧
  eo_Headers e ⊆ headers.

Definition sent_payload (passthrough : bool) (rawPayload payload : string) : string := if passthrough then rawPayload else payload.

Definition action_meets (a : Action) (e : ExpectedOutput) : Prop :=
  match a_NATS a, a_HTTP a, a_Respond a with
  | Some a, _, _ => (eo_Subject e = "" ∨ na_Subject a = eo_Subject e) ∧
      body_meets (sent_payload (na_Passthrough a) (na_RawPayload a) (na_Payload a)) (na_Headers a) e
  | None, Some a, _ => (eo_URL e = "" ∨ ha_URL a = eo_URL e) ∧ (eo_Method e = "" ∨ ha_Method a = eo_Method e) ∧
      body_meets (sent_payload (ha_Passthrough a) (ha_RawPayload a) (ha_Payload a)) (ha_Headers a) e
  | None, None, Some a => (eo_StatusCode e = 0%Z ∨ shown_status (ra_StatusCode a) = eo_StatusCode e) ∧
      body_meets (sent_payload (ra_Passthrough a) (ra_RawPayload a) (ra_Payload a)) (ra_Headers a) e
  | None, None, None => False
  end.

(** A list of outputs, one for each action, or a single one for a single action. *)
Definition as_expected (actions : list Action) (bytes : string) : Prop :=
  match outputs_Unmarshal bytes with
  | Some expected => Forall2 action_meets actions expected
  | None => ∃ a e, output_Unmarshal bytes = Some e ∧ actions = [a] ∧ action_meets a e
  end.
End specification.

(** The totals of a summary are those of its results. *)
Record accounted (s : Summary) : Prop := {
  sm_total : su_Total s = length (su_Results s);
  sm_passed : su_Passed s = length (List.filter rs_Passed (su_Results s));
  sm_failed : su_Failed s = length (List.filter (λ r, negb (rs_Passed r)) (su_Results s));
}.

(** The names under which the cases of a suite are reported. *)
Definition case_names (g : Group) : list string := map (testDisplayName (gr_Dir g)) (gr_TestFiles g).

(** ** Lemmas *)

Section lemmas.
Context `{TestCodec}.

Lemma guard_bind {E} (bad : bool) (e : E) (m : result E unit) :
  (_ ← guard_err bad e; m) = Ok tt ↔ bad = false ∧ m = Ok tt.
Proof. unfold guard_err. destruct bad; cbn; naive_solver. Qed.

Lemma differs_false want got : differs want got = false ↔ want = "" ∨ got = want.
Proof. unfold differs. destruct (String.eqb_spec want ""), (String.eqb_spec got want); naive_solver. Qed.

Lemma validatePayload_ok payload passthrough raw want :
  validatePayload payload passthrough raw want = Ok tt ↔
  is_Some (canonical_JSON (sent_payload passthrough raw payload)) ∧
  canonical_JSON (sent_payload passthrough raw payload) = canonical_JSON want.
Proof.
  unfold validatePayload, sent_payload. destruct (canonical_JSON (if passthrough then raw else payload)) as [a|]; cbn.
  2: { split; [done|]. by intros [[]]. }
  destruct (canonical_JSON want) as [b|]; cbn; [|split; [done|naive_solver]].
  unfold guard_err. destruct (String.eqb_spec a b) as [->|]; cbn; split; naive_solver.
Qed.

Lemma validate_headers_loop_ok actual expected :
  validate_headers_loop actual expected = Ok tt ↔ ∀ k v, (k, v) ∈ expected → actual !! k = Some v.
Proof.
  induction expected as [|[k v] rest IH]; cbn [validate_headers_loop].
  { split; [|done]. by intros _ k v Hk%elem_of_nil. }
  destruct (actual !! k) as [got|] eqn:Ek.
  - destruct (String.eqb_spec got v) as [->|Hne].
    + rewrite IH. split; [|by auto using list_elem_of_further]. intros Hr k' v' [[= -> ->]|?]%elem_of_cons; auto.
    + split; [done|]. intros Hr. specialize (Hr k v ltac:(by left)). congruence.
  - split; [done|]. intros Hr. specialize (Hr k v ltac:(by left)). congruence.
Qed.

Lemma validateHeaders_ok actual expected : validateHeaders actual expected = Ok tt ↔ expected ⊆ actual.
Proof.
  unfold validateHeaders. rewrite validate_headers_loop_ok, map_subseteq_spec.
  by setoid_rewrite elem_of_map_to_list.
Qed.

Lemma validate_body_ok payload passthrough raw headers e :
  validate_body payload passthrough raw headers e = Ok tt ↔ body_meets (sent_payload passthrough raw payload) headers e.
Proof.
  unfold validate_body, body_meets.
  assert ((if (0 <? size (eo_Headers e))%nat then validateHeaders headers (eo_Headers e) else Ok tt) = Ok tt ↔
    eo_Headers e ⊆ headers) as Hh.
  { destruct (Nat.ltb_spec 0 (size (eo_Headers e))) as [|Hs]; [apply validateHeaders_ok|].
    split; [|done]. intros _. assert (eo_Headers e = ∅) as -> by (apply map_size_empty_iff; lia). apply map_empty_subseteq. }
  destruct (eo_Payload e) as [want|].
  - destruct (validatePayload payload passthrough raw want) as [[]|er] eqn:Ev; cbn [mbind result_bind].
    + rewrite Hh. apply validatePayload_ok in Ev. split; [intros ?; split; [by intros ? [= <-]|done]|by intros [_ ?]].
    + split; [done|]. intros [Hp _]. specialize (Hp want eq_refl). apply validatePayload_ok in Hp. congruence.
  - cbn [mbind result_bind]. rewrite Hh. naive_solver.
Qed.

Lemma validateSingleOutput_ok a e : validateSingleOutput a e = Ok tt ↔ action_meets a e.
Proof.
  unfold validateSingleOutput, action_meets. destruct (a_NATS a) as [n|]; [|destruct (a_HTTP a) as [h|]; [|destruct (a_Respond a) as [r|]]].
  - unfold validateNATSOutput. by rewrite guard_bind, differs_false, validate_body_ok.
  - unfold validateHTTPOutput. by rewrite !guard_bind, !differs_false, validate_body_ok.
  - unfold validateRespondOutput. rewrite guard_bind, validate_body_ok.
    destruct (Z.eqb_spec (eo_StatusCode e) 0), (Z.eqb_spec (shown_status (ra_StatusCode r)) (eo_StatusCode e)); cbn; naive_solver.
  - split; [done|intros []].
Qed.

Lemma validate_each_ok i actions expected : length actions = length expected →
  validate_each i actions expected = Ok tt ↔ Forall2 action_meets actions expected.
Proof.
  revert i expected. induction actions as [|a actions IH]; intros i [|e expected] Hl; try done; cbn [validate_each].
  rewrite Forall2_cons, <- validateSingleOutput_ok, <- (IH (S i) expected) by (injection Hl; auto).
  destruct (validateSingleOutput a e) as [[]|]; naive_solver.
Qed.

Lemma validateOutputMultiple_ok actions content :
  validateOutputMultiple actions content = Ok tt ↔ ∃ bytes, content = Some bytes ∧ as_expected actions bytes.
Proof.
  unfold validateOutputMultiple. destruct content as [bytes|]; [|naive_solver].
  transitivity (as_expected actions bytes); [|unfold as_expected; naive_solver]. unfold as_expected.
  destruct (outputs_Unmarshal bytes) as [expected|].
  - rewrite guard_bind, negb_false_iff, Nat.eqb_eq. split.
    + intros [Hl Hv]. by apply validate_each_ok in Hv.
    + intros Hf. pose proof (Forall2_length _ _ _ Hf). split; [done|]. by apply validate_each_ok.
  - destruct (output_Unmarshal bytes) as [e|]; [|naive_solver].
    destruct actions as [|a [|]]; [naive_solver| |naive_solver].
    rewrite map_err_Ok, validateSingleOutput_ok. naive_solver.
Qed.
End lemmas.

Lemma no_results_accounted : accounted no_results.
Proof. done. Qed.

Lemma add_result_accounted s r : accounted s → accounted (add_result s r).
Proof.
  intros [Ht Hp Hf]. split; cbn [add_result su_Total su_Passed su_Failed su_Results].
  - rewrite length_app, Ht. cbn. lia.
  - rewrite List.filter_app, length_app, Hp. cbn. destruct (rs_Passed r); cbn; lia.
  - rewrite List.filter_app, length_app, Hf. cbn. destruct (rs_Passed r); cbn; lia.
Qed.

Lemma add_results_results rs s : su_Results (foldl add_result s rs) = (su_Results s ++ rs)%list ∧
  (accounted s → accounted (foldl add_result s rs)).
Proof.
  revert s. induction rs as [|r rs IH]; intros s; cbn [foldl]; [by rewrite app_nil_r|].
  destruct (IH (add_result s r)) as [-> Ha]. cbn [add_result su_Results]. rewrite <- app_assoc. split; [done|].
  intros. by apply Ha, add_result_accounted.
Qed.

Section running.
Context `{LoaderEnv} `{Env} `{TestCodec}.

(** The states of a suite's own processor: as it is set up, and after each case of
    the suite that has run with it, whatever the world was in between. *)
Inductive suite_state (verbose : bool) (g : Group) : list string → Processor → St → Prop :=
| suite_set_up w p st w' :
    setupTestProcessor (gr_Rule g) (gr_Index g) (gr_KVData g) (gr_Config g) w = (Ok (p, st), w') →
    suite_state verbose g [] p st
| suite_ran ran p st w file r p' st' :
    suite_state verbose g ran p st →
    runSingleTestCase verbose g file (p, in_world w st) = (r, (p', st')) →
    suite_state verbose g (ran ++ [file])%list p' st'.

(** A result of a case of a suite: of the case run with the suite's own processor,
    after others of its cases; or of the suite that did not load. *)
Inductive result_of (verbose : bool) (g : Group) (file : string) : Result → Prop :=
| case_result ran p st w :
    suite_state verbose g ran p st → (ran ++ [file])%list ⊆+ gr_TestFiles g →
    result_of verbose g file (runSingleTestCase verbose g file (p, in_world w st)).1
| suite_not_loaded e w :
    (setupTestProcessor (gr_Rule g) (gr_Index g) (gr_KVData g) (gr_Config g) w).1 = Err e → file ∈ gr_TestFiles g →
    result_of verbose g file (failed (testDisplayName (gr_Dir g) file) (SetupFailed e)).

Definition cases_of (g : Group) : list (Group * string) := map (pair g) (gr_TestFiles g).
Definition case_name (c : Group * string) : string := testDisplayName (gr_Dir c.1) c.2.
Definition reports (verbose : bool) : list (Group * string) → list Result → Prop :=
  Forall2 (λ c r, result_of verbose c.1 c.2 r).

(** A summary to which the results of these cases have been added. *)
Definition extends (verbose : bool) (cases : list (Group * string)) (s s' : Summary) : Prop :=
  ∃ rs, su_Results s' = (su_Results s ++ rs)%list ∧ reports verbose cases rs ∧ (accounted s → accounted s').

Lemma results_extends_trans verbose cases cases' s s' s'' :
  extends verbose cases s s' → extends verbose cases' s' s'' → extends verbose (cases ++ cases')%list s s''.
Proof.
  intros (rs & Hr & Ha & Hc) (rs' & Hr' & Ha' & Hc'). exists (rs ++ rs')%list.
  rewrite Hr', Hr, <- app_assoc. split_and!; [done|by apply Forall2_app|auto].
Qed.

Lemma results_extends_refl verbose s : extends verbose [] s s.
Proof. exists []. rewrite app_nil_r. split_and!; [done|constructor|done]. Qed.

Lemma extends_result verbose g file s r : result_of verbose g file r → extends verbose [(g, file)] s (add_result s r).
Proof. intros Hr. exists [r]. split_and!; [done|by repeat constructor|apply add_result_accounted]. Qed.

Lemma runSingleTestCase_file verbose g file ps :
  rs_File (runSingleTestCase verbose g file ps).1 = testDisplayName (gr_Dir g) file.
Proof.
  unfold runSingleTestCase. destruct (read_file _ _) as [message|]; [|done].
  destruct (dispatch _ _) as [process|]; [|done]. unfold mbind, PM_bind. by destruct (process ps) as [outcome ps'].
Qed.

Lemma result_of_file verbose g file r : result_of verbose g file r → rs_File r = testDisplayName (gr_Dir g) file.
Proof. destruct 1; [apply runSingleTestCase_file|done]. Qed.

Lemma reports_names verbose cases rs : reports verbose cases rs → map rs_File rs = map case_name cases.
Proof. induction 1 as [|c r cases rs Hr _ IH]; [done|]. cbn. rewrite IH. f_equal. by eapply result_of_file. Qed.

Lemma names_of_cases groups : map case_name (concat (map cases_of groups)) = concat (map case_names groups).
Proof. rewrite concat_map, map_map. f_equal. apply map_ext. intros g. unfold cases_of, case_names. by rewrite map_map. Qed.

Lemma load_failures_report verbose g e w :
  (setupTestProcessor (gr_Rule g) (gr_Index g) (gr_KVData g) (gr_Config g) w).1 = Err e →
  reports verbose (cases_of g) (load_failures g e).
Proof.
  intros He. unfold load_failures, cases_of, reports. apply Forall2_fmap, Forall_Forall2_diag, Forall_forall.
  intros file Hin. cbn. by eapply suite_not_loaded.
Qed.

Lemma in_own_world st : in_world (st_world st) st = st.
Proof. by destruct st. Qed.

Lemma run_cases_extends verbose g ran files s p st :
  suite_state verbose g ran p st → (ran ++ files)%list = gr_TestFiles g →
  extends verbose (map (pair g) files) s (run_cases verbose g files s (p, st)).1.
Proof.
  revert ran s p st. induction files as [|file rest IH]; intros ran s p st Hst Hf; cbn [run_cases map]; [apply results_extends_refl|].
  unfold mbind, PM_bind.
  assert (result_of verbose g file (runSingleTestCase verbose g file (p, st)).1) as Ha.
  { rewrite <- (in_own_world st) at 1. apply (case_result _ _ _ ran); [done|]. rewrite <- Hf.
    apply submseteq_app; [done|]. apply submseteq_skip, submseteq_nil_l. }
  destruct (runSingleTestCase verbose g file (p, st)) as [r [p' st']] eqn:Er. cbn [fst] in Ha.
  apply (results_extends_trans _ [(g, file)] _ _ (add_result s r)); [by apply extends_result|].
  apply (IH (ran ++ [file])%list); [|by rewrite <- app_assoc].
  eapply (suite_ran _ _ ran p st (st_world st)); [done|]. rewrite in_own_world. exact Er.
Qed.

Lemma run_group_extends verbose g s w : extends verbose (cases_of g) s (run_group verbose g s w).1.
Proof.
  unfold run_group. destruct (setupTestProcessor _ _ _ _ w) as [[[p st]|e] w'] eqn:Es.
  - pose proof (run_cases_extends verbose g [] (gr_TestFiles g) s p st (suite_set_up _ _ _ _ _ _ Es) eq_refl) as Hc.
    by destruct (run_cases verbose g (gr_TestFiles g) s (p, st)) as [s' ps'].
  - cbn [fst]. destruct (add_results_results (load_failures g e) s) as [Hr Hc]. exists (load_failures g e).
    split_and!; [done| |done]. apply (load_failures_report _ _ _ w). by rewrite Es.
Qed.

Lemma runTestsSequential_extends verbose groups s w :
  extends verbose (concat (map cases_of groups)) s (runTestsSequential verbose groups s w).1.
Proof.
  revert s w. induction groups as [|g rest IH]; intros s w; cbn [runTestsSequential map concat]; [apply results_extends_refl|].
  pose proof (run_group_extends verbose g s w) as Hg. destruct (run_group verbose g s w) as [s' w']. cbn [fst] in Hg.
  by eapply results_extends_trans.
Qed.

(** Where a case has one result, whenever it runs, reports of the same cases are
    the same up to their order. *)
Definition settled (verbose : bool) (cases : list (Group * string)) : Prop :=
  ∀ g file r r', (g, file) ∈ cases → result_of verbose g file r → result_of verbose g file r' → r = r'.

Lemma reports_settled verbose cases cases' rs rs' : settled verbose cases → cases ≡ₚ cases' →
  reports verbose cases rs → reports verbose cases' rs' → rs ≡ₚ rs'.
Proof.
  intros Hset Hp Hr Hr'. destruct (Permutation_Forall2 Hp Hr) as (rs'' & Hp' & Hr'').
  assert (Forall (λ c, c ∈ cases) cases') as Hin by (apply Forall_forall; intros c Hc; by rewrite Hp).
  rewrite Hp'. clear Hp Hp' Hr rs. enough (rs'' = rs') as -> by done.
  revert rs' Hr'. induction Hr'' as [|[g file] r cs rs Hr _ IH]; intros rs' Hr'; inversion Hr' as [|? r' ? ? Hr1 Hrs]; subst; [done|].
  apply Forall_cons in Hin as [Hc Hin]. f_equal; [by eapply Hset|by apply IH].
Qed.

(** *** The workers *)

(** The jobs that have not ended, in the feed, the queue and the workers, the
    cases that are still to be reported, and the steps that are still to be
    taken. *)
Definition feed_job (f : feed) : option Job := match f with FeedJob j => Some j | _ => None end.
Definition feed_steps (f : feed) : nat :=
  match f with FeedGroup g => S (3 * length (gr_TestFiles g)) | FeedJob _ => 3 | FeedFailure _ => 1 end.
Definition busy (ws : list (option Job)) : list Job := omap id ws.
Definition pending (p : pool) : list Job := (omap feed_job (po_feed p) ++ po_queue p ++ busy (po_workers p))%list.
Definition job_case (j : Job) : Group * string := (jb_Group j, jb_File j).
Definition steps_left (p : pool) : nat :=
  (list_sum (map feed_steps (po_feed p)) + 2 * length (po_queue p) + length (busy (po_workers p)))%nat.

(** The cases an element of the feed stands for. *)
Definition feeds (verbose : bool) (f : feed) (cases : list (Group * string)) : Prop :=
  match f with
  | FeedGroup g => cases = cases_of g
  | FeedJob j => cases = [job_case j]
  | FeedFailure r => ∃ c, cases = [c] ∧ result_of verbose c.1 c.2 r
  end.

(** Every processor is the one of a suite: its unfinished jobs are of the suite,
    and with the cases it has run they are all of the suite's cases. *)
Definition owned (verbose : bool) (ps : list (Processor * St)) (jobs : list Job) : Prop :=
  Forall (λ j, jb_Processor j < length ps)%nat jobs ∧
  ∀ n p st, ps !! n = Some (p, st) → ∃ g ran, suite_state verbose g ran p st ∧
    Forall (λ j, jb_Group j = g) (filter (λ j, jb_Processor j = n) jobs) ∧
    (ran ++ map jb_File (filter (λ j, jb_Processor j = n) jobs))%list ≡ₚ gr_TestFiles g.

Record pool_inv (verbose : bool) (cases : list (Group * string)) (p : pool) : Prop := {
  pi_cases : ∃ reported feeding, reports verbose reported (su_Results (po_summary p)) ∧
    Forall2 (feeds verbose) (po_feed p) feeding ∧
    (reported ++ concat feeding ++ map job_case (po_queue p ++ busy (po_workers p)))%list ≡ₚ cases;
  pi_owned : owned verbose (po_processors p) (pending p);
  pi_accounted : accounted (po_summary p);
}.

Lemma busy_insert_Some ws i j : ws !! i = Some None → busy (<[i := Some j]> ws) ≡ₚ j :: busy ws.
Proof.
  revert i. induction ws as [|x ws IH]; intros [|i] Hi; [done..| |]; cbn in Hi.
  - by injection Hi as ->.
  - change (busy (<[S i := Some j]> (x :: ws))) with (busy (x :: <[i := Some j]> ws)).
    destruct x as [k|]; cbn; fold (busy ws); fold (busy (<[i := Some j]> ws)); rewrite (IH _ Hi); [apply Permutation_swap|done].
Qed.

Lemma busy_insert_None ws i j : ws !! i = Some (Some j) → j :: busy (<[i := None]> ws) ≡ₚ busy ws.
Proof.
  revert i. induction ws as [|x ws IH]; intros [|i] Hi; [done..| |]; cbn in Hi.
  - by injection Hi as ->.
  - change (busy (<[S i := None]> (x :: ws))) with (busy (x :: <[i := None]> ws)).
    destruct x as [k|]; cbn; fold (busy ws); fold (busy (<[i := None]> ws)); rewrite <- (IH _ Hi); [apply Permutation_swap|done].
Qed.
End running.

Section workers.
Context `{LoaderEnv} `{Env} `{TestCodec}.
Variables (verbose : bool) (cases : list (Group * string)).

Lemma list_sum_cons n l : list_sum (n :: l) = (n + list_sum l)%nat.
Proof. done. Qed.

Lemma feed_jobs_steps g n files :
  list_sum (map feed_steps (map (λ file, FeedJob (MkJob g n file)) files)) = (3 * length files)%nat.
Proof. induction files as [|f files IH]; [done|]. cbn [map length]. rewrite list_sum_cons, IH. cbn [feed_steps]. lia. Qed.

Lemma feed_failures_steps rs : list_sum (map feed_steps (map FeedFailure rs)) = length rs.
Proof. induction rs as [|r rs IH]; [done|]. cbn [map length]. rewrite list_sum_cons, IH. cbn [feed_steps]. lia. Qed.

(** What setting up a suite puts in the feed: a job for each file, or a failure. *)
Definition todo_of (g : Group) (ps : list (Processor * St)) (ps' : result setup_error (Processor * St)) : list feed :=
  match ps' with
  | Ok _ => map (λ file, FeedJob (MkJob g (length ps) file)) (gr_TestFiles g)
  | Err e => map FeedFailure (load_failures g e)
  end.

Lemma todo_steps g ps ps' : (list_sum (map feed_steps (todo_of g ps ps')) < feed_steps (FeedGroup g))%nat.
Proof.
  destruct ps'; cbn [todo_of feed_steps]; [rewrite feed_jobs_steps; lia|].
  rewrite feed_failures_steps. unfold load_failures. rewrite length_map. lia.
Qed.

Lemma concat_singles {A} (l : list A) : concat (map (λ x, [x]) l) = l.
Proof. induction l as [|x l IH]; [done|]. cbn. by rewrite IH. Qed.

(** It stands for the suite's cases. *)
Lemma todo_feeds g ps w ps' w' :
  setupTestProcessor (gr_Rule g) (gr_Index g) (gr_KVData g) (gr_Config g) w = (ps', w') →
  Forall2 (feeds verbose) (todo_of g ps ps') (map (λ c, [c]) (cases_of g)).
Proof.
  intros Hset. destruct ps' as [p|e]; cbn [todo_of].
  - unfold cases_of. rewrite map_map. apply Forall2_fmap, Forall_Forall2_diag, Forall_forall. by intros file _.
  - pose proof (load_failures_report verbose g e w) as Hr. rewrite Hset in Hr. specialize (Hr eq_refl).
    clear Hset. induction Hr as [|c r cs rs Hc _ IH]; cbn [map]; constructor; [by exists c|done].
Qed.

Lemma owned_perm ps jobs jobs' : jobs ≡ₚ jobs' → owned verbose ps jobs → owned verbose ps jobs'.
Proof.
  intros Hp [Hl Ho]. split; [by rewrite <- Hp|]. intros n p st Hn. destruct (Ho n p st Hn) as (g & ran & Hs & Hg & Hf).
  exists g, ran. split_and!; [done|by rewrite <- Hp|by rewrite <- Hp].
Qed.

Lemma filter_none {A} (P : A → Prop) `{∀ x, Decision (P x)} l : Forall (λ x, ¬ P x) l → filter P l = [].
Proof. induction 1 as [|x l Hx _ IH]; [done|]. by rewrite filter_cons_False. Qed.

Lemma filter_all {A} (P : A → Prop) `{∀ x, Decision (P x)} l : Forall P l → filter P l = l.
Proof. induction 1 as [|x l Hx _ IH]; [done|]. by rewrite filter_cons_True, IH. Qed.

(** A suite that is set up brings its own processor, and its cases to it. *)
Lemma owned_setup g ps p w w' jobs :
  setupTestProcessor (gr_Rule g) (gr_Index g) (gr_KVData g) (gr_Config g) w = (Ok p, w') → owned verbose ps jobs →
  owned verbose (ps ++ [p]) (map (λ file, MkJob g (length ps) file) (gr_TestFiles g) ++ jobs).
Proof.
  intros Hset [Hl Ho]. set (new := map _ _).
  assert (Forall (λ j, jb_Processor j = length ps ∧ jb_Group j = g) new) as Hnew by by apply Forall_map, Forall_forall.
  split.
  { rewrite length_app, Forall_app. cbn. split; [eapply Forall_impl; [exact Hnew|]|eapply Forall_impl; [exact Hl|]]; cbn; lia. }
  intros n q st Hn. rewrite filter_app. apply lookup_app_Some in Hn as [Hn|[Hge Hn]].
  - assert (filter (λ j, jb_Processor j = n) new = []) as ->; [|by apply Ho].
    apply filter_none. eapply Forall_impl; [exact Hnew|]. cbn. intros j [-> _] <-. apply lookup_lt_Some in Hn. lia.
  - destruct (n - length ps)%nat as [|k] eqn:Hk; [|by destruct k]. assert (n = length ps) as -> by lia. injection Hn as ->.
    assert (filter (λ j, jb_Processor j = length ps) jobs = []) as ->.
    { apply filter_none. eapply Forall_impl; [exact Hl|]. cbn. lia. }
    rewrite app_nil_r, filter_all by (eapply Forall_impl; [exact Hnew|]; by intros j [? _]). exists g, []. split_and!.
    + by eapply suite_set_up.
    + eapply Forall_impl; [exact Hnew|]. by intros j [_ ?].
    + cbn. unfold new. by rewrite map_map, map_id.
Qed.

(** A job that ends was one of its suite, with the suite's own processor. *)
Lemma owned_finish ps j jobs p st w r p' st' : ps !! jb_Processor j = Some (p, st) → owned verbose ps (j :: jobs) →
  runSingleTestCase verbose (jb_Group j) (jb_File j) (p, in_world w st) = (r, (p', st')) →
  result_of verbose (jb_Group j) (jb_File j) r ∧ owned verbose (<[jb_Processor j := (p', st')]> ps) jobs.
Proof.
  intros Hp [Hl Ho] Hrun. apply Forall_cons in Hl as [_ Hl].
  destruct (Ho _ _ _ Hp) as (g & ran & Hs & Hg & Hf). rewrite filter_cons_True in Hg, Hf by done.
  apply Forall_cons in Hg as [Hgj Hg]. cbn [map] in Hf. subst g. split.
  - change r with (r, (p', st')).1. rewrite <- Hrun. eapply case_result; [exact Hs|]. rewrite <- Hf.
    apply submseteq_app; [done|]. apply submseteq_skip, submseteq_nil_l.
  - split; [by rewrite length_insert|]. intros n q st1 Hn. apply list_lookup_insert_Some in Hn as [(<- & [= <- <-] & _)|[Hne Hn]].
    + exists (jb_Group j), (ran ++ [jb_File j])%list. split_and!; [by eapply suite_ran|done|]. by rewrite <- app_assoc.
    + destruct (Ho n q st1 Hn) as (g & ran' & Hs' & Hg' & Hf'). rewrite filter_cons_False in Hg', Hf' by done.
      by exists g, ran'.
Qed.

Lemma omap_feed_jobs g n files : omap feed_job (map (λ file, FeedJob (MkJob g n file)) files) = map (λ file, MkJob g n file) files.
Proof. induction files as [|f files IH]; [done|]. cbn. by rewrite IH. Qed.

Lemma omap_feed_failures rs : omap feed_job (map FeedFailure rs) = [].
Proof. induction rs as [|r rs IH]; [done|]. by cbn. Qed.

Lemma step_setup_inv g rest q ws ps w s ps' w' :
  setupTestProcessor (gr_Rule g) (gr_Index g) (gr_KVData g) (gr_Config g) w = (ps', w') →
  pool_inv verbose cases (MkPool (FeedGroup g :: rest) q ws ps w s) →
  pool_inv verbose cases (MkPool (todo_of g ps ps' ++ rest) q ws (match ps' with Ok p => ps ++ [p] | Err _ => ps end)%list w' s).
Proof.
  intros Hset [(reported & feeding & Hr & Hf & Hc) Ho Ha].
  cbn [po_feed po_queue po_workers po_processors po_summary] in *. split; [|unfold pending in *|done];
    cbn [po_feed po_queue po_workers po_processors po_summary] in *.
  - inversion Hf as [|? c ? feeding' Hg Hrest]; subst. cbn in Hg. subst c.
    exists reported, (map (λ c, [c]) (cases_of g) ++ feeding')%list. split_and!; [done|by apply Forall2_app; [eapply todo_feeds|]|].
    by rewrite concat_app, concat_singles.
  - rewrite omap_app. destruct ps' as [p|e]; cbn [todo_of].
    + rewrite omap_feed_jobs, <- app_assoc. by eapply owned_setup.
    + by rewrite omap_feed_failures.
Qed.

(** A step keeps the account of the cases, and leaves fewer steps to take. *)
Lemma pool_step_inv p p' : pool_step verbose p p' → pool_inv verbose cases p →
  pool_inv verbose cases p' ∧ (steps_left p' < steps_left p)%nat.
Proof.
  intros Hs Hinv. destruct Hs as [g rest q ws ps w s w' ps' todo Hset ->|j rest q ws ps w s Hlen|
    r rest q ws ps w s|i j f q ws ps w s Hi|i j f q ws ps w s p st r p' st' Hi Hp Hrun].
  { fold (todo_of g ps ps'). split; [by eapply step_setup_inv|]. unfold steps_left. cbn [po_feed po_queue po_workers map].
    rewrite map_app, list_sum_app, list_sum_cons. pose proof (todo_steps g ps ps'). lia. }
  all: destruct Hinv as [(reported & feeding & Hr & Hf & Hc) Ho Ha]; unfold pending in Ho;
    cbn [po_feed po_queue po_workers po_processors po_summary] in *.
  - inversion Hf as [|? c ? feeding' Hj Hrest]; subst. cbn in Hj. subst c. split.
    + split; [|unfold pending|done]; cbn [po_feed po_queue po_workers po_processors po_summary].
      * exists reported, feeding'. split_and!; [done|done|]. rewrite <- Hc. cbn. rewrite !map_app. cbn.
        apply Permutation_app_head. rewrite <- app_assoc. cbn. rewrite !app_assoc. symmetry.
        etrans; [|apply Permutation_middle]. by rewrite <- !app_assoc.
      * eapply owned_perm; [|exact Ho]. cbn. rewrite <- app_assoc. cbn. rewrite !app_assoc. apply Permutation_middle.
    + unfold steps_left. cbn [po_feed po_queue po_workers map]. rewrite length_app, list_sum_cons. cbn [feed_steps length]. lia.
  - inversion Hf as [|? c ? feeding' Hone Hrest]; subst. destruct Hone as (c' & -> & Hres). split.
    + split; [|exact Ho|by apply add_result_accounted]. exists (reported ++ [c'])%list, feeding'.
      split_and!; [apply Forall2_app; [done|by repeat constructor]|done|]. rewrite <- Hc. cbn. by rewrite <- app_assoc.
    + unfold steps_left. cbn [po_feed po_queue po_workers map]. rewrite list_sum_cons. cbn [feed_steps]. lia.
  - pose proof (busy_insert_Some ws i j Hi) as Hbi. split.
    + split; [|unfold pending|done]; cbn [po_feed po_queue po_workers po_processors po_summary].
      * exists reported, feeding. split_and!; [done|done|]. rewrite <- Hc, Hbi. cbn. by rewrite <- Permutation_middle.
      * eapply owned_perm; [|exact Ho]. cbn. rewrite Hbi. apply Permutation_app_head. cbn. apply Permutation_middle.
    + unfold steps_left. cbn [po_feed po_queue po_workers length]. rewrite Hbi. cbn. lia.
  - pose proof (busy_insert_None ws i j Hi) as Hbi.
    assert (omap feed_job f ++ q ++ busy ws ≡ₚ j :: omap feed_job f ++ q ++ busy (<[i:=None]> ws))%list as Hpend.
    { rewrite <- Hbi, <- !Permutation_middle. done. }
    destruct (owned_finish ps j _ p st w r p' st' Hp (owned_perm _ _ _ Hpend Ho) Hrun) as [Hres Ho']. split.
    + split; [|exact Ho'|by apply add_result_accounted]. exists (reported ++ [job_case j])%list, feeding.
      split_and!; [apply Forall2_app; [done|by repeat constructor]|done|]. cbn. rewrite <- Hc, <- Hbi, <- app_assoc.
      apply Permutation_app_head. rewrite !map_app. cbn. rewrite !app_assoc. apply Permutation_middle.
    + unfold steps_left. cbn [po_feed po_queue po_workers]. rewrite <- Hbi. cbn. lia.
Qed.

(** Until all results are in, something can happen. *)
Lemma pool_progress p : pool_inv verbose cases p → (0 < length (po_workers p))%nat →
  pool_done p ∨ ∃ p', pool_step verbose p p'.
Proof.
  intros [_ [Hl _] _] Hw. destruct p as [f q ws ps w s]. unfold pending in Hl.
  cbn [po_feed po_queue po_workers po_processors po_summary] in *.
  destruct (decide (Forall (λ x, x = None) ws)) as [Hidle|Hbusy].
  - destruct q as [|j q].
    + destruct f as [|x f]; [by left|]. right. destruct x as [g|j|r].
      * destruct (setupTestProcessor (gr_Rule g) (gr_Index g) (gr_KVData g) (gr_Config g) w) as [ps' w'] eqn:E.
        eexists. by eapply step_setup.
      * eexists. apply step_enqueue. cbn. unfold maxJobs. lia.
      * eexists. apply step_failure.
    + right. destruct ws as [|x ws]; [cbn in Hw; lia|]. apply Forall_cons in Hidle as [-> _].
      eexists. by apply (step_take _ 0).
  - right. apply not_Forall_Exists in Hbusy; [|apply _].
    apply Exists_exists in Hbusy as (x & Hin & Hx). destruct x as [j|]; [|by destruct Hx].
    apply list_elem_of_lookup in Hin as [i Hi].
    assert (jb_Processor j < length ps)%nat as Hp.
    { rewrite <- (busy_insert_None ws i j Hi), !Forall_app in Hl. destruct Hl as (_ & _ & Hb). by apply Forall_cons in Hb as [? _]. }
    destruct (lookup_lt_is_Some_2 ps _ Hp) as [[p st] Hps].
    destruct (runSingleTestCase verbose (jb_Group j) (jb_File j) (p, in_world w st)) as [r [p' st']] eqn:E.
    eexists. by eapply step_finish.
Qed.

Lemma pool_step_workers p p' : pool_step verbose p p' → length (po_workers p') = length (po_workers p).
Proof. intros []; cbn; by rewrite ?length_insert. Qed.
End workers.

(** ** Which suites there are *)

(** A rule file the walk comes to, with its test directory. *)
Inductive walked : list fs → string → fs → string * option string → option fs → Prop :=
| walked_file around path name content :
    is_yaml name = true →
    walked around path (FsFile name content) (path ++ "/" ++ name, content) (dir_entry around (TrimExt name ++ "_test"))
| walked_dir around path name entries e rule testDir :
    HasSuffix name "_test" = false → e ∈ entries → walked entries (path ++ "/" ++ name) e rule testDir →
    walked around path (FsDir name entries) rule testDir.

Section suites.
Context `{TestCodec}.

(** A suite of a rule file: its directory, when that has no directory for a
    single rule, and else each of those; with the files it has. *)
Record suite_for (rule : string * option string) (testDir : option fs) (g : Group) : Prop := {
  sf_rule : gr_Rule g = rule;
  sf_files : gr_TestFiles g = collectTestFiles (gr_Entries g) ∧ gr_TestFiles g ≠ [];
  sf_mocks : gr_KVData g = loadMockKV (read_file (gr_Entries g) "mock_kv_data.json");
  sf_config : loadTestConfig (read_file (gr_Entries g) "_test_config.json") = Some (gr_Config g);
  sf_dir : ∃ name entries, testDir = Some (FsDir name entries) ∧
    ((findRuleSubDirs entries = [] ∧ gr_Dir g = name ∧ gr_Entries g = entries ∧ gr_Index g = (-1)%Z) ∨
     (gr_Dir g ∈ findRuleSubDirs entries ∧ (∃ n, dir_entry entries (gr_Dir g) = Some (FsDir n (gr_Entries g))) ∧
      gr_Index g = parseRuleIndex (gr_Dir g)));
}.

Lemma concat_groups_spec l groups : concat_groups l = Some groups →
  ∀ g, g ∈ groups ↔ ∃ gs, Some gs ∈ l ∧ g ∈ gs.
Proof.
  revert groups. induction l as [|x l IH]; intros groups; cbn [concat_groups].
  { intros [= <-] g. split; [by intros ?%elem_of_nil|]. intros (gs & Hg & _). by apply elem_of_nil in Hg. }
  destruct x as [gs|]; cbn; [|done]. destruct (concat_groups l) as [rest|]; cbn; [|done]. intros [= <-] g.
  rewrite elem_of_app, (IH rest eq_refl g). split.
  - intros [Hg|(gs' & ? & ?)]; [exists gs; split; [by left|done]|exists gs'; split; [by right|done]].
  - intros (gs' & [[= ->]|?]%elem_of_cons & ?); [by left|right; eauto].
Qed.

Lemma concat_groups_all l groups : concat_groups l = Some groups → ∀ x, x ∈ l → is_Some x.
Proof.
  revert groups. induction l as [|x l IH]; intros groups; cbn [concat_groups]; [by intros _ x ?%elem_of_nil|].
  destruct x as [gs|]; cbn; [|done]. destruct (concat_groups l) as [rest|]; cbn; [|done].
  intros _ x [->|?]%elem_of_cons; [done|by eapply IH].
Qed.

Lemma group_in_spec rule dir entries index gs : group_in rule dir entries index = Some gs →
  ∀ g, g ∈ gs ↔ collectTestFiles entries ≠ [] ∧ ∃ config,
    loadTestConfig (read_file entries "_test_config.json") = Some config ∧
    g = MkGroup rule dir entries (collectTestFiles entries) (loadMockKV (read_file entries "mock_kv_data.json")) config index.
Proof.
  unfold group_in. destruct (collectTestFiles entries) as [|f l] eqn:Ef; cbn [length Nat.eqb].
  { intros [= <-] g. split; [by intros ?%elem_of_nil|by intros [? _]]. }
  destruct (loadTestConfig _) as [config|]; cbn; [|done]. intros [= <-] g. rewrite list_elem_of_singleton. naive_solver.
Qed.

Lemma suite_of_spec rule testDir gs : suite_of rule testDir = Some gs → ∀ g, g ∈ gs ↔ suite_for rule testDir g.
Proof.
  destruct testDir as [[n c|name entries]|]; cbn [suite_of].
  1,3: intros [= <-] g; split; [by intros ?%elem_of_nil|intros [_ _ _ _ (? & ? & ? & _)]; congruence].
  destruct (findRuleSubDirs entries) as [|d0 ds] eqn:Ed.
  - intros Hg g. rewrite (group_in_spec _ _ _ _ _ Hg). split.
    + intros (Hne & config & Hc & ->). split; try done. exists name, entries. split; [done|]. by left.
    + intros [<- [Hf Hne] Hm Hc (n & es & [= <- <-] & [(_ & Hd & He & Hi)|(Hd & _)])]; [|rewrite Ed in Hd; by apply elem_of_nil in Hd].
      rewrite He in *. rewrite <- Hf. split; [done|]. exists (gr_Config g). split; [done|]. destruct g. cbn in *. congruence.
  - set (dirs := d0 :: ds) in *. set (mk := λ d, group_in _ d _ _). intros Hl g. rewrite (concat_groups_spec _ _ Hl). split.
    + intros (gs' & Hin & Hg). apply list_elem_of_In, in_map_iff in Hin as (d & Hd & Hin%list_elem_of_In). unfold mk in Hd.
      apply (group_in_spec _ _ _ _ _ Hd) in Hg as (Hne & config & Hc & ->). split; try done.
      exists name, entries. split; [done|]. right. cbn [gr_Dir gr_Entries gr_Index]. rewrite Ed. split_and!; [done| |done].
      destruct (dir_entry entries d) as [[|n es]|]; [done|by exists n|done].
    + intros [<- [Hf Hne] Hm Hc (n & es & [= <- <-] & [(Hd & _)|(Hd & (n' & He) & Hi)])]; [by rewrite Ed in Hd|].
      rewrite Ed in Hd. assert (mk (gr_Dir g) ∈ map mk dirs) as Hin by (apply list_elem_of_In, in_map; by apply list_elem_of_In).
      destruct (concat_groups_all _ _ Hl _ Hin) as [gs' Hgs]. exists gs'. rewrite <- Hgs. split; [done|].
      unfold mk in Hgs. rewrite He in Hgs. apply (group_in_spec _ _ _ _ _ Hgs). rewrite <- Hf. split; [done|].
      exists (gr_Config g). split; [done|]. destruct g. cbn in *. congruence.
Qed.
End suites.

(** ** The processor of a suite *)

Section setup.
Context `{LoaderEnv} `{Env} `{TestCodec}.

Definition clock_of (config : TestConfig) : option TimeProvider :=
  if String.eqb (tc_MockTime config) "" then Some SystemTimeProvider else MockTimeProvider <$> ParseRFC3339 (tc_MockTime config).

(** A processor for a suite holds the rules the suite is for and no others, reads
    the mocks and nothing else, and has the mocked clock. *)
Lemma setup_spec rule i kv config w p st w' :
  setupTestProcessor rule i kv config w = (Ok (p, st), w') →
  ∃ loaded rules, (LoadFromFile (NewLoader (buckets_of kv)) rule (mock_state None w)).1 = Ok loaded ∧
    select_rule i loaded = Ok rules ∧ AllRules p = numbered_from 0 rules ∧
    st = mock_state kv w' ∧ clock_of config = Some (p_timeProvider p) ∧
    p_kvContext p = (match kv with Some _ => Some (MkKVContext ∅) | None => None end) ∧
    (is_Some (p_sigVerification p) ↔ is_Some (tc_MockSignature config)).
Proof.
  unfold setupTestProcessor. destruct (LoadFromFile _ _ _) as [loaded st1]. destruct (time_Now (st_world st1)) as [now w1].
  destruct loaded as [loaded|e]; [|done]. cbn [map_err mbind result_bind].
  destruct (select_rule i loaded) as [rules|e] eqn:Es; cbn [mbind result_bind]; [|done].
  unfold test_options, mock_time, clock_of.
  set (clock := if String.eqb (tc_MockTime config) "" then _ else _).
  assert (∀ opts, clock = Ok opts → ∃ tp, (if String.eqb (tc_MockTime config) "" then Some SystemTimeProvider
    else MockTimeProvider <$> ParseRFC3339 (tc_MockTime config)) = Some tp ∧
    ((opts = [] ∧ tp = SystemTimeProvider) ∨ opts = [WithTimeProvider tp])) as Hclock.
  { unfold clock. destruct (String.eqb _ ""); [intros ? [= <-]; eauto|].
    destruct (ParseRFC3339 _) as [t|]; intros ? [= <-]. cbn. eauto. }
  destruct clock as [opts|e]; cbn [mbind result_bind]; [|done].
  destruct (Hclock opts eq_refl) as (tp & Htp & Hopts). rewrite Htp. clear Hclock Htp.
  set (base := with_options _ _).
  assert (p_timeProvider base = tp ∧ p_kvContext base = (match kv with Some _ => Some (MkKVContext ∅) | None => None end) ∧
    (is_Some (p_sigVerification base) ↔ is_Some (tc_MockSignature config))) as (B1 & B2 & B3).
  { unfold base. destruct kv, (tc_MockSignature config); cbn;
      destruct Hopts as [[-> ->]| ->]; cbn; (split_and!; [done|done|]); split; intros [? [=]]; by eexists. }
  clearbody base. destruct (LoadRules now base rules) as [p1|e] eqn:El; cbn [map_err mbind result_bind]; [|done].
  intros [= <- <- <-]. exists loaded, rules. unfold LoadRules in El. set (q := MkProcessor _ _ _ _ _ _ _ _ _ _ _ _ _) in El.
  destruct (load_loop_keeps _ _ _ _ _ El) as (K1 & K2 & K3 & _).
  assert (∀ path, default [] (p_httpExactPaths q !! path) = []) as Hx by (intros path; cbn; by rewrite lookup_empty).
  assert (holds_rules now q []) as Hq.
  { split; [done|done|done|]. intros path. unfold rules_in. by rewrite Hx. }
  pose proof (load_loop_spec now q 0 rules [] Hq Hx) as Hs. rewrite El in Hs. destruct Hs as (_ & [Ha _ _ _]).
  split_and!; try done; [by rewrite K1, <- B1|by rewrite K2, <- B2|by rewrite K3].
Qed.

Lemma select_rule_one i loaded r : select_rule i loaded = Ok r → (0 ≤ i)%Z → ∃ x, loaded !! Z.to_nat i = Some x ∧ r = [x].
Proof.
  unfold select_rule. intros Hs Hi. rewrite (proj2 (Z.leb_le 0 i) Hi) in Hs.
  destruct (Z.leb_spec (Z.of_nat (length loaded)) i); [done|]. injection Hs as <-.
  destruct (lookup_lt_is_Some_2 loaded (Z.to_nat i)) as [x Hx]; [lia|]. exists x. split; [done|].
  by rewrite (drop_S _ _ _ Hx).
Qed.

Lemma resolve_index_range ruleIndex rules i : resolve_index ruleIndex rules = Ok i → rules ≠ [] →
  (0 ≤ i < Z.of_nat (length rules))%Z ∧ ((ruleIndex = (-1)%Z ∧ length rules = 1%nat) ∨ i = ruleIndex).
Proof.
  unfold resolve_index. intros Hr Hne. assert (length rules ≠ 0%nat) by (destruct rules; [done|discriminate]).
  destruct (Z.eqb_spec ruleIndex (-1)) as [->|].
  - destruct (Nat.ltb_spec 1 (length rules)); [done|]. injection Hr as <-. split; [lia|]. left. split; [done|lia].
  - destruct (Z.ltb_spec ruleIndex 0); [done|]. destruct (Z.leb_spec (Z.of_nat (length rules)) ruleIndex); [done|].
    injection Hr as <-. split; [lia|by right].
Qed.
End setup.

(** ** Properties *)

Section properties.
Context `{LoaderEnv} `{Env} `{TestCodec}.

(** C34: A test case passes exactly when its message could be read and processed,
    the rules matched it if and only if its name says so, and, where they did and
    an output file lies beside it, the actions are what the file expects: one
    expectation for each action, in order, on the subject, URL, method, status,
    payload and headers it names, and on nothing it leaves out.  A case that does
    not pass says why. *)
Theorem runSingleTestCase_correct verbose g file ps :
  let r := (runSingleTestCase verbose g file ps).1 in
  rs_File r = testDisplayName (gr_Dir g) file ∧ (rs_Passed r = true ↔ rs_Error r = None) ∧
  (rs_Passed r = true ↔ ∃ message process outcome,
     read_file (gr_Entries g) file = Some message ∧ dispatch (gr_Config g) message = Some process ∧
     (process ps).1 = Ok outcome ∧ (All outcome ≠ [] ↔ HasPrefix file "match_" = true) ∧
     (All outcome ≠ [] → is_Some (dir_entry (gr_Entries g) (output_name file)) →
        ∃ bytes, read_file (gr_Entries g) (output_name file) = Some bytes ∧ as_expected (All outcome) bytes)).
Proof.
  cbn zeta. split; [apply runSingleTestCase_file|]. unfold runSingleTestCase.
  destruct (read_file (gr_Entries g) file) as [message|]; [|split; [done|split; [done|naive_solver]]].
  destruct (dispatch (gr_Config g) message) as [process|] eqn:Ed; [|split; [done|split; [done|naive_solver]]].
  unfold mbind, PM_bind. destruct (process ps) as [outcome ps'] eqn:Ep. cbn [fst rs_Passed rs_Error mret PM_ret].
  assert (∀ e : option case_error, (match e with None => true | Some _ => false end) = true ↔ e = None) as He
    by (intros []; split; done).
  rewrite He. split; [done|]. transitivity (∃ o, outcome = Ok o ∧ (All o ≠ [] ↔ HasPrefix file "match_" = true) ∧
     (All o ≠ [] → is_Some (dir_entry (gr_Entries g) (output_name file)) →
        ∃ bytes, read_file (gr_Entries g) (output_name file) = Some bytes ∧ as_expected (All o) bytes)).
  2: { split; [intros (o & -> & ?); exists message, process, o; by rewrite Ep|].
       intros (m & pr & o & [= <-] & Hd & Ho & ?). rewrite Ed in Hd. injection Hd as <-. rewrite Ep in Ho. by exists o. }
  destruct outcome as [o|e]; cbn [case_verdict]; [|naive_solver].
  transitivity ((All o ≠ [] ↔ HasPrefix file "match_" = true) ∧ (All o ≠ [] → is_Some (dir_entry (gr_Entries g) (output_name file)) →
        ∃ bytes, read_file (gr_Entries g) (output_name file) = Some bytes ∧ as_expected (All o) bytes)); [|naive_solver].
  assert ((0 <? length (All o))%nat = true ↔ All o ≠ []) as Hm by (destruct (All o); cbn; naive_solver).
  destruct (0 <? length (All o))%nat, (HasPrefix file "match_"); cbn [Bool.eqb negb].
  - destruct (dir_entry _ (output_name file)) as [f|]; [|naive_solver].
    pose proof (validateOutputMultiple_ok (All o) (read_file (gr_Entries g) (output_name file))) as Hv.
    destruct (validateOutputMultiple _ _) as [[]|e].
    + split; [intros _; split; [naive_solver|intros _ _; by apply Hv]|done].
    + split; [done|]. intros [_ Hx]. assert (Err e = Ok tt) as Hc; [|done]. apply Hv, Hx; [by apply Hm|done].
  - naive_solver.
  - naive_solver.
  - split; [intros _; split; [naive_solver|intros Hne; by apply Hm in Hne]|done].
Qed.

(** The suites a run of the tester finds are exactly those of the rule files
    the walk comes to: the files outside test directories, each with the directory
    named after it beside it; a suite for each numbered directory in there, with
    that rule of the file, and else one for the whole directory and all rules; its
    test files are all JSON files that are not outputs, mocks or configuration,
    and a directory without one makes no suite. *)
Theorem collectTestGroups_correct around root groups : collectTestGroups around root = Ok groups →
  ∃ f, root = Some f ∧ ∀ g, g ∈ groups ↔ ∃ rule testDir, walked around "" f rule testDir ∧ suite_for rule testDir g.
Proof.
  unfold collectTestGroups. destruct root as [f|]; cbn; [|done].
  destruct (collect around "" f) as [groups'|] eqn:Ec; cbn; [|done]. intros [= ->]. exists f. split; [done|].
  revert around Ec. generalize "". revert groups.
  induction f as [name content|name entries IH] using fs_mut; intros groups path around; cbn [collect].
  - destruct (is_yaml name) eqn:Ey.
    + intros Hs g. rewrite (suite_of_spec _ _ _ Hs). split; [intros Hg; eexists _, _; split; [by constructor|done]|].
      intros (rule & testDir & Hw & Hg). by inversion Hw; subst.
    + intros [= <-] g. split; [by intros ?%elem_of_nil|]. intros (rule & testDir & Hw & _). inversion Hw; congruence.
  - destruct (HasSuffix name "_test") eqn:Es.
    + intros [= <-] g. split; [by intros ?%elem_of_nil|]. intros (rule & testDir & Hw & _). inversion Hw; congruence.
    + intros Hl g. rewrite (concat_groups_spec _ _ Hl). rewrite Forall_forall in IH. split.
      * intros (gs & Hin & Hg). apply list_elem_of_In, in_map_iff in Hin as (e & He & Hin%list_elem_of_In).
        apply (IH e Hin gs (path ++ "/" ++ name) entries He) in Hg as (rule & testDir & ? & ?).
        exists rule, testDir. split; [by eapply walked_dir|done].
      * intros (rule & testDir & Hw & Hg). inversion Hw as [|? ? ? ? e ? ? _ Hin He]; subst.
        assert (collect entries (path ++ "/" ++ name) e ∈ map (collect entries (path ++ "/" ++ name)) entries) as Hx
          by (apply list_elem_of_In, in_map; by apply list_elem_of_In).
        destruct (concat_groups_all _ _ Hl _ Hx) as [gs Hgs]. exists gs. rewrite <- Hgs. split; [done|].
        apply (IH e Hin gs _ _ Hgs). eauto.
Qed.

(** C33: With at least one worker, whatever the order in which jobs are fed, taken
    and finished, running the suites in parallel cannot get stuck and ends within
    a bounded number of steps; then every test file of every suite has been
    reported once, by its case, run with the processor set up for its own suite
    after others of the suite's cases, each at most once, or by the failure of its
    suite to load; and the totals are those of the results.  Run one after the
    other the suites report the same cases, in order.  The results themselves are
    the same, up to their order, where the result of a case does not depend on
    when it runs and on the cases of its suite that ran before it. *)
Theorem runTestsParallel_correct verbose workers groups w : (0 < workers)%nat →
  let start := runTestsParallel workers groups w in
  let cases := concat (map cases_of groups) in
  let sequential := (runTestsSequential verbose groups no_results w).1 in
  (∀ n p, nsteps (pool_step verbose) n start p →
     (n ≤ list_sum (map (λ g, S (3 * length (gr_TestFiles g))) groups))%nat ∧
     (pool_done p ∨ ∃ p', pool_step verbose p p') ∧
     (pool_done p → accounted (po_summary p) ∧
        map rs_File (su_Results (po_summary p)) ≡ₚ map rs_File (su_Results sequential) ∧
        (∃ reported, reported ≡ₚ cases ∧ reports verbose reported (su_Results (po_summary p))) ∧
        (settled verbose cases → su_Results (po_summary p) ≡ₚ su_Results sequential))) ∧
  reports verbose cases (su_Results sequential) ∧ accounted sequential.
Proof.
  intros Hw start cases sequential.
  destruct (runTestsSequential_extends verbose groups no_results w) as (rs & Hrs & Hseq & Hacc).
  fold sequential in Hrs, Hacc. fold cases in Hseq. cbn in Hrs. subst rs. specialize (Hacc no_results_accounted).
  split; [|done].
  assert (busy (replicate workers None) = []) as Hb by (clear; induction workers; [done|by cbn]).
  assert (omap feed_job (map FeedGroup groups) = []) as Hj by (clear; induction groups; [done|by cbn]).
  assert (pool_inv verbose cases start) as Hinv.
  { split; [| |done].
    - exists [], (map cases_of groups). cbn [start runTestsParallel po_feed po_queue po_workers po_summary app].
      rewrite Hb. cbn. rewrite app_nil_r. split_and!; [constructor| |done].
      apply Forall2_fmap, Forall_Forall2_diag, Forall_forall. by intros g _.
    - unfold pending. cbn [start runTestsParallel po_feed po_queue po_workers po_processors]. rewrite Hj, Hb.
      split; [constructor|]. intros n p st Hn. by rewrite lookup_nil in Hn. }
  assert (steps_left start = list_sum (map (λ g, S (3 * length (gr_TestFiles g))) groups)) as <-.
  { unfold steps_left, start, runTestsParallel. cbn [po_feed po_queue po_workers length]. rewrite Hb, map_map. cbn [length feed_steps]. lia. }
  intros n p Hn. assert (pool_inv verbose cases p ∧ (n + steps_left p ≤ steps_left start)%nat ∧
    length (po_workers p) = workers) as (Hp & Hs & Hlen).
  { assert (length (po_workers start) = workers) as Hl by (cbn; apply length_replicate).
    clearbody start. induction Hn as [x|n x y z Hxy _ IH]; [split_and!; [done|lia|done]|].
    destruct (pool_step_inv verbose cases x y Hxy Hinv) as [Hy Hd].
    destruct (IH Hy) as (? & ? & ?); [by rewrite (pool_step_workers _ _ _ Hxy)|]. split_and!; [done|lia|done]. }
  split_and!; [lia|by apply (pool_progress verbose cases); [|lia]|].
  intros (Hf & Hq & Hi). destruct Hp as [(reported & feeding & Hr & Hfd & Hc) _ Ha].
  assert (busy (po_workers p) = []) as Hbusy by (clear -Hi; induction Hi as [|x l -> _ IH]; [done|exact IH]).
  rewrite Hf in Hfd. inversion Hfd; subst. rewrite Hq, Hbusy in Hc. cbn in Hc. rewrite app_nil_r in Hc.
  split_and!; [done| |by exists reported|].
  - by rewrite (reports_names _ _ _ Hr), (reports_names _ _ _ Hseq), Hc.
  - intros Hset. eapply reports_settled; [|exact Hc|exact Hr|exact Hseq]. intros g file r r' Hin. apply Hset. by rewrite <- Hc.
Qed.

(** A quick check shows what one rule alone does.  When it shows actions, the
    file held rules, the index chose one of them, or there was only one, and they
    are the actions of a processor that holds that rule as the loader loads it and
    no other rule of the file, with the mocked values in its cache. *)
Theorem QuickCheck_correct rule message subjectOverride kvMock ruleIndex headers query w actions :
  QuickCheck rule message subjectOverride kvMock ruleIndex headers query w = Ok actions →
  ∃ parsed i r config loaded r' p st text process outcome,
    loadSingleRuleFile rule.2 = Some parsed ∧ parsed !! Z.to_nat i = Some r ∧
    ((ruleIndex = (-1)%Z ∧ length parsed = 1%nat) ∨ i = ruleIndex) ∧
    check_config r subjectOverride headers query = Ok config ∧
    (LoadFromFile (NewLoader (buckets_of (loadMockKV kvMock))) rule (mock_state None w)).1 = Ok loaded ∧
    loaded !! Z.to_nat i = Some r' ∧ AllRules p = [prepared_rule 0 r'] ∧
    (∃ w', st = mock_state (loadMockKV kvMock) w') ∧ message = Some text ∧
    dispatch config text = Some process ∧ (process (p, st)).1 = Ok outcome ∧ actions = All outcome.
Proof.
  unfold QuickCheck. destruct (loadSingleRuleFile rule.2) as [[|r0 rest]|] eqn:Ep; [done| |done].
  set (parsed := r0 :: rest) in *. destruct (resolve_index ruleIndex parsed) as [i|e] eqn:Ei; cbn [mbind result_bind]; [|done].
  destruct (resolve_index_range _ _ _ Ei) as [Hi Hchoice]; [done|].
  destruct (parsed !! Z.to_nat i) as [r|] eqn:Er; cbn [of_option mbind result_bind]; [|done].
  destruct (check_config r subjectOverride headers query) as [config|e] eqn:Ec; cbn [mbind result_bind]; [|done].
  destruct (setupTestProcessor rule i (loadMockKV kvMock) config w) as [ps w'] eqn:Es.
  destruct ps as [[p st]|e]; cbn [map_err mbind result_bind]; [|done].
  destruct message as [text|]; cbn [of_option mbind result_bind]; [|done].
  destruct (dispatch config text) as [process|] eqn:Ed; cbn [of_option mbind result_bind]; [|done].
  destruct (process (p, st)).1 as [outcome|e] eqn:Eo; cbn [map_err mbind result_bind]; [|done]. intros [= <-].
  destruct (setup_spec _ _ _ _ _ _ _ _ Es) as (loaded & rules & Hl & Hs & Ha & Hst & _).
  destruct (select_rule_one _ _ _ Hs) as (r' & Hr' & ->); [lia|].
  exists parsed, i, r, config, loaded, r', p, st, text, process, outcome. split_and!; try done. by exists w'.
Qed.
End properties.

(** ** Concrete suites *)

Definition plain_action : Action :=
  MkAction (Some (MkNATSAction "alerts" "" "{temperature}" false false ∅ "" false "" "" None None None None)) None None None.
Definition nats_rule (name subject : string) (throttle : option ThrottleConfig) : Rule :=
  MkRule name (MkTrigger (Some (MkNATSTrigger subject throttle None "" false "")) None None) None plain_action 0.

Definition suite_loader : LoaderEnv := {|
  yaml_Unmarshal := λ s,
    if String.eqb s "plain" then Some [nats_rule "plain" "sensors.*" None]
    else if String.eqb s "two" then Some [nats_rule "first" "sensors.*" None; nats_rule "second" "sensors.a" None]
    else if String.eqb s "throttled" then Some [nats_rule "throttled" "sensors.*" (Some (MkThrottle "1h" "" ""))]
    else None;
  cron_Parse := λ _, true;
  time_LoadLocation := λ _, true;
  os_Getenv := λ _, "";
|}.

Definition suite_codec : TestCodec := {|
  config_Unmarshal := λ s c,
    if String.eqb s "null" then None
    else Some (MkTestConfig (Some (MkNATSTrigger "sensors.a" None None "" false "")) None "" [("x-id", "7")] ∅ None);
  kv_Unmarshal := λ _, None;
  outputs_Unmarshal := λ s, if String.eqb s "one" then Some [MkExpected "alerts" "" "" 0 (Some "30") ∅] else None;
  output_Unmarshal := λ s, None;
  canonical_JSON := λ s, Some s;
|}.

#[local] Existing Instances suite_loader demo suite_codec.
Definition start_world : @World demo := 0%nat.

Definition test_dir (name config : string) (cases : list string) : fs :=
  FsDir name (FsFile "_test_config.json" (Some config) :: map (λ n, FsFile n (Some "sample")) cases).
Definition rules_dir (entries : list fs) : option fs := Some (FsDir "rules" entries).

Definition demo_suites : option fs := rules_dir
  [FsFile "plain.yaml" (Some "plain");
   FsDir "plain_test" [FsFile "_test_config.json" (Some "nats"); FsFile "match_1.json" (Some "sample");
     FsFile "match_1_output.json" (Some "one"); FsFile "not_match_1.json" (Some "sample")];
   FsFile "two.yml" (Some "two");
   FsDir "two_test" [test_dir "_rule_0" "nats" ["match_1.json"]; test_dir "_rule_7" "nats" ["match_1.json"]]].

Definition batch (root : option fs) : list (string * option case_error) :=
  match RunBatchTest false [] root start_world with
  | Ok s => map (λ r, (rs_File r, rs_Error r)) (su_Results s)
  | Err _ => []
  end.

(** A case passes with its output, one that should not match does, and a suite
    for a rule that the file does not have is reported as failing. *)
Example batch_reports : batch demo_suites =
  [("match_1.json", None); ("not_match_1.json", Some (WrongMatch false true));
   ("_rule_0/match_1.json", None); ("_rule_7/match_1.json", Some (SetupFailed (RuleIndexOutOfRange 7 2)))].
Proof. vm_compute. reflexivity. Qed.

Definition demo_groups : list Group :=
  match collectTestGroups [] demo_suites with Ok gs => gs | Err _ => [] end.

Lemma collectTestGroups_correct_witness :
  length demo_groups = 3%nat ∧
  ∃ f, demo_suites = Some f ∧ ∀ g, g ∈ demo_groups ↔ ∃ rule testDir, walked [] "" f rule testDir ∧ suite_for rule testDir g.
Proof. split; [vm_compute; reflexivity|]. apply (collectTestGroups_correct [] demo_suites). vm_compute. reflexivity. Defined.

Lemma runTestsParallel_correct_witness :
  (0 < 4)%nat ∧ reports false (concat (map cases_of demo_groups)) (su_Results (runTestsSequential false demo_groups no_results start_world).1).
Proof. split; [lia|]. apply (runTestsParallel_correct false 4 demo_groups start_world). lia. Defined.

Lemma QuickCheck_correct_witness :
  let actions := match QuickCheck ("two.yml", Some "two") (Some "sample") "" None 1 [] ∅ start_world with Ok l => l | Err _ => [] end in
  length actions = 1%nat ∧ ∃ (loaded : list Rule) r' p, loaded !! 1%nat = Some r' ∧ AllRules p = [prepared_rule 0 r'].
Proof.
  cbn zeta. split; [vm_compute; reflexivity|].
  destruct (QuickCheck_correct ("two.yml", Some "two") (Some "sample") "" None 1 [] ∅ start_world
    (match QuickCheck ("two.yml", Some "two") (Some "sample") "" None 1 [] ∅ start_world with Ok l => l | Err _ => [] end))
    as (parsed & i & r & config & loaded & r' & p & st & text & process & outcome & _ & _ & Hi & _ & _ & Hl & Ha & _);
    [vm_compute; reflexivity|].
  destruct Hi as [[Hi _]|Hi]; [by exfalso|]. rewrite Hi in Hl. exists loaded, r', p. by split.
Defined.

(** ** What the tester does not do

    The result that a configuration mocks for a signature is never read: only
    that there is one is. *)
Definition with_signature (c : TestConfig) (s : MockSignatureConfig) : TestConfig :=
  MkTestConfig (tc_NATS c) (tc_HTTP c) (tc_MockTime c) (tc_Headers c) (tc_Query c) (Some s).

Lemma mock_signature_ignored rule i kv c s s' w :
  setupTestProcessor rule i kv (with_signature c s) w = setupTestProcessor rule i kv (with_signature c s') w ∧
  ∀ verbose name dir entries files file ps,
    runSingleTestCase verbose (MkGroup name dir entries files kv (with_signature c s) i) file ps =
    runSingleTestCase verbose (MkGroup name dir entries files kv (with_signature c s') i) file ps.
Proof. done. Qed.

(** The cases of a suite share one processor, with its throttles: the second of
    two equal cases of a throttled rule fails. *)
Lemma throttled_suite_fails :
  batch (rules_dir [FsFile "t.yaml" (Some "throttled"); test_dir "t_test" "nats" ["match_1.json"; "match_2.json"]]) =
    [("match_1.json", None); ("match_2.json", Some (WrongMatch true false))].
Proof. vm_compute. reflexivity. Qed.

(** A configuration that is the document [null] makes the tester panic. *)
Lemma null_config_panics :
  collectTestGroups [] (rules_dir [FsFile "t.yaml" (Some "plain"); test_dir "t_test" "null" ["match_1.json"]]) = Err ConfigIsNil.
Proof. vm_compute. reflexivity. Qed.

(** Below a directory named as a test directory there is nothing to test or lint,
    and a case whose name ends as an output file is never run. *)
Lemma test_directories_skipped entries w :
  collectTestGroups [] (Some (FsDir "rules_test" entries)) = Ok [] ∧ Lint (FsDir "rules_test" entries) w = [] ∧
  is_test_file "match_no_output.json" = false.
Proof. done. Qed.
