(* ===== verification/TestScaffold.v ===== *)
(** * Scaffolding of test suites (internal/tester/tester.go)

    What a rule uses, the example files that are made for it, and the test
    directory of a rule file: one suite, or one for each rule in a directory of
    its own.  The texts of the README files are left out, as is what is printed. *)

From S2P Require Import Prelude GoStrings GoFloat GoTime Value Types Traversal Env Demo.
From S2P Require Import Context Conditions Expand Processor Loader Tester.
Local Open Scope string_scope.

(** ** What a rule uses *)

Record RuleFeatures := MkFeatures {
  rf_UsesForEach : bool; rf_ForEachField : string;
  rf_HasVariableComparisons : bool; rf_HasKVLookups : bool; rf_HasTimeConditions : bool;
  rf_HasArrayOperators : bool; rf_HasExistenceChecks : bool; rf_ExistenceFields : list string;
  rf_IsHTTPTrigger : bool; rf_KVBuckets : list string; rf_ComparisonFields : list string;
}.

Definition appendUnique (slice : list string) (item : string) : list string :=
  if existsb (String.eqb item) slice then slice else (slice ++ [item])%list.

(** What follows the first [sub] in a string. *)
Fixpoint after (sub s : string) : option string :=
  match CutPrefix s sub with
  | Some rest => Some rest
  | None => match s with "" => None | String _ t => after sub t end
  end.

Definition extractKVBucket (field : string) : string :=
  match after "@kv." field with None => "" | Some remainder => (Cut "." remainder).1.1 end.

Definition is_template (s : string) : bool := HasPrefix s "{" && HasSuffix s "}".

(** One field or value that may name a bucket. *)
Definition note_kv (s : string) (f : RuleFeatures) : RuleFeatures :=
  if Contains s "@kv." then
    let bucket := extractKVBucket s in
    MkFeatures (rf_UsesForEach f) (rf_ForEachField f) (rf_HasVariableComparisons f) true (rf_HasTimeConditions f)
      (rf_HasArrayOperators f) (rf_HasExistenceChecks f) (rf_ExistenceFields f) (rf_IsHTTPTrigger f)
      (if String.eqb bucket "" then rf_KVBuckets f else appendUnique (rf_KVBuckets f) bucket) (rf_ComparisonFields f)
  else f.

Definition note_existence (field operator : string) (f : RuleFeatures) : RuleFeatures :=
  if String.eqb operator "exists" || String.eqb operator "not_exists" then
    MkFeatures (rf_UsesForEach f) (rf_ForEachField f) (rf_HasVariableComparisons f) (rf_HasKVLookups f) (rf_HasTimeConditions f)
      (rf_HasArrayOperators f) true (appendUnique (rf_ExistenceFields f) field) (rf_IsHTTPTrigger f) (rf_KVBuckets f) (rf_ComparisonFields f)
  else f.

Definition note_time (field : string) (f : RuleFeatures) : RuleFeatures :=
  MkFeatures (rf_UsesForEach f) (rf_ForEachField f) (rf_HasVariableComparisons f) (rf_HasKVLookups f)
    (rf_HasTimeConditions f || (Contains field "@time" || Contains field "@day" || Contains field "@date"))
    (rf_HasArrayOperators f) (rf_HasExistenceChecks f) (rf_ExistenceFields f) (rf_IsHTTPTrigger f) (rf_KVBuckets f) (rf_ComparisonFields f).

Definition note_comparison (field : string) (val : value) (f : RuleFeatures) : RuleFeatures :=
  match val with
  | VStr s =>
      if is_template s then
        note_kv s (MkFeatures (rf_UsesForEach f) (rf_ForEachField f) true (rf_HasKVLookups f) (rf_HasTimeConditions f)
          (rf_HasArrayOperators f) (rf_HasExistenceChecks f) (rf_ExistenceFields f) (rf_IsHTTPTrigger f) (rf_KVBuckets f)
          (appendUnique (rf_ComparisonFields f) field))
      else f
  | _ => f
  end.

Definition note_array (f : RuleFeatures) : RuleFeatures :=
  MkFeatures (rf_UsesForEach f) (rf_ForEachField f) (rf_HasVariableComparisons f) (rf_HasKVLookups f) (rf_HasTimeConditions f)
    true (rf_HasExistenceChecks f) (rf_ExistenceFields f) (rf_IsHTTPTrigger f) (rf_KVBuckets f) (rf_ComparisonFields f).

Fixpoint analyzeConditions (conds : Conditions) (features : RuleFeatures) : RuleFeatures :=
  let '(MkConditions _ items groups) := conds in
  let features := foldl (λ f item,
    let '(MkCondition field operator val nested _ _ _ _) := item in
    if array_operator operator then
      match nested with Some cs => analyzeConditions cs (note_array f) | None => note_array f end
    else note_comparison field val (note_kv field (note_time field (note_existence field operator f)))) features items in
  foldl (λ f group, analyzeConditions group f) features groups.

Definition detectForEach (r : Rule) : bool * string :=
  let of_http := match a_HTTP (r_Action r) with
    | Some a => if String.eqb (ha_ForEach a) "" then (false, "") else (true, ha_ForEach a)
    | None => (false, "") end in
  match a_NATS (r_Action r) with
  | Some a => if String.eqb (na_ForEach a) "" then of_http else (true, na_ForEach a)
  | None => of_http
  end.

Definition analyzeRuleFeatures (r : Rule) : RuleFeatures :=
  let '(uses, field) := detectForEach r in
  let features := MkFeatures uses field false false false false false []
    (match tr_HTTP (r_Trigger r) with Some _ => true | None => false end) [] [] in
  match r_Conditions r with Some cs => analyzeConditions cs features | None => features end.

Fixpoint hasVariableComparisonsRecursive (conds : Conditions) : bool :=
  let '(MkConditions _ items groups) := conds in
  existsb (λ item,
    let '(MkCondition _ _ val nested _ _ _ _) := item in
    (match val with VStr s => is_template s | _ => false end)
      || match nested with Some cs => hasVariableComparisonsRecursive cs | None => false end) items
  || existsb hasVariableComparisonsRecursive groups.

Definition detectVariableComparisons (r : Rule) : bool :=
  match r_Conditions r with Some cs => hasVariableComparisonsRecursive cs | None => false end.

(** ** Examples *)

Definition basic_example (field status : string) : gmap string value :=
  list_to_map [("field", VStr field); ("status", VStr status); ("timestamp", VStr "2025-01-15T10:30:00Z")].

Definition batch_item (id status : string) (n : Z) (type_ : string) : value :=
  obj [("id", VStr id); ("status", VStr status); ("value", VInt n); ("type", VStr type_)].

Definition match_items : list value :=
  [batch_item "item-1" "active" 100 "CRITICAL"; batch_item "item-2" "active" 200 "CRITICAL"; batch_item "item-3" "inactive" 150 "INFO"].
Definition not_match_items : list value := [batch_item "item-99" "inactive" 50 "INFO"].

(** An array at a dotted path, a new map at each level of it. *)
Fixpoint set_nested (m : gmap string value) (parts : list string) (v : value) : gmap string value :=
  match parts with
  | [] => m
  | [p] => <[p := v]> m
  | p :: rest => <[p := VObj (set_nested ∅ rest v)]> m
  end.

Definition foreach_name (forEachField : string) : string :=
  if is_template forEachField then stake (slen forEachField - 2) (sdrop 1 forEachField) else forEachField.
Definition foreach_example (forEachField batch : string) (items : list value) : gmap string value :=
  set_nested (list_to_map [("timestamp", VStr "2025-01-15T10:30:00Z"); ("batch_id", VStr batch)])
    (Split "." (foreach_name forEachField)) (VArr items).

(** The payload of an expected action, as raw JSON. *)
Definition dq : string := String (ascii_of_nat 34) "".
Definition quoted (s : string) : string := dq ++ s ++ dq.
Definition item_payload (id : string) (n : Z) : string :=
  "{" ++ quoted "id" ++ ":" ++ quoted id ++ "," ++ quoted "status" ++ ":" ++ quoted "active" ++ ","
    ++ quoted "value" ++ ":" ++ Itoa n ++ "," ++ quoted "type" ++ ":" ++ quoted "CRITICAL" ++ "}".

Definition nats_output (id : string) (n : Z) : ExpectedOutput := MkExpected ("example." ++ id) "" "" 0 (Some (item_payload id n)) ∅.
Definition http_output (id : string) (n : Z) : ExpectedOutput :=
  MkExpected "" ("https://api.example.com/items/" ++ id) "POST" 0 (Some (item_payload id n)) ∅.
Definition example_outputs (r : Rule) : list ExpectedOutput :=
  match a_NATS (r_Action r), a_HTTP (r_Action r) with
  | Some _, _ => [nats_output "item-1" 100; nats_output "item-2" 200]
  | None, Some _ => [http_output "item-1" 100; http_output "item-2" 200]
  | None, None => []
  end.

Definition comparison_example (temperature : value) (threshold : option Z) : gmap string value :=
  let m := list_to_map [("temperature", temperature); ("sensor_id", VStr "sensor-001"); ("timestamp", VStr "2025-01-15T10:30:00Z")] in
  match threshold with Some t => <["threshold" := VInt t]> m | None => m end.

Definition mock_bucket : value :=
  obj [("example-key", obj [("field1", VStr "value1"); ("field2", VInt 100); ("nested", obj [("field3", VStr "value3")])])].

(** ** Files *)

(** [json.MarshalIndent] on what is written. *)
Class ScaffoldCodec := {
  config_Marshal : TestConfig → string;
  object_Marshal : gmap string value → string;
  outputs_Marshal : list ExpectedOutput → string;
}.

(** [os.WriteFile] and [os.MkdirAll] in a directory whose entries are in the order
    of their names. *)
Fixpoint put_entry (entries : list fs) (f : fs) : list fs :=
  match entries with
  | [] => [f]
  | e :: rest =>
      if String.eqb (fs_name e) (fs_name f) then f :: rest
      else if String.ltb (fs_name f) (fs_name e) then f :: entries
      else e :: put_entry rest f
  end.

Section scaffold.
Context `{ScaffoldCodec}.

(** The names and contents of the files for a rule, in the order of writing; the
    README is there without its text. *)
Definition basic_files : list (string * string) :=
  [("match_1.json", object_Marshal (basic_example "value" "active"));
   ("not_match_1.json", object_Marshal (basic_example "other" "inactive")); ("README.md", "")].

Definition foreach_files (r : Rule) (field : string) : list (string * string) :=
  [("match_1.json", object_Marshal (foreach_example field "batch-001" match_items));
   ("match_1_output.json", outputs_Marshal (example_outputs r));
   ("not_match_1.json", object_Marshal (foreach_example field "batch-002" not_match_items));
   ("not_match_2_empty_array.json", object_Marshal (foreach_example field "batch-003" [])); ("README.md", "")].

Definition comparison_files : list (string * string) :=
  [("match_1_above_threshold.json", object_Marshal (comparison_example (VInt 105) (Some 100%Z)));
   ("not_match_1_below_threshold.json", object_Marshal (comparison_example (VInt 95) (Some 100%Z)));
   ("not_match_2_missing_field.json", object_Marshal (comparison_example (VInt 105) None));
   ("match_2_type_coercion.json", object_Marshal (comparison_example (VStr "105") (Some 100%Z))); ("README.md", "")].

(** The map of the buckets, with two comments before its first entry. *)
Definition comment_lines : string :=
  "{" ++ String "010" ("  " ++ quoted "_comment" ++ ": " ++ quoted "Mock KV data for testing. Structure: bucket -> key -> value" ++ ","
    ++ String "010" ("  " ++ quoted "_instructions" ++ ": " ++ quoted "Update this file to match your KV references in the rule" ++ ","
    ++ String "010" "")).
Definition mock_kv_text (buckets : list string) : string :=
  comment_lines ++ sdrop 1 (object_Marshal (list_to_map (map (λ b, (b, mock_bucket)) buckets))).

Definition scaffold_config (r : Rule) (now : Time) : TestConfig :=
  match tr_NATS (r_Trigger r), tr_HTTP (r_Trigger r) with
  | Some t, _ => MkTestConfig (Some t) None (FormatRFC3339 now) [] ∅ None
  | None, Some t => MkTestConfig None (Some t) (FormatRFC3339 now) [("Content-Type", "application/json")] ∅ None
  | None, None => MkTestConfig None None (FormatRFC3339 now) [] ∅ None
  end.

Definition example_files (r : Rule) (f : RuleFeatures) : list (string * string) :=
  if rf_UsesForEach f then foreach_files r (rf_ForEachField f)
  else if rf_HasVariableComparisons f || rf_HasKVLookups f then comparison_files
  else basic_files.

Definition scaffold_files (r : Rule) (now : Time) : list (string * string) :=
  let f := analyzeRuleFeatures r in
  (("_test_config.json", config_Marshal (scaffold_config r now)) :: example_files r f
    ++ if rf_HasKVLookups f then [("mock_kv_data.json", mock_kv_text (rf_KVBuckets f))] else [])%list.

(** [writeOrWarn]: a file that cannot be written, for one because a directory has
    its name, is left out. *)
Definition writable (can_write : string → bool) (entries : list fs) (name : string) : bool :=
  can_write name && match dir_entry entries name with Some (FsDir _ _) => false | _ => true end.
Definition write_files (can_write : string → bool) (entries : list fs) (files : list (string * string)) : list fs :=
  foldl (λ es f, if writable can_write es f.1 then put_entry es (FsFile f.1 (Some f.2)) else es) entries files.

Definition scaffoldSingleRule (can_write : string → bool) (entries : list fs) (r : Rule) (now : Time) : list fs :=
  write_files can_write entries (scaffold_files r now).

Inductive scaffold_error := NotARuleFile | TestDirExists (dir : string) | DirNotCreated (dir : string) | NoRulesToScaffold.

(** The name of the directory of a rule's own suite. *)
Definition rule_dir (i : nat) : string := rule_prefix ++ Itoa (Z.of_nat i).

Definition dir_entries (entries : list fs) (name : string) : list fs :=
  match dir_entry entries name with Some (FsDir _ es) => es | _ => [] end.

Fixpoint scaffold_rules (can_mkdir can_write : string → bool) (now : Time) (i : nat) (rules : list Rule) (entries : list fs)
    : result scaffold_error unit * list fs :=
  match rules with
  | [] => (Ok tt, entries)
  | r :: rest =>
      if can_mkdir (rule_dir i) && match dir_entry entries (rule_dir i) with Some (FsFile _ _) => false | _ => true end then
        scaffold_rules can_mkdir can_write now (S i) rest
          (put_entry entries (FsDir (rule_dir i) (scaffoldSingleRule can_write (dir_entries entries (rule_dir i)) r now)))
      else (Err (DirNotCreated (rule_dir i)), entries)
  end.

(** [Scaffold] on a rule file, with what stands at the path of its test directory
    before and, if that is a directory, after; [answer] is what the user types. *)
Definition Scaffold `{LoaderEnv} (can_mkdir can_write : string → bool) (now : Time) (answer : string) (noOverwrite : bool)
    (name : string) (content : option string) (testDir : option fs) : result scaffold_error unit * option fs :=
  if negb (HasSuffix name ".yaml") && negb (HasSuffix name ".yml") then (Err NotARuleFile, testDir)
  else
    let dir := TrimExt name ++ "_test" in
    match testDir, noOverwrite with
    | Some _, true => (Err (TestDirExists dir), testDir)
    | _, _ =>
        if (match testDir with Some _ => true | None => false end) && negb (String.eqb (ToLower (TrimSpace answer)) "y") then (Ok tt, testDir)
        else
          match testDir with
          | Some (FsFile _ _) => (Err (DirNotCreated dir), testDir)
          | _ =>
              if negb (can_mkdir dir) then (Err (DirNotCreated dir), testDir)
              else
                let entries := match testDir with Some (FsDir _ es) => es | _ => [] end in
                match loadSingleRuleFile content with
                | None | Some [] => (Err NoRulesToScaffold, Some (FsDir dir entries))
                | Some [r] => (Ok tt, Some (FsDir dir (scaffoldSingleRule can_write entries r now)))
                | Some rules =>
                    let '(res, entries) := scaffold_rules can_mkdir can_write now 0 rules entries in
                    (res, Some (FsDir dir entries))
                end
          end
    end.
End scaffold.

(** ** Lemmas *)

Lemma entry_put_eq entries f : dir_entry (put_entry entries f) (fs_name f) = Some f.
Proof.
  induction entries as [|e rest IH]; cbn [put_entry]; [unfold dir_entry; cbn; by rewrite String.eqb_refl|].
  destruct (String.eqb_spec (fs_name e) (fs_name f)) as [He|He]; [unfold dir_entry; cbn; by rewrite String.eqb_refl|].
  destruct (String.ltb _ _); unfold dir_entry in *; cbn [List.find]; [by rewrite String.eqb_refl|].
  by rewrite (proj2 (String.eqb_neq _ _) He).
Qed.

Lemma entry_put_ne entries f name : name ≠ fs_name f → dir_entry (put_entry entries f) name = dir_entry entries name.
Proof.
  intros Hne. assert (String.eqb (fs_name f) name = false) as Hf by (by apply String.eqb_neq).
  induction entries as [|e rest IH]; cbn [put_entry]; [unfold dir_entry; cbn; by rewrite Hf|].
  destruct (String.eqb_spec (fs_name e) (fs_name f)) as [He|He].
  - unfold dir_entry. cbn [List.find]. by rewrite He, Hf.
  - destruct (String.ltb _ _); unfold dir_entry in *; cbn [List.find]; [by rewrite Hf|]. by destruct (String.eqb (fs_name e) name).
Qed.

Lemma put_entry_fresh entries f : dir_entry entries (fs_name f) = None → put_entry entries f ≡ₚ f :: entries.
Proof.
  induction entries as [|e rest IH]; cbn [put_entry]; [done|]. unfold dir_entry. cbn [List.find].
  destruct (String.eqb_spec (fs_name e) (fs_name f)) as [He|He]; [done|]. intros Hr.
  destruct (String.ltb _ _); [done|]. rewrite (IH Hr). apply Permutation_swap.
Qed.

Lemma rule_dir_index i : (Z.of_nat i ≤ int64_max)%Z → parseRuleIndex (rule_dir i) = Z.of_nat i.
Proof.
  intros Hi. unfold parseRuleIndex, rule_dir. rewrite (proj2 (CutPrefix_app _ _ (Itoa (Z.of_nat i))) eq_refl).
  rewrite Atoi_Itoa by (apply in_int64_spec; unfold int64_min; lia).
  destruct (Z.ltb_spec (Z.of_nat i) 0); [lia|done].
Qed.

Lemma rule_dir_inj i j : (Z.of_nat i ≤ int64_max)%Z → (Z.of_nat j ≤ int64_max)%Z → rule_dir i = rule_dir j → i = j.
Proof. intros Hi Hj He. apply (f_equal parseRuleIndex) in He. rewrite !rule_dir_index in He by done. lia. Qed.

Lemma concat_groups_each {A} (f : A → option (list Group)) (P : A → Group → Prop) l :
  (∀ a, a ∈ l → ∃ g, f a = Some [g] ∧ P a g) → ∃ gs, concat_groups (map f l) = Some gs ∧ Forall2 P l gs.
Proof.
  induction l as [|a l IH]; intros Hf; [by exists []|]. destruct (Hf a ltac:(by left)) as (g & Hg & Hp).
  destruct IH as (gs & Hgs & Hall); [intros b Hb; apply Hf; by right|]. exists (g :: gs).
  cbn. rewrite Hg. cbn. rewrite Hgs. split; [done|by constructor].
Qed.

Section lemmas.
Context `{TestCodec} `{ScaffoldCodec}.

(** A case that can be run, by its name. *)
Definition case_ok (entries : list fs) (f : string) : bool :=
  (HasPrefix f "match_" || HasPrefix f "not_match_") && match read_file entries f with Some _ => true | None => false end.

(** The directory of one suite as it is scaffolded. *)
Record suite_shape (entries : list fs) (config : string) : Prop := {
  sh_flat : findRuleSubDirs entries = [];
  sh_config : read_file entries "_test_config.json" = Some config;
  sh_cases : forallb (case_ok entries) (collectTestFiles entries) = true;
  sh_match : existsb (λ f, HasPrefix f "match_") (collectTestFiles entries) = true;
  sh_not_match : existsb (λ f, HasPrefix f "not_match_") (collectTestFiles entries) = true;
}.

Lemma scaffoldSingleRule_shape r now : suite_shape (scaffoldSingleRule (λ _, true) [] r now) (config_Marshal (scaffold_config r now)).
Proof.
  unfold scaffoldSingleRule, scaffold_files, example_files, foreach_files, comparison_files, basic_files.
  generalize (analyzeRuleFeatures r). intros f. generalize (mock_kv_text (rf_KVBuckets f)), (config_Marshal (scaffold_config r now)).
  intros mock config. destruct (rf_UsesForEach f); [|destruct (rf_HasVariableComparisons f || rf_HasKVLookups f)];
    repeat match goal with |- context [object_Marshal ?x] => generalize (object_Marshal x); intros ? end;
    try match goal with |- context [outputs_Marshal ?x] => generalize (outputs_Marshal x); intros ? end;
    destruct (rf_HasKVLookups f); clear;
    (split; vm_compute; reflexivity).
Qed.

(** The directories of a file with many rules: one for each, in its place. *)
Lemma scaffold_rules_spec now i rules entries :
  (Z.of_nat (i + length rules) ≤ int64_max)%Z → (∀ j, (i ≤ j < i + length rules)%nat → dir_entry entries (rule_dir j) = None) →
  let '(res, entries') := scaffold_rules (λ _, true) (λ _, true) now i rules entries in
  res = Ok tt ∧
  map fs_name entries' ≡ₚ (map rule_dir (seq i (length rules)) ++ map fs_name entries)%list ∧
  (Forall (λ e, is_dir e = true) entries → Forall (λ e, is_dir e = true) entries') ∧
  (∀ name, (∀ j, (i ≤ j < i + length rules)%nat → name ≠ rule_dir j) → dir_entry entries' name = dir_entry entries name) ∧
  ∀ j r, rules !! j = Some r → dir_entry entries' (rule_dir (i + j)) =
    Some (FsDir (rule_dir (i + j)) (scaffoldSingleRule (λ _, true) [] r now)).
Proof.
  revert i entries. induction rules as [|r rest IH]; intros i entries Hmax Hfresh; cbn [scaffold_rules length seq map app] in *.
  { split_and!; done. }
  assert (dir_entries entries (rule_dir i) = []) as Hd by (unfold dir_entries; rewrite Hfresh; [done|lia]). rewrite Hd, Hfresh by lia. cbn [andb].
  set (d := FsDir (rule_dir i) _). assert (∀ j, (i < j < i + S (length rest))%nat → rule_dir j ≠ rule_dir i) as Hne.
  { intros j Hj He. apply rule_dir_inj in He; lia. }
  specialize (IH (S i) (put_entry entries d)). destruct (scaffold_rules _ _ now (S i) rest (put_entry entries d)) as [res entries'].
  destruct IH as (-> & Hp & Hdir & Hother & Hin); [lia| |].
  { intros j Hj. rewrite entry_put_ne by (cbn; apply Hne; lia). apply Hfresh. lia. }
  pose proof (put_entry_fresh entries d (Hfresh i ltac:(lia))) as Hperm. split_and!; [done| | | |].
  - rewrite Hp. rewrite (Permutation_map fs_name Hperm). cbn. symmetry. apply Permutation_middle.
  - intros Hf. apply Hdir. rewrite Hperm. by constructor.
  - intros name Hn. rewrite Hother by (intros j Hj; apply Hn; lia). apply entry_put_ne. cbn. apply Hn. lia.
  - intros [|j] r'; cbn [lookup list_lookup].
    + intros [= <-]. rewrite Nat.add_0_r, Hother by (intros j Hj He; symmetry in He; apply Hne in He; [done|lia]).
      exact (entry_put_eq entries d).
    + intros Hj. rewrite <- Nat.add_succ_comm. by apply Hin.
Qed.

(** The suite that one scaffolded directory makes. *)
Definition scaffolded_suite (rule : string * option string) (dir : string) (index : Z) (r : Rule) (g : Group) : Prop :=
  gr_Rule g = rule ∧ gr_Dir g = dir ∧ gr_Index g = index ∧
  tc_NATS (gr_Config g) = tr_NATS (r_Trigger r) ∧ (tr_NATS (r_Trigger r) = None → tc_HTTP (gr_Config g) = tr_HTTP (r_Trigger r)) ∧
  forallb (case_ok (gr_Entries g)) (gr_TestFiles g) = true ∧
  existsb (λ f, HasPrefix f "match_") (gr_TestFiles g) = true ∧ existsb (λ f, HasPrefix f "not_match_") (gr_TestFiles g) = true.

(** The configurations that are written can be read: their triggers come back. *)
Definition config_roundtrip (rules : list Rule) (now : Time) : Prop := ∀ r, r ∈ rules →
  ∃ c, config_Unmarshal (config_Marshal (scaffold_config r now)) empty_config = Some c ∧
    tc_NATS c = tc_NATS (scaffold_config r now) ∧ tc_HTTP c = tc_HTTP (scaffold_config r now).

Lemma scaffold_group rule dir index r rules now : config_roundtrip rules now → r ∈ rules →
  ∃ g, group_in rule dir (scaffoldSingleRule (λ _, true) [] r now) index = Some [g] ∧ scaffolded_suite rule dir index r g.
Proof.
  intros Hrt Hr. destruct (scaffoldSingleRule_shape r now) as [_ Hc Hall Hm Hn]. unfold group_in.
  destruct (collectTestFiles _) as [|f l] eqn:E; [done|]. cbn [length Nat.eqb]. rewrite Hc. unfold loadTestConfig.
  destruct (Hrt r Hr) as (c' & -> & Hnats & Hhttp). cbn [mbind option_bind]. eexists. split; [done|].
  unfold scaffolded_suite. cbn [gr_Rule gr_Dir gr_Index gr_Config gr_Entries gr_TestFiles tc_NATS tc_HTTP]. split_and!; try done.
  - rewrite Hnats. unfold scaffold_config. by destruct (tr_NATS (r_Trigger r)), (tr_HTTP (r_Trigger r)).
  - intros Ht. rewrite Hhttp. unfold scaffold_config. rewrite Ht. by destruct (tr_HTTP (r_Trigger r)).
Qed.

(** The directories found are those made, in some order. *)
Lemma found_rule_dirs entries n : (Z.of_nat n ≤ int64_max)%Z →
  map fs_name entries ≡ₚ map rule_dir (seq 0 n) → Forall (λ e, is_dir e = true) entries →
  findRuleSubDirs entries ≡ₚ map rule_dir (seq 0 n).
Proof.
  intros Hmax Hn Hd. unfold findRuleSubDirs. rewrite merge_sort_Permutation, <- Hn.
  assert (List.filter (λ e, is_dir e && HasPrefix (fs_name e) rule_prefix && (0 <=? parseRuleIndex (fs_name e))%Z) entries = entries) as ->; [|done].
  apply forallb_filter_id, forallb_forall. intros e He%list_elem_of_In. rewrite Forall_forall in Hd. rewrite (Hd _ He). cbn [andb].
  assert (fs_name e ∈ map rule_dir (seq 0 n)) as Hin by (rewrite <- Hn; apply list_elem_of_In, in_map; by apply list_elem_of_In).
  apply list_elem_of_In, in_map_iff in Hin as (i & <- & Hi%in_seq). rewrite rule_dir_index by lia.
  apply andb_true_iff. split; [unfold rule_dir; apply HasPrefix_app|apply Z.leb_le; lia].
Qed.

Lemma found_suites path content name entries rules now : config_roundtrip rules now →
  (Z.of_nat (length rules) ≤ int64_max)%Z → rules ≠ [] →
  findRuleSubDirs entries ≡ₚ map rule_dir (seq 0 (length rules)) →
  (∀ j r, rules !! j = Some r → dir_entry entries (rule_dir j) = Some (FsDir (rule_dir j) (scaffoldSingleRule (λ _, true) [] r now))) →
  ∃ gs, suite_of (path, content) (Some (FsDir name entries)) = Some gs ∧
    map gr_Index gs ≡ₚ map Z.of_nat (seq 0 (length rules)) ∧
    Forall (λ g, ∃ i r, rules !! i = Some r ∧ scaffolded_suite (path, content) (rule_dir i) (Z.of_nat i) r g) gs.
Proof.
  intros Hrt Hmax Hne Hdirs Hin. cbn [suite_of].
  set (mk := λ d, group_in (path, content) d (match dir_entry entries d with Some (FsDir _ es) => es | _ => [] end) (parseRuleIndex d)).
  assert (∀ d, d ∈ findRuleSubDirs entries → ∃ g, mk d = Some [g] ∧
    (gr_Index g = parseRuleIndex d ∧ ∃ i r, rules !! i = Some r ∧ scaffolded_suite (path, content) (rule_dir i) (Z.of_nat i) r g)) as Heach.
  { intros d Hd. rewrite Hdirs in Hd. apply list_elem_of_In, in_map_iff in Hd as (i & <- & Hi%in_seq).
    destruct (lookup_lt_is_Some_2 rules i) as [r Hr]; [lia|].
    destruct (scaffold_group (path, content) (rule_dir i) (parseRuleIndex (rule_dir i)) r rules now Hrt) as (g & Hg & Hs);
      [by eapply list_elem_of_lookup_2|].
    exists g. unfold mk. rewrite (Hin _ _ Hr), Hg. split; [done|]. rewrite rule_dir_index in * by lia.
    split; [apply Hs|by exists i, r]. }
  destruct (concat_groups_each mk _ _ Heach) as (gs & Hgs & Hall). exists gs. split.
  - destruct (findRuleSubDirs entries) as [|d0 ds]; [|done].
    exfalso. apply Permutation_nil, map_eq_nil in Hdirs. by destruct rules.
  - split.
    + assert (map gr_Index gs = map parseRuleIndex (findRuleSubDirs entries)) as ->.
      { clear -Hall. induction Hall as [|d g ds gs [Hi _] _ IH]; [done|]. cbn. by rewrite Hi, IH. }
      rewrite Hdirs, map_map. erewrite map_ext_in; [done|]. intros i Hi%in_seq. apply rule_dir_index. lia.
    + apply Forall_forall. intros g [k Hk]%list_elem_of_lookup. by destruct (Forall2_lookup_r _ _ _ _ _ Hall Hk) as (d & _ & _ & ?).
Qed.
End lemmas.

(** ** Properties *)

Section properties.
Context `{LoaderEnv} `{TestCodec} `{ScaffoldCodec}.

(** C36: What is scaffolded is found again.  Scaffolding a rule file into a test
    directory of its own makes, for a file with one rule, one suite for all rules,
    and else one suite for each rule with that rule's index; a run of the tester
    finds exactly those, each with the NATS or HTTP trigger of its rule mocked, and with cases
    that can be read: some that are to match and some that are not, and no other
    files.  For a rule with a schedule nothing is mocked, and its suite, though
    found, cannot pass before its owner adds a trigger ([schedule_suite_fails]).
    The configurations written are taken to be decoded to what was encoded. *)
Theorem Scaffold_found now answer noOverwrite name content path dir :
  (∀ rules, loadSingleRuleFile content = Some rules → config_roundtrip rules now) →
  Scaffold (λ _, true) (λ _, true) now answer noOverwrite name content None = (Ok tt, Some dir) →
  ∃ rules, loadSingleRuleFile content = Some rules ∧ ((Z.of_nat (length rules) ≤ int64_max)%Z →
    ∃ gs, suite_of (path, content) (Some dir) = Some gs ∧
      match rules with
      | [r] => ∃ g, gs = [g] ∧ scaffolded_suite (path, content) (TrimExt name ++ "_test") (-1) r g
      | _ => map gr_Index gs ≡ₚ map Z.of_nat (seq 0 (length rules)) ∧
             Forall (λ g, ∃ i r, rules !! i = Some r ∧ scaffolded_suite (path, content) (rule_dir i) (Z.of_nat i) r g) gs
      end).
Proof.
  intros Hrt. revert Hrt. unfold Scaffold. destruct (negb (HasSuffix name ".yaml") && negb (HasSuffix name ".yml")); [done|].
  cbn [andb negb]. destruct (loadSingleRuleFile content) as [[|r [|r2 rest]]|] eqn:El; [done| | |done].
  - intros Hrt [= <-]. exists [r]. split; [done|]. intros _. cbn [suite_of].
    destruct (scaffoldSingleRule_shape r now) as [-> _ _ _ _].
    destruct (scaffold_group (path, content) (TrimExt name ++ "_test") (-1) r [r] now (Hrt [r] eq_refl)) as (g & -> & Hg); [by left|].
    exists [g].
    split; [done|]. by exists g.
  - set (rules := r :: r2 :: rest) in *. destruct (scaffold_rules _ _ now 0 rules []) as [res entries] eqn:Es.
    intros Hrt [= -> <-]. exists rules. split; [done|]. intros Hmax.
    pose proof (scaffold_rules_spec now 0 rules [] Hmax ltac:(done)) as Hspec. rewrite Es in Hspec.
    destruct Hspec as (_ & Hp & Hd & _ & Hin). rewrite app_nil_r in Hp.
    pose proof (found_rule_dirs entries (length rules) Hmax Hp (Hd (Forall_nil_2 _))) as Hdirs.
    by apply (found_suites path content _ entries rules now (Hrt rules eq_refl)).
Qed.
End properties.

(** ** Concrete directories *)

#[local] Existing Instances suite_loader demo.

(** A codec that writes one configuration. *)
Definition one_config (c : TestConfig) : TestCodec := {|
  config_Unmarshal := λ s _, if String.eqb s "config" then Some c else None;
  kv_Unmarshal := λ _, None; outputs_Unmarshal := λ _, None; output_Unmarshal := λ _, None;
  canonical_JSON := λ s, Some s;
|}.
Definition demo_scaffold : ScaffoldCodec := {|
  config_Marshal := λ _, "config"; object_Marshal := λ m, sprint (VObj m); outputs_Marshal := λ _, "[]";
|}.
#[local] Existing Instance demo_scaffold.

Definition epoch : Time := MkTime 0 0.
Definition scaffolded (content : string) : option fs :=
  (Scaffold (λ _, true) (λ _, true) epoch "" false "r.yaml" (Some content) None).2.

Example scaffolds_each_rule :
  match scaffolded "two" with Some (FsDir n es) => (n, map fs_name es) | _ => ("", []) end = ("r_test", ["_rule_0"; "_rule_1"]).
Proof. vm_compute. reflexivity. Qed.

Lemma Scaffold_found_witness :
  let r := nats_rule "plain" "sensors.*" None in
  let codec := one_config (scaffold_config r epoch) in
  ∃ dir, scaffolded "plain" = Some dir ∧ ∃ gs, @suite_of codec ("r.yaml", Some "plain") (Some dir) = Some gs ∧ length gs = 1%nat.
Proof.
  cbn zeta. set (r := nats_rule "plain" "sensors.*" None).
  exists (FsDir "r_test" (scaffoldSingleRule (λ _, true) [] r epoch)). split; [vm_compute; reflexivity|].
  destruct (@Scaffold_found suite_loader (one_config (scaffold_config r epoch)) demo_scaffold epoch "" false "r.yaml" (Some "plain") "r.yaml"
    (FsDir "r_test" (scaffoldSingleRule (λ _, true) [] r epoch))) as (rules & Hr & Hgs).
  - intros rules [= <-] r' [->|Hin]%elem_of_cons; [|by apply elem_of_nil in Hin]. by exists (scaffold_config r epoch).
  - vm_compute. reflexivity.
  - injection Hr as <-. destruct Hgs as (gs & Hs & (g & -> & _)); [vm_compute; discriminate|]. by exists [g].
Defined.

(** The suite that is made for a schedule rule cannot pass: its configuration has
    no trigger. *)
Definition schedule_rule : Rule :=
  MkRule "tick" (MkTrigger None None (Some (MkScheduleTrigger "* * * * *" ""))) None plain_action 0.

Lemma schedule_suite_fails message : dispatch (scaffold_config schedule_rule epoch) message = None.
Proof. done. Qed.

(** An expected output is written for a rule with a forEach and for no other. *)
Lemma output_file_only_for_each r f :
  "match_1_output.json" ∈ map fst (example_files r f) ↔ rf_UsesForEach f = true.
Proof.
  unfold example_files. destruct (rf_UsesForEach f); cbn [map fst foreach_files].
  - split; [done|]. intros _. right. by left.
  - split; [|done]. intros Hin. exfalso. revert Hin. apply (bool_decide_eq_false_1 _).
    destruct (rf_HasVariableComparisons f || rf_HasKVLookups f); vm_compute; reflexivity.
Qed.
