(* ===== verification/Browser.v ===== *)
(** * The rule tester of the browser (cmd/wasm/main.go, internal/rule/kv_context_wasm.go, signature_verify_wasm.go)

    The engine compiled for the browser: a key-value context over a local cache
    alone, signatures that are never checked, and [evaluateRule], which takes a
    rule file, a message and options and shows what the rule does.  What it shows
    is what [QuickCheck] of the command line shows, and its lookups are those of
    a server that holds the mocked values. *)

From S2P Require Import Prelude GoStrings GoFloat GoTime Value Types TimeContext Traversal Env Demo KVContext Context.
From S2P Require Import Expand Index Throttle Processor Loader AuthConfig Tester.
Local Open Scope string_scope.

(** ** The key-value context of the browser *)

Section wasm.
Context `{Env}.

(** The errors for an empty bucket and an empty key are one in this build; no
    caller tells them apart. *)
Definition wasm_split_bucket_key (field s : string) : option (string * string) :=
  let '(bucket, key, found) := Cut "." s in
  if negb found then None
  else if String.eqb bucket "" || String.eqb key "" then None
  else Some (bucket, key).

Definition wasm_parseKVFieldUncached (field : string) : option parsedKVField :=
  if negb (HasPrefix field "@kv.") then None
  else
    let remainder := sdrop 4 field in
    if negb (Contains remainder ":") then
      '(bucket, key) ← wasm_split_bucket_key field remainder;
      Some (MkParsed bucket key [])
    else if (1 <? count_char ":" remainder)%nat then None
    else
      let '(bucketKeyPart, jsonPathPart, _) := Cut ":" remainder in
      '(bucket, key) ← wasm_split_bucket_key field bucketKeyPart;
      if String.eqb jsonPathPart "" then Some (MkParsed bucket key [])
      else
        jsonPath ← ok_or_none (SplitPathRespectingBraces jsonPathPart);
        Some (MkParsed bucket key jsonPath).

Definition wasm_parseKVField (field : string) : M (option parsedKVField) :=
  st ← get;
  match st_parseCache st !! field with
  | Some cached => mret (Some cached)
  | None =>
      match wasm_parseKVFieldUncached field with
      | None => mret None
      | Some p =>
          _ ← (if (size (st_parseCache st) <? maxParseCacheSize)%nat
               then set_parseCache (<[field := p]> (st_parseCache st)) else mret tt);
          mret (Some p)
      end
  end.

Definition wasm_Field (field : string) : M (option value) :=
  parsed ← wasm_parseKVField field;
  match parsed with
  | None => mret None
  | Some (MkParsed bucket key jsonPath) =>
      st ← get;
      match cached_value (st_localCache st) bucket key with
      | Some cachedValue => mret (traverse_found cachedValue jsonPath)
      | None => mret None
      end
  end.

(** The substitution of variables is that of the other build, line for line. *)
Definition wasm_FieldWithContext (field : string) (msgData : gmap string value)
    (timeCtx : option TimeContext) (subjectCtx : option SubjectContext) : M (option value) :=
  let '(resolvedField, hasUnresolvedVars) := resolveVariablesEnhanced field msgData timeCtx subjectCtx in
  if hasUnresolvedVars then mret None else wasm_Field resolvedField.

Definition wasm_Buckets : list string := [].
Definition wasm_HasBucket (lc : option LocalKVCache) (bucketName : string) : bool :=
  match lc with
  | Some c => if cache_IsEnabled c then match cache_Get c bucketName "" with Some _ => true | None => false end else false
  | None => false
  end.

(** [verifySignature] only notes that it ran. *)
Definition wasm_verifySignature : M unit :=
  st ← get; set_sig (MkSig true (sigValid (st_sig st)) (signerPublicKey (st_sig st))).
End wasm.

(** ** [evaluateRule] *)

(** The options, decoded. *)
Record evaluateOptions := MkOptions {
  op_TriggerType : string; op_Subject : string; op_Path : string; op_Method : string;
  op_Headers : list (string * string); op_Query : QueryParams;
  op_KVMock : gmap string (gmap string value); op_MockTime : string; op_Index : Z;
}.

Inductive browser_error :=
| TooFewArguments | BadOptions | RulesNotValid (e : source_error) | NoRulesFound
| BrowserMockTime (text : string) | RulesNotLoadable (e : load_error) | BrowserProcessing (e : context_error).

Inductive action_kind := KindNATS (subject mode : string) | KindHTTP (url method : string) | KindRespond (status : Z).
Record actionResult := MkActionResult {
  ar_Kind : action_kind; ar_Payload : string; ar_Headers : gmap string string; ar_Passthrough : bool;
  ar_Deferred : option DeferSpec;
}.

(** An error, or whether an action came of it and what they are. *)
Definition evaluateResult : Type := result browser_error (bool * list actionResult).

Definition passed_payload (passthrough : bool) (rawPayload payload : string) : string :=
  if passthrough && negb (String.eqb rawPayload "") then rawPayload else payload.

Definition action_result (a : Action) : option actionResult :=
  match a_NATS a, a_HTTP a, a_Respond a with
  | Some n, _, _ =>
      Some (MkActionResult (KindNATS (na_Subject n) (na_Mode n)) (passed_payload (na_Passthrough n) (na_RawPayload n) (na_Payload n))
              (na_Headers n) (na_Passthrough n) (a_Defer a))
  | None, Some h, _ =>
      Some (MkActionResult (KindHTTP (ha_URL h) (ha_Method h)) (passed_payload (ha_Passthrough h) (ha_RawPayload h) (ha_Payload h))
              (ha_Headers h) (ha_Passthrough h) (a_Defer a))
  | None, None, Some r =>
      Some (MkActionResult (KindRespond (if (ra_StatusCode r =? 0)%Z then 200 else ra_StatusCode r))
              (passed_payload (ra_Passthrough r) (ra_RawPayload r) (ra_Payload r)) (ra_Headers r) (ra_Passthrough r) None)
  | None, None, None => None
  end.

Section evaluate.
Context `{LoaderEnv} `{Env}.

(** An index out of range selects the first rule. *)
Definition browser_index (index : Z) (n : nat) : nat :=
  if ((index <? 0) || (Z.of_nat n <=? index))%Z then 0%nat else Z.to_nat index.

Definition browser_clock (mockTime : string) : result browser_error (list Option) :=
  if String.eqb mockTime "" then Ok []
  else match ParseRFC3339 mockTime with
       | None => Err (BrowserMockTime mockTime)
       | Some t => Ok [WithTimeProvider (MockTimeProvider t)]
       end.

(** In the browser no variable of the environment is set. *)
Definition browser_env : LoaderEnv := {|
  yaml_Unmarshal := yaml_Unmarshal; cron_Parse := cron_Parse; time_LoadLocation := time_LoadLocation;
  os_Getenv := λ _, "";
|}.

(** The processor with the selected rule, the state with the mocked values, and
    the world after reading the clock.  A context without stores is the one of
    this build. *)
Definition browser_setup (yaml : string) (o : evaluateOptions) (w : World) : result browser_error (Processor * St) * World :=
  let kv := Some (op_KVMock o) in
  let '(loaded, st) := @ParseAndValidateYAML browser_env _ (NewLoader (buckets_of kv)) yaml (mock_state None w) in
  let '(now, w) := time_Now (st_world st) in
  (rules ← map_err RulesNotValid loaded;
   _ ← guard_err (length rules =? 0)%nat NoRulesFound;
   clock ← browser_clock (op_MockTime o);
   p ← map_err RulesNotLoadable
         (LoadRules now (with_options (NewProcessor None None None now) (WithKVContext (MkKVContext ∅) :: clock))
            (take 1 (drop (browser_index (op_Index o) (length rules)) rules)));
   Ok (p, mock_state kv w), w).

Definition or_default (s default : string) : string := if String.eqb s "" then default else s.

Definition browser_process (o : evaluateOptions) (message : string) : PM (result context_error Outcome) :=
  if String.eqb (op_TriggerType o) "http" then
    ProcessHTTP (or_default (op_Path o) "/") (or_default (op_Method o) "POST") message (op_Headers o) (op_Query o)
  else ProcessNATS (or_default (op_Subject o) "test") message (op_Headers o).

Definition browser_outcome (yaml message : string) (o : evaluateOptions) (w : World) : result browser_error Outcome :=
  ps ← (browser_setup yaml o w).1;
  map_err BrowserProcessing (browser_process o message ps).1.

(** The arguments, and the options as far as they decode. *)
Definition evaluateRule (args : list string) (options : option evaluateOptions) (w : World) : evaluateResult :=
  match args with
  | yaml :: message :: _ :: _ =>
      o ← of_option BadOptions options;
      outcome ← browser_outcome yaml message o w;
      Ok (negb (length (All outcome) =? 0)%nat, omap action_result (All outcome))
  | _ => Err TooFewArguments
  end.

(** ** Specification *)

(** The options that stand for the arguments of a quick check of the rule [r]. *)
Definition options_for (r : Rule) (subjectOverride : string) (headers : list (string * string)) (query : QueryParams)
    (kv : gmap string (gmap string value)) (index : Z) : evaluateOptions :=
  match tr_NATS (r_Trigger r), tr_HTTP (r_Trigger r) with
  | Some t, _ => MkOptions "nats" (if String.eqb subjectOverride "" then nt_Subject t else subjectOverride) "" "" headers query kv "" index
  | None, Some t => MkOptions "http" "" (ht_Path t) (ht_Method t) headers query kv "" index
  | None, None => MkOptions "" "" "" "" headers query kv "" index
  end.

(** The variables that the rules of a file refer to, with their throttles
    normalised, are not set where the command line runs. *)
Definition references_unset (parsed : list Rule) : Prop :=
  Forall (λ r, ∀ r', normalizeThrottle r = Ok r' →
    Forall (λ s, Forall (λ n, os_Getenv n = "") (env_names s)) (rule_env r')) parsed.

(** A trigger that the defaults leave alone. *)
Definition spelled_out (r : Rule) (subjectOverride : string) : Prop :=
  match tr_NATS (r_Trigger r), tr_HTTP (r_Trigger r) with
  | Some t, _ => subjectOverride ≠ "" ∨ nt_Subject t ≠ ""
  | None, Some t => ht_Path t ≠ "" ∧ ht_Method t ≠ ""
  | None, None => True
  end.
End evaluate.

(** ** Lemmas *)

Section context.
Context `{Env}.

Lemma wasm_split_same field s : wasm_split_bucket_key field s = ok_or_none (split_bucket_key field s).
Proof.
  unfold wasm_split_bucket_key, split_bucket_key. destruct (Cut "." s) as [[bucket key] found].
  by destruct found, (String.eqb bucket ""), (String.eqb key "").
Qed.

Lemma wasm_parse_same field : wasm_parseKVFieldUncached field = ok_or_none (parseKVFieldUncached field).
Proof.
  unfold wasm_parseKVFieldUncached, parseKVFieldUncached. destruct (HasPrefix field "@kv."); [|done]. cbn [negb].
  destruct (Contains _ ":"); cbn [negb].
  - destruct (1 <? _)%nat; [done|]. destruct (Cut ":" _) as [[bk jp] ?]. rewrite wasm_split_same.
    destruct (split_bucket_key field bk) as [[bucket key]|]; [|done]. cbn. destruct (String.eqb jp ""); [done|].
    by destruct (SplitPathRespectingBraces jp).
  - rewrite wasm_split_same. by destruct (split_bucket_key field _) as [[bucket key]|].
Qed.

Lemma wasm_parseKVField_same field st :
  wasm_parseKVField field st = (ok_or_none (parseKVField field st).1, (parseKVField field st).2).
Proof.
  unfold wasm_parseKVField, parseKVField, get, mbind, M_bind. destruct (st_parseCache st !! field); [done|].
  rewrite wasm_parse_same. destruct (parseKVFieldUncached field) as [p|e]; [|done]. cbn [ok_or_none].
  by destruct (size (st_parseCache st) <? maxParseCacheSize)%nat.
Qed.

Lemma wasm_Field_same field st : wasm_Field field st = KVField (MkKVContext ∅) field st.
Proof.
  unfold wasm_Field, KVField, mbind, M_bind. rewrite wasm_parseKVField_same.
  destruct (parseKVField field st) as [[[bucket key path]|e] st']; [|done]. cbn [fst snd ok_or_none get].
  unfold get. by destruct (cached_value (st_localCache st') bucket key).
Qed.

(** The context of the browser is that of the other build without stores, so the
    engine of the browser is the engine with such a context. *)
Lemma wasm_FieldWithContext_same field msgData timeCtx subjectCtx st :
  wasm_FieldWithContext field msgData timeCtx subjectCtx st = FieldWithContext (MkKVContext ∅) field msgData timeCtx subjectCtx st.
Proof.
  unfold wasm_FieldWithContext, FieldWithContext. destruct (resolveVariablesEnhanced _ _ _ _) as [resolved []]; [done|].
  apply wasm_Field_same.
Qed.

(** Without a configuration of signatures the server does as little. *)
Lemma wasm_verifySignature_same c st : ctx_sigVerification c = None → wasm_verifySignature st = verifySignature c st.
Proof.
  intros Hc. unfold wasm_verifySignature, verifySignature, mbind, M_bind, get. rewrite Hc.
  destruct st as [[[] ? ?] ? ? ? ?]; done.
Qed.

(** *** Mocks *)

Variable snapshot : string → string → option string.
Variable buckets : gset string.

(** A cache that holds what the server's buckets would give. *)
Definition mocks_hold (lc : option LocalKVCache) : Prop := ∀ bucket key,
  cached_value lc bucket key = if decide (bucket ∈ buckets) then snapshot bucket key ≫= json_unmarshal else None.

Definition browser_inv (lc : option LocalKVCache) (st : St) : Prop :=
  (∀ field p, st_parseCache st !! field = Some p → parseKVFieldUncached field = Ok p) ∧ st_localCache st = lc.

Lemma parseKVField_browser lc field : returns (browser_inv lc) (parseKVField field) (parseKVFieldUncached field).
Proof.
  intros st [Hp Hl]. unfold parseKVField, get, mbind, M_bind. destruct (st_parseCache st !! field) as [p|] eqn:E.
  { by rewrite (Hp _ _ E). }
  destruct (parseKVFieldUncached field) as [p|e] eqn:Eu; [|done].
  destruct (_ <? maxParseCacheSize)%nat; [|done]. split; [done|]. split; [|done]. cbn. intros f q.
  destruct (decide (f = field)) as [->|]; [rewrite lookup_insert_eq; by intros [= <-]|rewrite lookup_insert_ne by done; apply Hp].
Qed.

Lemma wasm_Field_returns lc field : mocks_hold lc →
  returns (browser_inv lc) (wasm_Field field) (kv_lookup snapshot (MkKVContext buckets) field).
Proof.
  intros Hm st Hst. unfold wasm_Field, mbind, M_bind. rewrite wasm_parseKVField_same.
  destruct (parseKVField_browser lc field st Hst) as [Hv Hinv]. destruct (parseKVField field st) as [r st']. cbn [fst snd] in *. subst r.
  unfold kv_lookup. destruct (parseKVFieldUncached field) as [[bucket key path]|e]; [|done]. cbn [ok_or_none mbind option_bind].
  unfold get. destruct Hinv as [Hp Hl]. rewrite Hl, Hm. unfold HasBucket. cbn [kv_stores pk_bucket pk_key pk_jsonPath].
  destruct (decide (bucket ∈ buckets)) as [Hin|Hout].
  - rewrite bool_decide_true, option_guard_True by done. cbn. destruct (snapshot bucket key) as [raw|]; [|done]. cbn.
    by destruct (json_unmarshal raw).
  - rewrite bool_decide_false, option_guard_False by done. done.
Qed.
End context.

Lemma cache_Set_enabled c b k v : lc_enabled (cache_Set c b k v) = lc_enabled c.
Proof. unfold cache_Set. by destruct (lc_enabled c) eqn:E; cbn; rewrite ?E. Qed.

(** The mocks of a test, bucket by bucket. *)
Lemma mock_cache_lookup m bucket key : cached_value (Some (mock_cache m)) bucket key = (m !! bucket ≫= λ keys, keys !! key).
Proof.
  unfold cached_value, cache_IsEnabled.
  assert (∀ keys b c, lc_enabled c = true →
    lc_enabled (map_fold (λ key v c, cache_Set c b key v) c keys) = true ∧
    ∀ b' k', cache_Get (map_fold (λ key v c, cache_Set c b key v) c keys) b' k' =
      if decide (b' = b) then match keys !! k' with Some v => Some v | None => cache_Get c b' k' end else cache_Get c b' k') as Hkeys.
  { intros keys b c Hc. induction keys as [|k v keys Hk Hf IH] using map_first_key_ind.
    - rewrite map_fold_empty. split; [done|]. intros b' k'. rewrite lookup_empty. by case_decide.
    - rewrite map_fold_insert_first_key by done. destruct IH as [He IH]. cbn beta. split; [by rewrite cache_Set_enabled|].
      intros b' k'. rewrite cache_Get_Set, He, IH. cbn [andb]. destruct (decide (k' = k)) as [->|Hne].
      + rewrite lookup_insert_eq. case_decide; [by rewrite bool_decide_true|by rewrite bool_decide_false by naive_solver].
      + rewrite lookup_insert_ne, bool_decide_false by naive_solver. done. }
  assert (lc_enabled (mock_cache m) = true ∧ ∀ b k, cache_Get (mock_cache m) b k = (m !! b ≫= λ keys, keys !! k)) as [He Hg].
  { unfold mock_cache. induction m as [|b keys m Hb Hf IH] using map_first_key_ind.
    - rewrite map_fold_empty. split; [done|]. intros b k. rewrite lookup_empty. cbn. unfold cache_Get. cbn. by rewrite lookup_empty.
    - rewrite map_fold_insert_first_key by done. destruct IH as [He IH]. destruct (Hkeys keys b _ He) as [He' Hg]. split; [done|].
      intros b' k'. rewrite Hg, IH. destruct (decide (b' = b)) as [->|Hne].
      + rewrite lookup_insert_eq, Hb. cbn. by destruct (keys !! k').
      + by rewrite lookup_insert_ne by done. }
  by rewrite He, Hg.
Qed.

(** *** The environment *)

Section environment.
Context `{LoaderEnv} `{Env}.

Lemma mapE_agree {A B E} (f f' : nat → A → result E B) i l :
  (∀ j x, x ∈ l → f j x = f' j x) → mapE f i l = mapE f' i l.
Proof.
  revert i. induction l as [|x l IH]; intros i Hf; [done|]. cbn [mapE]. rewrite Hf by by left.
  rewrite IH by (intros j y Hy; apply Hf; by right). done.
Qed.

Lemma mapE_in {A B E} (f : nat → A → result E B) i l ys y : mapE f i l = Ok ys → y ∈ ys → ∃ j x, x ∈ l ∧ f j x = Ok y.
Proof.
  revert i ys. induction l as [|x l IH]; intros i ys; cbn [mapE]; [intros [= <-]; by intros ?%elem_of_nil|].
  intros (y' & Hy & (ys' & Hys & [= <-])%bind_Ok)%bind_Ok [->|Hin]%elem_of_cons; [exists i, x; split; [by left|done]|].
  destruct (IH _ _ Hys Hin) as (j & x' & ? & ?). exists j, x'. split; [by right|done].
Qed.

(** Where the references of a file are unset, the browser loads it as the command
    line does. *)
Lemma ParseAndValidateYAML_browser l yaml parsed st : ld_allowEnv l = true → yaml_Unmarshal yaml = Some parsed →
  references_unset parsed → @ParseAndValidateYAML browser_env _ l yaml st = ParseAndValidateYAML l yaml st.
Proof.
  intros Hl Hy Hun. unfold ParseAndValidateYAML. change (@yaml_Unmarshal browser_env yaml) with (yaml_Unmarshal yaml).
  rewrite Hy. destruct (length parsed =? 0)%nat; [done|]. destruct (mapE _ 0 parsed) as [normal|] eqn:En; [|done].
  erewrite mapE_agree; [reflexivity|]. intros j r Hr. rewrite Hl. f_equal.
  rewrite !(proj1 (expansion_correct _ _)). f_equal. apply rule_map_agree.
  destruct (mapE_in _ _ _ _ _ En Hr) as (k & r0 & Hin & Hr0). unfold references_unset in Hun. rewrite Forall_forall in Hun.
  destruct (normalizeThrottle r0) as [r1|] eqn:E1; [|done]. injection Hr0 as ->.
  eapply Forall_impl; [exact (Hun r0 Hin r E1)|]. cbn. intros s Hs. apply expand_string_agree.
  eapply Forall_impl; [exact Hs|]. by intros n ->.
Qed.
End environment.

(** ** Properties *)

Section properties.
Context `{LoaderEnv} `{Env} `{TestCodec}.

Lemma loaded_length l data st rules parsed : (ParseAndValidateYAML l data st).1 = Ok rules → yaml_Unmarshal data = Some parsed →
  length rules = length parsed.
Proof.
  intros (parsed' & Hy & Hf & _)%ParseAndValidateYAML_accepted Hp. rewrite Hp in Hy. injection Hy as <-.
  by apply Forall2_length in Hf.
Qed.

(** The two set-ups with the same mocks. *)
Lemma browser_setup_as_tester yaml name parsed i kv config o w :
  yaml_Unmarshal yaml = Some parsed → references_unset parsed → (0 ≤ i < Z.of_nat (length parsed))%Z →
  tc_MockSignature config = None → tc_MockTime config = op_MockTime o → op_KVMock o = kv → op_Index o = i →
  match (setupTestProcessor (name, Some yaml) i (Some kv) config w).1, (browser_setup yaml o w).1 with
  | Ok ps, Ok ps' => ps = ps'
  | Err _, Err _ => True
  | _, _ => False
  end.
Proof.
  intros Hy Hun Hi Hsig Htime <- <-. unfold setupTestProcessor, browser_setup, LoadFromFile. cbn [snd].
  rewrite (ParseAndValidateYAML_browser _ _ parsed) by done.
  destruct (ParseAndValidateYAML _ yaml _) as [[rules|e] st] eqn:Ep; destruct (time_Now (st_world st)) as [now w']; cbn [fst map_err mbind result_bind]; [|done].
  assert (length rules = length parsed) as Hlen by (eapply loaded_length; [by rewrite Ep|done]).
  unfold select_rule, browser_index, test_options, mock_time, browser_clock. rewrite Hsig, Htime, Hlen.
  rewrite (proj2 (Z.leb_le 0 _)), (proj2 (Z.leb_gt _ _)), (proj2 (Z.ltb_ge _ 0)) by lia. cbn [orb mbind result_bind].
  assert ((length parsed =? 0)%nat = false) as -> by (apply Nat.eqb_neq; lia). cbn [guard_err mbind result_bind].
  destruct (String.eqb (op_MockTime o) ""); cbn [mbind result_bind].
  - cbn [app]. by destruct (LoadRules _ _ _).
  - destruct (ParseRFC3339 (op_MockTime o)); cbn [mbind result_bind]; [|done]. cbn [app]. by destruct (LoadRules _ _ _).
Qed.

(** C35: The tester of the browser shows what a quick check on the command line
    does.  For a rule of the file, chosen by its number and with a trigger that
    spells out its subject, or its path and method, the same mocked values,
    headers, query and message, and for a file that refers to no variable of the
    environment but ones that are not set where the check runs (in the browser
    none is): when the check shows actions, so does the browser, those same
    actions in the same order and whether there are any; when the check fails, so
    does the browser.  A reference to a variable that is set makes a difference,
    [environment_not_shown]. *)
Theorem evaluateRule_as_check name yaml parsed i r subjectOverride kvMock kv headers query message opts w :
  yaml_Unmarshal yaml = Some parsed → references_unset parsed → (0 ≤ i)%Z → parsed !! Z.to_nat i = Some r →
  loadMockKV kvMock = Some kv → (tr_NATS (r_Trigger r) ≠ None ∨ tr_HTTP (r_Trigger r) ≠ None) → spelled_out r subjectOverride →
  let shown := evaluateRule [yaml; message; opts] (Some (options_for r subjectOverride headers query kv i)) w in
  match QuickCheck (name, Some yaml) (Some message) subjectOverride kvMock i headers query w with
  | Ok actions => shown = Ok (negb (length actions =? 0)%nat, omap action_result actions)
  | Err _ => ∃ e, shown = Err e
  end.
Proof.
  intros Hy Hun Hi Hr Hkv Htr Hsp shown. assert (Z.to_nat i < length parsed)%nat as Hlt by by eapply lookup_lt_Some.
  unfold QuickCheck, loadSingleRuleFile. cbn [snd mbind option_bind]. rewrite Hy.
  destruct parsed as [|r0 rest] eqn:Epar; [done|]. rewrite <- Epar in *. clear Epar.
  assert (resolve_index i parsed = Ok i) as ->.
  { unfold resolve_index. rewrite (proj2 (Z.eqb_neq i (-1))), (proj2 (Z.ltb_ge i 0)), (proj2 (Z.leb_gt _ i)) by lia. done. }
  cbn [mbind result_bind]. rewrite Hr, Hkv. cbn [of_option mbind result_bind].
  set (o := options_for r subjectOverride headers query kv i) in *.
  assert (∃ config process, check_config r subjectOverride headers query = Ok config ∧ tc_MockSignature config = None ∧
    tc_MockTime config = op_MockTime o ∧ dispatch config message = Some process ∧ process = browser_process o message) as
    (config & process & -> & Hsig & Htime & Hd & ->).
  { subst o. unfold check_config, options_for, spelled_out, browser_process, or_default, dispatch in *.
    destruct (tr_NATS (r_Trigger r)) as [t|]; [|destruct (tr_HTTP (r_Trigger r)) as [t|]; [|by destruct Htr]].
    - do 2 eexists. cbn. split_and!; [done..|]. destruct (String.eqb_spec subjectOverride "") as [->|Hne].
      + destruct Hsp as [?|Hsp]; [done|]. apply String.eqb_neq in Hsp. by rewrite Hsp.
      + apply String.eqb_neq in Hne. by rewrite Hne.
    - destruct Hsp as [Hp%String.eqb_neq Hm%String.eqb_neq]. do 2 eexists. cbn. rewrite Hp, Hm. by split_and!. }
  assert (op_KVMock o = kv ∧ op_Index o = i) as [Ekv Ei] by (subst o; unfold options_for; by repeat case_match).
  pose proof (browser_setup_as_tester yaml name parsed i kv config o w Hy Hun ltac:(lia) Hsig Htime Ekv Ei) as Hset.
  unfold evaluateRule in shown. cbn [of_option mbind result_bind] in shown. subst shown. unfold browser_outcome.
  cbn [mbind result_bind]. destruct (setupTestProcessor _ _ _ _ _) as [[ps|e] w']; cbn [fst map_err mbind result_bind] in *;
    destruct (browser_setup yaml o w).1 as [ps'|e']; cbn [mbind result_bind]; try done; [subst ps'|by exists e'].
  rewrite Hd. cbn [of_option mbind result_bind]. destruct (browser_process o message ps).1 as [outcome|e]; cbn; [done|by eexists].
Qed.
End properties.

(** ** A concrete page *)

#[local] Existing Instances suite_loader demo.
#[local] Instance page_codec : TestCodec := {|
  config_Unmarshal := λ _ _, None;
  kv_Unmarshal := λ s, if String.eqb s "mocks" then Some {["config" := {["limits" := VInt 5]}]} else None;
  outputs_Unmarshal := λ _, None;
  output_Unmarshal := λ _, None;
  canonical_JSON := λ s, Some s;
|}.

#[local] Notation second_rule := (nats_rule "second" "sensors.a" None).
#[local] Notation page_mocks := {["config" := {["limits" := VInt 5]}]}.
#[local] Notation page_check := (QuickCheck ("two.yml", Some "two") (Some "sample") "" (Some "mocks") 1 [] ∅ start_world).
#[local] Notation page_options := (options_for second_rule "" [] ∅ page_mocks 1).

Lemma page_parsed : yaml_Unmarshal "two" = Some [nats_rule "first" "sensors.*" None; second_rule].
Proof. vm_compute. reflexivity. Qed.
Lemma page_mocks_loaded : loadMockKV (Some "mocks") = Some page_mocks.
Proof. vm_compute. reflexivity. Qed.
Lemma page_checked : (λ l : list Action, length l) <$> ok_or_none page_check = Some 1%nat.
Proof. vm_compute. reflexivity. Qed.

Lemma evaluateRule_as_check_witness :
  ∃ actions, page_check = Ok actions ∧ length actions = 1%nat ∧
    evaluateRule ["two"; "sample"; "options"] (Some page_options) start_world = Ok (true, omap action_result actions).
Proof.
  assert (0 ≤ 1)%Z as Hi by lia.
  assert (references_unset [nats_rule "first" "sensors.*" None; second_rule]) as Hun.
  { apply Forall_forall. intros r _ r' _. apply Forall_forall. intros s _. by apply Forall_forall. }
  assert (tr_NATS (r_Trigger second_rule) ≠ None ∨ tr_HTTP (r_Trigger second_rule) ≠ None) as Htr by (left; discriminate).
  assert (spelled_out second_rule "") as Hsp by (right; discriminate).
  pose proof (evaluateRule_as_check "two.yml" "two" _ 1 second_rule "" (Some "mocks") _ [] ∅ "sample" "options" start_world
    page_parsed Hun Hi eq_refl page_mocks_loaded Htr Hsp) as Hs.
  pose proof page_checked as Hl. cbv zeta in Hs.
  destruct page_check as [actions|e]; [|discriminate Hl].
  exists actions. injection Hl as Hl. rewrite Hl in Hs. split; [reflexivity|]. split; [exact Hl|exact Hs].
Defined.

(** A rule on a schedule is tried as if a message had come, and never matches;
    the command line refuses to check it. *)
Definition schedule_loader : LoaderEnv := {|
  yaml_Unmarshal := λ _, Some [MkRule "tick" (MkTrigger None None (Some (MkScheduleTrigger "* * * * *" ""))) None plain_action 0];
  cron_Parse := λ _, true; time_LoadLocation := λ _, true; os_Getenv := λ _, "";
|}.
Lemma schedule_rule_never_matches :
  @evaluateRule schedule_loader demo ["tick"; "sample"; "options"] (Some (MkOptions "schedule" "" "" "" [] ∅ ∅ "" 0)) start_world = Ok (false, []) ∧
  @QuickCheck schedule_loader demo page_codec ("tick.yaml", Some "tick") (Some "sample") "" None 0 [] ∅ start_world = Err NoValidTrigger.
Proof. split; vm_compute; reflexivity. Qed.

(** The browser's context has a bucket only when that has a value under the
    empty key. *)
Lemma mocked_bucket_not_had :
  let lc := Some (mock_cache {["config" := {["limits" := VInt 5]}]}) in
  cached_value lc "config" "limits" = Some (VInt 5) ∧ wasm_HasBucket lc "config" = false.
Proof. split; vm_compute; reflexivity. Qed.

(** A variable that is set where the check runs is not in the browser. *)
Definition site_loader : LoaderEnv := {|
  yaml_Unmarshal := λ _, Some [MkRule "site" (MkTrigger (Some (MkNATSTrigger "sensors.a" None None "" false "")) None None) None
    (MkAction (Some (MkNATSAction "alerts" "" "at ${SITE}" false false ∅ "" false "" "" None None None None)) None None None) 0];
  cron_Parse := λ _, true; time_LoadLocation := λ _, true;
  os_Getenv := λ n, if String.eqb n "SITE" then "north" else "";
|}.
Lemma environment_not_shown :
  match @QuickCheck site_loader demo page_codec ("site.yaml", Some "site") (Some "sample") "" None 0 [] ∅ start_world,
        @evaluateRule site_loader demo ["site"; "sample"; "options"] (Some (MkOptions "nats" "sensors.a" "" "" [] ∅ ∅ "" 0)) start_world with
  | Ok [a], Ok (true, [shown]) => option_map na_Payload (a_NATS a) = Some "at north" ∧ ar_Payload shown = "at "
  | _, _ => False
  end.
Proof. vm_compute. done. Qed.
