(* ===== verification/RuleCli.v ===== *)
(** * The commands of rule-cli (cmd/rule-cli/cmd)

    What lint, test, check and kv push decide: the flags of a check, the exit of
    a test run, the files of a push and their keys.  The theorems relate the
    commands to the router: what lint passes is what a start loads, and what a
    push writes is what the rule manager accepts. *)

From S2P Require Import Prelude GoStrings GoFloat GoTime GoNet Value Types Env Demo KVContext Context.
From S2P Require Import Random Expand Processor Loader.
From S2P Require Import StreamResolver Net HttpClient Publisher Site Subscription Responder Scheduler Broker RuleManager.
From S2P Require Import Config App Lifecycle Tester.
Local Open Scope string_scope.

(** ** test *)

(** The command fails when a test did. *)
Definition test_exit (summary : Summary) : result (nat * nat) unit :=
  guard_err (0 <? su_Failed summary)%nat (su_Failed summary, su_Total summary).

(** ** check *)

Inductive flag_error := BadHeader (arg : string) | BadQuery (raw : string).

Fixpoint parse_headers (headers : gmap string string) (args : list string) : result flag_error (gmap string string) :=
  match args with
  | [] => Ok headers
  | arg :: rest =>
      let '(name, v, found) := Cut ":" arg in
      let name := TrimSpace name in
      if negb found || String.eqb name "" then Err (BadHeader arg)
      else parse_headers (<[name := TrimSpace v]> headers) rest
  end.
Definition parseHeaderFlags (args : list string) : result flag_error (gmap string string) := parse_headers ∅ args.

(** Only the first value of a name is kept. *)
Definition parseQueryFlag (raw : string) : result flag_error QueryParams :=
  let raw := match CutPrefix raw "?" with Some r => r | None => raw end in
  if String.eqb raw "" then Ok ∅
  else match ParseQuery raw with
  | None => Err (BadQuery raw)
  | Some values => Ok (omap (λ v, head v) values)
  end.

(** ** kv push *)

Inductive push_error :=
| CannotAccess | NoRuleFiles | FileNotRead (path : string) | ValidationFailed (path : string) (e : source_error)
| PushNotConnected | PushNoJetStream | BucketNotCreated | PutFailed (path key : string).

(** [collectFiles]: the file, or the files of the directory itself, with what
    reading them gives. *)
Definition collectFiles (target : option fs) : result push_error (list (string * option string)) :=
  match target with
  | None => Err CannotAccess
  | Some (FsFile name content) => Ok [(name, content)]
  | Some (FsDir _ entries) =>
      Ok (omap (λ e, match e with FsFile n c => if is_yaml n then Some (n, c) else None | FsDir _ _ => None end) entries)
  end.

(** [pathToKey] on a path relative to the base directory. *)
Definition pathToKey (rel : string) : string := smap (λ c, if Ascii.eqb c "/" then "."%char else c) (TrimExt rel).

(** The server: whether each call succeeds. *)
Record push_env := MkPushEnv {
  pe_connects : bool; pe_jetStream : bool; pe_KeyValue : bool; pe_CreateKeyValue : bool; pe_Put : string → string → bool;
}.

Section push.
Context `{LoaderEnv} `{Env}.

Definition push_loader : Loader := DisallowEnv (NewLoader []).

(** The validation of all files: path, key, content of each. *)
Fixpoint validate_files (files : list (string * option string)) : M (result push_error (list (string * string * string))) :=
  match files with
  | [] => mret (Ok [])
  | (path, content) :: rest =>
      match content with
      | None => mret (Err (FileNotRead path))
      | Some data =>
          r ← ParseAndValidateYAML push_loader data;
          match r with
          | Err e => mret (Err (ValidationFailed path e))
          | Ok _ => rest ← validate_files rest; mret (cons (path, pathToKey path, data) <$> rest)
          end
      end
  end.

(** What is put, in order, and how it ends. *)
Fixpoint push_all (put : string → string → bool) (files : list (string * string * string))
    : list (string * string) * result push_error unit :=
  match files with
  | [] => ([], Ok tt)
  | (path, key, data) :: rest =>
      if put key data then let '(puts, r) := push_all put rest in ((key, data) :: puts, r)
      else ([], Err (PutFailed path key))
  end.

Definition runKVPush (dryRun : bool) (e : push_env) (target : option fs) : M (list (string * string) * result push_error unit) :=
  match collectFiles target with
  | Err err => mret ([], Err err)
  | Ok files =>
      if (length files =? 0)%nat then mret ([], Err NoRuleFiles)
      else
        pushList ← validate_files files;
        mret match pushList with
             | Err err => ([], Err err)
             | Ok pushList =>
                 if dryRun then ([], Ok tt)
                 else if negb (pe_connects e) then ([], Err PushNotConnected)
                 else if negb (pe_jetStream e) then ([], Err PushNoJetStream)
                 else if negb (pe_KeyValue e) && negb (pe_CreateKeyValue e) then ([], Err BucketNotCreated)
                 else push_all (pe_Put e) pushList
             end
  end.
End push.

(** ** The loader does not depend on the state, nor on the buckets *)

Section stable.
Context `{LoaderEnv} `{Env}.

Lemma first_bad_call_ok calls st : (∀ call st', call ∈ calls → is_ok (randomValue call st').1 = true) →
  (first_bad_call calls st).1 = None.
Proof.
  revert st. induction calls as [|c l IH]; intros st Hc; cbn [first_bad_call]; [done|].
  unfold mbind, M_bind. specialize (Hc c st ltac:(by left)) as Hr. destruct (randomValue c st) as [[v|e] st1]; [|done].
  apply IH. intros call st' Hin. apply Hc. by right.
Qed.

Lemma validateRandomCalls_stable r st st' : (validateRandomCalls r st).1 = None → (validateRandomCalls r st').1 = None.
Proof. unfold validateRandomCalls. intros Hn. apply first_bad_call_ok. intros call st2. by eapply first_bad_call_none. Qed.

Lemma validate_loop_stable i rules st st' rs : (validate_loop i rules st).1 = Ok rs → (validate_loop i rules st').1 = Ok rs.
Proof.
  revert i st st' rs. induction rules as [|r rules IH]; intros i st st' rs; cbn [validate_loop]; [done|].
  destruct (validateRule r) as [r1|e]; [|done]. unfold mbind at 1 3, M_bind.
  pose proof (validateRandomCalls_stable r1 st st') as Hv.
  destruct (validateRandomCalls r1 st) as [[[call e]|] st1]; [done|].
  destruct (validateRandomCalls r1 st') as [bad st1']. cbn in Hv. rewrite (Hv eq_refl).
  unfold mbind, M_bind. destruct (validate_loop (S i) rules st1) as [[rs1|e] st2] eqn:E1; [|done].
  specialize (IH (S i) st1 st1' rs1). rewrite E1 in IH.
  destruct (validate_loop (S i) rules st1') as [rs' st2']. cbn in IH. by rewrite (IH eq_refl).
Qed.

(** Two loaders that agree on the environment load the same. *)
Lemma ParseAndValidateYAML_stable l l' data st st' rules : ld_allowEnv l = ld_allowEnv l' →
  (ParseAndValidateYAML l data st).1 = Ok rules → (ParseAndValidateYAML l' data st').1 = Ok rules.
Proof.
  intros Hl. unfold ParseAndValidateYAML. destruct (yaml_Unmarshal data) as [parsed|]; [|done].
  destruct (length parsed =? 0)%nat; [done|]. destruct (mapE _ 0 parsed) as [normal|]; [|done]. rewrite Hl.
  destruct (mapE _ 0 normal); [|done]. apply validate_loop_stable.
Qed.

Lemma LoadFromFile_stable l l' f st st' rules : ld_allowEnv l = ld_allowEnv l' →
  (LoadFromFile l f st).1 = Ok rules → (LoadFromFile l' f st').1 = Ok rules.
Proof. intros Hl. unfold LoadFromFile. destruct f.2; [by apply ParseAndValidateYAML_stable|done]. Qed.

Lemma LoadFromFile_ok_stable l l' f st st' : ld_allowEnv l = ld_allowEnv l' →
  is_ok (LoadFromFile l f st).1 = is_ok (LoadFromFile l' f st').1.
Proof.
  intros Hl. destruct (LoadFromFile l f st).1 as [rules|e] eqn:E.
  - by rewrite (LoadFromFile_stable l l' f st st' rules Hl E).
  - destruct (LoadFromFile l' f st').1 as [rules|e'] eqn:E'; [|done].
    apply (LoadFromFile_stable l' l f st' st rules) in E'; [congruence|done].
Qed.

(** A file that loads has rules that can be indexed. *)
Lemma LoadFromFile_loadable l f st rules : (LoadFromFile l f st).1 = Ok rules → forallb loadable rules = true.
Proof.
  unfold LoadFromFile. destruct f.2 as [data|]; [|done]. intros (parsed & _ & HF & _)%ParseAndValidateYAML_accepted.
  apply forallb_forall. intros r Hr%list_elem_of_In. apply list_elem_of_lookup in Hr as [i Hi].
  destruct (Forall2_lookup_r _ _ _ _ _ HF Hi) as (r0 & _ & Ha & _). by apply accepted_loadable.
Qed.

(** *** Loading the files of a directory *)

Lemma load_files_all l files all st :
  is_ok (load_files l files all st).1 = forallb (λ f, is_ok (LoadFromFile l f st).1) files.
Proof.
  revert all st. assert (∀ all st st0, is_ok (load_files l files all st).1 = forallb (λ f, is_ok (LoadFromFile l f st0).1) files) as Hg;
    [|intros all st; apply Hg].
  induction files as [|f files IH]; intros all st st0; cbn [load_files forallb]; [done|].
  unfold mbind, M_bind. pose proof (LoadFromFile_ok_stable l l f st st0 eq_refl) as Hf.
  destruct (LoadFromFile l f st) as [[rs|e] st1]; cbn in Hf; rewrite <- Hf; [|done]. cbn [andb]. apply IH.
Qed.

Lemma load_files_loadable l files all st rules : (load_files l files all st).1 = Ok rules →
  forallb loadable all = true → forallb loadable rules = true.
Proof.
  revert all st. induction files as [|f files IH]; intros all st; cbn [load_files]; [by intros [= <-]|].
  unfold mbind, M_bind. pose proof (LoadFromFile_loadable l f st) as Hf.
  destruct (LoadFromFile l f st) as [[rs|e] st1]; [|done]. intros Hr Ha. eapply IH; [exact Hr|].
  rewrite forallb_app, Ha. by apply Hf.
Qed.

Lemma lint_files_report files st :
  map snd (lint_files files st) = map (λ f, is_ok (LoadFromFile (NewLoader []) f st).1) files.
Proof.
  revert st. assert (∀ st st0, map snd (lint_files files st) = map (λ f, is_ok (LoadFromFile (NewLoader []) f st0).1) files) as Hg;
    [|intros st; apply Hg].
  induction files as [|f files IH]; intros st st0; cbn [lint_files map]; [done|].
  pose proof (LoadFromFile_ok_stable (NewLoader []) (NewLoader []) f st st0 eq_refl) as Hf.
  destruct (LoadFromFile (NewLoader []) f st) as [r st1]. cbn in *. by rewrite Hf, (IH st1 st0).
Qed.

Lemma lint_passes files st st' buckets :
  lint_fails (lint_files files st) = false ↔ forallb (λ f, is_ok (LoadFromFile (NewLoader buckets) f st').1) files = true.
Proof.
  unfold lint_fails. assert (existsb (λ r : string * bool, negb r.2) (lint_files files st) =
    existsb negb (map snd (lint_files files st))) as ->.
  { induction (lint_files files st) as [|x l IH]; [done|]. cbn. by rewrite IH. }
  rewrite lint_files_report. induction files as [|f files IH]; cbn; [done|].
  rewrite (LoadFromFile_ok_stable (NewLoader []) (NewLoader buckets) f st st' eq_refl).
  destruct (is_ok (LoadFromFile (NewLoader buckets) f st').1); cbn; [exact IH|done].
Qed.
End stable.

(** ** Pushing *)

Section pushing.
Context `{LoaderEnv} `{Env}.

Definition push_entry (f : string * option string) : string * string := (pathToKey f.1, default "" f.2).

Lemma validate_files_ok files st pushList : (validate_files files st).1 = Ok pushList →
  map (λ x, (x.1.2, x.2)) pushList = map push_entry files ∧ Forall (λ f, ∃ rules, (LoadFromFile push_loader f st).1 = Ok rules) files.
Proof.
  assert (∀ st0, (validate_files files st).1 = Ok pushList →
    map (λ x, (x.1.2, x.2)) pushList = map push_entry files ∧ Forall (λ f, ∃ rules, (LoadFromFile push_loader f st0).1 = Ok rules) files)
    as Hg; [|by intros ?; apply Hg].
  intros st0. revert st pushList. induction files as [|[path content] rest IH]; intros st pushList; cbn [validate_files]; [by intros [= <-]|].
  destruct content as [data|]; [|done]. unfold mbind at 1, M_bind.
  pose proof (LoadFromFile_stable push_loader push_loader (path, Some data) st st0) as Hs. unfold LoadFromFile in Hs at 1. cbn [snd] in Hs.
  destruct (ParseAndValidateYAML push_loader data st) as [[rules|e] st1]; [|done]. unfold mbind, M_bind.
  specialize (IH st1). destruct (validate_files rest st1) as [[l|e] st2]; cbn; [|done]. intros [= <-].
  destruct (IH l eq_refl) as [Hm Hf]. cbn. rewrite Hm. split; [done|]. constructor; [|done]. exists rules. by apply Hs.
Qed.

(** A push stops at the first key that is refused. *)
Lemma push_all_spec put files : let '(puts, r) := push_all put files in
  (r = Ok tt → puts = map (λ x, (x.1.2, x.2)) files) ∧ puts `prefix_of` map (λ x, (x.1.2, x.2)) files.
Proof.
  induction files as [|[[path key] data] rest IH]; cbn [push_all map]; [done|].
  destruct (put key data); [|split; [done|apply prefix_nil]].
  destruct (push_all put rest) as [puts r]. destruct IH as [Hr Hp]. split; [intros ?; cbn; by rewrite Hr|by apply prefix_cons].
Qed.

Lemma runKVPush_spec dryRun e target st : let '(puts, r) := (runKVPush dryRun e target st).1 in
  (puts = [] ∧ (r = Ok tt → dryRun = true)) ∨
  ∃ files, collectFiles target = Ok files ∧ files ≠ [] ∧ dryRun = false ∧
    Forall (λ f, ∃ rules, (LoadFromFile push_loader f st).1 = Ok rules) files ∧
    puts `prefix_of` map push_entry files ∧ (r = Ok tt → puts = map push_entry files).
Proof.
  unfold runKVPush. destruct (collectFiles target) as [files|err]; [|by left].
  destruct (Nat.eqb_spec (length files) 0) as [|Hne]; [by left|]. unfold mbind, M_bind.
  pose proof (validate_files_ok files st) as Hv. destruct (validate_files files st) as [[pushList|err] st1]; [|by left].
  destruct (Hv pushList eq_refl) as [Hm Hf]. cbn [fst mret M_ret].
  destruct dryRun; [by left|]. destruct (pe_connects e); [|by left]. destruct (pe_jetStream e); [|by left]. cbn [negb].
  destruct (negb (pe_KeyValue e) && negb (pe_CreateKeyValue e)); [by left|].
  pose proof (push_all_spec (pe_Put e) pushList) as Hp. destruct (push_all (pe_Put e) pushList) as [puts r].
  rewrite Hm in Hp. destruct Hp as [Hr Hp]. right. exists files. split_and!; try done. by intros ->.
Qed.
End pushing.

(** ** Properties *)

Section properties.
Context `{LoaderEnv} `{Env}.

(** C31: Lint and the router agree on a directory of rules: a start without a bucket
    of rules loads them if and only if lint finds files there and passes every one,
    whatever the buckets that are configured, the state of the process and the
    options of the engine. *)
Theorem lint_agrees_with_start cfg stores name entries now st w :
  is_ok (WithRuleProcessor cfg stores (Some (FsDir name entries)) now st).1 = true ↔
  Lint (FsDir name entries) w ≠ [] ∧ lint_fails (Lint (FsDir name entries) w) = false.
Proof.
  unfold WithRuleProcessor, load_into, LoadFromDirectory, Lint. set (files := yaml_files "" (FsDir name entries)).
  assert (lint_files files (mock_state None w) ≠ [] ↔ files ≠ []) as Hne.
  { destruct files as [|f l]; [done|]. cbn [lint_files]. by destruct (LoadFromFile (NewLoader []) f _). }
  rewrite Hne, (lint_passes files _ st (kvBuckets cfg)). unfold mbind, M_bind.
  destruct (Nat.eqb_spec (length files) 0) as [Hl|Hl].
  { split; [done|]. intros [Hf _]. by apply nil_length_inv in Hl. }
  pose proof (load_files_all (NewLoader (kvBuckets cfg)) files [] st) as Ha.
  pose proof (load_files_loadable (NewLoader (kvBuckets cfg)) files [] st) as Hld.
  destruct (load_files (NewLoader (kvBuckets cfg)) files [] st) as [[rules|e] st1]; cbn [fst] in Ha, Hld; rewrite <- Ha; [|by split; [|intros []]].
  cbn [fst mret M_ret]. set (p := NewProcessor _ _ _ now).
  pose proof (loadable_loads now p rules (Hld rules eq_refl eq_refl)) as Hok.
  split; [intros _; split; [by intros ->|done]|]. intros _. by destruct (LoadRules now p rules).
Qed.

Context `{Cron} `{Net} `{SortSlice}.

(** C32: What a push writes is what the router accepts.  Nothing is written in a dry
    run, nor unless every file collected could be read and validated; what is
    written is, in order, the content of each file under the key of its name, all
    of it unless a put is refused.  A router that watches the bucket loads every
    value written; when its subjects have streams, it then holds the rules of the
    file under that key. *)
Theorem runKVPush_accepted dryRun e target st : let '(puts, r) := (runKVPush dryRun e target st).1 in
  (puts ≠ [] → dryRun = false) ∧
  (r = Ok tt → dryRun = false → ∃ files, collectFiles target = Ok files ∧ files ≠ [] ∧ puts = map push_entry files) ∧
  (puts ≠ [] → ∃ files, collectFiles target = Ok files ∧ puts `prefix_of` map push_entry files ∧
     Forall (λ f, is_ok (LoadFromFile push_loader f st).1 = true) files) ∧
  ∀ key data, (key, data) ∈ puts → ∃ rules, ∀ (c : Cluster) lister,
    synced c → ld_allowEnv (cl_loader c) = false →
    (ParseAndValidateYAML (cl_loader c) data (cl_st c)).1 = Ok rules ∧
    (ValidateRulesHaveStreams (bk_resolver (RefreshStreams (cl_broker c) lister)) rules = [] →
     ∃ rules', cl_currentRules (handleRulePut lister key data c) !! key = Some rules' ∧ Forall2 renumbered rules rules').
Proof.
  pose proof (runKVPush_spec dryRun e target st) as Hspec. destruct (runKVPush dryRun e target st).1 as [puts r].
  destruct Hspec as [[-> Hr]|(files & Hc & Hne & -> & Hf & Hp & Hr)].
  { split_and!; [done|intros Ho Hd; rewrite (Hr Ho) in Hd; done|done|]. by intros key data Hin%elem_of_nil. }
  split_and!; [done|intros Ho _; exists files; by split_and!; [| |apply Hr]|intros _; exists files; split_and!; [done|done|]|].
  { eapply Forall_impl; [exact Hf|]. by intros f [rules ->]. }
  intros key data Hin. destruct Hp as [rest Hrest].
  assert ((key, data) ∈ map push_entry files) as Hx by (rewrite Hrest; apply elem_of_app; by left).
  apply list_elem_of_In, in_map_iff in Hx as ([path content] & Hx & Hfile%list_elem_of_In).
  rewrite Forall_forall in Hf. destruct (Hf _ Hfile) as [rules Hl]. unfold LoadFromFile in Hl. cbn [snd fst] in *.
  destruct content as [d|]; [|done]. injection Hx as <- <-. exists rules. intros c lister Hsy Henv.
  assert ((ParseAndValidateYAML (cl_loader c) d (cl_st c)).1 = Ok rules) as Hpc.
  { by eapply (ParseAndValidateYAML_stable push_loader). }
  split; [done|]. intros Hst. destruct (handleRulePut_cases lister (pathToKey path) d c (synced_pushed c Hsy)) as [_ Hv].
  unfold put_verdict in Hv. rewrite Hpc, Hst in Hv. cbn [length Nat.ltb Nat.leb] in Hv. by destruct Hv as (_ & Hv & _).
Qed.
End properties.

(** ** Flags *)

(** A test run succeeds when every case passed. *)
Lemma test_exit_ok summary : accounted summary →
  test_exit summary = Ok tt ↔ Forall (λ r, rs_Passed r = true) (su_Results summary).
Proof.
  intros [_ _ Hf]. unfold test_exit, guard_err. rewrite Hf. clear Hf.
  induction (su_Results summary) as [|r l IH]; cbn; [by split; [constructor|]|].
  rewrite Forall_cons. destruct (rs_Passed r); cbn; [by rewrite IH; split; [|intros []]|]. split; [done|by intros []].
Qed.

(** The header of an argument is what stands before its first colon. *)
Lemma parseHeaderFlags_one name val : has_char ":" name = false → TrimSpace name ≠ "" →
  parseHeaderFlags [(name ++ String ":" val)%string] = Ok {[TrimSpace name := TrimSpace val]}.
Proof.
  intros Hc Hne. unfold parseHeaderFlags. cbn [parse_headers]. rewrite Cut_app by done.
  by rewrite (proj2 (String.eqb_neq _ _) Hne).
Qed.

Example check_flags :
  parseHeaderFlags ["X-Id: 7"; "Host: a:80"] = Ok (<["Host" := "a:80"]> {["X-Id" := "7"]}) ∧
  parseHeaderFlags [": x"] = Err (BadHeader ": x") ∧
  parseQueryFlag "?tenant=acme&page=2&page=3" = Ok (<["page" := "2"]> {["tenant" := "acme"]}).
Proof. vm_compute. done. Qed.

(** Two files of one directory with one stem have one key: the second replaces the
    first. *)
Example one_key_for_two_files :
  map pathToKey ["tank.yaml"; "tank.yml"; "a.b.yaml"] = ["tank"; "tank"; "a.b"].
Proof. reflexivity. Qed.
