(* ===== verification/Prompt.v ===== *)
(** * The terminal of rule-cli (internal/cli/prompt.go)

    Standard input as the prompter and the confirmations read it: the prompter
    through a buffer that takes whatever a read returns, [fmt.Scanln] past that
    buffer, byte by byte.  [Prompter] is the interface the builder is written
    against, [PrompterLaws] what it relies on, [StdinPrompter] the instance.

    Two judgements carry the proofs: [ends], that a dialogue ends and what it
    returns, and [dictates], the answer that a list of typed lines makes. *)

From S2P Require Import Prelude GoStrings.
Local Open Scope string_scope.

(** ** Standard input *)

(** What the reader has read but not returned, and what the next reads return,
    none of it empty; after the last the input is at its end. *)
Record Stdin := MkStdin { si_buffered : string; si_reads : list string }.

Definition newline : ascii := "010".

Inductive build_error :=
| InputEnded | OutOfFuel | IndexPanics
| NumberInvalid (s : string) | BooleanInvalid (s : string) | StatusCodeInvalid (s : string)
| PublishSubjectMissing | ForEachFieldEmpty | MarshalFailed.

Definition Tty (A : Type) : Type := Stdin → result build_error A * Stdin.
#[export] Instance Tty_ret : MRet Tty := λ A a s, (Ok a, s).
#[export] Instance Tty_bind : MBind Tty := λ A B f m s,
  match m s with (Ok a, s') => f a s' | (Err e, s') => (Err e, s') end.
Definition throw {A} (e : build_error) : Tty A := λ s, (Err e, s).

(** [reader.ReadString('\n')], with what is left of the line at the end of the
    input dropped as [Ask] drops it. *)
Fixpoint read_string (buffered : string) (reads : list string) : result build_error string * Stdin :=
  match Cut newline buffered with
  | (line, rest, true) => (Ok (line ++ String newline ""), MkStdin rest reads)
  | _ =>
      match reads with
      | [] => (Err InputEnded, MkStdin "" [])
      | r :: rs => read_string (buffered ++ r) rs
      end
  end.
Definition ReadString : Tty string := λ s, read_string (si_buffered s) (si_reads s).

(** *** [fmt.Scanln(&response)]

    One token up to white space or the end of the line.  A second token is an
    error that takes its first byte and leaves the rest of the line. *)
Inductive scan_phase := Skipping | Scanning (token : string) | Scanned (token : string).

Definition scan_token (p : scan_phase) : string :=
  match p with Skipping => "" | Scanning t | Scanned t => t end.
Definition is_space (c : ascii) : bool := in_range 9 13 c || Ascii.eqb c " ".

(** The next phase, or the end of the scan. *)
Definition scan_char (p : scan_phase) (c : ascii) : scan_phase + string :=
  if Ascii.eqb c newline then inr (scan_token p)
  else match p with
  | Skipping => if is_space c then inl Skipping else inl (Scanning (String c ""))
  | Scanning t => if is_space c then inl (Scanned t) else inl (Scanning (t ++ String c ""))
  | Scanned t => if is_space c then inl (Scanned t) else inr t
  end.

Fixpoint scan_string (p : scan_phase) (s : string) : scan_phase + string * string :=
  match s with
  | "" => inl p
  | String c t => match scan_char p c with inl p => scan_string p t | inr token => inr (token, t) end
  end.

Fixpoint scan_reads (p : scan_phase) (reads : list string) : string * list string :=
  match reads with
  | [] => (scan_token p, [])
  | r :: rs => match scan_string p r with inl p => scan_reads p rs | inr (token, rest) => (token, rest :: rs) end
  end.

Definition Scanln : Tty string := λ s,
  let '(token, reads) := scan_reads Skipping (si_reads s) in (Ok token, MkStdin (si_buffered s) reads).

(** ** Prompters *)

(** What is asked is printed and has no other effect; [Select] has the number of
    its options. *)
Class Prompter := {
  Ask : Tty string;
  AskWithDefault : string → Tty string;
  Confirm : Tty bool;
  Select : nat → Tty nat;
}.

(** How much input is left: a bound on the turns of every loop of a dialogue. *)
Definition stdin_size (s : Stdin) : nat := slen (si_buffered s) + list_sum (map slen (si_reads s)).

Definition ask : Tty string := input ← ReadString; mret (TrimSpace input).

Fixpoint select_loop (fuel n : nat) : Tty nat :=
  match fuel with
  | O => throw OutOfFuel
  | S f =>
      input ← ask;
      match Atoi input with
      | Some choice =>
          if (0 <? choice)%Z && (choice <=? Z.of_nat n)%Z then mret (Z.to_nat choice - 1) else select_loop f n
      | None => select_loop f n
      end
  end.

(** A loop that takes at most as many turns as there is input, and one. *)
Definition with_fuel {A} (loop : nat → Tty A) : Tty A := λ s, loop (S (stdin_size s)) s.

#[export] Instance StdinPrompter : Prompter := {
  Ask := ask;
  AskWithDefault d := input ← ask; mret (if String.eqb input "" then d else input);
  Confirm := input ← ask; mret (String.eqb (ToLower input) "y");
  Select n := with_fuel (λ fuel, select_loop fuel n);
}.

(** ** A dialogue ends *)

Definition is_bug (e : build_error) : bool :=
  match e with OutOfFuel | IndexPanics | NumberInvalid _ | BooleanInvalid _ => true | _ => false end.

(** From less input than [fuel], [m] takes some of it (at least [taken], unless it
    fails) and returns a value that satisfies [Q] or an error that is not one of
    the program's own. *)
Definition ends {A} (taken : nat) (fuel : nat) (m : Tty A) (Q : A → Prop) : Prop :=
  ∀ s, (stdin_size s < fuel)%nat →
    let '(r, s') := m s in
    match r with
    | Ok a => Q a ∧ (stdin_size s' + taken ≤ stdin_size s)%nat
    | Err e => is_bug e = false ∧ (stdin_size s' ≤ stdin_size s)%nat
    end.

Lemma ends_ret {A} fuel (a : A) (Q : A → Prop) : Q a → ends 0 fuel (mret a) Q.
Proof. intros HQ s Hs. split; [done|]. lia. Qed.

Lemma ends_throw {A} taken fuel e (Q : A → Prop) : is_bug e = false → ends taken fuel (throw e) Q.
Proof. intros He s Hs. cbn. split; [done|lia]. Qed.

Lemma ends_bind {A B} t1 t2 fuel (m : Tty A) (f : A → Tty B) (P : A → Prop) (Q : B → Prop) :
  ends t1 fuel m P → (∀ a, P a → ends t2 (fuel - t1) (f a) Q) → ends (t1 + t2) fuel (m ≫= f) Q.
Proof.
  intros Hm Hf s Hs. specialize (Hm s Hs). unfold mbind, Tty_bind. destruct (m s) as [[a|e] s'].
  - destruct Hm as [Ha Hle]. specialize (Hf a Ha s' ltac:(lia)). destruct (f a s') as [[b|e] s''].
    + destruct Hf. split; [done|lia].
    + destruct Hf. split; [done|lia].
  - destruct Hm. split; [done|lia].
Qed.

Lemma ends_weaken {A} t t' fuel fuel' (m : Tty A) (P Q : A → Prop) :
  ends t fuel m P → (t' ≤ t)%nat → (fuel' ≤ fuel)%nat → (∀ a, P a → Q a) → ends t' fuel' m Q.
Proof.
  intros Hm Ht Hf HQ s Hs. specialize (Hm s ltac:(lia)). destruct (m s) as [[a|e] s'].
  - destruct Hm. split; [auto|lia].
  - done.
Qed.

Lemma ends_with_fuel {A} t fuel (loop : nat → Tty A) Q : (∀ f, ends t f (loop f) Q) → ends t fuel (with_fuel loop) Q.
Proof. intros Hl s Hs. unfold with_fuel. apply (Hl (S (stdin_size s)) s). lia. Qed.

(** ** Sizes *)

Lemma slen_cons c s : slen (String c s) = S (slen s).
Proof. done. Qed.

Lemma list_sum_eq n l : list_sum (n :: l) = (n + list_sum l)%nat.
Proof. done. Qed.

Lemma stdin_size_eq b reads : stdin_size (MkStdin b reads) = (slen b + list_sum (map slen reads))%nat.
Proof. done. Qed.

(** ** White space around an answer *)

Lemma append_cons a s t : String a s ++ t = String a (s ++ t).
Proof. done. Qed.

Lemma append_nil t : "" ++ t = t.
Proof. done. Qed.

Lemma space3_ascii a b c : (code c <? 128)%N = true → space3 a b c = false.
Proof.
  intros Hc. assert (∀ d, (128 <=? code d)%N = true → Ascii.eqb c d = false) as Hne.
  { intros d Hd. destruct (Ascii.eqb_spec c d) as [->|]; [|done]. apply N.ltb_lt in Hc. apply N.leb_le in Hd. lia. }
  assert (∀ lo hi, (128 <=? lo)%N = true → in_range lo hi c = false) as Hr.
  { intros lo hi Hlo. unfold in_range. apply N.ltb_lt in Hc. apply N.leb_le in Hlo. apply andb_false_iff. left. apply N.leb_gt. lia. }
  unfold space3. repeat case_match; try done; rewrite ?Hne, ?Hr; done.
Qed.

(** A byte of ASCII ends the character before it. *)
Lemma space_len_snoc a s c : (code c <? 128)%N = true → space_len (String a s ++ String c "") = space_len (String a s).
Proof.
  intros Hc. rewrite ?append_cons, ?append_nil; cbn [space_len]. destruct (in_range 9 13 a || Ascii.eqb a " "); [done|].
  destruct s as [|b [|d t]]; rewrite ?append_cons, ?append_nil; [|by rewrite space3_ascii|done].
  assert (space2 c = false) as ->; [|by rewrite andb_false_r].
  unfold space2. apply N.ltb_lt in Hc.
  destruct (Ascii.eqb_spec c "133") as [->|]; [done|]. by destruct (Ascii.eqb_spec c "160") as [->|].
Qed.

Lemma space_len_le s : (space_len s ≤ slen s)%nat.
Proof.
  destruct s as [|a [|b [|c t]]]; unfold space_len; repeat case_match; rewrite ?slen_cons; try lia; done.
Qed.

Lemma space_len_app s t k : space_len s = S k → space_len (s ++ t) = S k.
Proof.
  destruct s as [|a [|b [|c s]]]; [done|..]; rewrite ?append_cons, ?append_nil; cbn [space_len]; intros Hs; repeat case_match; try done; congruence.
Qed.

Lemma all_space_app k s t : (k ≤ slen s)%nat → all_space_from k s = true → all_space_from 0 t = true → all_space_from k (s ++ t) = true.
Proof.
  revert k. induction s as [|a s IH]; intros k Hk Hs Ht; [destruct k; [done|cbn in Hk; lia]|].
  rewrite slen_cons in Hk. destruct k as [|k]; rewrite ?append_cons, ?append_nil; cbn [all_space_from]; [|apply IH; [lia|done..]].
  cbn [all_space_from] in Hs. destruct (space_len (String a s)) as [|k] eqn:E; [done|].
  change (String a (s ++ t)) with (String a s ++ t). rewrite (space_len_app (String a s) t k E). pose proof (space_len_le (String a s)) as Hl. rewrite slen_cons in Hl.
  apply IH; [lia|done..].
Qed.

Lemma all_space_snoc k s c : (k ≤ slen s)%nat → (code c <? 128)%N = true →
  all_space_from k (s ++ String c "") = all_space_from k s && negb (Nat.eqb (space_len (String c "")) 0).
Proof.
  revert k. induction s as [|a s IH]; intros k Hk Hc.
  - destruct k; [|cbn in Hk; lia]. rewrite ?append_cons, ?append_nil; cbn [all_space_from]. by destruct (space_len (String c "")) as [|[|?]].
  - rewrite slen_cons in Hk. destruct k as [|k]; rewrite ?append_cons, ?append_nil; cbn [all_space_from]; [|apply IH; [lia|done]].
    change (String a (s ++ String c "")) with (String a s ++ String c ""). rewrite space_len_snoc by done.
    pose proof (space_len_le (String a s)) as Hl. rewrite slen_cons in Hl.
    destruct (space_len (String a s)) as [|k]; [done|]. apply IH; [lia|done].
Qed.

(** *** Trimming on the right *)

Lemma trim_right_infix s : ∃ t, s = trim_right s ++ t ∧ all_space_from 0 t = true.
Proof.
  induction s as [|a s (t & Hs & Ht)]; [by exists ""|]. cbn [trim_right].
  destruct (all_space_from 0 (String a s)) eqn:E; [by exists (String a s)|]. exists t. rewrite ?append_cons, ?append_nil. by rewrite <- Hs.
Qed.

Lemma trim_right_idem s : trim_right (trim_right s) = trim_right s.
Proof.
  induction s as [|a s IH]; [done|]. cbn [trim_right]. destruct (all_space_from 0 (String a s)) eqn:E; [done|].
  cbn [trim_right]. destruct (all_space_from 0 (String a (trim_right s))) eqn:E'; [|by rewrite IH].
  destruct (trim_right_infix s) as (t & Hs & Ht). pose proof (all_space_app 0 _ t ltac:(lia) E' Ht) as Hall.
  rewrite append_cons in Hall. rewrite <- Hs in Hall. congruence.
Qed.

Lemma trim_right_snoc s c : (code c <? 128)%N = true →
  trim_right (s ++ String c "") = if Nat.eqb (space_len (String c "")) 0 then s ++ String c "" else trim_right s.
Proof.
  intros Hc. induction s as [|a s IH].
  - rewrite ?append_cons, ?append_nil; cbn [trim_right all_space_from]. by destruct (space_len (String c "")) as [|[|?]].
  - change (String a s ++ String c "") with (String a (s ++ String c "")). cbn [trim_right]. rewrite IH.
    change (String a (s ++ String c "")) with (String a s ++ String c ""). rewrite all_space_snoc by (lia || done).
    destruct (Nat.eqb (space_len (String c "")) 0); cbn; [by rewrite andb_false_r|by rewrite andb_true_r].
Qed.

(** *** Trimming on the left *)

Lemma trim_left_infix k s : ∃ t, s = t ++ trim_left_from k s.
Proof.
  revert k. induction s as [|a s IH]; intros k; [by exists ""|]. cbn [trim_left_from].
  assert (∀ k, ∃ t, String a s = t ++ trim_left_from k s) as Hk.
  { intros k'. destruct (IH k') as (t & Ht). exists (String a t). rewrite ?append_cons, ?append_nil. by rewrite <- Ht. }
  destruct k as [|k]; [|apply Hk]. destruct (space_len (String a s)); [by exists ""|apply Hk].
Qed.

Lemma trim_left_start k s : trim_left_from k s = "" ∨ space_len (trim_left_from k s) = 0%nat.
Proof.
  revert k. induction s as [|a s IH]; intros k; [by left|]. cbn [trim_left_from].
  destruct k as [|k]; [|apply IH]. destruct (space_len (String a s)) eqn:E; [by right|apply IH].
Qed.

Lemma trim_left_id s : space_len s = 0%nat → trim_left_from 0 s = s.
Proof. intros Hs. destruct s as [|a s]; [done|]. cbn [trim_left_from]. by rewrite Hs. Qed.

Lemma trim_left_snoc k s : (k ≤ slen s)%nat →
  trim_left_from k (s ++ String newline "") =
    if String.eqb (trim_left_from k s) "" then "" else trim_left_from k s ++ String newline "".
Proof.
  revert k. induction s as [|a s IH]; intros k Hk; [by destruct k; [|cbn in Hk; lia]|].
  rewrite slen_cons in Hk. destruct k as [|k]; rewrite ?append_cons, ?append_nil; cbn [trim_left_from]; [|apply IH; lia].
  change (String a (s ++ String newline "")) with (String a s ++ String newline ""). rewrite space_len_snoc by done.
  pose proof (space_len_le (String a s)) as Hl. rewrite slen_cons in Hl.
  destruct (space_len (String a s)) as [|k]; [done|]. apply IH. lia.
Qed.

(** *** Both *)

Lemma TrimSpace_id s : space_len s = 0%nat → trim_right s = s → TrimSpace s = s.
Proof. intros Hl Hr. unfold TrimSpace. by rewrite trim_left_id. Qed.

Lemma TrimSpace_idem s : TrimSpace (TrimSpace s) = TrimSpace s.
Proof.
  apply TrimSpace_id; [|apply trim_right_idem]. unfold TrimSpace.
  destruct (trim_left_start 0 s) as [->|Hs]; [done|]. destruct (trim_right_infix (trim_left_from 0 s)) as (t & Ht & _).
  destruct (space_len (trim_right (trim_left_from 0 s))) as [|k] eqn:E; [done|].
  apply (space_len_app _ t) in E. rewrite <- Ht in E. congruence.
Qed.

Lemma TrimSpace_newline s : TrimSpace (s ++ String newline "") = TrimSpace s.
Proof.
  unfold TrimSpace. rewrite trim_left_snoc by lia. destruct (String.eqb_spec (trim_left_from 0 s) "") as [->|]; [done|].
  by rewrite trim_right_snoc.
Qed.

Lemma TrimSpace_char c s : has_char c s = false → has_char c (TrimSpace s) = false.
Proof.
  intros Hs. unfold TrimSpace. destruct (trim_left_infix 0 s) as (t & Ht). rewrite Ht, has_char_app in Hs.
  apply orb_false_iff in Hs as [_ Hs]. destruct (trim_right_infix (trim_left_from 0 s)) as (u & Hu & _).
  rewrite Hu, has_char_app in Hs. by apply orb_false_iff in Hs as [-> _].
Qed.

(** A text in braces has no white space around it. *)
Lemma TrimSpace_braces s : TrimSpace ("{" ++ s ++ "}") = "{" ++ s ++ "}".
Proof.
  apply TrimSpace_id; [by destruct s as [|? []]|]. rewrite <- app_assoc_str. by rewrite trim_right_snoc.
Qed.

(** ** Typed answers *)

(** An answer that reaches the program as it was typed. *)
Definition plain_answer (a : string) : bool := negb (has_char newline a) && String.eqb (TrimSpace a) a.

Lemma plain_spec a : plain_answer a = true ↔ has_char newline a = false ∧ TrimSpace a = a.
Proof. unfold plain_answer. by rewrite andb_true_iff, negb_true_iff, String.eqb_eq. Qed.

Lemma TrimSpace_plain s : has_char newline s = false → plain_answer (TrimSpace s) = true.
Proof. intros Hs. apply plain_spec. split; [by apply TrimSpace_char|apply TrimSpace_idem]. Qed.

Lemma plain_braces s : plain_answer s = true → plain_answer ("{" ++ s ++ "}") = true.
Proof.
  rewrite !plain_spec. intros [Hs _]. split; [|apply TrimSpace_braces].
  rewrite ?append_cons, ?append_nil; cbn [has_char]. rewrite has_char_app, Hs. done.
Qed.

(** A terminal: a read returns one line, and nothing is in the buffer between
    answers.  What is empty is a line that a scan has used up. *)
Definition line_of (a : string) : string := a ++ String newline "".
Definition at_terminal (s : Stdin) (answers : list string) : Prop :=
  si_buffered s = "" ∧ List.filter (λ r, negb (String.eqb r "")) (si_reads s) = map line_of answers.
Definition terminal (answers : list string) : Stdin := MkStdin "" (map line_of answers).

(** The lines [answers] make [m] return [a] and leave the lines after them. *)
Definition dictates {A} (m : Tty A) (answers : list string) (a : A) : Prop :=
  forallb plain_answer answers = true ∧
  ∀ s rest, at_terminal s (answers ++ rest) → ∃ s', m s = (Ok a, s') ∧ at_terminal s' rest.

Lemma line_not_empty a : String.eqb (line_of a) "" = false.
Proof. by destruct a. Qed.

Lemma at_terminal_start answers : at_terminal (terminal answers) answers.
Proof.
  split; [done|]. cbn. induction answers as [|a l IH]; [done|]. cbn [map List.filter]. rewrite line_not_empty. cbn. by rewrite IH.
Qed.

Lemma at_terminal_size s answers : at_terminal s answers → (length answers ≤ stdin_size s)%nat.
Proof.
  intros [_ Hs]. destruct s as [b reads]. rewrite stdin_size_eq. cbn [si_reads] in Hs. apply Nat.le_trans with (list_sum (map slen reads)); [|lia].
  revert answers Hs. induction reads as [|r rs IH]; intros answers Hs; [by destruct answers|]. cbn [map]. rewrite list_sum_eq.
  cbn [List.filter] in Hs. destruct (String.eqb_spec r "") as [->|Hr]; cbn [negb] in Hs; [apply IH in Hs; lia|].
  destruct answers as [|a l]; [done|]. injection Hs as -> Hs. apply IH in Hs. unfold line_of. rewrite slen_app, slen_cons. cbn [length]. lia.
Qed.

Lemma dictates_ret {A} (a : A) : dictates (mret a) [] a.
Proof. split; [done|]. intros s rest Hs. by exists s. Qed.

Lemma dictates_bind {A B} (m : Tty A) (f : A → Tty B) l k a b :
  dictates m l a → dictates (f a) k b → dictates (m ≫= f) (l ++ k) b.
Proof.
  intros [Hl Hm] [Hk Hf]. split; [by rewrite forallb_app, Hl|]. intros s rest. rewrite <- app_assoc. intros Hs.
  destruct (Hm _ _ Hs) as (s' & Hm' & Hs'). destruct (Hf _ _ Hs') as (s'' & Hf' & Hs''). exists s''.
  split; [|done]. unfold mbind, Tty_bind. by rewrite Hm'.
Qed.

(** A loop that has fuel for each of the answers has enough of it. *)
Lemma dictates_with_fuel {A} (loop : nat → Tty A) answers a :
  (∀ fuel, (length answers < fuel)%nat → dictates (loop fuel) answers a) → dictates (with_fuel loop) answers a.
Proof.
  intros Hl. split; [by apply (Hl (S (length answers))); lia|]. intros s rest Hs. apply (Hl _); [|done].
  apply at_terminal_size in Hs. rewrite length_app in Hs. lia.
Qed.

(** ** What a dialogue relies on *)

Class PrompterLaws `{Prompter} := {
  Ask_ends fuel : ends 1 fuel Ask (λ a, plain_answer a = true);
  AskWithDefault_ends d fuel : plain_answer d = true →
    ends 1 fuel (AskWithDefault d) (λ a, plain_answer a = true ∧ (d ≠ "" → a ≠ ""));
  Confirm_ends fuel : ends 1 fuel Confirm (λ _, True);
  Select_ends n fuel : ends 1 fuel (Select n) (λ choice, choice < n)%nat;
  Ask_dictated a : plain_answer a = true → dictates Ask [a] a;
  AskWithDefault_dictated d a : plain_answer a = true → dictates (AskWithDefault d) [a] (if String.eqb a "" then d else a);
  Confirm_dictated (yes : bool) : dictates Confirm [if yes then "y" else "n"] yes;
  Select_dictated n i : (i < n)%nat → (n < 10)%nat → dictates (Select n) [Itoa (Z.of_nat i + 1)] i;
}.

(** *** Standard input keeps the laws *)

Lemma read_string_size b reads :
  match read_string b reads with
  | (Ok _, s') => (stdin_size s' + 1 ≤ stdin_size (MkStdin b reads))%nat
  | (Err e, s') => e = InputEnded ∧ (stdin_size s' ≤ stdin_size (MkStdin b reads))%nat
  end.
Proof.
  revert b. induction reads as [|r rs IH]; intros b; cbn [read_string].
  - destruct (Cut newline b) as [[line rest] []] eqn:E.
    + apply Cut_spec in E as [_ ->]. rewrite !stdin_size_eq, !slen_app, !slen_cons. cbn [map]. rewrite ?list_sum_eq. lia.
    + split; [done|]. rewrite !stdin_size_eq. cbn. lia.
  - destruct (Cut newline b) as [[line rest] []] eqn:E.
    + apply Cut_spec in E as [_ ->]. rewrite !stdin_size_eq, !slen_app, !slen_cons. cbn [map]. rewrite ?list_sum_eq. lia.
    + specialize (IH (b ++ r)). assert (stdin_size (MkStdin (b ++ r) rs) = stdin_size (MkStdin b (r :: rs))) as Hs.
      { rewrite !stdin_size_eq, slen_app. cbn [map]. rewrite list_sum_eq. lia. }
      by rewrite Hs in IH.
Qed.

(** A line that is read holds no end of line but its own. *)
Lemma read_string_one b reads line s' :
  read_string b reads = (Ok line, s') → ∃ l, line = line_of l ∧ has_char newline l = false.
Proof.
  revert b. induction reads as [|r rs IH]; intros b; cbn [read_string];
    destruct (Cut newline b) as [[l t] []] eqn:E; apply Cut_spec in E as [Hl _].
  - intros [= <- _]. by exists l.
  - done.
  - intros [= <- _]. by exists l.
  - apply IH.
Qed.

Lemma ask_ends fuel : ends 1 fuel ask (λ a, plain_answer a = true).
Proof.
  intros s Hs. unfold ask, ReadString, mbind, Tty_bind. destruct s as [b reads]. cbn [si_buffered si_reads].
  pose proof (read_string_size b reads) as Hr. destruct (read_string b reads) as [[line|e] s'] eqn:E; cbn.
  - apply read_string_one in E as (l & -> & Hl). split; [|done]. unfold line_of. rewrite TrimSpace_newline. by apply TrimSpace_plain.
  - destruct Hr as [-> Hr]. by split.
Qed.

(** At a terminal, the next read that is not used up is the next line. *)
Lemma read_line a reads rest :
  has_char newline a = false → List.filter (λ r, negb (String.eqb r "")) reads = map line_of (a :: rest) →
  ∃ s', read_string "" reads = (Ok (line_of a), s') ∧ at_terminal s' rest.
Proof.
  intros Ha. induction reads as [|r rs IH]; [done|]. cbn [List.filter]. cbn [read_string Cut]; rewrite ?append_nil.
  destruct (String.eqb_spec r "") as [->|Hr]; cbn [negb]; [apply IH|]. intros [= -> Hs].
  assert (Cut newline (line_of a) = (a, "", true)) as Hc by by apply Cut_app.
  exists (MkStdin "" rs). split; [|done]. by destruct rs; cbn [read_string]; rewrite Hc.
Qed.

Lemma ask_dictated a : plain_answer a = true → dictates ask [a] a.
Proof.
  intros Ha. split; [cbn; by rewrite Ha|]. intros [b reads] rest [Hb Hs]. cbn [si_buffered si_reads] in *. subst b.
  apply plain_spec in Ha as [Hn Ht]. destruct (read_line a reads rest Hn Hs) as (s' & Hr & Hs'). exists s'. split; [|done].
  unfold ask, ReadString, mbind, Tty_bind. cbn [si_buffered si_reads]. rewrite Hr. cbn. unfold line_of.
  by rewrite TrimSpace_newline, Ht.
Qed.

Lemma select_loop_ends fuel n : ends 1 fuel (select_loop fuel n) (λ choice, choice < n)%nat.
Proof.
  induction fuel as [|f IH]; [intros s Hs; lia|]. cbn [select_loop].
  eapply (ends_bind 1 0); [apply ask_ends|]. intros input _. cbn beta.
  assert (ends 0 (S f - 1) (select_loop f n) (λ choice, choice < n)%nat) as Hrec.
  { eapply ends_weaken; [exact IH|lia..|done]. }
  destruct (Atoi input) as [choice|]; [|done]. destruct ((0 <? choice)%Z && _) eqn:E; [|done].
  apply andb_true_iff in E as [H1%Z.ltb_lt H2%Z.leb_le]. apply ends_ret. lia.
Qed.

Lemma small_digit i : (i < 9)%nat → plain_answer (Itoa (Z.of_nat i + 1)) = true.
Proof. intros Hi. do 9 (destruct i as [|i]; [reflexivity|]). lia. Qed.

Lemma select_loop_dictated fuel n i :
  (i < n)%nat → (n < 10)%nat → (1 < fuel)%nat → dictates (select_loop fuel n) [Itoa (Z.of_nat i + 1)] i.
Proof.
  intros Hi Hn Hf. destruct fuel as [|f]; [lia|]. cbn [select_loop].
  change [Itoa (Z.of_nat i + 1)] with ([Itoa (Z.of_nat i + 1)] ++ [])%list.
  apply (dictates_bind _ _ _ _ (Itoa (Z.of_nat i + 1))); [apply ask_dictated, small_digit; lia|].
  rewrite Atoi_Itoa by (apply in_int64_spec; unfold int64_min, int64_max; lia).
  assert (((0 <? Z.of_nat i + 1)%Z && (Z.of_nat i + 1 <=? Z.of_nat n)%Z) = true) as ->.
  { apply andb_true_iff. rewrite Z.ltb_lt, Z.leb_le. lia. }
  replace (Z.to_nat (Z.of_nat i + 1) - 1)%nat with i by lia. apply dictates_ret.
Qed.

Lemma ask_then_ends {A} fuel (f : string → A) (Q : A → Prop) :
  (∀ a, plain_answer a = true → Q (f a)) → ends 1 fuel (input ← ask; mret (f input)) Q.
Proof. intros HQ. eapply (ends_bind 1 0); [apply ask_ends|]. intros a Ha. apply ends_ret, HQ, Ha. Qed.

Lemma ask_then_dictated {A} a (f : string → A) :
  plain_answer a = true → dictates (input ← ask; mret (f input)) [a] (f a).
Proof. intros Ha. change [a] with ([a] ++ [])%list. eapply dictates_bind; [by apply ask_dictated|apply dictates_ret]. Qed.

#[export] Instance StdinPrompter_laws : @PrompterLaws StdinPrompter.
Proof.
  split.
  - apply ask_ends.
  - intros d fuel Hd. apply ask_then_ends. intros a Ha. destruct (String.eqb_spec a ""); [by split|]. by split.
  - intros fuel. by apply ask_then_ends.
  - intros n fuel. apply ends_with_fuel. intros f. apply select_loop_ends.
  - apply ask_dictated.
  - intros d a Ha. by apply (ask_then_dictated a (λ input, if String.eqb input "" then d else input)).
  - intros yes. pose proof (ask_then_dictated (if yes then "y" else "n") (λ input, String.eqb (ToLower input) "y")) as Hd.
    by destruct yes; apply Hd.
  - intros n i Hi Hn. apply dictates_with_fuel. intros fuel Hf. by apply select_loop_dictated.
Qed.

(** The answer to a confirmation of its own takes no more than there is. *)
Lemma scan_string_size p s : match scan_string p s with inr (_, rest) => (slen rest ≤ slen s)%nat | inl _ => True end.
Proof.
  revert p. induction s as [|c t IH]; intros p; cbn [scan_string]; [done|]. rewrite slen_cons.
  destruct (scan_char p c) as [p'|token]; [|cbn; lia]. pose proof (IH p') as Hp. destruct (scan_string p' t) as [|[? ?]]; lia.
Qed.

Lemma scan_reads_size p reads : (list_sum (map slen (scan_reads p reads).2) ≤ list_sum (map slen reads))%nat.
Proof.
  revert p. induction reads as [|r rs IH]; intros p; cbn [scan_reads]; [done|]. cbn [map]. rewrite list_sum_eq.
  pose proof (scan_string_size p r) as Hr. destruct (scan_string p r) as [p'|[token rest]]; cbn [snd map].
  - pose proof (IH p'). lia.
  - rewrite list_sum_eq. lia.
Qed.

Lemma Scanln_ends fuel : ends 0 fuel Scanln (λ _, True).
Proof.
  intros s Hs. unfold Scanln. pose proof (scan_reads_size Skipping (si_reads s)) as Hr.
  destruct (scan_reads Skipping (si_reads s)) as [token reads]. cbn [snd] in Hr. split; [done|].
  destruct s as [b r]. rewrite !stdin_size_eq. cbn [si_buffered si_reads] in *. lia.
Qed.

(** At a terminal, return alone answers with the empty token. *)
Lemma scan_empty_line reads rest :
  List.filter (λ r, negb (String.eqb r "")) reads = map line_of ("" :: rest) →
  ∃ reads', scan_reads Skipping reads = ("", reads') ∧ List.filter (λ r, negb (String.eqb r "")) reads' = map line_of rest.
Proof.
  induction reads as [|r rs IH]; [done|]. cbn [List.filter scan_reads].
  destruct (String.eqb_spec r "") as [->|Hr]; cbn [negb]; [apply IH|]. intros [= -> Hs]. by exists ("" :: rs).
Qed.

Lemma Scanln_dictated : dictates Scanln [""] "".
Proof.
  split; [done|]. intros [b reads] rest [Hb Hs]. cbn [si_buffered si_reads] in *. subst b.
  destruct (scan_empty_line reads rest Hs) as (reads' & Hr & Hs'). exists (MkStdin "" reads').
  unfold Scanln. cbn [si_reads si_buffered]. by rewrite Hr.
Qed.
