(* ===== verification/RuleBuilder.v ===== *)
(** * The interactive builder of rules (internal/cli/builder.go, validator.go)

    The dialogue that makes a file of rules out of answers, against the interface
    of a prompter; what is printed on the way is left out.  The theorems say that
    every dialogue ends, what the rules it makes are like, and that any rule of a
    stated kind can be dictated. *)

From S2P Require Import Prelude GoStrings GoFloat Value Types Conditions Expand Loader TestScaffold Prompt.
Local Open Scope string_scope.

(** ** Templates *)

Definition isTemplateVariable (s : string) : bool :=
  let s := TrimSpace s in HasPrefix s "{" && HasSuffix s "}".

Definition extractInnerField (s : string) : string :=
  let s := TrimSpace s in if HasPrefix s "{" && HasSuffix s "}" then inner s else s.

(** The fix that is offered for a field without braces. *)
Definition suggestion (field : string) : string := "{" ++ TrimSpace field ++ "}".
Definition accepts (response : string) : bool :=
  let r := ToLower (TrimSpace response) in String.eqb r "" || String.eqb r "y" || String.eqb r "yes".

(** ** Values *)

Inductive value_type := TVariable | TNumber | TBoolean | TString.

(** What [getConditionValue] makes of an answer; [None]: it asks again. *)
Definition classify (answer : string) : option (string * value_type) :=
  let valueStr := TrimSpace answer in
  if String.eqb valueStr "" then None
  else if isTemplateVariable valueStr then
    if String.eqb (extractInnerField valueStr) "" then None else Some (valueStr, TVariable)
  else match ParseFloat valueStr with
  | Some _ => Some (valueStr, TNumber)
  | None =>
      if String.eqb valueStr "true" || String.eqb valueStr "false" then Some (valueStr, TBoolean)
      else Some (TrimChar (ascii_of_nat 34) valueStr, TString)
  end.

Definition literal (valueStr : string) (t : value_type) : result build_error value :=
  match t with
  | TVariable | TString => Ok (VStr valueStr)
  | TNumber => match ParseFloat valueStr with Some f => Ok (VFloat f) | None => Err (NumberInvalid valueStr) end
  | TBoolean => match ParseBool valueStr with Some b => Ok (VBool b) | None => Err (BooleanInvalid valueStr) end
  end.

(** The operators that take no value. *)
Definition existence_operator (op : string) : bool := String.eqb op "exists" || String.eqb op "not_exists".

Definition lift {A} (r : result build_error A) : Tty A := λ s, (r, s).

(** ** Payloads *)

Definition json_text (fields : list (string * string)) : string :=
  let nl := String newline "" in
  "{" ++ nl ++ Join ("," ++ nl) (map (λ f, "  " ++ quoted f.1 ++ ": " ++ quoted f.2) fields) ++ nl ++ "}".

Definition processed_message : string * string := ("message", "Rule matched and processed.").
Definition respond_payload : string := json_text [processed_message; ("id", "{@uuid7()}"); ("processed_at", "{@timestamp()}")].
Definition nats_payload : string := json_text [processed_message; ("device_id", "{device_id}"); ("processed_at", "{@timestamp()}")].
Definition batch_payload : string :=
  json_text [("element_id", "{id}"); ("batch_id", "{@msg.batch_id}"); ("processed_at", "{@timestamp()}")].
Definition http_payload : string := json_text [processed_message; ("timestamp", "{@timestamp()}")].

Section builder.
Context `{Prompter}.

(** ** Conditions *)

Fixpoint condition_field_loop (fuel : nat) : Tty string :=
  match fuel with
  | O => throw OutOfFuel
  | S f =>
      field ← Ask;
      if String.eqb (TrimSpace field) "" then mret ""
      else if negb (isTemplateVariable field) then
        response ← Scanln;
        if accepts response then mret (suggestion field) else condition_field_loop f
      else mret field
  end.
Definition getConditionField : Tty string := with_fuel condition_field_loop.

Fixpoint operator_loop (fuel : nat) : Tty string :=
  match fuel with
  | O => throw OutOfFuel
  | S f => operator ← Ask; if IsValidOperator operator then mret operator else operator_loop f
  end.

Fixpoint condition_value_loop (fuel : nat) : Tty (string * value_type) :=
  match fuel with
  | O => throw OutOfFuel
  | S f => answer ← Ask; match classify answer with Some v => mret v | None => condition_value_loop f end
  end.
Definition getConditionValue : Tty (string * value_type) := with_fuel condition_value_loop.

(** One condition on a field; [nested] asks for the conditions of an array operator. *)
Definition build_item (nested : Tty Conditions) (field : string) : Tty Condition :=
  operator ← with_fuel operator_loop;
  if array_operator operator then cs ← nested; mret (cond_array field operator cs)
  else if existence_operator operator then mret (cond field operator VNil)
  else v ← getConditionValue; val ← lift (literal v.1 v.2); mret (cond field operator val).

Fixpoint items_loop (nested : Tty Conditions) (fuel : nat) : Tty (list Condition) :=
  match fuel with
  | O => throw OutOfFuel
  | S f =>
      field ← getConditionField;
      if String.eqb field "" then mret []
      else item ← build_item nested field; rest ← items_loop nested f; mret (item :: rest)
  end.

Fixpoint conditions_rec (fuel : nat) : Tty Conditions :=
  match fuel with
  | O => throw OutOfFuel
  | S f =>
      op ← AskWithDefault "and";
      items ← with_fuel (items_loop (conditions_rec f));
      addGroup ← Confirm;
      groups ← (if addGroup : bool then g ← conditions_rec f; mret [g] else mret []);
      mret (MkConditions op items groups)
  end.
Definition getConditionsRecursive : Tty Conditions := with_fuel conditions_rec.

(** An answer asked for only after a yes. *)
Definition confirmed {A} (m : Tty A) : Tty (option A) :=
  yes ← Confirm; if yes : bool then a ← m; mret (Some a) else mret None.

Definition getConditions : Tty (option Conditions) := confirmed getConditionsRecursive.

(** ** Triggers *)

Definition schemes : list (string * string) :=
  [("", "${WEBHOOK_SECRET}"); ("stripe", "${STRIPE_WEBHOOK_SECRET}"); ("slack", "${SLACK_SIGNING_SECRET}");
   ("standardwebhooks", "${WEBHOOK_SECRET}")].

Definition hmac_block : Tty HMACConfig :=
  schemeIdx ← Select (length schemes);
  match schemes !! schemeIdx with
  | None => throw IndexPanics
  | Some (scheme, secretDefault) =>
      if negb (String.eqb scheme "") then
        secret ← AskWithDefault secretDefault;
        mret (MkHMACConfig scheme "" (TrimSpace secret) "" "" "")
      else
        header ← AskWithDefault "X-Hub-Signature-256";
        secret ← AskWithDefault secretDefault;
        algoIdx ← Select 2;
        encIdx ← Select 2;
        prefix ← AskWithDefault "";
        mret (MkHMACConfig "" (TrimSpace header) (TrimSpace secret) (if (algoIdx =? 1)%nat then "sha1" else "")
          (if (encIdx =? 1)%nat then "base64" else "") prefix)
  end.
Definition getHMAC : Tty (option HMACConfig) := confirmed hmac_block.

Definition nats_trigger : Tty NATSTrigger :=
  subject ← Ask;
  reply ← Confirm;
  if reply : bool then queue ← AskWithDefault ""; mret (MkNATSTrigger subject None None "" true queue)
  else
    core ← Confirm;
    if core : bool then queue ← AskWithDefault ""; mret (MkNATSTrigger subject None None ModeCore false queue)
    else mret (MkNATSTrigger subject None None "" false "").

Definition http_trigger : Tty HTTPTrigger :=
  path ← Ask;
  method ← AskWithDefault "";
  hmac ← getHMAC;
  mret (MkHTTPTrigger path (ToUpper method) None None hmac).

Definition schedule_trigger : Tty ScheduleTrigger :=
  cron ← Ask; tz ← AskWithDefault ""; mret (MkScheduleTrigger cron tz).

Definition getTrigger : Tty Trigger :=
  choice ← Select 3;
  match choice with
  | 0 => nt ← nats_trigger; mret (MkTrigger (Some nt) None None)
  | 1 => ht ← http_trigger; mret (MkTrigger None (Some ht) None)
  | 2 => st ← schedule_trigger; mret (MkTrigger None None (Some st))
  | _ => mret (MkTrigger None None None)
  end.

(** ** Actions *)

Definition getRespondAction : Tty RespondAction :=
  statusStr ← AskWithDefault "200";
  match Atoi (TrimSpace statusStr) with
  | None => throw (StatusCodeInvalid statusStr)
  | Some status => mret (MkRespondAction status respond_payload false false ∅ "")
  end.

(** A field is only kept off wildcards when it was typed with its braces. *)
Fixpoint forEach_field_loop (fuel : nat) : Tty string :=
  match fuel with
  | O => throw OutOfFuel
  | S f =>
      field ← Ask;
      let field := TrimSpace field in
      if String.eqb field "" then throw ForEachFieldEmpty
      else if negb (isTemplateVariable field) then
        response ← Scanln;
        if accepts response then mret (suggestion field) else forEach_field_loop f
      else
        let innerField := extractInnerField field in
        if Contains innerField "*" || Contains innerField ">" then forEach_field_loop f else mret field
  end.
Definition getForEachField : Tty string := with_fuel forEach_field_loop.

Definition response_subject : Tty PublishResponseSpec :=
  subject ← Ask;
  let subject := TrimSpace subject in
  if String.eqb subject "" then throw PublishSubjectMissing else mret (MkPublishResponseSpec subject).
Definition getPublishResponse : Tty (option PublishResponseSpec) := confirmed response_subject.

(** The filter of a batch action. *)
Definition getFilter : Tty (option Conditions) := confirmed getConditionsRecursive.

Definition getNATSAction : Tty NATSAction :=
  cardinality ← Select 2;
  if (cardinality =? 0)%nat then
    subject ← Ask;
    req ← Confirm;
    timeout ← (if req : bool then AskWithDefault "" else mret "");
    mode ← AskWithDefault "";
    mret (MkNATSAction subject mode nats_payload false false ∅ "" req timeout "" None None None None)
  else
    forEachField ← getForEachField;
    subject ← Ask;
    filter ← getFilter;
    mret (MkNATSAction subject "" batch_payload false false ∅ "" false "" forEachField filter None None None).

Definition default_retry : RetryConfig := MkRetryConfig 3 "1s" "".

Definition getHTTPAction : Tty HTTPAction :=
  cardinality ← Select 2;
  method ← AskWithDefault "POST";
  if (cardinality =? 0)%nat then
    url ← Ask;
    pr ← getPublishResponse;
    mret (MkHTTPAction url method http_payload false false ∅ "" (Some default_retry) pr "" None None None None)
  else
    forEachField ← getForEachField;
    url ← Ask;
    pr ← getPublishResponse;
    filter ← getFilter;
    mret (MkHTTPAction url method http_payload false false ∅ "" (Some default_retry) pr forEachField filter None None None).

Definition getAction : Tty Action :=
  choice ← Select 3;
  match choice with
  | 0 => a ← getNATSAction; mret (MkAction (Some a) None None None)
  | 1 => a ← getHTTPAction; mret (MkAction None (Some a) None None)
  | 2 => a ← getRespondAction; mret (MkAction None None (Some a) None)
  | _ => mret (MkAction None None None None)
  end.

(** ** Rules *)

Definition buildSingleRule : Tty Rule :=
  name ← Ask;
  trigger ← getTrigger;
  conditions ← getConditions;
  action ← getAction;
  mret (MkRule name trigger conditions action 0).

Fixpoint rules_loop (fuel : nat) : Tty (list Rule) :=
  match fuel with
  | O => throw OutOfFuel
  | S f =>
      r ← buildSingleRule;
      addMore ← Confirm;
      if addMore : bool then rest ← rules_loop f; mret (r :: rest) else mret [r]
  end.

(** The comment at the head of the file. *)
Definition file_header (created : string) (rules : list Rule) : string :=
  let nl := String newline "" in
  "# Rule file created on " ++ created ++ nl ++ "#" ++ nl
  ++ (if (1 <? length rules)%nat then "# Contains " ++ Itoa (Z.of_nat (length rules)) ++ " rules" ++ nl ++ "#" ++ nl else "").

(** [yaml.NewEncoder] on a list of rules, and the date as it is printed. *)
Class RuleFile := { yaml_Encode : list Rule → option string; created_on : string }.

Definition BuildRules `{RuleFile} : Tty string :=
  rules ← with_fuel rules_loop;
  match yaml_Encode rules with
  | None => throw MarshalFailed
  | Some text => mret (file_header created_on rules ++ text)
  end.
End builder.

(** ** The rules a dialogue makes *)

Definition is_plain (a : string) : Prop := plain_answer a = true.

(** A value is what some answer stands for; the existence operators have none. *)
Definition built_value (op : string) (v : value) : Prop :=
  if existence_operator op then v = VNil
  else ∃ answer r, is_plain answer ∧ classify answer = Some r ∧ literal r.1 r.2 = Ok v.

Inductive built_conditions : Conditions → Prop :=
| built_group op items groups :
    is_plain op → op ≠ "" → Forall built_condition items → Forall built_conditions groups → (length groups ≤ 1)%nat →
    built_conditions (MkConditions op items groups)
with built_condition : Condition → Prop :=
| built_array field op cs :
    is_plain field → isTemplateVariable field = true → IsValidOperator op = true → array_operator op = true →
    built_conditions cs → built_condition (cond_array field op cs)
| built_plain field op val :
    is_plain field → isTemplateVariable field = true → IsValidOperator op = true → array_operator op = false →
    built_value op val → built_condition (cond field op val).

Inductive built_hmac : HMACConfig → Prop :=
| built_generic header secret algorithm encoding prefix :
    is_plain header → header ≠ "" → is_plain secret → secret ≠ "" → algorithm ∈ [""; "sha1"] → encoding ∈ [""; "base64"] →
    is_plain prefix → built_hmac (MkHMACConfig "" header secret algorithm encoding prefix)
| built_scheme scheme secret :
    scheme ∈ ["stripe"; "slack"; "standardwebhooks"] → is_plain secret → secret ≠ "" →
    built_hmac (MkHMACConfig scheme "" secret "" "" "").

Inductive built_nats : NATSTrigger → Prop :=
| built_service subject queue : is_plain subject → is_plain queue → built_nats (MkNATSTrigger subject None None "" true queue)
| built_core subject queue : is_plain subject → is_plain queue → built_nats (MkNATSTrigger subject None None ModeCore false queue)
| built_stream subject : is_plain subject → built_nats (MkNATSTrigger subject None None "" false "").

Inductive built_trigger : Trigger → Prop :=
| built_trigger_nats t : built_nats t → built_trigger (MkTrigger (Some t) None None)
| built_trigger_http path method hmac :
    is_plain path → is_plain method → from_opt built_hmac hmac →
    built_trigger (MkTrigger None (Some (MkHTTPTrigger path (ToUpper method) None None hmac)) None)
| built_trigger_schedule cron tz :
    is_plain cron → is_plain tz → built_trigger (MkTrigger None None (Some (MkScheduleTrigger cron tz))).

(** A field typed in braces has no wildcard; one whose braces the fix adds may. *)
Inductive built_forEach : string → Prop :=
| built_typed field :
    is_plain field → isTemplateVariable field = true →
    Contains (extractInnerField field) "*" || Contains (extractInnerField field) ">" = false → built_forEach field
| built_fixed field : is_plain field → field ≠ "" → isTemplateVariable field = false → built_forEach (suggestion field).

Definition built_publish (p : PublishResponseSpec) : Prop := is_plain (pr_Subject p) ∧ pr_Subject p ≠ "".

Inductive built_nats_action : NATSAction → Prop :=
| built_publication subject mode (req : bool) timeout :
    is_plain subject → is_plain mode → is_plain timeout → (req = false → timeout = "") →
    built_nats_action (MkNATSAction subject mode nats_payload false false ∅ "" req timeout "" None None None None)
| built_publications subject forEach filter :
    is_plain subject → built_forEach forEach → from_opt built_conditions filter →
    built_nats_action (MkNATSAction subject "" batch_payload false false ∅ "" false "" forEach filter None None None).

Inductive built_http_action : HTTPAction → Prop :=
| built_call url method pr :
    is_plain url → is_plain method → method ≠ "" → from_opt built_publish pr →
    built_http_action (MkHTTPAction url method http_payload false false ∅ "" (Some default_retry) pr "" None None None None)
| built_calls url method pr forEach filter :
    is_plain url → is_plain method → method ≠ "" → from_opt built_publish pr → built_forEach forEach → from_opt built_conditions filter →
    built_http_action (MkHTTPAction url method http_payload false false ∅ "" (Some default_retry) pr forEach filter None None None).

Inductive built_action : Action → Prop :=
| built_action_nats a : built_nats_action a → built_action (MkAction (Some a) None None None)
| built_action_http a : built_http_action a → built_action (MkAction None (Some a) None None)
| built_action_respond answer status :
    is_plain answer → Atoi answer = Some status →
    built_action (MkAction None None (Some (MkRespondAction status respond_payload false false ∅ "")) None).

Inductive built_rule : Rule → Prop :=
| built_one name trigger conditions action :
    is_plain name → built_trigger trigger → from_opt built_conditions conditions → built_action action →
    built_rule (MkRule name trigger conditions action 0).

(** ** Every dialogue ends, and makes such rules *)

(** A step that takes an answer or none, and the rest. *)
Lemma ends_then {A B} t fuel (m : Tty A) (f : A → Tty B) (P : A → Prop) (Q : B → Prop) :
  ends t fuel m P → (∀ a, P a → ends 0 fuel (f a) Q) → ends t fuel (m ≫= f) Q.
Proof.
  intros Hm Hf. replace t with (t + 0)%nat by lia. apply (ends_bind _ _ _ _ _ P); [done|]. intros a Ha.
  eapply ends_weaken; [by apply Hf|lia..|done].
Qed.

(** The first answer of a turn pays for the turns after it. *)
Lemma ends_first {A B} f (m : Tty A) (k : A → Tty B) (P : A → Prop) (Q : B → Prop) :
  ends 1 (S f) m P → (∀ a, P a → ends 0 f (k a) Q) → ends 1 (S f) (m ≫= k) Q.
Proof.
  intros Hm Hk. apply (ends_bind 1 0 _ _ _ P); [done|]. intros a Ha. eapply ends_weaken; [by apply Hk|lia..|done].
Qed.

Lemma ends_free {A} t fuel (m : Tty A) (Q : A → Prop) : ends t fuel m Q → ends 0 fuel m Q.
Proof. intros Hm. eapply ends_weaken; [exact Hm|lia..|done]. Qed.

Lemma ends_0 {A} t (m : Tty A) (Q : A → Prop) : ends t 0 m Q.
Proof. intros s Hs. lia. Qed.

Lemma ends_lift {A} fuel (r : result build_error A) (Q : A → Prop) :
  match r with Ok a => Q a | Err e => is_bug e = false end → ends 0 fuel (lift r) Q.
Proof. intros HQ s Hs. unfold lift. destruct r; split; (done || lia). Qed.

Lemma literal_classified answer r : classify answer = Some r → is_ok (literal r.1 r.2) = true.
Proof.
  unfold classify. destruct (String.eqb _ ""); [done|]. destruct (isTemplateVariable _).
  { destruct (String.eqb _ ""); [done|]. by intros [= <-]. }
  destruct (ParseFloat (TrimSpace answer)) eqn:Ef; [intros [= <-]; cbn; by rewrite Ef|].
  destruct (_ || _) eqn:Eb; intros [= <-]; [|done]. cbn.
  apply orb_true_iff in Eb as [->%String.eqb_eq| ->%String.eqb_eq]; done.
Qed.

Lemma HasSuffix_app s p : HasSuffix (s ++ p) p = true.
Proof.
  unfold HasSuffix. rewrite slen_app. replace (slen s + slen p - slen p)%nat with (slen s) by lia.
  rewrite sdrop_app, String.eqb_refl, andb_true_r. apply Nat.leb_le. lia.
Qed.

Lemma suggestion_template x : is_plain x → is_plain (suggestion x) ∧ isTemplateVariable (suggestion x) = true.
Proof.
  intros Hx. unfold suggestion. pose proof Hx as [_ ->]%plain_spec. split; [by apply plain_braces|].
  unfold isTemplateVariable. rewrite TrimSpace_braces, <- app_assoc_str, HasSuffix_app, andb_true_r, app_assoc_str. apply HasPrefix_app.
Qed.

Section ending.
Context `{PrompterLaws}.

Lemma condition_field_ends fuel : ends 1 fuel getConditionField (λ f, f = "" ∨ is_plain f ∧ isTemplateVariable f = true).
Proof.
  apply ends_with_fuel. clear fuel. induction f as [|f IH]; [apply ends_0|]. cbn [condition_field_loop].
  eapply ends_first; [apply Ask_ends|]. intros field Hp. destruct (String.eqb (TrimSpace field) ""); [apply ends_ret; by left|].
  destruct (isTemplateVariable field) eqn:Ht; cbn [negb]; [apply ends_ret; by right|].
  eapply ends_then; [apply Scanln_ends|]. intros response _. destruct (accepts response); [|by eapply ends_free].
  apply ends_ret. right. by apply suggestion_template.
Qed.

Lemma operator_ends fuel : ends 1 fuel (with_fuel operator_loop) (λ op, IsValidOperator op = true).
Proof.
  apply ends_with_fuel. clear fuel. induction f as [|f IH]; [apply ends_0|]. cbn [operator_loop].
  eapply ends_first; [apply Ask_ends|]. intros op _. destruct (IsValidOperator op) eqn:Ho; [by apply ends_ret|by eapply ends_free].
Qed.

Lemma condition_value_ends fuel :
  ends 1 fuel getConditionValue (λ r, ∃ answer, is_plain answer ∧ classify answer = Some r).
Proof.
  apply ends_with_fuel. clear fuel. induction f as [|f IH]; [apply ends_0|]. cbn [condition_value_loop].
  eapply ends_first; [apply Ask_ends|]. intros answer Ha. destruct (classify answer) eqn:Hc; [|by eapply ends_free].
  apply ends_ret. by exists answer.
Qed.

Lemma item_ends fuel (nested : Tty Conditions) field :
  is_plain field → isTemplateVariable field = true → ends 1 fuel nested built_conditions →
  ends 1 fuel (build_item nested field) built_condition.
Proof.
  intros Hp Ht Hn. unfold build_item. eapply ends_then; [apply operator_ends|]. intros op Ho. cbn beta in Ho.
  destruct (array_operator op) eqn:Ha.
  { eapply ends_then; [by eapply ends_free|]. intros cs Hcs. apply ends_ret. by apply built_array. }
  destruct (existence_operator op) eqn:He.
  { apply ends_ret. apply built_plain; try done. unfold built_value. by rewrite He. }
  eapply ends_then; [eapply ends_free, condition_value_ends|]. intros r (answer & Hpa & Hc).
  pose proof (literal_classified _ _ Hc) as Hok.
  eapply (ends_then _ _ _ _ (λ v, literal r.1 r.2 = Ok v)); [apply ends_lift; by destruct (literal r.1 r.2)|].
  intros v Hv. apply ends_ret. apply built_plain; try done. unfold built_value. rewrite He. by exists answer, r.
Qed.

Lemma items_ends fuel (nested : Tty Conditions) :
  ends 1 fuel nested built_conditions → ends 1 fuel (with_fuel (items_loop nested)) (Forall built_condition).
Proof.
  intros Hn. enough (∀ f, ends 1 (f `min` fuel) (items_loop nested f) (Forall built_condition)) as Hl.
  { intros s Hs. unfold with_fuel. apply (Hl (S (stdin_size s)) s). lia. }
  induction f as [|f IH]; [apply ends_0|]. cbn [items_loop].
  destruct fuel as [|fuel]; [apply ends_0|]. cbn [Nat.min].
  eapply ends_first; [apply condition_field_ends|]. intros field Hf.
  destruct (String.eqb_spec field "") as [->|Hne]; [by apply ends_ret|]. destruct Hf as [?|[Hp Ht]]; [done|].
  eapply ends_then; [eapply ends_weaken; [apply (item_ends (S fuel)); done|lia|lia|]; intros a Ha; exact Ha|].
  intros item Hi. eapply ends_then; [eapply ends_weaken; [apply IH|lia|lia|]; intros a Ha; exact Ha|].
  intros rest Hr. apply ends_ret. by constructor.
Qed.

Lemma conditions_ends fuel : ends 1 fuel getConditionsRecursive built_conditions.
Proof.
  apply ends_with_fuel. clear fuel. induction f as [|f IH]; [apply ends_0|]. cbn [conditions_rec].
  eapply ends_first; [by apply AskWithDefault_ends|]. intros op [Hp Ho].
  eapply ends_then; [eapply ends_free, items_ends, IH|]. intros items Hi.
  eapply ends_then; [eapply ends_free, Confirm_ends|]. intros addGroup _.
  eapply (ends_then _ _ _ _ (λ gs, Forall built_conditions gs ∧ (length gs ≤ 1)%nat)).
  { destruct addGroup; [|apply ends_ret; split; [done|cbn; lia]].
    eapply ends_then; [by eapply ends_free|]. intros g Hg. apply ends_ret. split; [by repeat constructor|done]. }
  intros groups [Hg Hl]. apply ends_ret. constructor; auto.
Qed.

Lemma confirmed_ends {A} fuel (m : Tty A) (Q : A → Prop) : ends 1 fuel m Q → ends 1 fuel (confirmed m) (from_opt Q).
Proof.
  intros Hm. eapply ends_then; [apply Confirm_ends|]. intros yes _. destruct yes; [|by apply ends_ret].
  eapply ends_then; [by eapply ends_free|]. intros a Ha. by apply ends_ret.
Qed.

Lemma forEach_field_ends fuel : ends 1 fuel getForEachField built_forEach.
Proof.
  apply ends_with_fuel. clear fuel. induction f as [|f IH]; [apply ends_0|]. cbn [forEach_field_loop].
  eapply ends_first; [apply Ask_ends|]. intros field Hp. pose proof Hp as [_ ->]%plain_spec.
  destruct (String.eqb_spec field "") as [|Hne]; [by apply ends_throw|].
  destruct (isTemplateVariable field) eqn:Ht; cbn [negb].
  { destruct (_ || _) eqn:Hw; [by eapply ends_free|]. apply ends_ret. by apply built_typed. }
  eapply ends_then; [apply Scanln_ends|]. intros response _. destruct (accepts response); [|by eapply ends_free].
  apply ends_ret. by apply built_fixed.
Qed.

Lemma ask_default_ends {d} fuel : is_plain d → ends 1 fuel (AskWithDefault d) (λ a, is_plain a ∧ (d ≠ "" → a ≠ "")).
Proof. apply AskWithDefault_ends. Qed.

Lemma hmac_ends fuel : ends 1 fuel hmac_block built_hmac.
Proof.
  eapply ends_then; [apply Select_ends|]. intros i Hi. cbn beta in Hi. destruct (schemes !! i) as [[scheme default]|] eqn:Hs.
  2: { apply lookup_ge_None in Hs. lia. }
  assert (is_plain default ∧ default ≠ "" ∧ (scheme = "" ∨ scheme ∈ ["stripe"; "slack"; "standardwebhooks"])) as (Hd & Hne & Hsch).
  { do 4 (destruct i as [|i]; [injection Hs as <- <-; split_and!; [done|done|set_solver]|]). by cbn in Hi; lia. }
  destruct (String.eqb_spec scheme "") as [->|Hns]; cbn [negb].
  - eapply ends_then; [by apply ends_free with 1, ask_default_ends|]. intros header [Hh1 Hh2].
    eapply ends_then; [by apply ends_free with 1, ask_default_ends|]. intros secret [Hs1 Hs2].
    eapply ends_then; [eapply ends_free, Select_ends|]. intros algo _.
    eapply ends_then; [eapply ends_free, Select_ends|]. intros enc _.
    eapply ends_then; [by apply ends_free with 1, ask_default_ends|]. intros prefix [Hp1 _].
    pose proof Hh1 as [_ Hh3]%plain_spec. pose proof Hs1 as [_ Hs3]%plain_spec.
    apply ends_ret. rewrite Hh3, Hs3. apply built_generic; auto; case_match; set_solver.
  - eapply ends_then; [by apply ends_free with 1, ask_default_ends|]. intros secret [Hs1 Hs2].
    pose proof Hs1 as [_ Hs3]%plain_spec. apply ends_ret. rewrite Hs3. apply built_scheme; auto. by destruct Hsch.
Qed.

Lemma trigger_ends fuel : ends 1 fuel getTrigger built_trigger.
Proof.
  eapply ends_then; [apply Select_ends|]. intros choice Hc.
  destruct choice as [|[|[|]]]; [| | |lia].
  - unfold nats_trigger. eapply (ends_then _ _ _ _ built_nats); [|intros t Ht; by apply ends_ret, built_trigger_nats].
    eapply ends_then; [eapply ends_free, Ask_ends|]. intros subject Hs.
    eapply ends_then; [eapply ends_free, Confirm_ends|]. intros reply _. destruct reply.
    { eapply ends_then; [by apply ends_free with 1, ask_default_ends|]. intros queue [Hq _]. by apply ends_ret, built_service. }
    eapply ends_then; [eapply ends_free, Confirm_ends|]. intros core _.
    destruct core; [|by apply ends_ret, built_stream].
    eapply ends_then; [by apply ends_free with 1, ask_default_ends|]. intros queue [Hq _]. by apply ends_ret, built_core.
  - unfold http_trigger.
    eapply (ends_then _ _ _ _ (λ t, built_trigger (MkTrigger None (Some t) None))); [|intros t Ht; by apply ends_ret].
    eapply ends_then; [eapply ends_free, Ask_ends|]. intros path Hp.
    eapply ends_then; [by apply ends_free with 1, ask_default_ends|]. intros method [Hm _].
    eapply ends_then; [eapply ends_free, confirmed_ends, hmac_ends|]. intros hmac Hh. by apply ends_ret, built_trigger_http.
  - unfold schedule_trigger.
    eapply (ends_then _ _ _ _ (λ t, built_trigger (MkTrigger None None (Some t)))); [|intros t Ht; by apply ends_ret].
    eapply ends_then; [eapply ends_free, Ask_ends|]. intros cron Hp.
    eapply ends_then; [by apply ends_free with 1, ask_default_ends|]. intros tz [Hm _]. by apply ends_ret, built_trigger_schedule.
Qed.

Lemma publish_ends fuel : ends 0 fuel getPublishResponse (from_opt built_publish).
Proof.
  eapply ends_free, confirmed_ends. eapply ends_then; [apply Ask_ends|]. intros s Hs. pose proof Hs as [_ ->]%plain_spec. cbv zeta.
  destruct (String.eqb_spec s ""); [by apply ends_throw|]. by apply ends_ret.
Qed.

Lemma filter_ends fuel : ends 0 fuel getFilter (from_opt built_conditions).
Proof. eapply ends_free, confirmed_ends, conditions_ends. Qed.

Lemma nats_action_ends fuel : ends 1 fuel getNATSAction built_nats_action.
Proof.
  eapply ends_then; [apply Select_ends|]. intros cardinality _. destruct (cardinality =? 0)%nat.
  - eapply ends_then; [eapply ends_free, Ask_ends|]. intros subject Hs.
    eapply ends_then; [eapply ends_free, Confirm_ends|]. intros req _.
    eapply (ends_then _ _ _ _ (λ t, is_plain t ∧ (req = false → t = ""))).
    { destruct req; [|by apply ends_ret]. eapply (ends_weaken 1 0 fuel fuel); [by apply ask_default_ends|lia..|]. intros a [Ha _]. by split. }
    intros timeout [Ht Hr]. eapply ends_then; [by apply ends_free with 1, ask_default_ends|]. intros mode [Hm _].
    by apply ends_ret, built_publication.
  - eapply ends_then; [eapply ends_free, forEach_field_ends|]. intros forEach Hf.
    eapply ends_then; [eapply ends_free, Ask_ends|]. intros subject Hs.
    eapply ends_then; [apply filter_ends|]. intros filter Hfi. by apply ends_ret, built_publications.
Qed.

Lemma http_action_ends fuel : ends 1 fuel getHTTPAction built_http_action.
Proof.
  eapply ends_then; [apply Select_ends|]. intros cardinality _.
  eapply ends_then; [by apply ends_free with 1, ask_default_ends|]. intros method [Hm1 Hm2].
  destruct (cardinality =? 0)%nat.
  - eapply ends_then; [eapply ends_free, Ask_ends|]. intros url Hu.
    eapply ends_then; [apply publish_ends|]. intros pr Hpr. apply ends_ret, built_call; auto.
  - eapply ends_then; [eapply ends_free, forEach_field_ends|]. intros forEach Hf.
    eapply ends_then; [eapply ends_free, Ask_ends|]. intros url Hu.
    eapply ends_then; [apply publish_ends|]. intros pr Hpr.
    eapply ends_then; [apply filter_ends|]. intros filter Hfi. apply ends_ret, built_calls; auto.
Qed.

Lemma action_ends fuel : ends 1 fuel getAction built_action.
Proof.
  eapply ends_then; [apply Select_ends|]. intros choice Hc. cbn beta in Hc. destruct choice as [|[|[|]]]; [| | |lia].
  - eapply ends_then; [eapply ends_free, nats_action_ends|]. intros a Ha. by apply ends_ret, built_action_nats.
  - eapply ends_then; [eapply ends_free, http_action_ends|]. intros a Ha. by apply ends_ret, built_action_http.
  - unfold getRespondAction.
    eapply (ends_then _ _ _ _ (λ a, built_action (MkAction None None (Some a) None))); [|intros a Ha; by apply ends_ret].
    eapply ends_then; [by apply ends_free with 1, ask_default_ends|]. intros a [Ha _]. pose proof Ha as [_ ->]%plain_spec.
    destruct (Atoi a) eqn:Hz; [|by apply ends_throw]. apply ends_ret. by eapply built_action_respond.
Qed.

Lemma rule_ends fuel : ends 1 fuel buildSingleRule built_rule.
Proof.
  eapply ends_then; [apply Ask_ends|]. intros name Hn.
  eapply ends_then; [eapply ends_free, trigger_ends|]. intros trigger Ht.
  eapply ends_then; [eapply ends_free, confirmed_ends, conditions_ends|]. intros conditions Hc.
  eapply ends_then; [eapply ends_free, action_ends|]. intros action Ha. by apply ends_ret, built_one.
Qed.

Definition built_rules (rules : list Rule) : Prop := rules ≠ [] ∧ Forall built_rule rules.

Lemma rules_ends fuel : ends 1 fuel (with_fuel rules_loop) built_rules.
Proof.
  apply ends_with_fuel. clear fuel. induction f as [|f IH]; [apply ends_0|]. cbn [rules_loop].
  eapply ends_first; [apply rule_ends|]. intros r Hr. eapply ends_then; [eapply ends_free, Confirm_ends|]. intros addMore _.
  destruct addMore; [|apply ends_ret; by repeat constructor].
  eapply ends_then; [by eapply ends_free|]. intros rest [_ Hrest]. apply ends_ret. by repeat constructor.
Qed.
End ending.

(** ** Every such rule can be dictated *)

Definition dictable {A} (m : Tty A) (a : A) : Prop := ∃ answers, dictates m answers a.

(** Dictated to a loop that has fuel for every answer. *)
Definition spoken {A} (loop : nat → Tty A) (a : A) : Prop :=
  ∃ answers, ∀ fuel, (length answers < fuel)%nat → dictates (loop fuel) answers a.

Lemma dictable_ret {A} (a : A) : dictable (mret a) a.
Proof. exists []. apply dictates_ret. Qed.

Lemma dictable_bind {A B} (m : Tty A) (f : A → Tty B) a b : dictable m a → dictable (f a) b → dictable (m ≫= f) b.
Proof. intros (l & Hl) (k & Hk). exists (l ++ k)%list. by eapply dictates_bind. Qed.

Lemma dictates_then {A B} (m : Tty A) (f : A → Tty B) x l a b :
  dictates m [x] a → dictates (f a) l b → dictates (m ≫= f) (x :: l) b.
Proof. apply (dictates_bind m f [x] l). Qed.

Lemma spoken_dictable {A} (loop : nat → Tty A) a : spoken loop a → dictable (with_fuel loop) a.
Proof. intros (l & Hl). exists l. by apply dictates_with_fuel. Qed.

Lemma dictates_lift {A} (r : result build_error A) (a : A) : r = Ok a → dictates (lift r) [] a.
Proof. intros ->. apply dictates_ret. Qed.

Lemma valid_operator_plain op : IsValidOperator op = true → is_plain op.
Proof. intros (x & Hx & ->%String.eqb_eq)%existsb_True. unfold is_plain. revert x Hx. by apply forallb_True. Qed.

Lemma template_not_empty s : is_plain s → isTemplateVariable s = true → s ≠ "".
Proof. by intros _ Ht ->. Qed.

Section dictating.
Context `{PrompterLaws}.

Lemma field_dictated field : is_plain field → isTemplateVariable field = true → dictates getConditionField [field] field.
Proof.
  intros Hp Ht. apply dictates_with_fuel. intros [|f] Hf; [lia|]. cbn [condition_field_loop].
  eapply dictates_then; [by apply Ask_dictated|]. pose proof Hp as [_ ->]%plain_spec.
  rewrite (proj2 (String.eqb_neq field "")) by by apply template_not_empty. rewrite Ht. apply dictates_ret.
Qed.

Lemma no_field_dictated : dictates getConditionField [""] "".
Proof.
  apply dictates_with_fuel. intros [|f] Hf; [lia|]. cbn [condition_field_loop].
  eapply dictates_then; [by apply Ask_dictated|]. apply dictates_ret.
Qed.

Lemma operator_dictated op : IsValidOperator op = true → dictates (with_fuel operator_loop) [op] op.
Proof.
  intros Ho. apply dictates_with_fuel. intros [|f] Hf; [lia|]. cbn [operator_loop].
  eapply dictates_then; [by apply Ask_dictated, valid_operator_plain|]. rewrite Ho. apply dictates_ret.
Qed.

Lemma value_dictated answer r : is_plain answer → classify answer = Some r → dictates getConditionValue [answer] r.
Proof.
  intros Hp Hc. apply dictates_with_fuel. intros [|f] Hf; [lia|]. cbn [condition_value_loop].
  eapply dictates_then; [by apply Ask_dictated|]. rewrite Hc. apply dictates_ret.
Qed.

Lemma yes_dictated {A} (m : Tty A) l a : dictates m l a → dictates (confirmed m) ("y" :: l) (Some a).
Proof.
  intros Hm. eapply dictates_then; [apply (Confirm_dictated true)|]. cbn. replace l with (l ++ [])%list by apply app_nil_r.
  eapply dictates_bind; [done|apply dictates_ret].
Qed.

Lemma opt_dictable {A} (m : Tty A) (P : A → Prop) o :
  (∀ a, P a → dictable m a) → from_opt P o → dictable (confirmed m) o.
Proof.
  intros Hm Ho. destruct o as [a|].
  - destruct (Hm a Ho) as (l & Hl). exists ("y" :: l). by apply yes_dictated.
  - exists ["n"]. eapply dictates_then; [apply (Confirm_dictated false)|apply dictates_ret].
Qed.

(** *** Conditions *)

Definition item_spoken (c : Condition) : Prop :=
  is_plain (c_Field c) ∧ isTemplateVariable (c_Field c) = true ∧
  ∃ l, ∀ f, (length l < f)%nat → dictates (build_item (conditions_rec f) (c_Field c)) l c.

Lemma items_spoken items :
  Forall item_spoken items →
  ∃ l, ∀ f, (length l < f)%nat → dictates (with_fuel (items_loop (conditions_rec f))) l items.
Proof.
  intros Hi.
  enough (∃ l, ∀ f fuel, (length l < f)%nat → (length l < fuel)%nat → dictates (items_loop (conditions_rec f) fuel) l items) as (l & Hl).
  { exists l. intros f Hf. apply dictates_with_fuel. auto. }
  induction Hi as [|c rest (Hp & Ht & (li & Hli)) _ (lr & Hlr)].
  - exists [""]. intros f [|fuel] _ Hf; [lia|]. cbn [items_loop]. eapply dictates_then; [apply no_field_dictated|]. apply dictates_ret.
  - exists (c_Field c :: li ++ lr)%list. cbn [length]. rewrite length_app. intros f [|fuel] Hf Hfuel; [lia|]. cbn [items_loop].
    eapply dictates_then; [by apply field_dictated|]. rewrite (proj2 (String.eqb_neq (c_Field c) "")) by by apply template_not_empty.
    eapply dictates_bind; [apply Hli; lia|]. replace lr with (lr ++ [])%list by apply app_nil_r.
    eapply dictates_bind; [apply Hlr; lia|apply dictates_ret].
Qed.

Lemma conditions_spoken_both :
  (∀ cs, built_conditions cs → spoken conditions_rec cs) ∧ (∀ c, built_condition c → item_spoken c).
Proof.
  assert (∀ op items groups,
    Forall (λ c, built_condition c → item_spoken c) items →
    Forall (λ cs, built_conditions cs → spoken conditions_rec cs) groups →
    built_conditions (MkConditions op items groups) → spoken conditions_rec (MkConditions op items groups)) as HC.
  { intros op items groups Hi Hg. inversion 1 as [? ? ? Hp Hne Hbi Hbg Hl]; subst.
    destruct (items_spoken items) as (l & Hitems).
    { rewrite Forall_forall in *. auto. }
    assert (∃ k, ∀ f, (length k < f)%nat →
      dictates (addGroup ← Confirm; groups ← (if addGroup : bool then g ← conditions_rec f; mret [g] else mret []); mret (MkConditions op items groups))
        k (MkConditions op items groups)) as (k & Hk).
    { destruct groups as [|g [|]]; [| |cbn in Hl; lia].
      - exists ["n"]. intros f _. eapply dictates_then; [apply (Confirm_dictated false)|]. apply dictates_ret.
      - rewrite Forall_singleton in Hg. rewrite Forall_singleton in Hbg. destruct (Hg Hbg) as (lg & Hlg). exists ("y" :: lg). cbn [length]. intros f Hf.
        eapply dictates_then; [apply (Confirm_dictated true)|]. cbn. replace lg with ((lg ++ []) ++ [])%list by by rewrite !app_nil_r.
        eapply dictates_bind; [|apply dictates_ret]. eapply dictates_bind; [apply Hlg; lia|apply dictates_ret]. }
    exists (op :: l ++ k)%list. cbn [length]. rewrite length_app. intros [|f] Hf; [lia|]. cbn [conditions_rec].
    eapply dictates_then; [by apply AskWithDefault_dictated|]. rewrite (proj2 (String.eqb_neq op "")) by done.
    eapply dictates_bind; [apply Hitems; lia|]. apply Hk. lia. }
  assert (∀ field op val nested fv fp vv vp,
    (∀ cs, nested = Some cs → built_conditions cs → spoken conditions_rec cs) →
    built_condition (MkCondition field op val nested fv fp vv vp) → item_spoken (MkCondition field op val nested fv fp vv vp)) as HI.
  { intros field op val nested fv fp vv vp Hn. inversion 1 as [? ? cs Hp Ht Ho Ha Hcs|? ? ? Hp Ht Ho Ha Hv]; subst.
    - split_and!; [done..|]. destruct (Hn cs eq_refl Hcs) as (l & Hl). exists (op :: l). cbn [length]. intros f Hf.
      eapply dictates_then; [by apply operator_dictated|]. rewrite Ha. replace l with (l ++ [])%list by apply app_nil_r.
      eapply dictates_bind; [apply Hl; lia|apply dictates_ret].
    - split_and!; [done..|]. unfold built_value in Hv. destruct (existence_operator op) eqn:He.
      + subst. exists [op]. intros f _. eapply dictates_then; [by apply operator_dictated|]. rewrite Ha, He. apply dictates_ret.
      + destruct Hv as (answer & r & Hpa & Hc & Hlit). exists [op; answer]. intros f _.
        eapply dictates_then; [by apply operator_dictated|]. rewrite Ha, He.
        eapply dictates_then; [by apply value_dictated|]. apply (dictates_bind _ _ [] [] val); [by apply dictates_lift|apply dictates_ret]. }
  split; [apply (conditions_mut _ _ HC HI)|apply (condition_mut _ _ HC HI)].
Qed.

Lemma conditions_dictable cs : built_conditions cs → dictable getConditionsRecursive cs.
Proof. intros Hcs. by apply spoken_dictable, conditions_spoken_both. Qed.

(** *** Single answers *)

Lemma Ask_dictable a : is_plain a → dictable Ask a.
Proof. intros Ha. exists [a]. by apply Ask_dictated. Qed.

Lemma AskWithDefault_dictable d a : is_plain a → (d ≠ "" → a ≠ "") → dictable (AskWithDefault d) a.
Proof.
  intros Ha Hd. exists [a]. pose proof (AskWithDefault_dictated d a Ha) as Hq. destruct (String.eqb_spec a "") as [->|]; [|done].
  destruct (String.eqb_spec d "") as [->|Hne]; [done|]. by destruct (Hd Hne).
Qed.

Lemma Confirm_dictable b : dictable Confirm b.
Proof. eexists. apply Confirm_dictated. Qed.

Lemma Select_dictable n i : (i < n)%nat → (n < 10)%nat → dictable (Select n) i.
Proof. intros. eexists. by apply Select_dictated. Qed.
End dictating.

Create HintDb dictation discriminated.
#[export] Hint Resolve dictable_ret dictable_bind Ask_dictable AskWithDefault_dictable Confirm_dictable Select_dictable : dictation.

(** The answer to the first question of a dialogue is [a]. *)
Ltac answer a := apply (dictable_bind _ _ a); [first [by auto with dictation | apply AskWithDefault_dictable; by auto | apply Select_dictable; [first [assumption | cbn; lia] | cbn; lia]]|].

Section dictating_rules.
Context `{PrompterLaws}.

(** One of two texts, by the position of its option. *)
Lemma option_index x y (s : string) : s ∈ [x; y] → ∃ i, (i < 2)%nat ∧ (if (i =? 1)%nat then y else x) = s.
Proof. intros [->|[->|[]%elem_of_nil]%elem_of_cons]%elem_of_cons; [exists 0%nat|exists 1%nat]; split; (lia || done). Qed.

Lemma scheme_index scheme :
  scheme ∈ ["stripe"; "slack"; "standardwebhooks"] → ∃ i d, (i < length schemes)%nat ∧ schemes !! i = Some (scheme, d) ∧ scheme ≠ "".
Proof.
  intros [->|[->|[->|[]%elem_of_nil]%elem_of_cons]%elem_of_cons]%elem_of_cons;
    [exists 1%nat|exists 2%nat|exists 3%nat]; eexists; (split_and!; [cbn; lia|reflexivity|done]).
Qed.

Lemma hmac_dictable h : built_hmac h → dictable hmac_block h.
Proof.
  unfold hmac_block. destruct 1 as [header secret algorithm encoding prefix Hh Hhn Hs Hsn Ha He Hp|scheme secret Hsch Hs Hsn];
    pose proof Hs as [_ Hst]%plain_spec.
  - pose proof Hh as [_ Hht]%plain_spec. destruct (option_index _ _ _ Ha) as (i & Hi & <-). destruct (option_index _ _ _ He) as (j & Hj & <-).
    answer 0%nat. cbn. answer header. answer secret. answer i. answer j. answer prefix. rewrite Hht, Hst. apply dictable_ret.
  - destruct (scheme_index scheme Hsch) as (i & d & Hi & Hd & Hne). answer i. rewrite Hd.
    rewrite (proj2 (String.eqb_neq scheme "")) by done. cbn [negb]. answer secret. rewrite Hst. apply dictable_ret.
Qed.

Lemma nats_trigger_dictable t : built_nats t → dictable nats_trigger t.
Proof.
  unfold nats_trigger. destruct 1 as [subject queue Hs Hq|subject queue Hs Hq|subject Hs]; answer subject.
  - answer true. answer queue. apply dictable_ret.
  - answer false. answer true. answer queue. apply dictable_ret.
  - answer false. answer false. apply dictable_ret.
Qed.

Lemma trigger_dictable t : built_trigger t → dictable getTrigger t.
Proof.
  unfold getTrigger. destruct 1 as [t Ht|path method hmac Hp Hm Hh|cron tz Hc Ht].
  - answer 0%nat. eapply dictable_bind; [by apply nats_trigger_dictable|apply dictable_ret].
  - answer 1%nat. unfold http_trigger.
    eapply dictable_bind; [|apply dictable_ret]. answer path. answer method.
    eapply dictable_bind; [by apply (opt_dictable _ built_hmac); [apply hmac_dictable|]|apply dictable_ret].
  - answer 2%nat. unfold schedule_trigger. eapply dictable_bind; [|apply dictable_ret]. answer cron. answer tz. apply dictable_ret.
Qed.

Lemma publish_dictable pr : from_opt built_publish pr → dictable getPublishResponse pr.
Proof.
  apply (opt_dictable _ built_publish). intros [subject] [Hp Hne]. cbn in Hp, Hne. unfold response_subject. answer subject.
  pose proof Hp as [_ ->]%plain_spec. cbv zeta. rewrite (proj2 (String.eqb_neq subject "")) by done. apply dictable_ret.
Qed.

Lemma filter_dictable cs : from_opt built_conditions cs → dictable getFilter cs.
Proof. apply (opt_dictable _ built_conditions), conditions_dictable. Qed.

(** A field without braces is dictated with a line for the fix. *)
Lemma forEach_dictable f : built_forEach f → dictable getForEachField f.
Proof.
  intros Hf. apply spoken_dictable. destruct Hf as [field Hp Ht Hw|field Hp Hne Ht].
  - exists [field]. intros [|f] Hf; [lia|]. cbn [forEach_field_loop]. eapply dictates_then; [by apply Ask_dictated|].
    pose proof Hp as [_ ->]%plain_spec. cbv zeta. rewrite (proj2 (String.eqb_neq field "")) by by apply template_not_empty.
    rewrite Ht, Hw. apply dictates_ret.
  - exists [field; ""]. intros [|f] Hf; [lia|]. cbn [forEach_field_loop]. eapply dictates_then; [by apply Ask_dictated|].
    pose proof Hp as [_ ->]%plain_spec. cbv zeta. rewrite (proj2 (String.eqb_neq field "")), Ht by done. cbn [negb].
    eapply dictates_then; [apply Scanln_dictated|]. apply dictates_ret.
Qed.

Lemma nats_action_dictable a : built_nats_action a → dictable getNATSAction a.
Proof.
  unfold getNATSAction. destruct 1 as [subject mode req timeout Hs Hm Ht Hr|subject forEach filter Hs Hf Hc].
  - answer 0%nat. cbn. answer subject. answer req.
    apply (dictable_bind _ _ timeout); [destruct req; [by apply AskWithDefault_dictable|]; rewrite Hr by done; apply dictable_ret|].
    answer mode. apply dictable_ret.
  - answer 1%nat. cbn. eapply dictable_bind; [by apply forEach_dictable|]. answer subject.
    eapply dictable_bind; [by apply filter_dictable|apply dictable_ret].
Qed.

Lemma http_action_dictable a : built_http_action a → dictable getHTTPAction a.
Proof.
  unfold getHTTPAction. destruct 1 as [url method pr Hu Hm Hmn Hpr|url method pr forEach filter Hu Hm Hmn Hpr Hf Hc].
  - answer 0%nat. answer method. cbn. answer url. eapply dictable_bind; [by apply publish_dictable|apply dictable_ret].
  - answer 1%nat. answer method. cbn. eapply dictable_bind; [by apply forEach_dictable|]. answer url.
    eapply dictable_bind; [by apply publish_dictable|]. eapply dictable_bind; [by apply filter_dictable|apply dictable_ret].
Qed.

Lemma action_dictable a : built_action a → dictable getAction a.
Proof.
  unfold getAction. destruct 1 as [a Ha|a Ha|text status Hp Hz].
  - answer 0%nat. eapply dictable_bind; [by apply nats_action_dictable|apply dictable_ret].
  - answer 1%nat. eapply dictable_bind; [by apply http_action_dictable|apply dictable_ret].
  - answer 2%nat. unfold getRespondAction. eapply dictable_bind; [|apply dictable_ret].
    apply (dictable_bind _ _ text); [apply AskWithDefault_dictable; [done|by intros _ ->]|].
    pose proof Hp as [_ ->]%plain_spec. rewrite Hz. apply dictable_ret.
Qed.

Lemma rule_dictable r : built_rule r → dictable buildSingleRule r.
Proof.
  unfold buildSingleRule. destruct 1 as [name trigger conditions action Hn Ht Hc Ha]. answer name.
  eapply dictable_bind; [by apply trigger_dictable|]. eapply dictable_bind; [by apply filter_dictable|].
  eapply dictable_bind; [by apply action_dictable|apply dictable_ret].
Qed.

Lemma rules_dictable rules : built_rules rules → dictable (with_fuel rules_loop) rules.
Proof.
  intros [Hne Hr]. apply spoken_dictable. induction Hr as [|r rest Hr Hrest IH]; [done|].
  destruct (rule_dictable r Hr) as (l & Hl). destruct rest as [|r2 rest].
  - exists (l ++ ["n"])%list. intros [|f] Hf; [lia|]. cbn [rules_loop]. eapply dictates_bind; [exact Hl|].
    eapply dictates_then; [apply (Confirm_dictated false)|apply dictates_ret].
  - destruct (IH ltac:(done)) as (k & Hk). exists (l ++ "y" :: k)%list. rewrite length_app. cbn [length]. intros [|f] Hf; [lia|].
    cbn [rules_loop]. eapply dictates_bind; [exact Hl|]. eapply dictates_then; [apply (Confirm_dictated true)|]. cbn.
    replace k with (k ++ [])%list by apply app_nil_r. eapply dictates_bind; [apply Hk; lia|apply dictates_ret].
Qed.
End dictating_rules.

(** The text of a file of rules that could be dictated. *)
Definition rule_file `{RuleFile} (text : string) : Prop :=
  ∃ rules yaml, built_rules rules ∧ yaml_Encode rules = Some yaml ∧ text = file_header created_on rules ++ yaml.

Lemma BuildRules_outcome `{PrompterLaws} `{RuleFile} s :
  match (BuildRules s).1 with Ok text => rule_file text | Err e => is_bug e = false end.
Proof.
  unfold BuildRules, mbind, Tty_bind. pose proof (rules_ends (S (stdin_size s)) s ltac:(lia)) as He.
  destruct (with_fuel rules_loop s) as [[rules|e] s']; [|apply He]. destruct He as [Hr _].
  destruct (yaml_Encode rules) as [yaml|] eqn:Hy; [|done]. cbn. by exists rules, yaml.
Qed.

(** ** Properties *)

(** C40: What can be built.  A list of rules is the result of some dialogue at a
    terminal if and only if it has a rule and each of its rules is of the kind
    [built_rule]: one trigger, one action with the fixed payload of its kind,
    conditions with fields in braces, known operators and at most one nested group
    at each level, and texts without white space around them. *)
Theorem dialogues_make_built_rules rules :
  built_rules rules ↔
  ∃ answers s, forallb plain_answer answers = true ∧ with_fuel rules_loop (terminal answers) = (Ok rules, s).
Proof.
  split.
  - intros Hr. destruct (rules_dictable rules Hr) as (l & Hp & Hl).
    destruct (Hl (terminal l) []) as (s & Hs & _); [rewrite app_nil_r; apply at_terminal_start|]. by exists l, s.
  - intros (l & s & _ & Hs). pose proof (rules_ends (S (stdin_size (terminal l))) (terminal l) ltac:(lia)) as He.
    rewrite Hs in He. apply He.
Qed.

(** Every dialogue ends, whatever is typed or piped in: with a file of rules that
    could be dictated, or with an error that is the end of the input, an answer the
    builder refuses, or rules that cannot be written as YAML; no loop runs out of
    turns, no choice is out of range, and no number or boolean is refused after it
    was recognised. *)
Theorem BuildRules_ends `{RuleFile} s :
  match (BuildRules s).1 with Ok text => rule_file text | Err e => is_bug e = false end.
Proof.
  apply BuildRules_outcome.
Qed.

(** ** Findings *)

(** The fix that adds braces to a forEach field skips the check of wildcards, and
    the loader refuses what comes out. *)
Example fix_skips_wildcards :
  (getForEachField (terminal ["items.*"; ""])).1 = Ok "{items.*}" ∧
  validateForEachConfig "{items.*}" None = Err (ForEachWildcard "{items.*}").
Proof. by vm_compute. Qed.

(** The answer to an offered fix is read past the prompter's buffer: typed, a no is
    a no; piped, the fix is taken and the no becomes the next answer. *)
Example piped_answers_go_astray :
  (getConditionField (terminal ["temp"; "n"; "{temp_c}"])).1 = Ok "{temp_c}" ∧
  let piped := getConditionField (MkStdin "" [String.concat "" (map line_of ["temp"; "n"; "{temp_c}"])]) in
  piped.1 = Ok "{temp}" ∧ (Ask piped.2).1 = Ok "n".
Proof. by vm_compute. Qed.
