(* ===== verification/NewRule.v ===== *)
(** * The command that makes a rule file (cmd/rule-cli/cmd/new.go, internal/cli/renderer.go)

    The templates, the path that is written, the confirmation before a file is
    replaced, the check of what was written and the test directory beside it.  The
    theorems say what the command can change on disk, and that every template that
    is listed can be shown and used. *)

From S2P Require Import Prelude GoStrings GoPath GoTime Types Env Demo Loader Tester TestScaffold Prompt RuleBuilder.
Local Open Scope string_scope.

(** ** Templates *)

(** The files of an embedded tree, by their paths, in the order of the walk. *)
Fixpoint embedded (dir : string) (f : fs) : list (string * option string) :=
  match f with
  | FsFile name content => [(dir ++ name, content)]
  | FsDir name entries => concat (map (embedded (dir ++ name ++ "/")) entries)
  end.
Definition embedded_files (templateFS : list fs) : list (string * option string) := concat (map (embedded "") templateFS).

Definition is_template_path (path : string) : bool := HasSuffix path ".yaml" || HasSuffix path ".yml".

Definition ListTemplates (templateFS : list fs) : list string :=
  omap (λ f, if is_template_path f.1 then Some (TrimSuffix f.1 (Ext f.1)) else None) (embedded_files templateFS).

Definition fs_ReadFile (templateFS : list fs) (path : string) : option string :=
  f ← List.find (λ f, String.eqb f.1 path) (embedded_files templateFS); f.2.

Definition TemplateContent (templateFS : list fs) (templateName : string) : option string :=
  match fs_ReadFile templateFS (templateName ++ ".yaml") with
  | Some content => Some content
  | None => fs_ReadFile templateFS (templateName ++ ".yml")
  end.

(** ** The disk *)

(** What stands at each path, as the command names it; links are not followed. *)
Notation Disk := (gmap string fs).

Record NewFlags := MkNewFlags {
  nf_list : bool; nf_show : string; nf_template : string; nf_interactive : bool; nf_with_tests : bool; nf_output : string;
}.

Inductive new_error :=
| TemplateNotFound (name : string) | BuildFailed (e : build_error) | NoFilename (e : build_error)
| FileNotWritten (path : string) | ScaffoldFailed (e : scaffold_error).

(** How the command ends when it does not fail; a file that was written may come
    with a warning. *)
Inductive new_report := Listed (names : list string) | Shown (content : string) | Cancelled | Created (path : string) (warning : option source_error).

Definition normalizeOutputPath (disk : Disk) (path : string) : string :=
  let path := if negb (HasSuffix path ".yaml") && negb (HasSuffix path ".yml") then path ++ ".yaml" else path in
  if String.eqb (Dir path) "." then
    match disk !! "rules" with Some _ => filepath_Join "rules" path | None => path end
  else path.

Definition is_yes (response : string) : bool := String.eqb (ToLower (TrimSpace response)) "y".

Definition file_at (disk : Disk) (path : string) : option string :=
  match disk !! path with Some (FsFile _ content) => content | _ => None end.
Definition is_directory (f : option fs) : bool := match f with Some (FsDir _ _) => true | _ => false end.

Section new.
Context `{LoaderEnv} `{Env} `{Prompter} `{RuleFile} `{ScaffoldCodec}.
Context (templateFS : list fs) (can_write can_mkdir : string → bool) (now : Time).

Inductive write_outcome := Written (disk : Disk) | WriteCancelled | WriteFailed.

Definition writeFileWithConfirm (disk : Disk) (path data : string) : Stdin → write_outcome * Stdin := λ s,
  let '(confirmed, s) :=
    match disk !! path with
    | Some _ => let '(response, s) := Scanln s in (match response with Ok r => is_yes r | Err _ => false end, s)
    | None => (true, s)
    end in
  if negb confirmed then (WriteCancelled, s)
  else if negb (can_write path) || is_directory (disk !! path) then (WriteFailed, s)
  else (Written (<[path := FsFile path (Some data)]> disk), s).

Definition validateRuleFile (disk : Disk) (path : string) (st : St) : option source_error :=
  match (LoadFromFile (NewLoader []) (path, file_at disk path) st).1 with Ok _ => None | Err e => Some e end.

(** The bytes of the new file. *)
Definition new_content (fl : NewFlags) : Stdin → result new_error string * Stdin := λ s,
  if nf_interactive fl || String.eqb (nf_template fl) "" then
    let '(r, s) := BuildRules s in (map_err BuildFailed r, s)
  else (of_option (TemplateNotFound (nf_template fl)) (TemplateContent templateFS (nf_template fl)), s).

Definition new_output (fl : NewFlags) (disk : Disk) : Stdin → result new_error string * Stdin := λ s,
  let '(r, s) := if String.eqb (nf_output fl) "" then AskWithDefault "new-rule.yaml" s else (Ok (nf_output fl), s) in
  (normalizeOutputPath disk <$> map_err NoFilename r, s).

Definition test_directory (path : string) : string := TrimExt path ++ "_test".

(** The test directory of the new file; [Scaffold] asks before it writes into one
    that is there. *)
Definition scaffold_new (disk : Disk) (path : string) : Stdin → result scaffold_error unit * Disk := λ s,
  let dir := disk !! test_directory path in
  let response := match dir with Some _ => match (Scanln s).1 with Ok r => r | Err _ => "" end | None => "" end in
  let '(r, dir') := Scaffold can_mkdir can_write now response false path (file_at disk path) dir in
  (r, match dir' with Some d => <[test_directory path := d]> disk | None => disk end).

Definition runNew (fl : NewFlags) (st : St) (disk : Disk) (s : Stdin) : result new_error new_report * Disk :=
  if nf_list fl then (Ok (Listed (ListTemplates templateFS)), disk)
  else if negb (String.eqb (nf_show fl) "") then
    (Shown <$> of_option (TemplateNotFound (nf_show fl)) (TemplateContent templateFS (nf_show fl)), disk)
  else
    let '(content, s) := new_content fl s in
    match content with
    | Err e => (Err e, disk)
    | Ok ruleBytes =>
        let '(output, s) := new_output fl disk s in
        match output with
        | Err e => (Err e, disk)
        | Ok output =>
            match writeFileWithConfirm disk output ruleBytes s with
            | (WriteCancelled, _) => (Ok Cancelled, disk)
            | (WriteFailed, _) => (Err (FileNotWritten output), disk)
            | (Written disk, s) =>
                let warning := validateRuleFile disk output st in
                let '(scaffoldTests, s) :=
                  if nf_with_tests fl then (true, s)
                  else let '(r, s) := Confirm s in (match r with Ok yes => yes | Err _ => false end, s) in
                if scaffoldTests : bool then
                  let '(r, disk) := scaffold_new disk output s in
                  (match r with Ok _ => Ok (Created output warning) | Err e => Err (ScaffoldFailed e) end, disk)
                else (Ok (Created output warning), disk)
            end
        end
    end.
End new.

(** ** Lemmas *)

(** An extension is empty or starts with the last dot. *)
Lemma Ext_split name : ∃ base, name = base ++ Ext name ∧ (Ext name = "" ∨ ∃ e, Ext name = String "." e).
Proof.
  induction name as [|c t (base & Ht & He)]; [by exists ""; split; [|left]|]. cbn [Ext].
  destruct (String.eqb_spec (Ext t) "") as [Hn|Hn]; cbn [negb].
  - destruct (Ascii.eqb_spec c ".") as [->|Hc]; [exists ""; split; [done|by right; exists t]|].
    exists (String c t). by rewrite app_nil_r_str; split; [|left].
  - exists (String c base). split; [by rewrite append_cons, <- Ht|]. exact He.
Qed.

Lemma TrimExt_split name : name = TrimExt name ++ Ext name.
Proof.
  destruct (Ext_split name) as (base & Hb & _). unfold TrimExt. rewrite Hb at 4. revert Hb. generalize (Ext name). intros e ->.
  rewrite slen_app. replace (slen base + slen e - slen e)%nat with (slen base) by lia. by rewrite stake_app.
Qed.

Lemma append_inj s t u : s ++ t = s ++ u → t = u.
Proof. induction s as [|c s IH]; [done|]. rewrite !append_cons. intros [= Hs]. auto. Qed.

(** A file is not its own test directory. *)
Lemma test_directory_ne path : test_directory path ≠ path.
Proof.
  unfold test_directory. intros Hp. rewrite (TrimExt_split path) in Hp at 2. apply append_inj in Hp.
  destruct (Ext_split path) as (_ & _ & [He|(e & He)]); rewrite He in Hp; done.
Qed.

(** *** Templates *)

Lemma HasSuffix_split s p : HasSuffix s p = true → ∃ t, s = t ++ p.
Proof.
  unfold HasSuffix. rewrite andb_true_iff, String.eqb_eq. intros [_ Hp]. exists (stake (slen s - slen p) s). rewrite <- Hp at 2.
  by rewrite stake_sdrop.
Qed.

(** The extension of a name is the last dot and what follows it. *)
Lemma Ext_app base ext : has_char "." ext = false → Ext (base ++ String "." ext) = String "." ext.
Proof.
  intros He. assert (Ext ext = "") as Hn.
  { induction ext as [|c t IH]; [done|]. cbn [has_char] in He. apply orb_false_iff in He as [Hc Ht]. cbn [Ext].
    by rewrite (IH Ht), Hc. }
  induction base as [|c t IH]; [rewrite append_nil; cbn [Ext]; by rewrite Hn|]. rewrite append_cons. cbn [Ext]. by rewrite IH.
Qed.

Lemma TrimSuffix_app s p : TrimSuffix (s ++ p) p = s.
Proof.
  unfold TrimSuffix. rewrite HasSuffix_app, slen_app. replace (slen s + slen p - slen p)%nat with (slen s) by lia. apply stake_app.
Qed.

Lemma template_path path : is_template_path path = true →
  ∃ name, TrimSuffix path (Ext path) = name ∧ (path = name ++ ".yaml" ∨ path = name ++ ".yml").
Proof.
  unfold is_template_path. rewrite orb_true_iff. intros [(t & ->)%HasSuffix_split|(t & ->)%HasSuffix_split]; exists t.
  - rewrite (Ext_app t "yaml"), (TrimSuffix_app t ".yaml") by done. auto.
  - rewrite (Ext_app t "yml"), (TrimSuffix_app t ".yml") by done. auto.
Qed.

Lemma read_embedded templateFS path :
  (∀ f, f ∈ embedded_files templateFS → f.2 ≠ None) → path ∈ map fst (embedded_files templateFS) →
  ∃ content, fs_ReadFile templateFS path = Some content.
Proof.
  unfold fs_ReadFile. intros Hall (f & -> & Hf)%list_elem_of_fmap.
  destruct (List.find _ _) as [g|] eqn:E; cbn.
  - apply List.find_some in E as [Hg%list_elem_of_In _]. apply Hall in Hg. destruct g.2; [by eexists|done].
  - pose proof (List.find_none _ _ E f ltac:(by apply list_elem_of_In)) as Hn. cbn in Hn. by rewrite String.eqb_refl in Hn.
Qed.

(** *** What a scaffold leaves *)

Section proofs.
Context `{LoaderEnv} `{Env} `{PrompterLaws} `{RuleFile} `{ScaffoldCodec}.
Context (templateFS : list fs) (can_write can_mkdir : string → bool) (now : Time).

(** A text that may be written: a template, or a file that was dictated. *)
Definition new_text (fl : NewFlags) (data : string) : Prop :=
  TemplateContent templateFS (nf_template fl) = Some data ∨ rule_file data.

Lemma new_content_text fl s data s' : new_content templateFS fl s = (Ok data, s') → new_text fl data.
Proof.
  unfold new_content, new_text. destruct (nf_interactive fl || _).
  - pose proof (BuildRules_outcome s) as Hb. destruct (BuildRules s) as [[text|e] s2]; cbn in *; [|done]. intros [= <- _]. by right.
  - destruct (TemplateContent templateFS (nf_template fl)) as [text|] eqn:Ht; [|done]. intros [= <- _]. by left.
Qed.

(** What stood at a path may be replaced if it is nothing or a yes is scanned. *)
Definition may_replace (disk : Disk) (path : string) : Prop :=
  disk !! path = None ∨ ∃ s response s', Scanln s = (Ok response, s') ∧ is_yes response = true.

Lemma write_outcomes disk path data s disk' s' :
  writeFileWithConfirm can_write disk path data s = (Written disk', s') →
  disk' = <[path := FsFile path (Some data)]> disk ∧ may_replace disk path.
Proof.
  unfold writeFileWithConfirm, may_replace. destruct (disk !! path) as [f|] eqn:Hf.
  - destruct (Scanln s) as [[response|e] s1] eqn:Hs; cbn [negb]; [|done]. destruct (is_yes response) eqn:Hy; cbn [negb]; [|done].
    destruct (negb (can_write path) || _); [done|]. intros [= <- _]. split; [done|]. right. by exists s, response, s1.
  - cbn [negb]. destruct (negb (can_write path) || _); [done|]. intros [= <- _]. by split; [|left].
Qed.

Lemma scaffold_new_elsewhere disk path s p :
  p ≠ test_directory path → (scaffold_new can_write can_mkdir now disk path s).2 !! p = disk !! p.
Proof.
  intros Hp. unfold scaffold_new. destruct (Scaffold _ _ _ _ _ _ _ _) as [r [d|]]; cbn [snd]; [|done]. by rewrite lookup_insert_ne.
Qed.

Definition reported (r : result new_error new_report) (path : string) (warning : option source_error) : Prop :=
  r = Ok (Created path warning) ∨ ∃ e, r = Err (ScaffoldFailed e).

Lemma runNew_outcome fl st disk s :
  let '(r, disk') := runNew templateFS can_write can_mkdir now fl st disk s in
  disk' = disk ∧ (∀ path w, r ≠ Ok (Created path w)) ∨
  ∃ path data, new_text fl data ∧ may_replace disk path ∧ disk' !! path = Some (FsFile path (Some data)) ∧
    (∀ p, p ≠ path → p ≠ test_directory path → disk' !! p = disk !! p) ∧
    reported r path (match (ParseAndValidateYAML (NewLoader []) data st).1 with Ok _ => None | Err e => Some e end).
Proof.
  unfold runNew. destruct (nf_list fl); [by left|].
  destruct (negb (String.eqb (nf_show fl) "")); [left; by destruct (of_option _ _)|].
  destruct (new_content templateFS fl s) as [[data|e] s1] eqn:Hc; [|by left]. apply new_content_text in Hc.
  destruct (new_output fl disk s1) as [[path|e] s2]; [|by left].
  destruct (writeFileWithConfirm can_write disk path data s2) as [[disk1| |] s3] eqn:Hw; [|by left..].
  apply write_outcomes in Hw as [-> Hm].
  assert (validateRuleFile (<[path := FsFile path (Some data)]> disk) path st =
    match (ParseAndValidateYAML (NewLoader []) data st).1 with Ok _ => None | Err e => Some e end) as ->.
  { unfold validateRuleFile, file_at, LoadFromFile. by rewrite lookup_insert_eq. }
  destruct (if nf_with_tests fl then (true, s3) else _) as [scaffold s4].
  destruct scaffold.
  - pose proof (scaffold_new_elsewhere (<[path := FsFile path (Some data)]> disk) path s4) as He.
    destruct (scaffold_new _ _ _ _ _ _) as [r disk2]. cbn [snd] in He. right. exists path, data. split_and!; try done.
    + rewrite He by by apply not_eq_sym, test_directory_ne. by rewrite lookup_insert_eq.
    + intros p Hp Ht. rewrite He by done. by rewrite lookup_insert_ne.
    + destruct r as [|e]; [by left|right; by exists e].
  - right. exists path, data. split_and!; try done; [by rewrite lookup_insert_eq|intros p Hp _; by rewrite lookup_insert_ne|by left].
Qed.
End proofs.

(** ** Properties *)

(** What [new] does to the disk, at a terminal or from a pipe.  Either nothing,
    and it reports no file; or it writes one file, whose text is the template that
    was named or a file of rules that could be dictated, where nothing stood or a
    yes was read, and at most that file's test directory beside it.  The warning it
    reports is the loader's verdict on the text. *)
Theorem runNew_writes_one_file `{LoaderEnv} `{Env} `{RuleFile} `{ScaffoldCodec} templateFS can_write can_mkdir now fl st disk s :
  let '(r, disk') := runNew templateFS can_write can_mkdir now fl st disk s in
  disk' = disk ∧ (∀ path w, r ≠ Ok (Created path w)) ∨
  ∃ path data, new_text templateFS fl data ∧ may_replace disk path ∧ disk' !! path = Some (FsFile path (Some data)) ∧
    (∀ p, p ≠ path → p ≠ test_directory path → disk' !! p = disk !! p) ∧
    reported r path (match (ParseAndValidateYAML (NewLoader []) data st).1 with Ok _ => None | Err e => Some e end).
Proof. apply runNew_outcome. Qed.

(** Every template that is listed can be shown, when the embedded files can be read. *)
Theorem listed_templates_exist templateFS name :
  (∀ f, f ∈ embedded_files templateFS → f.2 ≠ None) → name ∈ ListTemplates templateFS →
  ∃ content, TemplateContent templateFS name = Some content.
Proof.
  intros Hall (f & Hf & Hn)%list_elem_of_omap. destruct (is_template_path f.1) eqn:Ht; [|done]. injection Hn as Hn.
  destruct (template_path _ Ht) as (n & Hn' & Hpath). rewrite Hn in Hn'. subst n. unfold TemplateContent.
  destruct (fs_ReadFile templateFS (name ++ ".yaml")) as [content|] eqn:Hy; [by exists content|].
  assert (f.1 ∈ map fst (embedded_files templateFS)) as Hin by by apply list_elem_of_fmap_2.
  destruct (read_embedded _ _ Hall Hin) as (content & Hc). destruct Hpath as [Hp|Hp]; rewrite Hp in Hc; [congruence|by exists content].
Qed.
